(* ===== verification/_CoqProject ===== *)
-Q . S2P
Prelude.v
CLib.v
Effects.v
CacheSpec.v
CacheStore.v
CacheProto.v
CacheServer.v
CacheRefine.v
CacheLine.v
CacheSession.v
CacheThread.v
CacheArgs.v
CacheMain.v
CacheConcurrent.v
CacheServerProof.v
CachePace.v
CacheLinear.v
CacheExec.v
CacheDrive.v
CacheProgress.v
GoLib.v
PyLib.v
CacheClient.v
CacheEndToEnd.v
CacheTheorems.v
DnsServer.v
DnsClient.v
DnsMain.v
DnsTheorems.v
HttpServer.v
HttpExec.v
HttpRequest.v
HttpClient.v
HttpUrl.v
HttpCache.v
HttpEndToEnd.v
HttpTheorems.v
BalancerPool.v
Registration.v
HttpServe.v
Balancer.v
BalancerSafety.v
BalancerExec.v
GoProcess.v
BalancerMain.v
BalancerTheorems.v
Runtime.v
RuntimeMonitor.v
RuntimeSafety.v
RuntimeLauncher.v
RuntimeExec.v
RuntimeDrive.v
RuntimeSystem.v
RuntimeSystemDrive.v
RuntimeTheorems.v
Proxy.v
ProxyExec.v
FrontEnd.v
ProxyMain.v
ProxyTheorems.v
StackTheorems.v
