(* ===== verification/Prelude.v ===== *)
(** * infra-from-scratch: a verification library

    infra-from-scratch is a set of small network programs.  Two are written in C
    and are modelled whole: the key-value cache (src/in-mem-cache/server.c) and the
    container runtime (src/container-runtime/runtime.c).  With them are modelled
    the Python HTTP server and its application, the HTTP client with its DNS
    resolver, and the client of the cache (src/http-server/server.py,
    application.py, client.py, cache_client.py), the Go DNS server
    (src/dns-server/server.go), the Go load balancer
    (src/load-balancer/server.go), and the Go reverse proxy
    (src/reverse-proxy/server.go).

    ** How the parts interact

    The cache is one process.  [main] reads the command line, listens, and gives
    every connection a thread, up to 32.  A thread receives bytes, cuts them into
    lines, executes each line as a command on one shared array under
    [store_mutex], and sends one reply per line.  [CacheClient] opens a connection,
    sends one line and reads one.

    The runtime is two programs in one.  The launcher ([main]) opens the root
    directory, clones an init into new user, mount and PID namespaces, writes its
    user maps, tells it to go on over a pipe, and supervises it.  The init
    ([run_container]) waits for that, enters the root, drops its capabilities,
    forks the command and supervises it ([supervise] is shared).

    The load balancer keeps a pool of backends under a mutex; a registry handler
    adds and removes them, and every client connection takes a snapshot, tries the
    backends in rotation and marks those that fail.  The reverse proxy forwards the
    request of every connection to one backend.

    The HTTP server reads one request per connection, answers it from a table of
    routes, and for /hello asks the cache first; a second thread renews its
    registration with the load balancer, until it is told to stop.  The HTTP client parses a URL, asks
    a DNS server for its host, sends one request and reads the response until the
    server closes.

    ** The models

    A C function without calls is a function of byte lists, [None] when the C is
    undefined; a function that calls the system or touches shared memory is an
    interaction tree over the calls it makes, one event per call, in the order of
    the source.  A loop is [ITree.iter] of its body or a fixpoint on what it
    scans, so the cache and the runtime need no fuel.  A Python function without
    calls returns a value or raises ([PyLib]); one with calls is an interaction tree
    of such results.  The loops of the Python client that advance over bytes have
    fuel: one more than there are bytes, and each turn takes a byte
    ([parse_dns_address_raises], [read_headers_fuel]).

    - [Prelude]: notations, bytes, lists, finite sums, labelled traces.
    - [CLib]: C memory and the library functions both programs call (strlen,
      strchr, strncmp, memcpy, memchr, strtol, snprintf, ...).
    - [Effects]: statements as interaction trees; a weakest-precondition calculus
      whose rules for events come from the class [EventSpec]; its adequacy for
      runs; executions in an environment ([evals]).

    The cache:
    - [CacheSpec]: the contract, a finite map with expiry times ([spec_step]).
    - [CacheStore]: struct entry, the array, lookup, free_slot and each statement
      of the critical sections; the invariant [store_wf].
    - [CacheProto]: valid_key, parse_ttl; the grammar of the lines, its parser and
      printer.
    - [CacheServer]: every other function of server.c: now_ms, send_all,
      send_reply, handle_line (by branch: [handle_get], [handle_delete],
      [handle_set] and their critical sections), handle_client, client_thread,
      the client slots, usage, the command line, main.
    - [CacheRefine], [CacheLine]: the critical sections and handle_line implement
      the contract.
    - [CacheSession]: the abstract server: a map, a clock, a session per client.
    - [CacheThread], [CacheMain], [CacheArgs]: one thread at a time, in an
      arbitrary environment, by ownership: a shared variable only under its mutex,
      a reply only when it is due.
    - [CacheConcurrent], [CacheServerProof]: the step relation of all threads and
      the simulation by the abstract server.
    - [CacheLinear]: linearizability of the abstract server.
    - [CachePace], [CacheProgress]: how many steps a thread can take before it
      releases its mutex ([SECTION_STEPS]) or calls the network; progress of the
      whole server.
    - [CacheExec], [CacheDrive]: executions of one client thread, and a scheduler
      for whole sessions, which compute.
    - [PyLib]: what the Python programs use of the language.
    - [CacheClient], [CacheEndToEnd]: the Python client, and it against the server.
    - [CacheTheorems]: the properties.

    The runtime:
    - [Runtime]: every function of runtime.c.
    - [RuntimeMonitor]: what is known after each successful call and which calls
      are in order ([in_order]): the security argument of the program, as a
      monitor.
    - [RuntimeSafety], [RuntimeLauncher]: the init and the launcher keep the rules.
    - [RuntimeExec], [RuntimeDrive]: executions of the loops and of whole runs.
    - [RuntimeSystem], [RuntimeSystemDrive]: launcher, init and command together,
      interleaved, with the startup pipe and the statuses of waitpid.
    - [RuntimeTheorems]: the properties.

    The Go programs:
    - [GoLib]: what they use of bytes, strings, strconv and net.
    - [DnsServer]: makeResponse and its helpers, and the relation [replies] of what
      a DNS server for one name answers.  The loop over labels has as fuel one more
      than the length of the query, and advances at each step
      ([skip_name_total]).
    - [DnsClient]: the resolver of client.py, alone and against that server.
    - [DnsMain]: main, and a monitor of it.
    - [DnsTheorems]: the properties.
    - [BalancerPool]: the pool with its shared objects, its methods, the registry
      handler, and the table of leases they implement.
    - [Balancer]: readRequest, hasUnsupportedBody, relay, handleConnection, as
      interaction trees.
    - [BalancerSafety]: a monitor of one connection in an arbitrary environment.
    - [BalancerExec]: executions of one connection, which terminate.
    - [Registration]: the thread of server.py that renews the registration, and the
      registry it speaks to.
    - [HttpServe]: serve of server.py and that thread, interleaved.
    - [GoProcess]: what main and serve of the load balancer and of the proxy call,
      and their accept loop.
    - [BalancerMain]: main and serve of the load balancer; the whole process, with
      the registry and the goroutines of the clients, interleaved on one pool.
    - [BalancerTheorems]: the properties.
    - [Proxy], [ProxyExec]: the connections of the reverse proxy, and their
      executions.
    - [ProxyMain]: main and serve of the proxy.
    - [FrontEnd]: the proxy and the load balancer before the HTTP server, as
      relations between the bytes sent and received on a connection.
    - [ProxyTheorems]: the properties of the proxy.
    - [StackTheorems]: a URL fetched through all of it.

    HTTP:
    - [HttpServer]: handle_connection and all it calls, and application.py.
    - [HttpExec]: its executions, with the client's side of the connection as a
      script and any cache object; one response per connection ([answer]).
    - [HttpRequest]: the grammar of requests, and that chunks do not matter.
    - [HttpClient], [HttpUrl]: reading a response; the class URL.
    - [HttpCache]: what the server needs of its cache, as a class ([HonestCache]),
      and its instance: CacheClient on a network that loses calls, against the
      contract of the cache, shared with other clients.
    - [HttpEndToEnd]: client and server, then resolver, DNS server, HTTP server and
      cache.
    - [HttpTheorems]: the properties.

    ** What the theorems show

    Of the whole cache, for every scheduling and every behaviour of the sockets:
    it refines the abstract server and is linearizable; no data race, no undefined
    statement, no misuse of mutexes, descriptors or heap cells; the client limit
    and the bounds on descriptors and counters.  Of one client thread: it
    terminates with the replies of the reference, however its input is cut as long
    as it does not exceed LINE_MAX, and depending on the cut above that.  Of the
    functions: what lookup, free_slot, the
    three commands, valid_key, parse_ttl and the command line do on every input.
    Of the client with the server: what is set is what is got.  Of the server's
    progress: a mutex that is held is released after a few steps of its holder, and
    some thread can step unless all wait for the network.

    Of the runtime, whatever the kernel answers: the init does nothing before the
    go-ahead, pivots only into the directory that was opened, and the command runs
    only in full confinement; the launcher writes its maps in order and clones only
    as an ordinary user; statuses and signals are passed on.  Of the three
    processes together: the command that runs is confined and is the one asked
    for, and its status is what the launcher returns.

    Of the DNS server: what it answers to every datagram; it never panics and never
    answers a response; main answers each datagram once, to its sender, before it
    reads the next.

    Of the load balancer: the registry answers as a table of leases in every
    history of calls; a backend whose last mark is a failure rests for a second; a
    connection keeps its rules whatever the others do, and the client gets the response
    of the first backend that responds; a client that is gone makes a connection mark
    every backend.  Of the whole process, however its goroutines interleave:
    every connection keeps these rules and none panics.  A server that renews its
    registration within the lease is in every listing; when it stops, the registry
    is sent one DELETE after the last PUT, however its threads interleave.

    Of the HTTP programs: a connection is sent exactly one response, whatever comes
    and whatever the cache does; the requests that are accepted are those of a
    grammar; the cache cannot be noticed while nobody else stores another value under
    the server's key; the client reads every response of the
    server, makes only well-formed URLs, and is not broken by what the network sends.
    Of the reverse proxy: what a connection is sent, whatever fails and however much
    of a failed write arrives, and that the
    client cannot tell it from the server behind it.  Of all of them: the URL of a
    path at app.local is fetched through the DNS server and any chain of proxies and
    load balancers, with the response of the application.

    ** What is assumed

    Only documented behaviour of what is not in the repository, as hypotheses or as
    conditions of the step relations: CLOCK_MONOTONIC is normalised, monotonic and
    below 290 million years ([clock_ok]); recv returns at most what was asked for,
    send accepts at most what was given; new descriptors and cells are not in use;
    mutexes exclude; of the kernel of the runtime, [answer_ok]: capabilities are
    below 64, ids have 32 bits, new descriptors are new, fork and clone return
    process ids; of the Go library, that a method of the pool is atomic under its
    mutex and that there were fewer than 2^63 requests.  The table of leases is that of
    a pool whose configured addresses differ, which main does not check; with a
    registry it configures none, and what is shown of the process and of one connection
    does not need it.  Machine
    integers are as on 64-bit Linux; a signed overflow is undefined, size_t wraps.

    ** What is not modelled

    - Memory is sequentially consistent and threads interleave at calls; between
      two calls a thread touches only its own objects, and the shared ones only
      under their mutex, which [server_safe] shows.
    - What the kernel enforces (namespaces, capabilities, mounts, the parent death
      signal, the reparenting of orphans to the init) is not modelled; the theorems
      say which calls were made, in which order, and succeeded.
    - Messages printed for a user are events without a meaning.
    - The sockets of the Python clients are functions from what is sent to what is
      received; timeouts are their errors.
    - container-runtime/tests/probe.c prints what it sees in a container: pure
      output.
    - The Go package flag and argparse: main begins with the values of the flags,
      serve of the HTTP server with its arguments.
    - An exception that is raised in [serve] of the HTTP server between two calls, or
      while it waits for its thread: interrupts arrive in a call.  A request to the
      registry that timed out has ended for the thread that made it; when the
      registry handles it is not known.
    - Of the text of exceptions only what the source writes is kept; of Unicode, what
      [int] makes of characters outside ASCII is a parameter.
    - A write of the Go programs returns how much was written and whether it failed,
      and the executions let the client receive that part; when the bytes of a
      successful write arrive is the network's.
    - The executions of [BalancerExec], [HttpExec] and [ProxyExec] have one
      connection, those of the load balancer a clock that stands still; the safety
      of [BalancerSafety] and the histories of [BalancerPool] have
      neither restriction. *)

From stdpp Require Export base numbers list gmap fin_maps strings.
From Stdlib Require Export ZArith Lia.
From Corelib Require Export Init.Byte.
From Stdlib Require Strings.Byte.


(** ** Undefined behaviour

    A C expression or statement that can have undefined behaviour is a value of
    [ub A]: [Some a] when it is defined, [None] when it is not (an access out of
    the bounds of an object, a read of an indeterminate byte, a signed
    overflow). *)

Abbreviation ub := option.

Declare Scope ub_scope.
Delimit Scope ub_scope with ub.

Notation "'let?' x := o 'in' k" :=
  (match o with Some x => k | None => None end)
  (at level 10, x name, o at level 100, k at level 200,
   format "'[v' 'let?'  x  :=  o  'in' '/' k ']'") : ub_scope.
Notation "'let?' ' p := o 'in' k" :=
  (match o with Some p => k | None => None end)
  (at level 10, p pattern, o at level 100, k at level 200,
   format "'[v' 'let?'  ' p  :=  o  'in' '/' k ']'") : ub_scope.

(** [assert_ub b k] is [k] when the condition [b] holds, undefined otherwise. *)
Definition assert_ub {A} (b : bool) (k : ub A) : ub A := if b then k else None.

(** ** Bytes *)

Abbreviation byte := Init.Byte.byte.

#[export] Instance byte_eq_decision : EqDecision byte := Byte.byte_eq_dec.

#[export] Instance byte_countable : Countable byte.
Proof.
  refine (inj_countable Byte.to_N Byte.of_N _).
  intros b. apply Byte.of_to_N.
Defined.

(** The value of a byte as an [unsigned char]. *)
Definition uchar (b : byte) : Z := Z.of_N (Byte.to_N b).

Lemma uchar_range b : (0 <= uchar b < 256)%Z.
Proof.
  unfold uchar. pose proof (Byte.to_N_bounded b). lia.
Qed.

Lemma uchar_inj b1 b2 : uchar b1 = uchar b2 -> b1 = b2.
Proof.
  unfold uchar. intros H%N2Z.inj.
  assert (Some b1 = Some b2) as [= ->]; [|done].
  rewrite <-!(Byte.of_to_N). by rewrite H.
Qed.

(** A character given by its code; codes outside the range of a byte do not
    occur in the development. *)
Definition chr (z : Z) : byte := default x00 (Byte.of_N (Z.to_N z)).

Lemma uchar_chr z : (0 <= z < 256)%Z -> uchar (chr z) = z.
Proof.
  intros H. unfold uchar, chr.
  destruct (Byte.of_N (Z.to_N z)) as [b|] eqn:E.
  - simpl. apply Byte.to_of_N in E. lia.
  - apply Byte.of_N_None_iff in E. lia.
Qed.

Abbreviation NUL := x00.
Abbreviation TAB := x09.
Abbreviation LF := x0a.
Abbreviation CR := x0d.
Abbreviation SPACE := x20.
Abbreviation PERCENT := x25.

(** String literals, with the escape sequences the sources use. *)
Fixpoint unescape (s : list byte) : list byte :=
  match s with
  | x5c :: x6e :: r => LF :: unescape r
  | x5c :: x72 :: r => CR :: unescape r
  | x5c :: x30 :: r => NUL :: unescape r
  | c :: r => c :: unescape r
  | [] => []
  end.

Definition lit (s : string) : list byte := unescape (String.list_byte_of_string s).
Arguments lit s%_string.

(** ** Cutting text *)

(** The text before and after the first [c]. *)
Fixpoint cut_at (c : byte) (s : list byte) : option (list byte * list byte) :=
  match s with
  | [] => None
  | b :: r =>
      if decide (b = c) then Some ([], r)
      else match cut_at c r with Some (x, y) => Some (b :: x, y) | None => None end
  end.

Fixpoint strip_prefix (p s : list byte) : option (list byte) :=
  match p, s with
  | [], _ => Some s
  | a :: p', b :: s' => if decide (a = b) then strip_prefix p' s' else None
  | _, _ => None
  end.

Lemma cut_at_Some c s a b : cut_at c s = Some (a, b) <-> s = a ++ c :: b /\ c ∉ a.
Proof.
  revert a. induction s as [|x s IH]; intros a; simpl.
  - split; [done|]. intros [H _]. by destruct a.
  - case_decide as Hc.
    + subst x. split.
      * intros [= <- <-]. split; [done|apply not_elem_of_nil].
      * intros [E Ha]. destruct a as [|z a]; simplify_eq/=; [done|].
        rewrite not_elem_of_cons in Ha. naive_solver.
    + destruct (cut_at c s) as [[y z]|] eqn:Hs.
      * split.
        -- intros [= <- <-]. destruct (proj1 (IH y)) as [-> Hx]; [done|].
           split; [done|]. rewrite not_elem_of_cons. naive_solver.
        -- intros [E Ha]. destruct a as [|w a]; simplify_eq/=.
           rewrite not_elem_of_cons in Ha. destruct Ha as [_ Ha].
           assert (Some (y, z) = Some (a, b)) as [= -> ->] by by apply IH. done.
      * split; [done|]. intros [E Ha]. destruct a as [|w a]; simplify_eq/=.
        rewrite not_elem_of_cons in Ha. destruct Ha as [_ Ha].
        by assert (None = Some (a, b)) by by apply IH.
Qed.

Lemma cut_at_None c s : cut_at c s = None <-> c ∉ s.
Proof.
  induction s as [|x s IH]; simpl; [split; [intros _; apply not_elem_of_nil|done]|].
  rewrite not_elem_of_cons. case_decide as Hc; [naive_solver|].
  destruct (cut_at c s) as [[y z]|]; naive_solver.
Qed.

Lemma strip_prefix_Some p s r : strip_prefix p s = Some r <-> s = p ++ r.
Proof.
  revert s. induction p as [|a p IH]; intros s; simpl; [naive_solver|].
  destruct s as [|b s]; [naive_solver|]. case_decide; [subst; rewrite IH|]; naive_solver.
Qed.

(** ** Lists and integers *)

Abbreviation zlen l := (Z.of_nat (length l)).

Lemma omap_cons {A B} (f : A -> option B) x l :
  omap f (x :: l) = match f x with Some y => y :: omap f l | None => omap f l end.
Proof. done. Qed.

(** [omap] keeps the length exactly when it drops nothing. *)
Lemma length_omap_le {A B} (f : A -> option B) l : length (omap f l) <= length l.
Proof.
  induction l as [|x l IH]; [done|]. rewrite omap_cons. destruct (f x); simpl; lia.
Qed.

Lemma length_omap_all {A B} (f : A -> option B) l :
  (forall i x, l !! i = Some x -> is_Some (f x)) -> length (omap f l) = length l.
Proof.
  induction l as [|x l IH]; intros H; [done|]. rewrite omap_cons.
  destruct (H 0 x eq_refl) as [y ->]. simpl. f_equal. apply IH. intros i z Hz.
  apply (H (S i) z Hz).
Qed.

Lemma length_omap_lt {A B} (f : A -> option B) l i x :
  l !! i = Some x -> f x = None -> length (omap f l) < length l.
Proof.
  revert i. induction l as [|y l IH]; intros [|i] Hi Hx; simplify_eq/=.
  - rewrite Hx. pose proof (length_omap_le f l). simpl in *. unfold omap in *. lia.
  - specialize (IH _ Hi Hx). unfold omap in *. destruct (f y); simpl; lia.
Qed.

(** ** Labelled runs *)

(** The runs of a step relation; a step without label is internal. *)
Inductive ltrace {S L} (step : S -> option L -> S -> Prop) : S -> list L -> S -> Prop :=
| ltrace_nil s : ltrace step s [] s
| ltrace_cons s l s' ls s'' :
    step s l s' -> ltrace step s' ls s'' -> ltrace step s (option_list l ++ ls) s''.

Lemma ltrace_app {S L} (step : S -> option L -> S -> Prop) s1 ls s2 ls' s3 :
  ltrace step s1 ls s2 -> ltrace step s2 ls' s3 -> ltrace step s1 (ls ++ ls') s3.
Proof.
  induction 1; intros H3; [done|]. rewrite <-app_assoc. eapply ltrace_cons; eauto.
Qed.

Lemma ltrace_one {S L} (step : S -> option L -> S -> Prop) s l s' :
  step s l s' -> ltrace step s (option_list l) s'.
Proof. intros H. rewrite <-(app_nil_r (option_list l)). econstructor; [done|constructor]. Qed.

Lemma ltrace_snoc {S L} (step : S -> option L -> S -> Prop) s1 ls s2 l s3 :
  ltrace step s1 ls s2 -> step s2 l s3 -> ltrace step s1 (ls ++ option_list l) s3.
Proof. intros H1 H2. eapply ltrace_app; [done|by apply ltrace_one]. Qed.

(** Forward simulation. *)
Lemma ltrace_simulation {S A L} (step : S -> option L -> S -> Prop)
    (astep : A -> option L -> A -> Prop) (R : S -> A -> Prop) :
  (forall s l s' a, R s a -> step s l s' -> exists a', R s' a' /\ ltrace astep a (option_list l) a') ->
  forall s ls s' a, ltrace step s ls s' -> R s a -> exists a', R s' a' /\ ltrace astep a ls a'.
Proof.
  intros Hsim s ls s' a H. revert a.
  induction H as [s|s l s' ls s'' Hs _ IH]; intros a Ha; [exists a; by repeat constructor|].
  destruct (Hsim _ _ _ _ Ha Hs) as (a1 & H1 & Ht1). destruct (IH _ H1) as (a2 & H2 & Ht2).
  exists a2. split; [done|]. by eapply ltrace_app.
Qed.

(** ** Sums over maps *)

Definition map_sum {A} (f : A -> Z) (m : gmap nat A) : Z :=
  map_fold (fun _ x acc => (f x + acc)%Z) 0%Z m.

Lemma map_sum_insert_new {A} (f : A -> Z) m i x :
  m !! i = None -> map_sum f (<[i := x]> m) = (f x + map_sum f m)%Z.
Proof. intros H. unfold map_sum. rewrite map_fold_insert_L; [done|lia|done]. Qed.

Lemma map_sum_insert {A} (f : A -> Z) m i x y :
  m !! i = Some x -> map_sum f (<[i := y]> m) = (map_sum f m - f x + f y)%Z.
Proof.
  intros H. rewrite <-(insert_delete_id m i x H) at 2. rewrite <-insert_delete_eq.
  rewrite !map_sum_insert_new by apply lookup_delete_eq. lia.
Qed.

Lemma map_sum_lookup {A} (f : A -> Z) m i x :
  (forall j y, m !! j = Some y -> 0 <= f y)%Z -> m !! i = Some x -> (f x <= map_sum f m)%Z.
Proof.
  revert i. induction m as [|j y m Hj IH] using map_ind; intros i Hf Hi; [done|].
  rewrite map_sum_insert_new by done.
  assert (Hm : forall k z, m !! k = Some z -> (0 <= f z)%Z).
  { intros k z Hk. apply (Hf k). by rewrite lookup_insert_ne by congruence. }
  apply lookup_insert_Some in Hi as [[-> ->]|[_ Hi]].
  - assert (0 <= map_sum f m)%Z; [|lia]. clear -Hm. induction m as [|k z m Hk IH] using map_ind; [done|].
    rewrite map_sum_insert_new by done. assert (0 <= f z)%Z by by eapply (Hm k), lookup_insert_eq.
    assert (0 <= map_sum f m)%Z; [|lia]. apply IH. intros k' z' Hk'. apply (Hm k').
    by rewrite lookup_insert_ne by congruence.
  - specialize (IH _ Hm Hi). assert (0 <= f y)%Z by by eapply (Hf j), lookup_insert_eq. lia.
Qed.

Lemma map_sum_le {A} (f g : A -> Z) m :
  (forall i x, m !! i = Some x -> f x <= g x)%Z -> (map_sum f m <= map_sum g m)%Z.
Proof.
  induction m as [|i x m Hi IH] using map_ind; intros H; [done|].
  rewrite !map_sum_insert_new by done. apply Z.add_le_mono.
  - eapply H, lookup_insert_eq.
  - apply IH. intros j y Hj. apply (H j). by rewrite lookup_insert_ne by congruence.
Qed.

Lemma size_list_to_set_le (l : list Z) : size (list_to_set l : gset Z) <= length l.
Proof.
  induction l as [|x l IH]; [done|]. simpl. rewrite size_union_alt, size_singleton.
  assert (H : (list_to_set l : gset Z) ∖ {[x]} ⊆ list_to_set l) by set_solver.
  apply subseteq_size in H. lia.
Qed.

(** A filtered map is no larger than a sum that counts its elements. *)
Lemma map_sum_size {A B} (f : A -> Z) (g : A -> option B) m :
  (forall i x, m !! i = Some x -> 0 <= f x /\ (g x <> None -> 1 <= f x))%Z ->
  (Z.of_nat (size (omap g m)) <= map_sum f m)%Z.
Proof.
  induction m as [|i x m Hi IH] using map_ind; intros Hf; [done|].
  assert (Hm : (Z.of_nat (size (omap g m)) <= map_sum f m)%Z).
  { apply IH. intros k z Hk. apply (Hf k). by rewrite lookup_insert_ne by congruence. }
  rewrite map_sum_insert_new by done. destruct (Hf i x (lookup_insert_eq _ _ _)) as [H0 H1].
  assert (Ho : omap g m !! i = None) by by rewrite lookup_omap, Hi.
  destruct (g x) as [b|] eqn:Hg.
  - rewrite (omap_insert_Some _ _ _ _ b), map_size_insert_None by done.
    assert (1 <= f x)%Z by by apply H1. lia.
  - rewrite omap_insert_None by done. rewrite delete_id by done. lia.
Qed.

(** ** Tactics *)

(** Destruct the conjunctions and existentials of the hypotheses. *)
Ltac unpack :=
  repeat match goal with
    | H : _ /\ _ |- _ => destruct H
    | H : exists _, _ |- _ => destruct H
    end.

(** Case analysis on the Boolean comparison in the goal. *)
Ltac bool_case :=
  match goal with
  | |- context [Z.eqb ?a ?b] => destruct (Z.eqb_spec a b)
  | |- context [Z.ltb ?a ?b] => destruct (Z.ltb_spec a b)
  | |- context [Z.leb ?a ?b] => destruct (Z.leb_spec a b)
  end.

(** Rewrite the Boolean comparisons [lia] decides. *)
Ltac bool_lia :=
  repeat match goal with
    | |- context [Z.eqb ?a ?b] =>
        first [ rewrite (proj2 (Z.eqb_eq a b)) by lia
              | rewrite (proj2 (Z.eqb_neq a b)) by lia ]
    | |- context [Z.ltb ?a ?b] =>
        first [ rewrite (proj2 (Z.ltb_lt a b)) by lia
              | rewrite (proj2 (Z.ltb_ge a b)) by lia ]
    | |- context [Z.leb ?a ?b] =>
        first [ rewrite (proj2 (Z.leb_le a b)) by lia
              | rewrite (proj2 (Z.leb_gt a b)) by lia ]
    end.

Create HintDb cmodel.
