(* ===== verification/CLib.v ===== *)
(** * C memory, integers and library functions

    The part of the C language and of its standard library that both programs
    use.  An object of character type is the list of its bytes, each [Some b] or
    indeterminate ([None], an automatic array that was not written yet).  A
    pointer to character that is only read is the list of the bytes from the
    pointer to the end of its object, so [p + k] is [drop k p] and every function
    below is undefined when it would run past that end or read an indeterminate
    byte.  Writes name the object and an offset. *)

From S2P Require Import Prelude.
Local Open Scope Z_scope.
Local Open Scope ub_scope.

(** ** Integers *)

Definition INT_MAX : Z := 2147483647.
Definition LONG_MIN : Z := - 9223372036854775808.
Definition LONG_MAX : Z := 9223372036854775807.
Definition LLONG_MIN : Z := LONG_MIN.
Definition LLONG_MAX : Z := LONG_MAX.

(** The value of a [long long] expression: undefined when it overflows. *)
Definition llong (z : Z) : ub Z := assert_ub ((LLONG_MIN <=? z) && (z <=? LLONG_MAX)) (Some z).

(** Truth of a C integer. *)
Definition truth (z : Z) : bool := negb (z =? 0).

(** ** Objects *)

Abbreviation cell := (option byte).
Abbreviation buf := (list cell).

(** Bytes that were written, an indeterminate array, a static array. *)
Definition init (s : list byte) : buf := Some <$> s.
Definition undef (n : Z) : buf := replicate (Z.to_nat n) None.
Definition zeroed (n : Z) : buf := replicate (Z.to_nat n) (Some NUL).

(** [p] points to the NUL-terminated string [s]. *)
Definition is_cstr (p : buf) (s : list byte) : Prop :=
  exists rest, p = init s ++ Some NUL :: rest /\ NUL ∉ s.

(** ** <string.h> *)

Fixpoint strlen (p : buf) : ub Z :=
  match p with
  | Some c :: r => if decide (c = NUL) then Some 0 else let? n := strlen r in Some (n + 1)
  | _ => None
  end.

Fixpoint strcmp (p q : buf) : ub Z :=
  match p, q with
  | Some a :: p', Some b :: q' =>
      if decide (a = b) then if decide (a = NUL) then Some 0 else strcmp p' q'
      else Some (uchar a - uchar b)
  | _, _ => None
  end.

Fixpoint strncmp (p q : buf) (n : nat) {struct n} : ub Z :=
  match n with
  | O => Some 0
  | S n' =>
      match p, q with
      | Some a :: p', Some b :: q' =>
          if decide (a = b) then if decide (a = NUL) then Some 0 else strncmp p' q' n'
          else Some (uchar a - uchar b)
      | _, _ => None
      end
  end.

(** The offset of the first [c] of the string, [None] for NULL. *)
Fixpoint strchr (p : buf) (c : byte) : ub (option Z) :=
  match p with
  | Some b :: r =>
      if decide (b = c) then Some (Some 0)
      else if decide (b = NUL) then Some None
      else let? o := strchr r c in Some (Z.succ <$> o)
  | _ => None
  end.

Fixpoint memchr_n (p : buf) (c : byte) (n : nat) {struct n} : ub (option Z) :=
  match n with
  | O => Some None
  | S n' =>
      match p with
      | Some b :: r =>
          if decide (b = c) then Some (Some 0)
          else let? o := memchr_n r c n' in Some (Z.succ <$> o)
      | _ => None
      end
  end.
Definition memchr (p : buf) (c : byte) (n : Z) : ub (option Z) := memchr_n p c (Z.to_nat n).

(** [memcpy(dst + off, src, n)]: the new contents of [dst]. *)
Definition memcpy (dst : buf) (off : Z) (src : buf) (n : Z) : ub buf :=
  assert_ub ((0 <=? off) && (0 <=? n) && (off + n <=? zlen dst) && (n <=? zlen src))
    (Some (take (Z.to_nat off) dst ++ take (Z.to_nat n) src ++ drop (Z.to_nat (off + n)) dst)).

(** [memmove(b + off, b + from, n)]: source and destination are one object. *)
Definition memmove (b : buf) (off from n : Z) : ub buf := memcpy b off (drop (Z.to_nat from) b) n.

(** [b[i] = c;] and the value of [b[i]]. *)
Definition store_byte (b : buf) (i : Z) (c : byte) : ub buf := memcpy b i [Some c] 1.
Definition load_byte (b : buf) (i : Z) : ub byte :=
  assert_ub (0 <=? i) (let? c := b !! Z.to_nat i in c).

(** ** <ctype.h>, in the "C" locale (neither program calls setlocale) *)

Definition isspace (c : byte) : bool :=
  (uchar c =? 32) || ((9 <=? uchar c) && (uchar c <=? 13)).
Definition isdigit (c : byte) : bool := (48 <=? uchar c) && (uchar c <=? 57).
Definition digit (c : byte) : Z := uchar c - 48.

(** ** [strtol(p, &end, 10)]

    The value and the offset of [end]; without any digit [end] is [p]; the value
    saturates. *)

Fixpoint skip_spaces (p : buf) : ub (Z * buf) :=
  match p with
  | Some c :: r =>
      if isspace c then let? ' (n, q) := skip_spaces r in Some (n + 1, q) else Some (0, p)
  | _ => None
  end.

Fixpoint read_digits (p : buf) (acc : Z) : ub (Z * Z) :=
  match p with
  | Some c :: r =>
      if isdigit c
      then let? ' (n, v) := read_digits r (acc * 10 + digit c) in Some (n + 1, v)
      else Some (0, acc)
  | _ => None
  end.

Definition read_sign (p : buf) : ub (bool * Z * buf) :=
  match p with
  | Some x2d :: r => Some (true, 1, r)
  | Some x2b :: r => Some (false, 1, r)
  | Some _ :: _ => Some (false, 0, p)
  | _ => None
  end.

Definition clamp_long (z : Z) : Z := Z.max LONG_MIN (Z.min LONG_MAX z).

Definition strtol (p : buf) : ub (Z * Z) :=
  let? ' (spaces, q) := skip_spaces p in
  let? ' (neg, sign, r) := read_sign q in
  let? ' (n, v) := read_digits r 0 in
  if n =? 0 then Some (0, 0)
  else Some (clamp_long (if neg then - v else v), spaces + sign + n).

(** ** printf-style formatting, with the directives the sources use *)

(** Decimal digits, for the values of [%ld] and [%lu]. *)
Fixpoint dec_digits (fuel : nat) (n : Z) (acc : list byte) : list byte :=
  match fuel with
  | O => acc
  | S fuel' =>
      let acc' := chr (48 + n mod 10) :: acc in
      if n <? 10 then acc' else dec_digits fuel' (n / 10) acc'
  end.
Definition decimal (n : Z) : list byte :=
  if n <? 0 then x2d :: dec_digits (S (Z.to_nat (Z.log2 (- n)))) (- n) []
  else dec_digits (S (Z.to_nat (Z.log2 n))) n [].

Inductive fmt_arg :=
| AStr (p : buf)
| ALong (z : Z).

(** The contents of the string [p] points to. *)
Fixpoint cstring (p : buf) : ub (list byte) :=
  match p with
  | Some c :: r => if decide (c = NUL) then Some [] else let? s := cstring r in Some (c :: s)
  | _ => None
  end.

Fixpoint expand (fmt : list byte) (args : list fmt_arg) : ub (list byte) :=
  match fmt with
  | PERCENT :: x73 :: r =>
      match args with
      | AStr p :: args' => let? s := cstring p in let? t := expand r args' in Some (s ++ t)
      | _ => None
      end
  | PERCENT :: x6c :: _ :: r =>
      match args with
      | ALong z :: args' => let? t := expand r args' in Some (decimal z ++ t)
      | _ => None
      end
  | PERCENT :: _ => None
  | c :: r => let? t := expand r args in Some (c :: t)
  | [] => Some []
  end.

(** [vsnprintf(b, size, fmt, args)]: the length of the whole text, and the
    contents of [b], which was indeterminate and gets at most [size - 1] bytes of
    the text and a NUL. *)
Definition vsnprintf (size : Z) (fmt : list byte) (args : list fmt_arg) : ub (Z * buf) :=
  let? text := expand fmt args in
  let kept := take (Z.to_nat (size - 1)) text in
  Some (zlen text, init kept ++ Some NUL :: undef (size - 1 - zlen kept)).

(** A string literal [s] as an object. *)
Definition literal (s : string) : buf := init (lit s) ++ [Some NUL].
Arguments literal s%_string.

(** ** Facts about strings in memory *)

Lemma is_cstr_nil p : is_cstr p [] <-> exists r, p = Some NUL :: r.
Proof.
  split.
  - intros (r & -> & _). by exists r.
  - intros [r ->]. exists r. split; [done | apply not_elem_of_nil].
Qed.

Lemma is_cstr_cons p c s :
  is_cstr p (c :: s) <-> exists r, p = Some c :: r /\ c <> NUL /\ is_cstr r s.
Proof.
  split.
  - intros (r & -> & Hn). rewrite not_elem_of_cons in Hn. destruct Hn as [Hc Hn].
    exists (init s ++ Some NUL :: r). repeat split; [done|]. by exists r.
  - intros (q & -> & Hc & r & -> & Hn). exists r. split; [done|].
    rewrite not_elem_of_cons. split; congruence.
Qed.

(** Turn a hypothesis [is_cstr p s], [s] a constructor, into the shape of [p]. *)
Ltac cstr_inv :=
  repeat match goal with
    | H : is_cstr ?p [] |- _ =>
        let E := fresh "E" in apply is_cstr_nil in H as [? E]; simplify_eq
    | H : is_cstr ?p (_ :: _) |- _ =>
        let E := fresh "E" in apply is_cstr_cons in H as (? & E & ? & H); simplify_eq
    end.

Lemma is_cstr_intro s r : NUL ∉ s -> is_cstr (init s ++ Some NUL :: r) s.
Proof. intros. by exists r. Qed.

Lemma is_cstr_no_nul p s : is_cstr p s -> NUL ∉ s.
Proof. by intros (r & _ & H). Qed.

Lemma is_cstr_drop p s k : is_cstr p s -> (k <= length s)%nat -> is_cstr (drop k p) (drop k s).
Proof.
  revert p s. induction k as [|k IH]; intros p s H Hk; [done|].
  destruct s as [|c s]; cstr_inv; simpl in *; [lia|]. apply IH; [done|lia].
Qed.

Lemma is_cstr_det p s t : is_cstr p s -> is_cstr p t -> s = t.
Proof.
  revert p t. induction s as [|c s IH]; intros p [|d t] H1 H2; cstr_inv; simplify_eq; try done.
  f_equal. by eapply IH.
Qed.

Lemma length_init s : length (init s) = length s.
Proof. apply length_fmap. Qed.

Lemma is_cstr_length p s : is_cstr p s -> (length s < length p)%nat.
Proof. intros (r & -> & _). rewrite length_app, length_init. simpl. lia. Qed.

Lemma strlen_cstr p s : is_cstr p s -> strlen p = Some (zlen s).
Proof.
  revert p. induction s as [|c s IH]; intros p H; cstr_inv; simpl; [done|].
  rewrite decide_False by done. rewrite (IH _ H). f_equal. lia.
Qed.

Lemma cstring_cstr p s : is_cstr p s -> cstring p = Some s.
Proof.
  revert p. induction s as [|c s IH]; intros p H; cstr_inv; simpl; [done|].
  rewrite decide_False by done. by rewrite (IH _ H).
Qed.

Lemma cstring_is_cstr p s : cstring p = Some s -> is_cstr p s.
Proof.
  revert s. induction p as [|[c|] p IH]; intros s H; simplify_eq/=.
  case_decide as Hc; simplify_eq/=.
  - apply is_cstr_nil. by eexists.
  - destruct (cstring p) as [t|] eqn:Ht; simplify_eq/=.
    apply is_cstr_cons. eauto.
Qed.

Lemma strcmp_cstr p q s t :
  is_cstr p s -> is_cstr q t -> exists z, strcmp p q = Some z /\ (z = 0 <-> s = t).
Proof.
  revert p q t. induction s as [|c s IH]; intros p q [|d t] Hp Hq; cstr_inv; simpl.
  - exists 0. done.
  - rewrite decide_False by done. eexists. split; [done|]. split; [|done].
    intros E. assert (NUL = d) by (apply uchar_inj; lia). congruence.
  - rewrite decide_False by done. eexists. split; [done|]. split; [|done].
    intros E. assert (c = NUL) by (apply uchar_inj; lia). congruence.
  - case_decide as E; [subst d|].
    + rewrite decide_False by done.
      destruct (IH _ _ t Hp Hq) as (z & -> & Hz). exists z. split; [done|].
      rewrite Hz. split; congruence.
    + eexists. split; [done|]. split.
      * intros Hz. destruct E. apply uchar_inj. lia.
      * congruence.
Qed.

Lemma strncmp_cstr p s t r :
  is_cstr p s -> NUL ∉ t ->
  exists z, strncmp p (init t ++ r) (length t) = Some z /\ (z = 0 <-> t `prefix_of` s).
Proof.
  revert p s. induction t as [|d t IH]; intros p s Hp Ht; simpl.
  - exists 0. split; [done|]. split; [|done]. intros _. apply prefix_nil.
  - rewrite not_elem_of_cons in Ht. destruct Ht as [Hd Ht].
    destruct s as [|c s]; cstr_inv.
    + rewrite decide_False by done. eexists. split; [done|]. split.
      * intros E. destruct Hd. apply uchar_inj. lia.
      * intros [k E]. done.
    + case_decide as E; [subst d|].
      * rewrite decide_False by done.
        destruct (IH _ _ Hp Ht) as (z & -> & Hz). exists z. split; [done|].
        rewrite Hz. split; [apply prefix_cons | apply prefix_cons_inv_2].
      * eexists. split; [done|]. split.
        -- intros Hz. destruct E. apply uchar_inj. lia.
        -- intros Hpre%prefix_cons_inv_1. congruence.
Qed.

Lemma strchr_None p s c : is_cstr p s -> c <> NUL -> c ∉ s -> strchr p c = Some None.
Proof.
  revert p. induction s as [|b s IH]; intros p H Hc Hs; cstr_inv; simpl.
  - by rewrite decide_False by congruence.
  - rewrite not_elem_of_cons in Hs. destruct Hs.
    rewrite !decide_False by congruence. by rewrite IH.
Qed.

Lemma strchr_Some p s1 c s2 :
  is_cstr p (s1 ++ c :: s2) -> c ∉ s1 -> strchr p c = Some (Some (zlen s1)).
Proof.
  revert p. induction s1 as [|b s IH]; intros p H Hs; simpl in H; cstr_inv; simpl.
  - by rewrite decide_True.
  - rewrite not_elem_of_cons in Hs. destruct Hs.
    rewrite !decide_False by congruence. rewrite IH by done. simpl. do 2 f_equal. lia.
Qed.

Lemma memchr_None s r c n :
  n = zlen s -> c ∉ s -> memchr (init s ++ r) c n = Some None.
Proof.
  intros -> Hc. unfold memchr. rewrite Nat2Z.id.
  induction s as [|b s IH]; simpl; [done|].
  rewrite not_elem_of_cons in Hc. destruct Hc.
  rewrite decide_False by congruence. by rewrite IH.
Qed.

Lemma memchr_Some s1 c s2 r n :
  n = zlen (s1 ++ c :: s2) -> c ∉ s1 ->
  memchr (init (s1 ++ c :: s2) ++ r) c n = Some (Some (zlen s1)).
Proof.
  intros -> Hc. unfold memchr. rewrite Nat2Z.id.
  induction s1 as [|b s IH]; simpl.
  - by rewrite decide_True.
  - rewrite not_elem_of_cons in Hc. destruct Hc.
    rewrite decide_False by congruence. rewrite IH by done. simpl. do 2 f_equal. lia.
Qed.

(** ** Facts about copies *)

Lemma memcpy_ok dst off src n :
  0 <= off -> 0 <= n -> off + n <= zlen dst -> n <= zlen src ->
  memcpy dst off src n =
    Some (take (Z.to_nat off) dst ++ take (Z.to_nat n) src ++ drop (Z.to_nat (off + n)) dst).
Proof.
  intros. unfold memcpy. repeat (rewrite (proj2 (Z.leb_le _ _)) by lia). done.
Qed.

Lemma memcpy_length dst off src n b : memcpy dst off src n = Some b -> length b = length dst.
Proof.
  unfold memcpy, assert_ub.
  destruct (_ && _) eqn:H; [|done]. intros [= <-].
  rewrite !andb_true_iff, !Z.leb_le in H.
  rewrite !length_app, !length_take, length_drop. lia.
Qed.

(** Copying a prefix of [n] written bytes to the start of an array. *)
Lemma memcpy_init dst s r n :
  n = zlen s -> zlen s <= zlen dst ->
  memcpy dst 0 (init s ++ r) n = Some (init s ++ drop (length s) dst).
Proof.
  intros -> H. rewrite memcpy_ok by (rewrite ?length_app, ?length_init; lia).
  rewrite Z.add_0_l, Nat2Z.id. simpl. do 2 f_equal.
  rewrite take_app_le by (rewrite length_init; lia).
  by rewrite take_ge by (rewrite length_init; lia).
Qed.

(** Copying a string with its NUL. *)
Lemma memcpy_cstr dst p s n :
  n = zlen s + 1 -> is_cstr p s -> zlen s < zlen dst ->
  exists b, memcpy dst 0 p n = Some b /\ is_cstr b s /\ length b = length dst.
Proof.
  intros -> (r & -> & Hs) H. exists (init s ++ Some NUL :: drop (S (length s)) dst).
  assert (E : memcpy dst 0 (init s ++ Some NUL :: r) (zlen s + 1) =
    Some (init s ++ Some NUL :: drop (S (length s)) dst)).
  { replace (init s ++ Some NUL :: r) with (init (s ++ [NUL]) ++ r)
      by (unfold init; rewrite fmap_app, <-app_assoc; done).
    rewrite memcpy_init by (rewrite length_app; simpl; lia).
    unfold init. rewrite fmap_app, <-app_assoc, length_app. simpl.
    by rewrite Nat.add_1_r. }
  split; [done|]. split; [by eexists|]. by eapply memcpy_length.
Qed.

Lemma store_byte_init s x d c n :
  n = zlen s -> store_byte (init s ++ x :: d) n c = Some (init s ++ Some c :: d).
Proof.
  intros ->. unfold store_byte.
  rewrite memcpy_ok by (rewrite ?length_app, ?length_init; simpl; lia).
  rewrite Nat2Z.id. replace (Z.to_nat (zlen s + 1)) with (length (init s) + 1)%nat
    by (rewrite length_init; lia).
  rewrite <-(length_init s), take_app_length, drop_app_add. done.
Qed.

Lemma load_byte_init s c r n : n = zlen s -> load_byte (init s ++ Some c :: r) n = Some c.
Proof.
  intros ->. unfold load_byte. simpl. unfold assert_ub. bool_lia.
  rewrite Nat2Z.id, <-(length_init s), list_lookup_middle; done.
Qed.

Lemma length_undef n : 0 <= n -> zlen (undef n) = n.
Proof. intros. unfold undef. rewrite length_replicate. lia. Qed.

(** Writing the NUL after a copied prefix makes it a string. *)
Lemma terminate dst s n :
  n = zlen s -> zlen s < zlen dst ->
  store_byte (init s ++ drop (length s) dst) n NUL =
    Some (init s ++ Some NUL :: drop (S (length s)) dst).
Proof.
  intros -> H. destruct (drop (length s) dst) as [|x d] eqn:Hd.
  - assert (length (drop (length s) dst) = 0%nat) by by rewrite Hd.
    rewrite length_drop in *. lia.
  - rewrite store_byte_init by done. do 3 f_equal.
    replace (S (length s)) with (length s + 1)%nat by lia.
    by rewrite <-drop_drop, Hd.
Qed.

Lemma init_app a b : init (a ++ b) = init a ++ init b.
Proof. apply fmap_app. Qed.

Lemma drop_init n s r : (n <= length s)%nat -> drop n (init s ++ r) = init (drop n s) ++ r.
Proof.
  intros H. rewrite drop_app_le by by rewrite length_init.
  unfold init. by rewrite fmap_drop.
Qed.

(** ** Decimal numbers read back *)

(** The number that decimal digits stand for. *)
Definition digits_value_from (acc : Z) (ds : list byte) : Z :=
  fold_left (fun a c => a * 10 + digit c) ds acc.
Definition digits_value (ds : list byte) : Z := digits_value_from 0 ds.

Lemma digit_chr d : 0 <= d < 10 -> isdigit (chr (48 + d)) = true /\ digit (chr (48 + d)) = d.
Proof. intros H. unfold isdigit, digit. rewrite uchar_chr by lia. lia. Qed.

Lemma dec_digits_spec fuel n acc :
  0 <= n < 10 ^ Z.of_nat fuel ->
  exists ds, dec_digits fuel n acc = ds ++ acc /\ Forall (fun c => isdigit c = true) ds /\
    (forall a, digits_value_from a ds = a * 10 ^ zlen ds + n) /\
    (forall k, 0 < k -> n < 10 ^ k -> zlen ds <= k) /\ ((0 < fuel)%nat -> ds <> []).
Proof.
  revert n acc. induction fuel as [|fuel IH]; intros n acc Hn.
  - exists []. simpl in *. repeat split; [constructor|intros; lia|intros; lia|lia].
  - assert (0 <= n mod 10 < 10) by (apply Z.mod_pos_bound; lia).
    destruct (digit_chr (n mod 10)) as [Hd1 Hd2]; [done|]. simpl.
    destruct (Z.ltb_spec n 10) as [Hlt|Hge].
    + exists [chr (48 + n mod 10)]. repeat split; [by repeat constructor| |simpl; lia|done].
      intros a. unfold digits_value_from. simpl. rewrite Hd2, Z.mod_small by lia. lia.
    + destruct (IH (n / 10) (chr (48 + n mod 10) :: acc)) as (ds & -> & Hf & Hv & Hl & _).
      { split; [apply Z.div_pos; lia|]. apply Z.div_lt_upper_bound; [lia|].
        rewrite Nat2Z.inj_succ, Z.pow_succ_r in Hn by lia. lia. }
      exists (ds ++ [chr (48 + n mod 10)]). rewrite <-app_assoc. split; [done|].
      assert (Hlen : zlen (ds ++ [chr (48 + n mod 10)]) = zlen ds + 1)
        by (rewrite length_app; simpl; lia).
      repeat split.
      * apply Forall_app. split; [done|]. by repeat constructor.
      * intros a. unfold digits_value_from. rewrite fold_left_app. simpl.
        fold (digits_value_from a ds). rewrite Hv, Hd2, Hlen, Z.pow_add_r by lia.
        pose proof (Z.div_mod n 10). lia.
      * intros k Hk Hnk. rewrite Hlen. destruct (Z.eq_dec k 1) as [->|]; [lia|].
        assert (zlen ds <= k - 1); [|lia]. apply Hl; [lia|].
        apply Z.div_lt_upper_bound; [lia|]. rewrite <-Z.pow_succ_r by lia. by replace (Z.succ (k - 1)) with k by lia.
      * intros _ E. by destruct ds.
Qed.

Lemma decimal_spec n :
  0 <= n ->
  Forall (fun c => isdigit c = true) (decimal n) /\ digits_value (decimal n) = n /\
  (forall k, 0 < k -> n < 10 ^ k -> zlen (decimal n) <= k) /\ decimal n <> [].
Proof.
  intros Hn. unfold decimal. rewrite (proj2 (Z.ltb_ge n 0)) by done.
  destruct (dec_digits_spec (S (Z.to_nat (Z.log2 n))) n []) as (ds & -> & Hf & Hv & Hl & Hne).
  { split; [done|]. pose proof (Z.log2_nonneg n).
    replace (Z.of_nat (S (Z.to_nat (Z.log2 n)))) with (Z.succ (Z.log2 n)) by lia.
    assert (n < 2 ^ Z.succ (Z.log2 n)).
    { destruct (Z.eq_dec n 0) as [->|]; [done|]. apply Z.log2_spec. lia. }
    pose proof (Z.pow_le_mono_l 2 10 (Z.succ (Z.log2 n))). lia. }
  rewrite app_nil_r. repeat split; [done| |done|apply Hne; lia].
  unfold digits_value. rewrite Hv. lia.
Qed.
