(* ===== verification/Effects.v ===== *)
(** * Programs with effects

    A C function that calls the system or touches shared memory is an interaction
    tree: its events are the calls, its leaves the value the function returns; a
    function that never returns is an infinite tree.  This file has what the
    models share: the notation of statements, a weakest-precondition calculus
    whose rules for the events come from a class ([EventSpec]), the adequacy of
    the calculus for runs against a machine, and executions in a given environment
    ([run]), which compute. *)

From ITree Require Export ITree.
From ITree Require Import ITreeFacts.
From S2P Require Export Prelude.

(** ** Statements *)

Declare Scope prog_scope.
Delimit Scope prog_scope with prog.

(** Undefined behaviour of a program is an event without answer. *)
Class HasUB (E : Type -> Type) := ub_event : E Empty_set.

Definition undefined_behaviour {E} `{HasUB E} {A} : itree E A :=
  Vis ub_event (fun e : Empty_set => match e with end).

Notation "'let*' x := t 'in' k" := (ITree.bind t (fun x => k))
  (at level 10, x name, t at level 100, k at level 200,
   format "'[v' 'let*'  x  :=  t  'in' '/' k ']'") : prog_scope.
Notation "'let*' ' p := t 'in' k" := (ITree.bind t (fun x => match x with p => k end))
  (at level 10, p pattern, t at level 100, k at level 200,
   format "'[v' 'let*'  ' p  :=  t  'in' '/' k ']'") : prog_scope.
Notation "t ;! k" := (ITree.bind t (fun _ => k))
  (at level 100, k at level 200, right associativity,
   format "'[v' t  ;! '/' k ']'") : prog_scope.
Notation "'let?' x := o 'in' k" :=
  (match o with Some x => k | None => undefined_behaviour end)
  (at level 10, x name, o at level 100, k at level 200,
   format "'[v' 'let?'  x  :=  o  'in' '/' k ']'") : prog_scope.
Notation "'let?' ' p := o 'in' k" :=
  (match o with Some p => k | None => undefined_behaviour end)
  (at level 10, p pattern, o at level 100, k at level 200,
   format "'[v' 'let?'  ' p  :=  o  'in' '/' k ']'") : prog_scope.

Abbreviation call := ITree.trigger.

(** The result of a system call: a value, or [-1] with [errno]. *)
Inductive sysres (A : Type) :=
| Ok (a : A)
| Err (errno : Z).
Arguments Ok {A} a.
Arguments Err {A} errno.

Lemma observe_iter {E I R} (body : I -> itree E (I + R)) i :
  observe (ITree.iter body i) =
  observe (ITree.bind (body i)
    (fun lr => match lr with inl j => Tau (ITree.iter body j) | inr r => Ret r end)).
Proof. apply (unfold_aloop_ body i). Qed.

(** ** Weakest preconditions *)

(** What the events do to a ghost state [S]: [ev_wp e Φ s] says that [e] is
    allowed in [s] and that every answer and new state satisfy [Φ]. *)
Class EventSpec (E : Type -> Type) (S : Type) := {
  ev_wp : forall A, E A -> (A -> S -> Prop) -> S -> Prop;
  ev_wp_mono A (e : E A) (Φ Ψ : A -> S -> Prop) s :
    (forall a s', Φ a s' -> Ψ a s') -> ev_wp A e Φ s -> ev_wp A e Ψ s;
  ev_wp_inter A (e : E A) (Φ : nat -> A -> S -> Prop) s :
    (forall n, ev_wp A e (Φ n) s) -> ev_wp A e (fun a s' => forall n, Φ n a s') s
}.
Arguments ev_wp {E S _ A} e Φ s.

Section wp.
Context {E : Type -> Type} {S : Type} `{!EventSpec E S}.

(** The first [n] steps are allowed, and a value returned within them
    satisfies [Φ]. *)
Fixpoint wpn {R} (n : nat) (t : itree E R) (Φ : R -> S -> Prop) (s : S) : Prop :=
  match n with
  | O => True
  | Datatypes.S n' =>
      match observe t with
      | RetF r => Φ r s
      | TauF t' => wpn n' t' Φ s
      | VisF e k => ev_wp e (fun a s' => wpn n' (k a) Φ s') s
      end
  end.

Definition wp {R} (t : itree E R) (Φ : R -> S -> Prop) (s : S) : Prop :=
  forall n, wpn n t Φ s.

Lemma wpn_S {R} n (t : itree E R) Φ s :
  wpn (Datatypes.S n) t Φ s =
  match observe t with
  | RetF r => Φ r s
  | TauF t' => wpn n t' Φ s
  | VisF e k => ev_wp e (fun a s' => wpn n (k a) Φ s') s
  end.
Proof. done. Qed.

Lemma wpn_mono {R} n (t : itree E R) (Φ Ψ : R -> S -> Prop) s :
  (forall r s', Φ r s' -> Ψ r s') -> wpn n t Φ s -> wpn n t Ψ s.
Proof.
  intros H. revert t s. induction n as [|n IH]; intros t s; simpl; [done|].
  destruct (observe t) as [r|t'|A e k]; [apply H | apply IH |].
  apply ev_wp_mono. eauto.
Qed.

Lemma wpn_pred {R} n (t : itree E R) (Φ : R -> S -> Prop) s :
  wpn (Datatypes.S n) t Φ s -> wpn n t Φ s.
Proof.
  revert t s. induction n as [|n IH]; intros t s; [done|].
  rewrite wpn_S, (wpn_S n). destruct (observe t) as [r|t'|A e k]; [done | apply IH |].
  apply ev_wp_mono. eauto.
Qed.

(** The behaviour of a tree depends only on what it unfolds to. *)
Lemma wpn_observe {R} n (t u : itree E R) Φ s :
  observe t = observe u -> wpn n t Φ s -> wpn n u Φ s.
Proof. destruct n; [done|]. rewrite !wpn_S. by intros ->. Qed.

Lemma wpn_bind {R T} n (t : itree E R) (k : R -> itree E T) Φ s :
  wpn n t (fun r s' => wpn n (k r) Φ s') s -> wpn n (ITree.bind t k) Φ s.
Proof.
  revert t s. induction n as [|n IH]; intros t s; [done|].
  rewrite wpn_S. intros H. eapply wpn_observe; [symmetry; apply observe_bind|].
  destruct (observe t) as [r|t'|A e h]; [done | |].
  - rewrite wpn_S. simpl. apply IH. revert H. apply wpn_mono. intros ??. apply wpn_pred.
  - rewrite wpn_S. simpl. revert H. apply ev_wp_mono. intros a s' H. apply IH.
    revert H. apply wpn_mono. intros ??. apply wpn_pred.
Qed.

Lemma wp_ret {R} (r : R) (Φ : R -> S -> Prop) s : Φ r s -> wp (Ret r) Φ s.
Proof. intros H [|n]; [done|]. by rewrite wpn_S. Qed.

Lemma wp_tau {R} (t : itree E R) Φ s : wp t Φ s -> wp (Tau t) Φ s.
Proof. intros H [|n]; [done|]. rewrite wpn_S. apply H. Qed.

Lemma wp_vis {A R} (e : E A) (k : A -> itree E R) Φ s :
  ev_wp e (fun a s' => wp (k a) Φ s') s -> wp (Vis e k) Φ s.
Proof.
  intros H [|n]; [done|]. rewrite wpn_S. simpl. revert H. apply ev_wp_mono.
  intros a s' H. apply H.
Qed.

Lemma wp_call {A} (e : E A) Φ s : ev_wp e Φ s -> wp (call e) Φ s.
Proof.
  intros H. apply wp_vis. revert H. apply ev_wp_mono. intros. by apply wp_ret.
Qed.

Lemma wp_mono {R} (t : itree E R) (Φ Ψ : R -> S -> Prop) s :
  (forall r s', Φ r s' -> Ψ r s') -> wp t Φ s -> wp t Ψ s.
Proof. intros H Ht n. eapply wpn_mono, Ht. done. Qed.

Lemma wp_bind {R T} (t : itree E R) (k : R -> itree E T) Φ s :
  wp t (fun r s' => wp (k r) Φ s') s -> wp (ITree.bind t k) Φ s.
Proof.
  intros H n. apply wpn_bind. eapply wpn_mono, H. intros r s' Hk. apply Hk.
Qed.

Lemma wp_call_bind {A R} (e : E A) (k : A -> itree E R) Φ s :
  ev_wp e (fun a s' => wp (k a) Φ s') s -> wp (ITree.bind (call e) k) Φ s.
Proof. intros H. by apply wp_bind, wp_call. Qed.

(** Loops, with an invariant. *)
Lemma wp_iter {I R} (Inv : I -> S -> Prop) (body : I -> itree E (I + R)) Φ i s :
  Inv i s ->
  (forall i s, Inv i s ->
    wp (body i) (fun r s' => match r with inl i' => Inv i' s' | inr r => Φ r s' end) s) ->
  wp (ITree.iter body i) Φ s.
Proof.
  intros Hi Hbody n. revert i s Hi. induction n as [|n IH]; intros i s Hi; [done|].
  eapply wpn_observe; [symmetry; apply observe_iter|].
  apply wpn_bind. eapply wpn_mono, Hbody, Hi. intros [j|r] s' H; simpl.
  - by apply IH.
  - done.
Qed.

(** One step of an execution. *)
Lemma wp_observe {R} (t u : itree E R) Φ s : observe t = observe u -> wp t Φ s -> wp u Φ s.
Proof. intros H Ht n. by eapply wpn_observe, Ht. Qed.

Lemma wp_vis_inv {A R} (t : itree E R) (e : E A) (k : A -> itree E R) Φ s :
  observe t = VisF e k -> wp t Φ s -> ev_wp e (fun a s' => wp (k a) Φ s') s.
Proof.
  intros Ht H. apply ev_wp_inter. intros n. specialize (H (Datatypes.S n)).
  by rewrite wpn_S, Ht in H.
Qed.

Lemma wp_tau_inv {R} (t u : itree E R) Φ s : observe t = TauF u -> wp t Φ s -> wp u Φ s.
Proof.
  intros Ht H n. specialize (H (Datatypes.S n)). by rewrite wpn_S, Ht in H.
Qed.

Lemma wp_ret_inv {R} (t : itree E R) r Φ s : observe t = RetF r -> wp t Φ s -> Φ r s.
Proof. intros Ht H. specialize (H 1). by rewrite wpn_S, Ht in H. Qed.
End wp.

(** Symbolic execution of straight-line code: the first statement of the program
    in the goal. *)
Ltac wp_start :=
  lazymatch goal with
  | |- wp (ITree.bind (call _) _) _ _ => apply wp_call_bind
  | |- wp (ITree.bind (ITree.bind _ _) _) _ _ => apply wp_bind; wp_start
  | |- wp (ITree.bind _ _) _ _ => apply wp_bind
  | |- wp (call _) _ _ => apply wp_call
  | |- wp (Ret _) _ _ => apply wp_ret
  | |- wp (go (VisF _ _)) _ _ => apply wp_vis
  end.

(** ** Runs against a machine *)

(** A call and the answer it got. *)
Record event (E : Type -> Type) : Type := Ev { ev_type : Type; ev_call : E ev_type; ev_ans : ev_type }.
Arguments Ev {E} {ev_type} ev_call ev_ans.

Section machine.
Context {E : Type -> Type} {S : Type}.

(** A machine answers calls and changes its state; what may be called in a
    state. *)
Variable mstep : forall A, E A -> S -> A -> S -> Prop.
Variable allowed : forall A, E A -> S -> Prop.

Definition machine_wp A (e : E A) (Φ : A -> S -> Prop) (s : S) : Prop :=
  allowed A e s /\ forall a s', mstep A e s a s' -> Φ a s'.

Definition machine_spec : EventSpec E S.
Proof.
  refine {| ev_wp := machine_wp |}.
  - intros A e Φ Ψ s H [Hp Ha]. split; [done|]. eauto.
  - intros A e Φ s H. split; [exact (proj1 (H 0))|]. intros a s' Ha n. by apply (H n).
Defined.
#[local] Existing Instance machine_spec.

(** [runs t s tr u s']: in the state [s] the program [t] makes the calls of
    [tr], gets their answers and goes on as [u] in the state [s']. *)
Inductive runs {R} : itree E R -> S -> list (event E) -> itree E R -> S -> Prop :=
| runs_nil t s : runs t s [] t s
| runs_tau t t' s tr u s' : observe t = TauF t' -> runs t' s tr u s' -> runs t s tr u s'
| runs_vis A t (e : E A) k a s s1 tr u s' :
    observe t = VisF e k -> mstep A e s a s1 -> runs (k a) s1 tr u s' -> runs t s (Ev e a :: tr) u s'.

(** Adequacy: the calculus goes on along every run; the next call is allowed,
    and a returned value satisfies the postcondition. *)
Theorem wp_runs {R} (t u : itree E R) Φ s tr s' :
  wp t Φ s -> runs t s tr u s' -> wp u Φ s'.
Proof.
  intros Hwp Hr. revert Hwp.
  induction Hr as [t s|t t' s tr u s' Ht Hr IH|A t e k a s s1 tr u s' Ht Hs Hr IH]; intros Hwp; [done| |].
  - apply IH. by eapply wp_tau_inv.
  - apply IH. apply (wp_vis_inv _ _ _ _ _ Ht) in Hwp as [_ Hk]. by apply Hk.
Qed.

Lemma wp_allowed {R} (t u : itree E R) Φ s tr s' A (e : E A) k :
  wp t Φ s -> runs t s tr u s' -> observe u = VisF e k -> allowed A e s'.
Proof.
  intros Hwp Hr Hu. pose proof (wp_runs _ _ _ _ _ _ Hwp Hr) as H.
  by apply (wp_vis_inv _ _ _ _ _ Hu) in H as [Ha _].
Qed.

Lemma wp_returned {R} (t u : itree E R) Φ s tr s' r :
  wp t Φ s -> runs t s tr u s' -> observe u = RetF r -> Φ r s'.
Proof.
  intros Hwp Hr Hu. pose proof (wp_runs _ _ _ _ _ _ Hwp Hr) as H. by eapply wp_ret_inv.
Qed.

(** One call that the machine answers. *)
Lemma wp_machine {A R} (e : E A) (k : A -> itree E R) Φ s :
  allowed A e s -> (forall a s', mstep A e s a s' -> wp (k a) Φ s') ->
  wp (ITree.bind (call e) k) Φ s.
Proof. intros Ha Hk. apply wp_call_bind. by split. Qed.

(** A run that computes: the first [n] steps with the answers that are chosen for the
    calls, or those before a call without one. *)
Section trace.
Variable choose_answer : forall A, E A -> S -> option (A * S).
Variable choose_ok : forall A (e : E A) s a s', choose_answer A e s = Some (a, s') -> mstep A e s a s'.

Fixpoint trace {R} (n : nat) (t : itree E R) (s : S) : list (event E) * itree E R * S :=
  match n with
  | O => ([], t, s)
  | Datatypes.S n =>
      match observe t with
      | RetF _ => ([], t, s)
      | TauF t' => trace n t' s
      | VisF e k =>
          match choose_answer _ e s with
          | None => ([], t, s)
          | Some (a, s') => let '(tr, u, s'') := trace n (k a) s' in (Ev e a :: tr, u, s'')
          end
      end
  end.

Lemma trace_runs {R} n : forall (t : itree E R) s tr u s', trace n t s = (tr, u, s') -> runs t s tr u s'.
Proof using choose_ok.
  induction n as [|n IH]; intros t s tr u s'; cbn [trace]; [intros [= <- <- <-]; constructor|].
  destruct (observe t) as [r|t'|A e k] eqn:Ht; [intros [= <- <- <-]; constructor| |].
  - intros H. eapply runs_tau; [exact Ht|by apply IH].
  - destruct (choose_answer A e s) as [[a s1]|] eqn:Ha; [|intros [= <- <- <-]; constructor].
    destruct (trace n (k a) s1) as [[tr1 u1] s2] eqn:E1. intros [= <- <- <-].
    eapply runs_vis; [exact Ht|by apply choose_ok|by apply IH].
Qed.
End trace.
End machine.

(** ** Executions in a given environment *)

(** An environment answers a call from its state; it may refuse to ([None], a
    call that blocks for ever). *)
Definition environment (E : Type -> Type) (W : Type) : Type :=
  forall A, E A -> W -> option (A * W).

Section run.
Context {E : Type -> Type} {W : Type} (env : environment E W).

Fixpoint run {R} (n : nat) (t : itree E R) (w : W) : option (R * W) :=
  match n with
  | O => None
  | S n' =>
      match observe t with
      | RetF r => Some (r, w)
      | TauF t' => run n' t' w
      | VisF e k => match env _ e w with Some (a, w') => run n' (k a) w' | None => None end
      end
  end.

(** The program returns [r] and leaves the environment in [w']. *)
Definition evals {R} (t : itree E R) (w : W) (r : R) (w' : W) : Prop :=
  exists n, run n t w = Some (r, w').

Lemma run_S {R} n (t : itree E R) w :
  run (S n) t w =
  match observe t with
  | RetF r => Some (r, w)
  | TauF t' => run n t' w
  | VisF e k => match env _ e w with Some (a, w') => run n (k a) w' | None => None end
  end.
Proof. done. Qed.

Lemma run_mono {R} n m (t : itree E R) w x :
  n <= m -> run n t w = Some x -> run m t w = Some x.
Proof.
  revert m t w. induction n as [|n IH]; intros [|m] t w Hm; [done..|lia|].
  rewrite !run_S. destruct (observe t) as [r|t'|A e k]; [done| |].
  - apply IH. lia.
  - destruct (env A e w) as [[a w']|]; [|done]. apply IH. lia.
Qed.

Lemma evals_det {R} (t : itree E R) w r1 w1 r2 w2 :
  evals t w r1 w1 -> evals t w r2 w2 -> r1 = r2 /\ w1 = w2.
Proof.
  intros [n Hn] [m Hm].
  apply (run_mono n (n + m)) in Hn; [|lia]. apply (run_mono m (n + m)) in Hm; [|lia].
  by simplify_eq.
Qed.

Lemma evals_observe {R} (t u : itree E R) w r w' :
  observe t = observe u -> evals t w r w' -> evals u w r w'.
Proof. intros H [[|n] Hn]; [done|]. exists (S n). by rewrite run_S, <-H. Qed.

Lemma evals_ret {R} (r : R) w : evals (Ret r) w r w.
Proof. by exists 1. Qed.

Lemma evals_tau {R} (t : itree E R) w r w' : evals t w r w' -> evals (Tau t) w r w'.
Proof. intros [n Hn]. by exists (S n). Qed.

Lemma evals_vis {A R} (e : E A) (k : A -> itree E R) w a w1 r w2 :
  env _ e w = Some (a, w1) -> evals (k a) w1 r w2 -> evals (Vis e k) w r w2.
Proof. intros He [n Hn]. exists (S n). rewrite run_S. simpl. by rewrite He. Qed.

Lemma evals_bind {R T} (t : itree E R) (k : R -> itree E T) w r w1 x w2 :
  evals t w r w1 -> evals (k r) w1 x w2 -> evals (ITree.bind t k) w x w2.
Proof.
  intros [n Hn] Hk. revert t w Hn. induction n as [|n IH]; intros t w Hn; [done|].
  rewrite run_S in Hn. eapply evals_observe; [symmetry; apply observe_bind|].
  destruct (observe t) as [r'|t'|A e h]; simplify_eq.
  - done.
  - apply evals_tau. by apply IH.
  - destruct (env A e w) as [[a w']|] eqn:He; [|done].
    eapply evals_vis; [done|]. by apply IH.
Qed.

Lemma evals_call_bind {A R} (e : E A) (k : A -> itree E R) w a w1 r w2 :
  env _ e w = Some (a, w1) -> evals (k a) w1 r w2 ->
  evals (ITree.bind (call e) k) w r w2.
Proof.
  intros He Hk. eapply evals_bind; [|done]. eapply evals_vis; [done|]. apply evals_ret.
Qed.

Lemma evals_call {A} (e : E A) w a w1 : env _ e w = Some (a, w1) -> evals (call e) w a w1.
Proof. intros He. eapply evals_vis; [done|]. apply evals_ret. Qed.

(** One iteration of a loop. *)
Lemma evals_iter_next {I R} (body : I -> itree E (I + R)) i j w w1 r w2 :
  evals (body i) w (inl j) w1 -> evals (ITree.iter body j) w1 r w2 ->
  evals (ITree.iter body i) w r w2.
Proof.
  intros Hb Hj. eapply evals_observe; [symmetry; apply observe_iter|].
  eapply evals_bind; [done|]. by apply evals_tau.
Qed.

Lemma evals_iter_stop {I R} (body : I -> itree E (I + R)) i w r w1 :
  evals (body i) w (inr r) w1 -> evals (ITree.iter body i) w r w1.
Proof.
  intros Hb. eapply evals_observe; [symmetry; apply observe_iter|].
  eapply evals_bind; [done|]. apply evals_ret.
Qed.
End run.
