(* ===== verification/CacheSpec.v ===== *)
(** * What the in-memory cache promises

    The contract of in-mem-cache, independent of its implementation: a finite
    map from keys to values with an optional expiry time, commands with their
    replies, and the grammar of the request lines.  [CacheStore] and
    [CacheServer] implement it. *)

From S2P Require Import Prelude.
Local Open Scope Z_scope.

(** ** Bounds *)

Definition KEY_MAX : Z := 256.
Definition VALUE_MAX : Z := 4096.
Definition STORE_CAP : Z := 1024.
Definition TTL_MAX : Z := 86400.

(** ** State *)

Abbreviation key := (list byte).

(** A value and the time it expires at (milliseconds of the monotonic clock). *)
Record item := Item { it_value : list byte; it_expires : option Z }.

#[export] Instance item_eq_decision : EqDecision item.
Proof. solve_decision. Defined.

Abbreviation cache := (gmap key item).

Definition item_live (now : Z) (it : item) : bool :=
  match it_expires it with
  | None => true
  | Some t => now <? t
  end.

(** The entries a client can observe at time [now]. *)
Definition live (now : Z) (m : cache) : cache :=
  filter (fun kv => item_live now kv.2 = true) m.

(** ** Commands *)

Inductive command :=
| Get (k : key)
| Delete (k : key)
| Set_ (k : key) (ttl : Z) (v : list byte)
| Bad.

Inductive reply :=
| RValue (v : list byte)
| RNotFound
| ROk
| RError.

(** The expiry time of a value set at [now]: TTL 0 means that it stays. *)
Definition expiry (now ttl : Z) : option Z := if ttl =? 0 then None else Some (now + ttl * 1000).

(** One command at time [now]. *)
Definition spec_step (m : cache) (now : Z) (c : command) : reply * cache :=
  match c with
  | Get k =>
      match live now m !! k with
      | Some it => (RValue (it_value it), m)
      | None => (RNotFound, m)
      end
  | Delete k =>
      match live now m !! k with
      | Some _ => (ROk, delete k m)
      | None => (RNotFound, m)
      end
  | Set_ k ttl v =>
      match live now m !! k with
      | Some _ => (ROk, <[k := Item v (expiry now ttl)]> m)
      | None =>
          if Z.of_nat (size (live now m)) <? STORE_CAP
          then (ROk, <[k := Item v (expiry now ttl)]> m)
          else (RError, m)
      end
  | Bad => (RError, m)
  end.

(** A sequence of commands with the times they take effect at. *)
Fixpoint spec_run (m : cache) (cs : list (Z * command)) : list reply * cache :=
  match cs with
  | [] => ([], m)
  | (now, c) :: cs' =>
      let '(r, m1) := spec_step m now c in
      let '(rs, m2) := spec_run m1 cs' in
      (r :: rs, m2)
  end.

(** ** Facts *)

Lemma live_lookup_Some now m k it :
  live now m !! k = Some it <-> m !! k = Some it /\ item_live now it = true.
Proof. unfold live. by rewrite map_lookup_filter_Some. Qed.

Lemma live_lookup_None now m k :
  live now m !! k = None <-> forall it, m !! k = Some it -> item_live now it = false.
Proof.
  unfold live. rewrite map_lookup_filter_None. split.
  - intros [H|H] it Hit; [congruence|]. specialize (H _ Hit). simpl in H. by apply not_true_is_false.
  - intros H. right. intros it Hit. simpl. by rewrite (H _ Hit).
Qed.

(** What expired stays expired. *)
Lemma item_live_mono now now' it :
  now <= now' -> item_live now' it = true -> item_live now it = true.
Proof. unfold item_live. destruct (it_expires it); [|done]. rewrite !Z.ltb_lt. lia. Qed.

Lemma live_live now now' m : now <= now' -> live now' (live now m) = live now' m.
Proof.
  intros Hle. apply map_eq. intros k. apply option_eq. intros it.
  rewrite !live_lookup_Some. split; [naive_solver|].
  intros [H1 H2]. eauto using item_live_mono.
Qed.

(** Two states that cannot be told apart at [now] cannot be told apart later. *)
Lemma live_eq_mono now now' m1 m2 :
  now <= now' -> live now m1 = live now m2 -> live now' m1 = live now' m2.
Proof. intros Hle H. by rewrite <-(live_live now now' m1), H, live_live. Qed.

Lemma live_insert now m1 m2 k it :
  live now m1 = live now m2 -> live now (<[k:=it]> m1) = live now (<[k:=it]> m2).
Proof.
  intros H. apply map_eq. intros j. apply option_eq. intros x.
  rewrite !live_lookup_Some. destruct (decide (k = j)) as [->|Hne].
  - by rewrite !lookup_insert_eq.
  - rewrite !lookup_insert_ne by done. by rewrite <-!live_lookup_Some, H.
Qed.

Lemma live_delete now m1 m2 k :
  live now m1 = live now m2 -> live now (delete k m1) = live now (delete k m2).
Proof.
  intros H. apply map_eq. intros j. apply option_eq. intros x.
  rewrite !live_lookup_Some. destruct (decide (k = j)) as [->|Hne].
  - by rewrite !lookup_delete_eq.
  - rewrite !lookup_delete_ne by done. by rewrite <-!live_lookup_Some, H.
Qed.

(** Removing a dead entry cannot be observed. *)
Lemma live_delete_dead now m k it :
  m !! k = Some it -> item_live now it = false -> live now (delete k m) = live now m.
Proof.
  intros Hk Hit. apply map_eq. intros j. apply option_eq. intros x. rewrite !live_lookup_Some.
  destruct (decide (k = j)) as [<-|Hne].
  - rewrite lookup_delete_eq. split; [naive_solver|]. intros [Hx Hlx]. congruence.
  - by rewrite lookup_delete_ne.
Qed.

(** The contract depends only on the live entries. *)
Lemma spec_step_live now m1 m2 c :
  live now m1 = live now m2 ->
  (spec_step m1 now c).1 = (spec_step m2 now c).1 /\
  live now (spec_step m1 now c).2 = live now (spec_step m2 now c).2.
Proof.
  intros H. destruct c; simpl; rewrite ?H; [| | |done].
  - by destruct (live now m2 !! _).
  - destruct (live now m2 !! _); simpl; auto using live_delete.
  - destruct (live now m2 !! _); simpl; [auto using live_insert|].
    case_match; simpl; auto using live_insert.
Qed.

Lemma spec_run_app m cs ds :
  spec_run m (cs ++ ds) =
  let '(rs, m1) := spec_run m cs in let '(ss, m2) := spec_run m1 ds in (rs ++ ss, m2).
Proof.
  revert m. induction cs as [|[now c] cs IH]; intros m; simpl.
  - by destruct (spec_run m ds).
  - destruct (spec_step m now c) as [r m1]. rewrite IH.
    destruct (spec_run m1 cs) as [rs m2]. by destruct (spec_run m2 ds).
Qed.

Lemma spec_set_reply m now k ttl v r m' :
  spec_step m now (Set_ k ttl v) = (r, m') -> r = ROk \/ r = RError.
Proof. intros E. simpl in E. repeat case_match; simplify_eq; auto. Qed.

(** A value set is what is read until it expires. *)
Lemma spec_set_get m now k ttl v m' now' :
  spec_step m now (Set_ k ttl v) = (ROk, m') ->
  (spec_step m' now' (Get k)).1 =
    if (ttl =? 0) || (now' <? now + ttl * 1000) then RValue v else RNotFound.
Proof.
  intros H. assert (Hm : m' = <[k := Item v (expiry now ttl)]> m).
  { simpl in H. repeat case_match; by simplify_eq. }
  subst m'. simpl. destruct (live now' _ !! k) as [it|] eqn:Hl.
  - apply live_lookup_Some in Hl as [Hk Hit]. rewrite lookup_insert_eq in Hk. simplify_eq. simpl in *.
    unfold item_live, expiry in Hit. simpl in Hit. destruct (ttl =? 0); [done|]. by rewrite Hit.
  - assert (Hd : item_live now' (Item v (expiry now ttl)) = false).
    { apply (proj1 (live_lookup_None now' _ k) Hl). apply lookup_insert_eq. }
    unfold item_live, expiry in Hd. simpl in Hd. destruct (ttl =? 0); [done|]. by rewrite Hd.
Qed.

(** Other keys are not touched. *)
Lemma spec_frame m now c k now' :
  match c with Get _ | Bad => True | Delete k' | Set_ k' _ _ => k' <> k end ->
  (spec_step (spec_step m now c).2 now' (Get k)).1 = (spec_step m now' (Get k)).1.
Proof.
  intros Hk. assert (E : (spec_step m now c).2 !! k = m !! k).
  { destruct c; simpl; repeat case_match; simpl; try done.
    - by rewrite lookup_delete_ne.
    - by rewrite lookup_insert_ne.
    - by rewrite lookup_insert_ne. }
  assert (El : live now' (spec_step m now c).2 !! k = live now' m !! k).
  { apply option_eq. intros it. rewrite !live_lookup_Some. by rewrite E. }
  cbn [spec_step]. rewrite El. by destruct (live now' m !! k).
Qed.

(** ** The capacity *)

Lemma live_size_mono now now' m :
  now <= now' -> (size (live now' m) <= size (live now m))%nat.
Proof.
  intros Hle. apply map_subseteq_size. apply map_subseteq_spec. intros k it.
  rewrite !live_lookup_Some. intros [H1 H2]. split; [done|]. by eapply item_live_mono.
Qed.

Lemma spec_step_cap m now c :
  Z.of_nat (size (live now m)) <= STORE_CAP ->
  Z.of_nat (size (live now (spec_step m now c).2)) <= STORE_CAP.
Proof.
  intros H.
  assert (Hins : forall k it n, Z.of_nat (size (live now m)) <= n ->
    Z.of_nat (size (live now (<[k:=it]> m))) <= n + 1 /\
    (is_Some (live now m !! k) -> Z.of_nat (size (live now (<[k:=it]> m))) <= n)).
  { intros k it n Hn.
    assert (Hsub : live now (<[k:=it]> m) ⊆ <[k:=it]> (live now m)).
    { apply map_subseteq_spec. intros j x. rewrite live_lookup_Some, !lookup_insert_Some, live_lookup_Some.
      intros [[[-> ->]|[? ?]] ?]; tauto. }
    apply map_subseteq_size in Hsub. destruct (live now m !! k) as [y|] eqn:Hk.
    - rewrite map_size_insert_Some in Hsub by eauto. split; intros; lia.
    - rewrite map_size_insert_None in Hsub by done. split; [lia|]. by intros []. }
  destruct c as [k|k|k ttl v|]; cbn [spec_step].
  - by destruct (live now m !! k).
  - destruct (live now m !! k); [|done]. simpl.
    assert (Hsub : live now (delete k m) ⊆ live now m).
    { apply map_subseteq_spec. intros j x. rewrite !live_lookup_Some, lookup_delete_Some. tauto. }
    apply map_subseteq_size in Hsub. lia.
  - destruct (live now m !! k) eqn:Hk; simpl.
    + by apply Hins.
    + case_match eqn:Hc; [|done]. simpl. apply Z.ltb_lt in Hc.
      destruct (Hins k (Item v (expiry now ttl)) (STORE_CAP - 1)) as [Hi _]; lia.
  - done.
Qed.
