(* ===== verification/CacheStore.v ===== *)
(** * The store of in-mem-cache/server.c

    [struct entry], the static array [store] and the functions that read and
    write it: [lookup], [free_slot] and the statements of the critical sections
    of [handle_line], each a function of the array that is undefined when C is.
    The invariant of the array, the finite map it stands for, and what each
    operation does to that map. *)

From S2P Require Import Prelude CLib CacheSpec.
Local Open Scope Z_scope.
Local Open Scope ub_scope.

(** ** Data *)

Record entry := Entry {
  used : Z;
  e_key : buf;
  e_value : buf;
  vlen : Z;
  expires_at_ms : Z;
  has_expiry : Z
}.

Abbreviation store := (list entry).

Definition with_used (u : Z) (e : entry) : entry :=
  Entry u (e_key e) (e_value e) (vlen e) (expires_at_ms e) (has_expiry e).
Definition with_key (k : buf) (e : entry) : entry :=
  Entry (used e) k (e_value e) (vlen e) (expires_at_ms e) (has_expiry e).
Definition with_value (v : buf) (e : entry) : entry :=
  Entry (used e) (e_key e) v (vlen e) (expires_at_ms e) (has_expiry e).
Definition with_vlen (n : Z) (e : entry) : entry :=
  Entry (used e) (e_key e) (e_value e) n (expires_at_ms e) (has_expiry e).
Definition with_expires_at_ms (t : Z) (e : entry) : entry :=
  Entry (used e) (e_key e) (e_value e) (vlen e) t (has_expiry e).
Definition with_has_expiry (h : Z) (e : entry) : entry :=
  Entry (used e) (e_key e) (e_value e) (vlen e) (expires_at_ms e) h.

(** [static struct entry store[STORE_CAP]] starts zeroed. *)
Definition entry_zero : entry := Entry 0 (zeroed (KEY_MAX + 1)) (zeroed (VALUE_MAX + 1)) 0 0 0.
Definition store_zero : store := replicate (Z.to_nat STORE_CAP) entry_zero.

(** ** Operations *)

(** [e.has_expiry && now >= e.expires_at_ms] *)
Definition expired (e : entry) (now : Z) : bool := truth (has_expiry e) && (expires_at_ms e <=? now).

(** The iterations of the loop of [lookup] from [i]; [n] of them are left. *)
Fixpoint lookup_from (n i : nat) (st : store) (k : buf) (now : Z) {struct n} : ub (Z * store) :=
  match n with
  | O => Some (-1, st)
  | S n' =>
      let? e := st !! i in
      let? hit := (if truth (used e) then let? c := strcmp (e_key e) k in Some (c =? 0)
                   else Some false) in
      if hit then
        if expired e now then Some (-1, <[i := with_used 0 e]> st)
        else Some (Z.of_nat i, st)
      else lookup_from n' (S i) st k now
  end.
Definition lookup (k : buf) (now : Z) (st : store) : ub (Z * store) :=
  lookup_from (Z.to_nat STORE_CAP) 0 st k now.

Fixpoint free_slot_from (n i : nat) (st : store) (now : Z) {struct n} : ub (Z * store) :=
  match n with
  | O => Some (-1, st)
  | S n' =>
      let? e := st !! i in
      if negb (truth (used e)) || expired e now
      then Some (Z.of_nat i, <[i := with_used 0 e]> st)
      else free_slot_from n' (S i) st now
  end.
Definition free_slot (now : Z) (st : store) : ub (Z * store) :=
  free_slot_from (Z.to_nat STORE_CAP) 0 st now.

(** A statement that writes [store[idx]]. *)
Definition update (idx : Z) (f : entry -> ub entry) (st : store) : ub (unit * store) :=
  assert_ub (0 <=? idx)
    (let? e := st !! Z.to_nat idx in
     let? e' := f e in
     Some (tt, <[Z.to_nat idx := e']> st)).

(** [store[idx].used = u;] *)
Definition set_used (idx u : Z) : store -> ub (unit * store) :=
  update idx (fun e => Some (with_used u e)).

(** [memcpy(store[idx].key, key, klen + 1);] *)
Definition copy_key (idx : Z) (k : buf) (klen : Z) : store -> ub (unit * store) :=
  update idx (fun e => let? b := memcpy (e_key e) 0 k (klen + 1) in Some (with_key b e)).

(** [memcpy(store[idx].value, value, vlen + 1);] *)
Definition copy_value (idx : Z) (v : buf) (n : Z) : store -> ub (unit * store) :=
  update idx (fun e => let? b := memcpy (e_value e) 0 v (n + 1) in Some (with_value b e)).

(** [store[idx].vlen = vlen;] *)
Definition set_vlen (idx n : Z) : store -> ub (unit * store) :=
  update idx (fun e => Some (with_vlen n e)).

(** [store[idx].has_expiry = h;] *)
Definition set_has_expiry (idx h : Z) : store -> ub (unit * store) :=
  update idx (fun e => Some (with_has_expiry h e)).

(** [store[idx].expires_at_ms = now + ttl * 1000LL;] *)
Definition set_expires (idx now ttl : Z) : store -> ub (unit * store) :=
  update idx (fun e =>
    let? ms := llong (ttl * 1000) in
    let? t := llong (now + ms) in
    Some (with_expires_at_ms t e)).

(** [memcpy(value, store[idx].value, store[idx].vlen + 1);] into the automatic
    array [value]. *)
Definition read_value (idx : Z) (value : buf) (st : store) : ub (buf * store) :=
  assert_ub (0 <=? idx)
    (let? e := st !! Z.to_nat idx in
     let? b := memcpy value 0 (e_value e) (vlen e + 1) in
     Some (b, st)).

(** ** Invariant and abstraction *)

(** Keys and values the server stores. *)
Definition key_ok (k : key) : Prop :=
  0 < zlen k <= KEY_MAX /\ Forall (fun c => isspace c = false) k.
Definition value_ok (v : list byte) : Prop := 0 < zlen v <= VALUE_MAX /\ LF ∉ v.

(** The binding a slot holds. *)
Definition entry_abs (e : entry) : option (key * item) :=
  if truth (used e) then
    match cstring (e_key e), cstring (e_value e) with
    | Some k, Some v => Some (k, Item v (if truth (has_expiry e) then Some (expires_at_ms e) else None))
    | _, _ => None
    end
  else None.

Definition store_abs (st : store) : cache := list_to_map (omap entry_abs st).

(** A slot: the arrays have their declared sizes, and a used slot holds a key and
    a value that are strings, with [vlen] the length of the value. *)
Record entry_wf (e : entry) : Prop := {
  wf_key : zlen (e_key e) = KEY_MAX + 1;
  wf_value : zlen (e_value e) = VALUE_MAX + 1;
  wf_used : truth (used e) = true ->
    exists k v, is_cstr (e_key e) k /\ is_cstr (e_value e) v /\ vlen e = zlen v /\
      key_ok k /\ value_ok v
}.

(** No two slots hold the same key. *)
Definition unique_keys (st : store) : Prop :=
  forall i j ei ej k x y,
    st !! i = Some ei -> st !! j = Some ej ->
    entry_abs ei = Some (k, x) -> entry_abs ej = Some (k, y) -> i = j.

Record store_wf (st : store) : Prop := {
  wf_length : zlen st = STORE_CAP;
  wf_entries : forall i e, st !! i = Some e -> entry_wf e;
  wf_unique : unique_keys st
}.

Lemma truth_spec z : truth z = true <-> z <> 0.
Proof. unfold truth. destruct (Z.eqb_spec z 0); simpl; split; congruence. Qed.

Lemma entry_abs_used e k it : entry_abs e = Some (k, it) -> truth (used e) = true.
Proof. unfold entry_abs. by destruct (truth (used e)). Qed.

(** What a well-formed used slot holds. *)
Lemma entry_wf_abs e :
  entry_wf e -> truth (used e) = true ->
  exists k it, entry_abs e = Some (k, it) /\ is_cstr (e_key e) k /\
    is_cstr (e_value e) (it_value it) /\ vlen e = zlen (it_value it) /\
    key_ok k /\ value_ok (it_value it) /\
    it_expires it = (if truth (has_expiry e) then Some (expires_at_ms e) else None).
Proof.
  intros [_ _ H] Hu. destruct (H Hu) as (k & v & Hk & Hv & Hl & Hko & Hvo).
  unfold entry_abs. rewrite Hu, (cstring_cstr _ _ Hk), (cstring_cstr _ _ Hv).
  eexists k, _. split; [done|]. simpl. done.
Qed.

(** [expired] decides whether the binding is live. *)
Lemma expired_live e k it now :
  entry_abs e = Some (k, it) -> expired e now = negb (item_live now it).
Proof.
  unfold entry_abs, expired, item_live. destruct (truth (used e)); [|done].
  destruct (cstring (e_key e)), (cstring (e_value e)); intros; simplify_eq/=.
  destruct (truth (has_expiry e)); simpl; [|done]. by rewrite Z.ltb_antisym, negb_involutive.
Qed.

Lemma store_zero_wf : store_wf store_zero.
Proof.
  assert (Hz : forall i e, store_zero !! i = Some e -> e = entry_zero).
  { intros i e [-> _]%lookup_replicate. done. }
  split.
  - unfold store_zero. rewrite length_replicate. reflexivity.
  - intros i e ->%Hz. split; [reflexivity..|done].
  - intros i j ei ej k x y ->%Hz. done.
Qed.

(** The keys of the slots are distinct as a list. *)
Lemma unique_keys_cons e st : unique_keys (e :: st) -> unique_keys st.
Proof.
  intros H i j ei ej k x y Hi Hj Hei Hej.
  by assert (S i = S j) by exact (H (S i) (S j) _ _ _ _ _ Hi Hj Hei Hej); simplify_eq.
Qed.

Lemma unique_keys_NoDup (f : entry -> option (key * item)) st :
  (forall e b, f e = Some b -> entry_abs e = Some b) -> unique_keys st -> NoDup (omap f st).*1.
Proof.
  intros Hf. induction st as [|e st IH]; intros H; simpl; [constructor|].
  specialize (IH (unique_keys_cons _ _ H)).
  destruct (f e) as [[k it]|] eqn:He; simpl; [|done].
  constructor; [|done]. intros ([k' it'] & Hk & Hin)%list_elem_of_fmap. simplify_eq/=.
  apply list_elem_of_omap in Hin as (e' & Hin & He').
  apply list_elem_of_lookup in Hin as [j Hj].
  by pose proof (H 0%nat (S j) _ _ _ _ _ eq_refl Hj (Hf _ _ He) (Hf _ _ He')).
Qed.

Lemma store_abs_lookup st k it :
  unique_keys st ->
  store_abs st !! k = Some it <-> exists i e, st !! i = Some e /\ entry_abs e = Some (k, it).
Proof.
  intros Hu. unfold store_abs.
  rewrite <-elem_of_list_to_map by by apply unique_keys_NoDup.
  rewrite list_elem_of_omap. split.
  - intros (e & Hin & He). apply list_elem_of_lookup in Hin as [i Hi]. eauto.
  - intros (i & e & Hi & He). exists e. split; [|done]. apply list_elem_of_lookup. eauto.
Qed.

Lemma store_zero_abs : store_abs store_zero = ∅.
Proof. vm_compute. reflexivity. Qed.

(** ** Writing one slot *)

Lemma insert_lookup_cases (st : store) i e j x :
  <[i := e]> st !! j = Some x -> (i = j /\ x = e) \/ (i <> j /\ st !! j = Some x).
Proof. rewrite list_lookup_insert_Some. naive_solver. Qed.

(** [e'] may replace the slot [i]: no other slot holds its key. *)
Definition no_clash (st : store) (i : nat) (e' : entry) : Prop :=
  forall j ej k x y, st !! j = Some ej -> entry_abs ej = Some (k, x) ->
    entry_abs e' = Some (k, y) -> i = j.

Lemma store_wf_insert st i e' :
  store_wf st -> entry_wf e' -> no_clash st i e' -> store_wf (<[i := e']> st).
Proof.
  intros [Hl He Hu] He' Hc. split.
  - by rewrite length_insert.
  - intros j x [[-> ->]|[_ Hj]]%insert_lookup_cases; eauto.
  - intros j1 j2 x1 x2 k a b H1%insert_lookup_cases H2%insert_lookup_cases Ha Hb.
    destruct H1 as [[-> ->]|[Hn1 H1]], H2 as [[-> ->]|[Hn2 H2]]; [done| | |].
    + eauto.
    + symmetry. eauto.
    + eauto.
Qed.

(** The slot [i] is released. *)
Lemma store_release st i e :
  store_wf st -> st !! i = Some e ->
  let st' := <[i := with_used 0 e]> st in
  store_wf st' /\
  (forall k it, entry_abs e = Some (k, it) -> store_abs st' = delete k (store_abs st)) /\
  (entry_abs e = None -> store_abs st' = store_abs st).
Proof.
  intros Hwf Hi st'. assert (Hn : entry_abs (with_used 0 e) = None) by done.
  assert (Hwf' : store_wf st').
  { apply store_wf_insert; [done| |].
    - destruct (wf_entries _ Hwf _ _ Hi). by split.
    - intros j ej k x y _ _. by rewrite Hn. }
  assert (Hlk : forall k it, store_abs st' !! k = Some it <->
    exists j ej, i <> j /\ st !! j = Some ej /\ entry_abs ej = Some (k, it)).
  { intros k it. rewrite store_abs_lookup by apply Hwf'. split.
    - intros (j & ej & [[-> ->]|[Hne Hj]]%insert_lookup_cases & Hej); [congruence|eauto].
    - intros (j & ej & Hne & Hj & Hej). exists j, ej. split; [|done].
      unfold st'. by rewrite list_lookup_insert_ne. }
  split; [done|]. split.
  - intros k it He. apply map_eq. intros k'. apply option_eq. intros it'.
    rewrite Hlk. destruct (decide (k = k')) as [->|Hne].
    + rewrite lookup_delete_eq. split; [|done]. intros (j & ej & Hne & Hj & Hej).
      by destruct Hne; apply (wf_unique _ Hwf _ _ _ _ _ _ _ Hi Hj He Hej).
    + rewrite lookup_delete_ne, store_abs_lookup by (done || apply Hwf). split; [naive_solver|].
      intros (j & ej & Hj & Hej). exists j, ej. split; [|done]. intros ->. congruence.
  - intros He. apply map_eq. intros k'. apply option_eq. intros it'.
    rewrite Hlk, store_abs_lookup by apply Hwf. split; [naive_solver|].
    intros (j & ej & Hj & Hej). exists j, ej. split; [|done]. intros ->. congruence.
Qed.

(** The slot [i], free or already holding [k], gets the binding of [k]. *)
Lemma store_bind st i e e' k it :
  store_wf st -> st !! i = Some e -> entry_wf e' -> entry_abs e' = Some (k, it) ->
  (entry_abs e = None /\ store_abs st !! k = None \/ exists x, entry_abs e = Some (k, x)) ->
  store_wf (<[i := e']> st) /\ store_abs (<[i := e']> st) = <[k := it]> (store_abs st).
Proof.
  intros Hwf Hi He' Hk Hold.
  assert (Hc : no_clash st i e').
  { intros j ej k' x y Hj Hej Hk'. rewrite Hk in Hk'. simplify_eq.
    destruct Hold as [[_ Hnone]|[z Hz]].
    - assert (Hs : store_abs st !! k' = Some x) by (apply store_abs_lookup; [apply Hwf|eauto]).
      congruence.
    - by eapply (wf_unique _ Hwf). }
  assert (Hwf' : store_wf (<[i := e']> st)) by by apply store_wf_insert.
  assert (Hlt : (i < length st)%nat) by by eapply lookup_lt_Some.
  split; [done|]. apply map_eq. intros k'. apply option_eq. intros it'.
  rewrite store_abs_lookup by apply Hwf'. destruct (decide (k = k')) as [<-|Hne].
  - rewrite lookup_insert_eq. split.
    + intros (j & ej & [[-> ->]|[Hne Hj]]%insert_lookup_cases & Hej); [congruence|].
      by destruct Hne; apply (Hc _ _ _ _ _ Hj Hej Hk).
    + intros [= <-]. exists i, e'. by rewrite list_lookup_insert_eq.
  - rewrite lookup_insert_ne, store_abs_lookup by (done || apply Hwf). split.
    + intros (j & ej & [[-> ->]|[Hn Hj]]%insert_lookup_cases & Hej); [congruence|eauto].
    + intros (j & ej & Hj & Hej). exists j, ej. split; [|done].
      assert (i <> j) by (intros <-; destruct Hold as [[? ?]|[? ?]]; congruence).
      by rewrite list_lookup_insert_ne.
Qed.

(** ** [lookup] and [free_slot] *)

(** The slots from [i] on do not matter to [k]. *)
Definition absent (st : store) (k : key) (i : nat) : Prop :=
  forall j ej x, (j < i)%nat -> st !! j = Some ej -> entry_abs ej <> Some (k, x).

(** The test of one iteration of [lookup]. *)
Lemma lookup_hit e p k :
  entry_wf e -> is_cstr p k ->
  exists b, (if truth (used e) then match strcmp (e_key e) p with
             | Some c => Some (c =? 0) | None => None end else Some false) = Some b /\
    (b = true <-> exists it, entry_abs e = Some (k, it)).
Proof.
  intros Hwf Hp. destruct (truth (used e)) eqn:Hu.
  - destruct (entry_wf_abs _ Hwf Hu) as (k' & it & He & Hk & _).
    destruct (strcmp_cstr _ _ _ _ Hk Hp) as (z & -> & Hz). eexists. split; [done|].
    rewrite Z.eqb_eq, Hz, He. naive_solver.
  - exists false. split; [done|]. unfold entry_abs. rewrite Hu. naive_solver.
Qed.

Lemma lookup_from_spec n i st p k now :
  (forall j e, st !! j = Some e -> entry_wf e) ->
  is_cstr p k -> (n + i)%nat = length st -> absent st k i ->
  (lookup_from n i st p now = Some (-1, st) /\ absent st k (length st)) \/
  (exists j e it, st !! j = Some e /\ entry_abs e = Some (k, it) /\
     lookup_from n i st p now =
       Some (if item_live now it then (Z.of_nat j, st) else (-1, <[j := with_used 0 e]> st))).
Proof.
  intros Hwf Hp. revert i. induction n as [|n IH]; intros i Hn Ha; simpl.
  - left. split; [done|]. by rewrite <-Hn.
  - destruct (lookup_lt_is_Some_2 st i) as [e He]; [lia|]. rewrite He.
    destruct (lookup_hit e p k (Hwf _ _ He) Hp) as (b & -> & Hb). destruct b.
    + right. destruct (proj1 Hb eq_refl) as [it Hit]. exists i, e, it.
      rewrite (expired_live _ _ _ _ Hit). by destruct (item_live now it).
    + apply IH; [lia|]. intros j ej x Hj Hlk Hej.
      destruct (decide (j = i)) as [->|Hne].
      * simplify_eq. assert (false = true) by (apply Hb; eauto). done.
      * apply (Ha j ej x); [lia|done|done].
Qed.

(** [lookup] finds the slot of a live key and nothing else; it may release the
    slot of an expired one, which no command can observe. *)
Lemma lookup_spec st p k now :
  store_wf st -> is_cstr p k ->
  exists idx st', lookup p now st = Some (idx, st') /\ store_wf st' /\
    live now (store_abs st') = live now (store_abs st) /\
    match live now (store_abs st) !! k with
    | Some it => st' = st /\ 0 <= idx /\
        exists e, st !! Z.to_nat idx = Some e /\ entry_abs e = Some (k, it)
    | None => idx = -1 /\ store_abs st' !! k = None
    end.
Proof.
  intros Hwf Hp. unfold lookup.
  assert (Hn : (Z.to_nat STORE_CAP + 0)%nat = length st) by (pose proof (wf_length _ Hwf); lia).
  destruct (lookup_from_spec _ _ st p k now (wf_entries _ Hwf) Hp Hn) as [[-> Ha]|Hh].
  { intros j ej x Hj. lia. }
  - assert (Habs : store_abs st !! k = None).
    { apply eq_None_not_Some. intros [it Hit].
      apply store_abs_lookup in Hit as (i & e & Hi & He); [|apply Hwf].
      apply (Ha i e it); [by eapply lookup_lt_Some|done|done]. }
    assert (Hl : live now (store_abs st) !! k = None) by (apply live_lookup_None; congruence).
    rewrite Hl. eauto 10.
  - destruct Hh as (j & e & it & Hj & He & ->).
    assert (Habs : store_abs st !! k = Some it) by (apply store_abs_lookup; [apply Hwf|eauto]).
    destruct (item_live now it) eqn:Hlive.
    + assert (Hl : live now (store_abs st) !! k = Some it) by by apply live_lookup_Some.
      rewrite Hl. eexists _, _. split; [done|]. rewrite Nat2Z.id. eauto 10 with lia.
    + assert (Hl : live now (store_abs st) !! k = None).
      { apply live_lookup_None. intros it' ?. by simplify_eq. }
      rewrite Hl. destruct (store_release _ _ _ Hwf Hj) as (Hwf' & Hd & _).
      eexists _, _. split; [done|]. split; [done|]. rewrite (Hd _ _ He). split.
      * by eapply live_delete_dead.
      * split; [done|]. apply lookup_delete_eq.
Qed.

(** Whether a slot holds a live binding. *)
Definition live_abs (now : Z) (e : entry) : option (key * item) :=
  match entry_abs e with
  | Some (k, it) => if item_live now it then Some (k, it) else None
  | None => None
  end.

(** The test of one iteration of [free_slot]. *)
Lemma free_slot_test e now :
  entry_wf e ->
  negb (truth (used e)) || expired e now =
  (match live_abs now e with Some _ => false | None => true end).
Proof.
  intros Hwf. unfold live_abs. destruct (truth (used e)) eqn:Hu; simpl.
  - destruct (entry_wf_abs _ Hwf Hu) as (k & it & He & _). rewrite He, (expired_live _ _ _ _ He).
    by destruct (item_live now it).
  - unfold entry_abs. by rewrite Hu.
Qed.

Lemma free_slot_from_spec n i st now :
  (forall j e, st !! j = Some e -> entry_wf e) -> (n + i)%nat = length st ->
  (forall j e, (j < i)%nat -> st !! j = Some e -> is_Some (live_abs now e)) ->
  (free_slot_from n i st now = Some (-1, st) /\
     forall j e, st !! j = Some e -> is_Some (live_abs now e)) \/
  (exists j e, st !! j = Some e /\ live_abs now e = None /\
     free_slot_from n i st now = Some (Z.of_nat j, <[j := with_used 0 e]> st)).
Proof.
  intros Hwf. revert i. induction n as [|n IH]; intros i Hn Ha; simpl.
  - left. split; [done|]. intros j e Hj. apply (Ha j); [|done].
    apply lookup_lt_Some in Hj. lia.
  - destruct (lookup_lt_is_Some_2 st i) as [e He]; [lia|].
    rewrite He, free_slot_test by eauto. destruct (live_abs now e) as [b|] eqn:Hb.
    + apply IH; [lia|]. intros j ej Hj Hlk. destruct (decide (j = i)) as [->|Hne].
      * simplify_eq. eauto.
      * apply (Ha j); [lia|done].
    + right. eauto.
Qed.

(** The number of live keys is the number of slots that hold one. *)
Lemma live_abs_omap now st :
  unique_keys st -> live now (store_abs st) = list_to_map (omap (live_abs now) st).
Proof.
  intros Hu. unfold live, store_abs.
  induction st as [|e st IH]; [apply map_filter_empty|].
  specialize (IH (unique_keys_cons _ _ Hu)). apply (unique_keys_NoDup entry_abs) in Hu; [|done].
  assert (Hl : live_abs now e = match entry_abs e with
    | Some (k, it) => if item_live now it then Some (k, it) else None | None => None end) by done.
  rewrite omap_cons in Hu. rewrite !omap_cons, Hl.
  destruct (entry_abs e) as [[k it]|]; [|done].
  rewrite fmap_cons in Hu. apply NoDup_cons in Hu as [Hk _].
  destruct (item_live now it) eqn:Hit; rewrite list_to_map_cons.
  - by rewrite list_to_map_cons, map_filter_insert_True, IH.
  - rewrite map_filter_insert_False by (simpl; congruence).
    by rewrite <-IH, delete_id by by apply not_elem_of_list_to_map.
Qed.

Lemma live_size now st :
  unique_keys st -> size (live now (store_abs st)) = length (omap (live_abs now) st).
Proof.
  intros Hu. rewrite live_abs_omap by done. apply map_size_list_to_map.
  apply unique_keys_NoDup; [|done]. unfold live_abs. intros e b.
  destruct (entry_abs e) as [[k it]|]; [|done]. by destruct (item_live now it).
Qed.

(** [free_slot] returns a slot exactly when fewer than [STORE_CAP] keys are live;
    the slot is then unused, and what it held can no longer be observed. *)
Lemma free_slot_spec st now :
  store_wf st ->
  exists idx st', free_slot now st = Some (idx, st') /\ store_wf st' /\
    live now (store_abs st') = live now (store_abs st) /\
    store_abs st' ⊆ store_abs st /\
    if Z.of_nat (size (live now (store_abs st))) <? STORE_CAP
    then 0 <= idx /\ exists e, st' !! Z.to_nat idx = Some e /\ entry_abs e = None
    else idx = -1.
Proof.
  intros Hwf. unfold free_slot. pose proof (wf_length _ Hwf) as Hl.
  assert (Hn : (Z.to_nat STORE_CAP + 0)%nat = length st) by lia.
  rewrite live_size by apply Hwf.
  destruct (free_slot_from_spec _ _ st now (wf_entries _ Hwf) Hn) as [[-> Ha]|Hh].
  { lia. }
  - rewrite length_omap_all by done. bool_lia. eauto 10.
  - destruct Hh as (j & e & Hj & He & ->). pose proof (length_omap_lt _ _ _ _ Hj He). bool_lia.
    destruct (store_release _ _ _ Hwf Hj) as (Hwf' & Hd & Hk).
    eexists _, _. split; [done|]. split; [done|]. rewrite Nat2Z.id.
    assert (Hlt : (j < length st)%nat) by by eapply lookup_lt_Some.
    assert (Hnew : 0 <= Z.of_nat j /\ exists e', <[j:=with_used 0 e]> st !! j = Some e' /\
      entry_abs e' = None).
    { split; [lia|]. exists (with_used 0 e). by rewrite list_lookup_insert_eq. }
    unfold live_abs in He. destruct (entry_abs e) as [[k it]|] eqn:Hb.
    + destruct (item_live now it) eqn:Hlive; [done|]. rewrite (Hd _ _ eq_refl).
      assert (Habs : store_abs st !! k = Some it) by (apply store_abs_lookup; [apply Hwf|eauto]).
      split; [by eapply live_delete_dead|]. split; [apply delete_subseteq|done].
    + rewrite Hk by done. done.
Qed.
