(* ===== verification/CacheProto.v ===== *)
(** * The request lines of in-mem-cache/server.c

    [valid_key] and [parse_ttl] as the source has them, on C strings; the grammar
    of the request lines ([request]), an executable parser of it ([parse_line])
    and a printer; and the facts that tie the three together. *)

From S2P Require Import Prelude CLib CacheSpec CacheStore.
Local Open Scope Z_scope.
Local Open Scope ub_scope.

(** ** The C functions *)

Fixpoint valid_key_loop (n : nat) (p : buf) {struct n} : ub bool :=
  match n with
  | O => Some true
  | S n' =>
      match p with
      | Some c :: r => if isspace c then Some false else valid_key_loop n' r
      | _ => None
      end
  end.

Definition valid_key (p : buf) (len : Z) : ub bool :=
  if (len =? 0) || (KEY_MAX <? len) then Some false else valid_key_loop (Z.to_nat len) p.

Fixpoint all_digits (n : nat) (p : buf) {struct n} : ub bool :=
  match n with
  | O => Some true
  | S n' =>
      match p with
      | Some c :: r => if isdigit c then all_digits n' r else Some false
      | _ => None
      end
  end.

(** [Some None] is the result 0, [Some (Some v)] the result 1 with [*out = v]. *)
Definition parse_ttl (s : buf) (len : Z) : ub (option Z) :=
  if (len =? 0) || (5 <? len) then Some None
  else
    let? digits := all_digits (Z.to_nat len) s in
    if negb digits then Some None
    else
      let? tmp := memcpy (undef 8) 0 s len in
      let? tmp := store_byte tmp len NUL in
      let? ' (v, end_) := strtol tmp in
      if end_ =? 0 then Some None
      else
        let? c := load_byte tmp end_ in
        if negb (bool_decide (c = NUL)) || (v <? 0) || (TTL_MAX <? v) then Some None
        else Some (Some v).

(** ** Grammar *)

Definition ttl_text (ds : list byte) (ttl : Z) : Prop :=
  0 < zlen ds <= 5 /\ Forall (fun c => isdigit c = true) ds /\
  digits_value ds = ttl /\ ttl <= TTL_MAX.

Inductive request : list byte -> command -> Prop :=
| request_get k : key_ok k -> request (lit "GET " ++ k) (Get k)
| request_delete k : key_ok k -> request (lit "DELETE " ++ k) (Delete k)
| request_set k ds ttl v :
    key_ok k -> ttl_text ds ttl -> 0 < zlen v <= VALUE_MAX ->
    request (lit "SET " ++ k ++ SPACE :: ds ++ SPACE :: v) (Set_ k ttl v).

(** ** An executable parser *)

Definition key_okb (k : key) : bool :=
  (0 <? zlen k) && (zlen k <=? KEY_MAX) && forallb (fun c => negb (isspace c)) k.

Definition ttl_of (ds : list byte) : option Z :=
  if (0 <? zlen ds) && (zlen ds <=? 5) && forallb isdigit ds && (digits_value ds <=? TTL_MAX)
  then Some (digits_value ds) else None.

Definition parse_set (r : list byte) : command :=
  match cut_at SPACE r with
  | Some (k, r') =>
      if key_okb k then
        match cut_at SPACE r' with
        | Some (ds, v) =>
            match ttl_of ds with
            | Some ttl => if (0 <? zlen v) && (zlen v <=? VALUE_MAX) then Set_ k ttl v else Bad
            | None => Bad
            end
        | None => Bad
        end
      else Bad
  | None => Bad
  end.

Definition parse_line (s : list byte) : command :=
  match strip_prefix (lit "GET ") s with
  | Some k => if key_okb k then Get k else Bad
  | None =>
      match strip_prefix (lit "DELETE ") s with
      | Some k => if key_okb k then Delete k else Bad
      | None =>
          match strip_prefix (lit "SET ") s with
          | Some r => parse_set r
          | None => Bad
          end
      end
  end.

(** ** A printer, as a client writes a command *)

Definition print_command (c : command) : list byte :=
  match c with
  | Get k => lit "GET " ++ k
  | Delete k => lit "DELETE " ++ k
  | Set_ k ttl v => lit "SET " ++ k ++ SPACE :: decimal ttl ++ SPACE :: v
  | Bad => []
  end.

(** ** The C functions compute the grammar's tests *)

Lemma key_okb_spec k : key_okb k = true <-> key_ok k.
Proof.
  unfold key_okb, key_ok. rewrite !andb_true_iff, Z.ltb_lt, Z.leb_le, forallb_forall, Forall_forall.
  setoid_rewrite negb_true_iff. setoid_rewrite list_elem_of_In. tauto.
Qed.

Lemma valid_key_loop_init k r :
  valid_key_loop (length k) (init k ++ r) = Some (forallb (fun c => negb (isspace c)) k).
Proof. induction k as [|c k IH]; simpl; [done|]. by destruct (isspace c). Qed.

Lemma valid_key_init k r : valid_key (init k ++ r) (zlen k) = Some (key_okb k).
Proof.
  unfold valid_key, key_okb. rewrite Nat2Z.id, valid_key_loop_init.
  destruct (Z.eqb_spec (zlen k) 0); destruct (Z.ltb_spec KEY_MAX (zlen k)); simpl.
  all: by repeat (bool_case; simpl; try lia).
Qed.

Lemma valid_key_cstr p k : is_cstr p k -> valid_key p (zlen k) = Some (key_okb k).
Proof. intros (r & -> & _). apply valid_key_init. Qed.

Lemma all_digits_init ds r : all_digits (length ds) (init ds ++ r) = Some (forallb isdigit ds).
Proof. induction ds as [|c ds IH]; simpl; [done|]. by destruct (isdigit c). Qed.

Lemma digits_value_from_nonneg acc ds :
  0 <= acc -> forallb isdigit ds = true -> 0 <= digits_value_from acc ds.
Proof.
  revert acc. induction ds as [|c ds IH]; intros acc Ha; simpl; [done|].
  intros [Hc Hd]%andb_true_iff. apply IH; [|done]. unfold isdigit in Hc. unfold digit. lia.
Qed.

Lemma digits_value_from_bound acc ds :
  0 <= acc -> forallb isdigit ds = true ->
  digits_value_from acc ds < (acc + 1) * 10 ^ zlen ds.
Proof.
  revert acc. induction ds as [|c ds IH]; intros acc Ha; simpl; [lia|].
  intros [Hc Hd]%andb_true_iff. unfold isdigit in Hc.
  assert (H : digits_value_from (acc * 10 + digit c) ds < (acc * 10 + digit c + 1) * 10 ^ zlen ds).
  { apply IH; [|done]. unfold digit. lia. }
  replace (Z.of_nat (S (length ds))) with (1 + zlen ds) by lia.
  rewrite Z.pow_add_r by lia. unfold digits_value_from in *. simpl. unfold digit in *.
  assert (0 < 10 ^ zlen ds) by (apply Z.pow_pos_nonneg; lia). nia.
Qed.

Lemma read_digits_init ds acc r :
  forallb isdigit ds = true ->
  read_digits (init ds ++ Some NUL :: r) acc = Some (zlen ds, digits_value_from acc ds).
Proof.
  revert acc. induction ds as [|c ds IH]; intros acc; simpl; [done|].
  intros [-> Hd]%andb_true_iff. rewrite IH by done. f_equal. f_equal. lia.
Qed.

Lemma digit_not_space c : isdigit c = true -> isspace c = false.
Proof. unfold isdigit, isspace. lia. Qed.

Lemma digit_not_sign c r : isdigit c = true -> read_sign (Some c :: r) = Some (false, 0, Some c :: r).
Proof. by destruct c. Qed.

(** [strtol] reads a non-empty sequence of digits that ends the string. *)
Lemma strtol_digits ds r :
  ds <> [] -> forallb isdigit ds = true -> digits_value ds <= LONG_MAX ->
  strtol (init ds ++ Some NUL :: r) = Some (digits_value ds, zlen ds).
Proof.
  intros Hne Hd Hmax. destruct ds as [|c ds]; [done|]. pose proof Hd as Hd'.
  simpl in Hd'. apply andb_true_iff in Hd' as [Hc _]. unfold strtol.
  change (init (c :: ds) ++ Some NUL :: r) with (Some c :: (init ds ++ Some NUL :: r)).
  simpl skip_spaces. rewrite (digit_not_space _ Hc). rewrite (digit_not_sign _ _ Hc).
  change (Some c :: (init ds ++ Some NUL :: r)) with (init (c :: ds) ++ Some NUL :: r).
  rewrite read_digits_init by done. bool_lia.
  pose proof (digits_value_from_nonneg 0 (c :: ds) ltac:(lia) Hd).
  fold (digits_value (c :: ds)) in *. unfold clamp_long. do 2 f_equal.
  unfold LONG_MIN. lia.
Qed.

(** [parse_ttl] computes [ttl_of], whatever follows the digits. *)
Lemma parse_ttl_init ds r : parse_ttl (init ds ++ r) (zlen ds) = Some (ttl_of ds).
Proof.
  unfold parse_ttl, ttl_of. destruct (Z.eqb_spec (zlen ds) 0) as [E|E]; simpl.
  { by rewrite (proj2 (Z.ltb_ge _ _)) by lia. }
  rewrite (proj2 (Z.ltb_lt 0 (zlen ds))) by lia. rewrite Z.leb_antisym.
  destruct (Z.ltb_spec 5 (zlen ds)) as [Hl|Hl]; simpl; [done|].
  rewrite Nat2Z.id, all_digits_init. destruct (forallb isdigit ds) eqn:Hd; simpl; [|done].
  rewrite memcpy_init by (done || rewrite length_undef; lia).
  rewrite terminate by (done || rewrite length_undef; lia).
  assert (Hne : ds <> []) by by intros ->.
  assert (Hb : digits_value ds < 10 ^ 5).
  { pose proof (digits_value_from_bound 0 ds ltac:(lia) Hd).
    assert (10 ^ zlen ds <= 10 ^ 5) by (apply Z.pow_le_mono_r; lia). unfold digits_value. lia. }
  pose proof (digits_value_from_nonneg 0 ds ltac:(lia) Hd) as Hnn. fold (digits_value ds) in Hnn.
  rewrite strtol_digits by (done || unfold LONG_MAX; lia).
  rewrite (proj2 (Z.eqb_neq _ _)) by done. rewrite load_byte_init by done.
  rewrite (proj2 (Z.ltb_ge (digits_value ds) 0)) by done. simpl.
  rewrite Z.ltb_antisym. by destruct (digits_value ds <=? TTL_MAX).
Qed.

Lemma ttl_of_spec ds ttl : ttl_of ds = Some ttl <-> ttl_text ds ttl.
Proof.
  unfold ttl_of, ttl_text. rewrite Forall_forall.
  assert (Hf : forallb isdigit ds = true <-> forall c, c ∈ ds -> isdigit c = true).
  { rewrite forallb_forall. by setoid_rewrite list_elem_of_In. }
  rewrite <-Hf. destruct (_ && _) eqn:H.
  - rewrite !andb_true_iff, Z.ltb_lt, !Z.leb_le in H. split; [intros [= <-]|intros (? & ? & <- & ?)]; tauto.
  - split; [done|]. intros (? & Hd & <- & ?). apply not_true_iff_false in H. destruct H.
    rewrite !andb_true_iff, Z.ltb_lt, !Z.leb_le. tauto.
Qed.

(** ** The parser recognises the grammar *)

Lemma no_space k : Forall (fun c => isspace c = false) k -> SPACE ∉ k.
Proof. rewrite Forall_forall. intros H Hin. by apply H in Hin. Qed.

Lemma digits_no_space ds : Forall (fun c => isdigit c = true) ds -> SPACE ∉ ds.
Proof. rewrite Forall_forall. intros H Hin. by apply H in Hin. Qed.

Lemma parse_set_spec r c :
  c <> Bad ->
  parse_set r = c <-> exists k ds ttl v, c = Set_ k ttl v /\ r = k ++ SPACE :: ds ++ SPACE :: v /\
    key_ok k /\ ttl_text ds ttl /\ 0 < zlen v <= VALUE_MAX.
Proof.
  intros Hc. unfold parse_set. split.
  - destruct (cut_at SPACE r) as [[k r']|] eqn:H1; [|congruence].
    destruct (key_okb k) eqn:H2; [|congruence].
    destruct (cut_at SPACE r') as [[ds v]|] eqn:H3; [|congruence].
    destruct (ttl_of ds) as [ttl|] eqn:H4; [|congruence].
    destruct (_ && _) eqn:H5; [|congruence]. intros <-.
    apply cut_at_Some in H1 as [-> _]. apply cut_at_Some in H3 as [-> _].
    rewrite key_okb_spec in H2. rewrite ttl_of_spec in H4.
    rewrite andb_true_iff, Z.ltb_lt, Z.leb_le in H5. eauto 10.
  - intros (k & ds & ttl & v & -> & -> & Hk & Ht & Hv).
    rewrite (proj2 (cut_at_Some _ _ k (ds ++ SPACE :: v))) by (split; [done|apply no_space, Hk]).
    rewrite (proj2 (key_okb_spec k)) by done.
    rewrite (proj2 (cut_at_Some _ _ ds v)) by (split; [done|apply digits_no_space, Ht]).
    rewrite (proj2 (ttl_of_spec ds ttl)) by done. by bool_lia.
Qed.

(** The executable parser accepts exactly the lines of the grammar, with the
    command the grammar gives them. *)
Lemma parse_line_spec s c : c <> Bad -> parse_line s = c <-> request s c.
Proof.
  intros Hc. unfold parse_line. split.
  - destruct (strip_prefix (lit "GET ") s) as [k|] eqn:H1.
    { apply strip_prefix_Some in H1 as ->. destruct (key_okb k) eqn:Hk; [|congruence].
      intros <-. apply request_get. by apply key_okb_spec. }
    destruct (strip_prefix (lit "DELETE ") s) as [k|] eqn:H2.
    { apply strip_prefix_Some in H2 as ->. destruct (key_okb k) eqn:Hk; [|congruence].
      intros <-. apply request_delete. by apply key_okb_spec. }
    destruct (strip_prefix (lit "SET ") s) as [r|] eqn:H3; [|congruence].
    apply strip_prefix_Some in H3 as ->. rewrite parse_set_spec by done.
    intros (k & ds & ttl & v & -> & -> & Hk & Ht & Hv). by apply (request_set k ds).
  - intros [k Hk|k Hk|k ds ttl v Hk Ht Hv].
    + by rewrite (proj2 (strip_prefix_Some _ _ k)), (proj2 (key_okb_spec k)) by done.
    + change (strip_prefix (lit "GET ") (lit "DELETE " ++ k)) with (@None (list byte)).
      by rewrite (proj2 (strip_prefix_Some _ _ k)), (proj2 (key_okb_spec k)) by done.
    + set (r := k ++ _). change (strip_prefix (lit "GET ") (lit "SET " ++ r)) with (@None (list byte)).
      change (strip_prefix (lit "DELETE ") (lit "SET " ++ r)) with (@None (list byte)).
      rewrite (proj2 (strip_prefix_Some _ _ r)) by done.
      apply parse_set_spec; [done|]. eauto 10.
Qed.

(** What a client may ask. *)
Definition command_ok (c : command) : Prop :=
  match c with
  | Get k | Delete k => key_ok k
  | Set_ k ttl v => key_ok k /\ 0 <= ttl <= TTL_MAX /\ 0 < zlen v <= VALUE_MAX
  | Bad => False
  end.

(** Every admissible command is recovered from its printed line. *)
Lemma parse_print c : command_ok c -> parse_line (print_command c) = c.
Proof.
  intros Hok. apply parse_line_spec; [by destruct c|].
  destruct c as [k|k|k ttl v|]; cbn [print_command command_ok] in *;
    [by apply request_get|by apply request_delete| |done].
  destruct Hok as (Hk & Ht & Hv). apply request_set; [done| |done].
  destruct (decimal_spec ttl) as (Hf & Hd & Hl & Hne); [lia|].
  repeat split; [|apply Hl; unfold TTL_MAX in *; lia|done|done|lia].
  destruct (decimal ttl); simpl; [done|lia].
Qed.

(** The key of a line without a line end has none. *)
Lemma print_set_get_lf k ttl v : LF ∉ print_command (Set_ k ttl v) -> LF ∉ print_command (Get k).
Proof.
  cbn [print_command]. intros Hlf. rewrite !elem_of_app in Hlf. rewrite elem_of_app.
  assert (Hg : LF ∉ lit "GET ") by (apply (bool_decide_eq_true_1 (LF ∉ lit "GET ")); reflexivity).
  intros [H|H]; [exact (Hg H)|]. apply Hlf. right. left. exact H.
Qed.
