(* ===== verification/CacheServer.v ===== *)
(** * The functions of in-mem-cache/server.c

    Every function of the server that is not in [CacheStore] or [CacheProto], as
    an interaction tree over [cacheE].  The definitions follow the source
    statement by statement; the local arrays are indeterminate until they are
    written. *)

From S2P Require Import Prelude CLib Effects CacheSpec CacheStore CacheProto.
Local Open Scope Z_scope.
Local Open Scope prog_scope.

(** ** Constants *)

Definition LINE_MAX : Z := 64 * 1024.
Definition RECV_BUF : Z := 4096.
Definition LISTEN_BACKLOG : Z := 16.
Definition CLIENT_LIMIT : Z := 32.
Definition DEFAULT_PORT : Z := 11211.
Definition EINTR : Z := 4.

(** [size_t] arithmetic wraps. *)
Definition size_t (z : Z) : Z := z mod 2 ^ 64.

(** ** Events *)

Inductive mutex := store_mutex | client_count_mutex.

#[export] Instance mutex_eq_decision : EqDecision mutex.
Proof. solve_decision. Defined.

(** What the server asks of its environment: the shared variables and their
    mutexes, the clock, the sockets, the heap and the threads. *)
Variant cacheE : Type -> Type :=
| Lock (m : mutex) : cacheE unit
| Unlock (m : mutex) : cacheE unit
| StoreOp {A} (f : store -> ub (A * store)) : cacheE A  (** a statement on [store] *)
| CountOp {A} (f : Z -> A * Z) : cacheE A               (** one on [active_clients] *)
| ClockGettime : cacheE (Z * Z)                         (** tv_sec, tv_nsec *)
| Send (fd : Z) (data : list byte) : cacheE (sysres Z)
| Recv (fd len : Z) : cacheE (sysres (list byte))
| Close (fd : Z) : cacheE unit
| Accept (listener : Z) : cacheE (sysres Z)
| Malloc : cacheE (option Z)
| Free (p : Z) : cacheE unit
| PthreadCreate (arg fd : Z) : cacheE bool              (** false: it failed *)
| PthreadDetach : cacheE unit
| Perror (what : string) : cacheE unit
| Print (to_stderr : bool) (text : list byte) : cacheE unit
| IgnoreSigpipe : cacheE unit
| Socket : cacheE (sysres Z)
| SetReuseaddr (fd : Z) : cacheE unit
| InetPton (host : list byte) : cacheE bool             (** true: it returned 1 *)
| Bind (fd : Z) (host : list byte) (port : Z) : cacheE (sysres unit)
| Listen (fd backlog : Z) : cacheE (sysres unit)
| Undefined : cacheE Empty_set.

#[export] Instance cacheE_ub : HasUB cacheE := Undefined.

Abbreviation prog := (itree cacheE).

(** ** Client slots *)

Definition reserve_client_slot : prog bool :=
  call (Lock client_count_mutex) ;!
  let* room := call (CountOp (fun n => (n <? CLIENT_LIMIT, n))) in
  let* reserved :=
    (if room : bool then call (CountOp (fun n => (tt, size_t (n + 1)))) ;! Ret true
     else Ret false) in
  call (Unlock client_count_mutex) ;!
  Ret reserved.

Definition release_client_slot : prog unit :=
  call (Lock client_count_mutex) ;!
  call (CountOp (fun n => (tt, size_t (n - 1)))) ;!
  call (Unlock client_count_mutex).

(** ** Time *)

(** [(long long)ts.tv_sec * 1000LL + ts.tv_nsec / 1000000LL] *)
Definition ms_of (sec nsec : Z) : ub Z :=
  (let? s := llong (sec * 1000) in llong (s + Z.quot nsec 1000000))%ub.

Definition now_ms : prog Z :=
  let* ' (sec, nsec) := call ClockGettime in
  let? ms := ms_of sec nsec in
  Ret ms.

(** ** Replies *)

(** The bytes [send] reads from memory. *)
Fixpoint read_bytes (n : nat) (p : buf) {struct n} : ub (list byte) :=
  match n with
  | O => Some []
  | S n' =>
      match p with
      | Some c :: r => match read_bytes n' r with Some s => Some (c :: s) | None => None end
      | _ => None
      end
  end.

Definition send_all (fd : Z) (p : buf) (len : Z) : prog Z :=
  ITree.iter (fun sent =>
    if sent <? len then
      let? data := read_bytes (Z.to_nat (len - sent)) (drop (Z.to_nat sent) p) in
      let* r := call (Send fd data) in
      match r with
      | Err e => if e =? EINTR then Ret (inl sent) else Ret (inr (-1))
      | Ok n => if n =? 0 then Ret (inr (-1)) else Ret (inl (sent + n))
      end
    else Ret (inr 0)) 0.

Definition send_error (fd : Z) : prog Z := send_all fd (literal "ERROR\n") 6.

Definition send_reply (fd : Z) (fmt : string) (args : list fmt_arg) : prog Z :=
  let? ' (n, b) := vsnprintf (VALUE_MAX + 32) (lit fmt) args in
  if (n <? 0) || (VALUE_MAX + 32 <=? n) then send_error fd else send_all fd b n.
Arguments send_reply fd fmt%_string args%_list.

(** ** One command *)

(** The critical section of GET, on a validated key, and its reply. *)
Definition get_locked (fd : Z) (key : buf) : prog Z :=
  call (Lock store_mutex) ;!
  let* now := now_ms in
  let* idx := call (StoreOp (lookup key now)) in
  if idx <? 0 then
    call (Unlock store_mutex) ;!
    send_reply fd "NOT_FOUND\n" []
  else
    let* value := call (StoreOp (read_value idx (undef (VALUE_MAX + 1)))) in
    call (Unlock store_mutex) ;!
    send_reply fd "VALUE %s\n" [AStr value].

Definition handle_get (fd : Z) (key : buf) : prog Z :=
  let? klen := strlen key in
  let? ok := valid_key key klen in
  if negb ok then send_reply fd "ERROR\n" [] else get_locked fd key.

(** The critical section of DELETE, on a validated key, and its reply. *)
Definition delete_locked (fd : Z) (key : buf) : prog Z :=
  call (Lock store_mutex) ;!
  let* now := now_ms in
  let* idx := call (StoreOp (lookup key now)) in
  if idx <? 0 then
    call (Unlock store_mutex) ;!
    send_reply fd "NOT_FOUND\n" []
  else
    call (StoreOp (set_used idx 0)) ;!
    call (Unlock store_mutex) ;!
    send_reply fd "OK\n" [].

Definition handle_delete (fd : Z) (key : buf) : prog Z :=
  let? klen := strlen key in
  let? ok := valid_key key klen in
  if negb ok then send_reply fd "ERROR\n" [] else delete_locked fd key.

(** The statements that fill the slot [idx]. *)
Definition fill_slot (idx : Z) (key : buf) (klen : Z) (value : buf) (n ttl now : Z) : prog unit :=
  call (StoreOp (copy_key idx key klen)) ;!
  call (StoreOp (copy_value idx value n)) ;!
  call (StoreOp (set_vlen idx n)) ;!
  call (StoreOp (set_used idx 1)) ;!
  if ttl =? 0 then call (StoreOp (set_has_expiry idx 0))
  else
    call (StoreOp (set_has_expiry idx 1)) ;!
    call (StoreOp (set_expires idx now ttl)).

(** The critical section of SET, on a validated key, TTL and value. *)
Definition set_locked (fd : Z) (key : buf) (klen ttl : Z) (value : buf) (n : Z) : prog Z :=
  call (Lock store_mutex) ;!
  let* now := now_ms in
  let* idx := call (StoreOp (lookup key now)) in
  let* idx := (if idx <? 0 then call (StoreOp (free_slot now)) else Ret idx) in
  if idx <? 0 then
    call (Unlock store_mutex) ;!
    send_reply fd "ERROR\n" []
  else
    fill_slot idx key klen value n ttl now ;!
    call (Unlock store_mutex) ;!
    send_reply fd "OK\n" [].

Definition handle_set (fd : Z) (p : buf) : prog Z :=
  let? sp1 := strchr p SPACE in
  match sp1 with
  | None => send_reply fd "ERROR\n" []
  | Some klen =>
      let? ok := valid_key p klen in
      if negb ok then send_reply fd "ERROR\n" [] else
      let? key := memcpy (undef (KEY_MAX + 1)) 0 p klen in
      let? key := store_byte key klen NUL in
      let ts := drop (Z.to_nat (klen + 1)) p in
      let? sp2 := strchr ts SPACE in
      match sp2 with
      | None => send_reply fd "ERROR\n" []
      | Some tlen =>
          let? ttl := parse_ttl ts tlen in
          match ttl with
          | None => send_reply fd "ERROR\n" []
          | Some ttl =>
              let value := drop (Z.to_nat (tlen + 1)) ts in
              let? n := strlen value in
              if (n =? 0) || (VALUE_MAX <? n) then send_reply fd "ERROR\n" []
              else set_locked fd key klen ttl value n
          end
      end
  end.

Definition handle_line (fd : Z) (line : buf) : prog Z :=
  let? c := strncmp line (literal "GET ") 4 in
  if c =? 0 then handle_get fd (drop 4 line) else
  let? c := strncmp line (literal "DELETE ") 7 in
  if c =? 0 then handle_delete fd (drop 7 line) else
  let? c := strncmp line (literal "SET ") 4 in
  if c =? 0 then handle_set fd (drop 4 line) else
  send_reply fd "ERROR\n" [].

(** ** One client *)

(** What the loops of [handle_client] end with. *)
Inductive line_exit :=
| LinesDone (processed : Z)   (** break: no complete line is left *)
| ClientDone.                 (** return from [handle_client] *)

(** Strip the line end: [line[linelen] = NUL], and the CR before it. *)
Definition strip_line (line : buf) (linelen : Z) : ub buf :=
  (let? line := store_byte line linelen NUL in
   if 0 <? linelen then
     let? c := load_byte line (linelen - 1) in
     if decide (c = CR) then store_byte line (linelen - 1) NUL else Some line
   else Some line)%ub.

(** The body of the inner loop, from the byte [processed] of [pending]. *)
Definition process_line (fd : Z) (pending : buf) (pending_len processed : Z) : prog (Z + line_exit) :=
  let? nl := memchr (drop (Z.to_nat processed) pending) LF (pending_len - processed) in
  match nl with
  | None => Ret (inr (LinesDone processed))
  | Some linelen =>
      let? line := memcpy (undef (LINE_MAX + 1)) 0 (drop (Z.to_nat processed) pending) linelen in
      let processed := processed + (linelen + 1) in
      let? nul := memchr line NUL linelen in
      match nul with
      | Some _ =>
          let* r := send_error fd in
          if negb (r =? 0) then Ret (inr ClientDone) else Ret (inl processed)
      | None =>
          let? line := strip_line line linelen in
          let? c := load_byte line 0 in
          if decide (c = NUL) then
            let* r := send_error fd in
            if negb (r =? 0) then Ret (inr ClientDone) else Ret (inl processed)
          else
            let* r := handle_line fd line in
            if negb (r =? 0) then Ret (inr ClientDone) else Ret (inl processed)
      end
  end.

Definition process_lines (fd : Z) (pending : buf) (pending_len : Z) : prog line_exit :=
  ITree.iter (process_line fd pending pending_len) 0.

(** Drop the processed bytes. *)
Definition compact (pending : buf) (pending_len processed : Z) : ub (buf * Z) :=
  (if 0 <? processed then
     let? pending := memmove pending 0 processed (pending_len - processed) in
     Some (pending, pending_len - processed)
   else Some (pending, pending_len))%ub.

(** The body of the outer loop. *)
Definition client_step (fd : Z) (st : buf * Z) : prog ((buf * Z) + unit) :=
  let '(pending, pending_len) := st in
  let* r := call (Recv fd RECV_BUF) in
  match r with
  | Err e => if e =? EINTR then Ret (inl (pending, pending_len)) else Ret (inr tt)
  | Ok chunk =>
      let n := zlen chunk in
      if n =? 0 then Ret (inr tt)
      else if LINE_MAX <? pending_len + n then send_error fd ;! Ret (inr tt)
      else
        let? pending := memcpy pending pending_len (init chunk) n in
        let pending_len := pending_len + n in
        let* lines := process_lines fd pending pending_len in
        match lines with
        | ClientDone => Ret (inr tt)
        | LinesDone processed =>
            let? ' (pending, pending_len) := compact pending pending_len processed in
            if LINE_MAX <? pending_len then send_error fd ;! Ret (inr tt)
            else Ret (inl (pending, pending_len))
        end
  end.

Definition handle_client (fd : Z) : prog unit :=
  ITree.iter (client_step fd) (undef (LINE_MAX + 1), 0).

(** [argument] points to the descriptor [fd]. *)
Definition client_thread (argument fd : Z) : prog unit :=
  call (Free argument) ;!
  handle_client fd ;!
  call (Close fd) ;!
  release_client_slot.

(** ** The accept loop of [main] *)

Definition accept_step (listener : Z) : prog (unit + Empty_set) :=
  let* client := call (Accept listener) in
  match client with
  | Err e => if e =? EINTR then Ret (inl tt) else call (Perror "accept") ;! Ret (inl tt)
  | Ok client =>
      let* reserved := reserve_client_slot in
      if negb reserved then
        send_error client ;!
        call (Close client) ;!
        Ret (inl tt)
      else
        let* argument := call Malloc in
        match argument with
        | None =>
            release_client_slot ;!
            call (Close client) ;!
            Ret (inl tt)
        | Some p =>
            let* created := call (PthreadCreate p client) in
            if created : bool then call PthreadDetach ;! Ret (inl tt)
            else
              call (Free p) ;!
              release_client_slot ;!
              call (Close client) ;!
              Ret (inl tt)
        end
  end.

Definition accept_loop (listener : Z) : prog Empty_set :=
  ITree.iter (fun _ => accept_step listener) tt.

(** ** [main] *)

Inductive args_result :=
| ArgsOk (host : buf) (port : Z)
| ArgsBadPort
| ArgsUsage (code : Z).

(** The loop over [argv], from the argument after the program's name. *)
Fixpoint parse_args (argv : list buf) (host : buf) (port : Z) {struct argv} : ub args_result :=
  (match argv with
   | [] => Some (ArgsOk host port)
   | a :: rest =>
       let? is_host := strcmp a (literal "--listen-host") in
       match is_host =? 0, rest with
       | true, next :: rest' => parse_args rest' next port
       | _, _ =>
           let? is_port := strcmp a (literal "--listen-port") in
           match is_port =? 0, rest with
           | true, next :: rest' =>
               let? ' (v, end_) := strtol next in
               let? c := load_byte next end_ in
               if negb (bool_decide (c = NUL)) || (v <? 1) || (65535 <? v) then Some ArgsBadPort
               else parse_args rest' host v
           | _, _ =>
               let? is_help := strcmp a (literal "--help") in
               if is_help =? 0 then Some (ArgsUsage 0) else
               let? is_h := strcmp a (literal "-h") in
               if is_h =? 0 then Some (ArgsUsage 0) else Some (ArgsUsage 2)
           end
       end
   end)%ub.

Definition usage (prog_name : buf) : prog unit :=
  let? text := expand (lit "Usage: %s [--listen-host HOST] [--listen-port PORT]\n") [AStr prog_name] in
  call (Print true text).

(** From the creation of the listening socket on. *)
Definition serve (host_p : buf) (port : Z) : prog Z :=
  call IgnoreSigpipe ;!
  let* listener := call Socket in
  match listener with
  | Err _ => call (Perror "socket") ;! Ret 1
  | Ok listener =>
      call (SetReuseaddr listener) ;!
      let? host := cstring host_p in
      let* ok := call (InetPton host) in
      if negb ok then
        call (Print true (lit "invalid listen host: " ++ host ++ [LF])) ;!
        call (Close listener) ;!
        Ret 2
      else
        let* r := call (Bind listener host port) in
        match r with
        | Err _ => call (Perror "bind") ;! call (Close listener) ;! Ret 1
        | Ok _ =>
            let* r := call (Listen listener LISTEN_BACKLOG) in
            match r with
            | Err _ => call (Perror "listen") ;! call (Close listener) ;! Ret 1
            | Ok _ =>
                call (Print false (lit "serving cache on " ++ host ++ lit ":" ++ decimal port ++ lit " ...\n")) ;!
                let* r := accept_loop listener in
                match r with end
            end
        end
  end.

Definition main (prog_name : buf) (argv : list buf) : prog Z :=
  let? args := parse_args argv (literal "127.0.0.1") DEFAULT_PORT in
  match args with
  | ArgsOk host port => serve host port
  | ArgsBadPort => call (Print true (lit "port must be between 1 and 65535\n")) ;! Ret 2
  | ArgsUsage code => usage prog_name ;! Ret code
  end.
