(* ===== verification/CacheRefine.v ===== *)
(** * The critical sections implement the contract

    What the statements a command makes on the store do to the map the store
    stands for: each section of [handle_line] is one step of [CacheSpec]. *)

From S2P Require Import Prelude CLib Effects CacheSpec CacheStore CacheProto CacheServer.
Local Open Scope Z_scope.

(** ** The simulation relation *)

(** The store and the map agree on what can be observed from time [now] on. *)
Definition refines (now : Z) (st : store) (m : cache) : Prop :=
  store_wf st /\ live now (store_abs st) = live now m.

Lemma refines_mono now now' st m : now <= now' -> refines now st m -> refines now' st m.
Proof. intros Hle [Hwf Hl]. split; [done|]. by eapply live_eq_mono. Qed.

Lemma refines_zero now : refines now store_zero ∅.
Proof. split; [apply store_zero_wf|]. by rewrite store_zero_abs. Qed.

(** ** Statements on one slot *)

Lemma update_ok idx f st e e' :
  0 <= idx -> st !! Z.to_nat idx = Some e -> f e = Some e' ->
  update idx f st = Some (tt, <[Z.to_nat idx := e']> st).
Proof. intros Hi He Hf. unfold update, assert_ub. bool_lia. by rewrite He, Hf. Qed.

(** After a statement wrote the slot [idx], the next one writes it again. *)
Lemma update_again idx f st e e1 e2 :
  0 <= idx -> st !! Z.to_nat idx = Some e -> f e1 = Some e2 ->
  update idx f (<[Z.to_nat idx := e1]> st) = Some (tt, <[Z.to_nat idx := e2]> st).
Proof.
  intros Hi He Hf. assert (Z.to_nat idx < length st)%nat by by eapply lookup_lt_Some.
  rewrite (update_ok _ _ _ e1 e2); [|done| |done].
  - by rewrite list_insert_insert_eq.
  - by rewrite list_lookup_insert_eq.
Qed.

(** The statements of [fill_slot], as one function of the store. *)
Definition fill_store (idx : Z) (key : buf) (klen : Z) (value : buf) (n ttl now : Z) (st : store)
  : ub (unit * store) :=
  (let? ' (_, st) := copy_key idx key klen st in
   let? ' (_, st) := copy_value idx value n st in
   let? ' (_, st) := set_vlen idx n st in
   let? ' (_, st) := set_used idx 1 st in
   if ttl =? 0 then set_has_expiry idx 0 st
   else
     let? ' (_, st) := set_has_expiry idx 1 st in
     set_expires idx now ttl st)%ub.

(** No expiry time overflows when the clock is below this bound. *)
Definition NOW_MAX : Z := LLONG_MAX - TTL_MAX * 1000.

Lemma llong_ok z : LLONG_MIN <= z <= LLONG_MAX -> llong z = Some z.
Proof.
  intros H. unfold llong, assert_ub. by rewrite !(proj2 (Z.leb_le _ _)) by lia.
Qed.

(** Filling a slot binds the key, whatever the slot held. *)
Lemma fill_store_spec idx kp k vp v n ttl now st e :
  store_wf st -> 0 <= idx -> st !! Z.to_nat idx = Some e ->
  (entry_abs e = None /\ store_abs st !! k = None \/ exists x, entry_abs e = Some (k, x)) ->
  is_cstr kp k -> key_ok k -> is_cstr vp v -> n = zlen v -> value_ok v ->
  0 <= ttl <= TTL_MAX -> 0 <= now <= NOW_MAX ->
  exists st', fill_store idx kp (zlen k) vp n ttl now st = Some (tt, st') /\ store_wf st' /\
    store_abs st' = <[k := Item v (expiry now ttl)]> (store_abs st).
Proof.
  intros Hwf Hi He Hold Hk Hko Hv -> Hvo Ht Hnow. unfold NOW_MAX, LLONG_MAX, LONG_MAX, TTL_MAX in *.
  destruct (wf_entries _ Hwf _ _ He) as [Hkl Hvl _].
  destruct (memcpy_cstr (e_key e) kp k (zlen k + 1)) as (kb & Hkb & Hks & Hkbl);
    [done|done|unfold key_ok in *; lia|].
  destruct (memcpy_cstr (e_value e) vp v (zlen v + 1)) as (vb & Hvb & Hvs & Hvbl);
    [done|done|unfold value_ok in *; lia|].
  set (e5 h t := Entry 1 kb vb (zlen v) t h).
  assert (Hlast : forall h t, it_expires (Item v (expiry now ttl)) = (if truth h then Some t else None) ->
    store_wf (<[Z.to_nat idx := e5 h t]> st) /\
    store_abs (<[Z.to_nat idx := e5 h t]> st) = <[k := Item v (expiry now ttl)]> (store_abs st)).
  { intros h t Hx. simpl in Hx. apply (store_bind _ _ e); [done..| | |done].
    - split; simpl; [by rewrite Hkbl|by rewrite Hvbl|]. intros _. eauto 10.
    - unfold entry_abs. simpl. by rewrite (cstring_cstr _ _ Hks), (cstring_cstr _ _ Hvs), Hx. }
  unfold fill_store, copy_key, copy_value, set_vlen, set_used, set_has_expiry, set_expires.
  rewrite (update_ok _ _ _ e (with_key kb e)); [|done..|by rewrite Hkb].
  rewrite (update_again _ _ _ e _ (with_value vb (with_key kb e))); [|done..|by simpl; rewrite Hvb].
  set (e2 := with_value vb (with_key kb e)).
  rewrite (update_again _ _ _ e _ (with_vlen (zlen v) e2)) by done.
  rewrite (update_again _ _ _ e _ (with_used 1 (with_vlen (zlen v) e2))) by done.
  destruct (Z.eqb_spec ttl 0) as [->|Hne].
  - rewrite (update_again _ _ _ e _ (e5 0 (expires_at_ms e))) by done.
    eexists. split; [done|]. by apply Hlast.
  - rewrite (update_again _ _ _ e _ (e5 1 (expires_at_ms e))) by done.
    rewrite (update_again _ _ _ e _ (e5 1 (now + ttl * 1000))); [|done..|].
    + eexists. split; [done|]. apply Hlast. unfold expiry. simpl. by rewrite (proj2 (Z.eqb_neq _ _)).
    + simpl. rewrite !llong_ok by (unfold LLONG_MIN, LLONG_MAX, LONG_MIN, LONG_MAX; lia). done.
Qed.

(** ** The three critical sections *)

(** GET: the lookup, and the copy of the value of the slot found. *)
Lemma get_section now st m p k :
  refines now st m -> is_cstr p k ->
  exists idx st', lookup p now st = Some (idx, st') /\ refines now st' m /\
    match live now m !! k with
    | None => idx < 0
    | Some it => 0 <= idx /\ value_ok (it_value it) /\
        exists b, read_value idx (undef (VALUE_MAX + 1)) st' = Some (b, st') /\
          is_cstr b (it_value it)
    end.
Proof.
  intros [Hwf Hl] Hp.
  destruct (lookup_spec st p k now Hwf Hp) as (idx & st' & Hlk & Hwf' & Hl' & Hres).
  exists idx, st'. split; [done|]. split; [split; [done|congruence]|].
  rewrite Hl in Hres. destruct (live now m !! k) as [it|]; [|lia].
  destruct Hres as (-> & Hi & e & He & Habs). split; [done|].
  destruct (entry_wf_abs e) as (k' & it' & Habs' & _ & Hv & Hn & _ & Hvo & _);
    [by eapply wf_entries|by eapply entry_abs_used|]. simplify_eq. split; [done|].
  destruct (memcpy_cstr (undef (VALUE_MAX + 1)) (e_value e) (it_value it) (vlen e + 1))
    as (b & Hb & Hbs & _); [by rewrite Hn|done| |].
  { rewrite length_undef by done. unfold value_ok in *. lia. }
  exists b. split; [|done]. unfold read_value, assert_ub. bool_lia. by rewrite He, Hb.
Qed.

(** DELETE: the lookup, and the release of the slot found. *)
Lemma delete_section now st m p k :
  refines now st m -> is_cstr p k ->
  exists idx st', lookup p now st = Some (idx, st') /\
    match live now m !! k with
    | None => idx < 0 /\ refines now st' m
    | Some _ => 0 <= idx /\
        exists st'', set_used idx 0 st' = Some (tt, st'') /\ refines now st'' (delete k m)
    end.
Proof.
  intros [Hwf Hl] Hp.
  destruct (lookup_spec st p k now Hwf Hp) as (idx & st' & Hlk & Hwf' & Hl' & Hres).
  exists idx, st'. split; [done|]. rewrite Hl in Hres.
  destruct (live now m !! k) as [it|].
  - destruct Hres as (-> & Hi & e & He & Habs). split; [done|].
    exists (<[Z.to_nat idx := with_used 0 e]> st). split; [by apply (update_ok _ _ _ e)|].
    destruct (store_release _ _ _ Hwf He) as (Hwf'' & Hd & _). split; [done|].
    rewrite (Hd _ _ Habs). by apply live_delete.
  - destruct Hres as [-> _]. split; [lia|]. split; [done|congruence].
Qed.

(** SET: the lookup, the search for a free slot when it fails, and the writes. *)
Lemma set_section now st m p k ttl vp v :
  refines now st m -> is_cstr p k -> key_ok k -> is_cstr vp v -> value_ok v ->
  0 <= ttl <= TTL_MAX -> 0 <= now <= NOW_MAX ->
  exists idx st1 idx' st2,
    lookup p now st = Some (idx, st1) /\
    (if idx <? 0 then free_slot now st1 else Some (idx, st1)) = Some (idx', st2) /\
    match spec_step m now (Set_ k ttl v) with
    | (ROk, m') => 0 <= idx' /\
        exists st3, fill_store idx' p (zlen k) vp (zlen v) ttl now st2 = Some (tt, st3) /\ refines now st3 m'
    | (_, m') => idx' < 0 /\ m' = m /\ refines now st2 m
    end.
Proof.
  intros [Hwf Hl] Hp Hko Hvp Hvo Ht Hnow.
  destruct (lookup_spec st p k now Hwf Hp) as (idx & st1 & Hlk & Hwf1 & Hl1 & Hres).
  exists idx, st1. simpl. rewrite Hl in Hres.
  destruct (live now m !! k) as [it|] eqn:Hk.
  - destruct Hres as (-> & Hi & e & He & Habs). exists idx, st. bool_lia.
    split; [done|]. split; [done|]. split; [done|].
    destruct (fill_store_spec idx p k vp v (zlen v) ttl now st e) as (st3 & Hf & Hwf3 & Habs3);
      eauto. exists st3. split; [done|]. split; [done|]. rewrite Habs3. by apply live_insert.
  - destruct Hres as [-> Hk1].
    destruct (free_slot_spec st1 now Hwf1) as (idx' & st2 & Hfs & Hwf2 & Hl2 & Hsub & Hres).
    exists idx', st2. split; [done|]. split; [done|]. rewrite Hl1, Hl in Hres.
    destruct (_ <? STORE_CAP).
    + destruct Hres as (Hi & e & He & Hnone). split; [done|].
      assert (Hk2 : store_abs st2 !! k = None) by by eapply lookup_weaken_None.
      destruct (fill_store_spec idx' p k vp v (zlen v) ttl now st2 e) as (st3 & Hf & Hwf3 & Habs3);
        eauto. exists st3. split; [done|]. split; [done|]. rewrite Habs3.
      apply live_insert. congruence.
    + subst idx'. split; [lia|]. split; [done|]. split; [done|congruence].
Qed.
