(* ===== verification/CacheLine.v ===== *)
(** * A request line, from its bytes to its critical section

    [handle_line] on a C string does what the grammar says of the string: an
    admissible command enters its critical section with its parts, anything else
    is answered ERROR without touching the store. *)

From S2P Require Import Prelude CLib Effects CacheSpec CacheStore CacheProto CacheServer CacheRefine.
Local Open Scope Z_scope.

(** The test [strncmp(line, "...", n) == 0] of a prefix. *)
Lemma strncmp_literal p s w :
  is_cstr p s -> NUL ∉ lit w ->
  exists z, strncmp p (literal w) (length (lit w)) = Some z /\
    (z =? 0) = match strip_prefix (lit w) s with Some _ => true | None => false end.
Proof.
  intros Hp Hw. destruct (strncmp_cstr p s (lit w) [Some NUL] Hp Hw) as (z & Hz & Hiff).
  exists z. split; [done|]. destruct (strip_prefix (lit w) s) as [r|] eqn:E.
  - apply Z.eqb_eq, Hiff. apply strip_prefix_Some in E as ->. by eexists.
  - apply Z.eqb_neq. intros [r Hr]%Hiff. apply (strip_prefix_Some _ _ r) in Hr. congruence.
Qed.

Lemma is_cstr_strip p w s r :
  is_cstr p s -> strip_prefix w s = Some r -> is_cstr (drop (length w) p) r.
Proof.
  intros Hp ->%strip_prefix_Some. apply (is_cstr_drop _ _ (length w)) in Hp.
  - by rewrite drop_app_length in Hp.
  - rewrite length_app. lia.
Qed.

Lemma is_cstr_after p a c b :
  is_cstr p (a ++ c :: b) -> is_cstr (drop (Z.to_nat (zlen a + 1)) p) b.
Proof.
  intros H. apply (is_cstr_drop _ _ (length a + 1)) in H.
  - rewrite drop_app_add in H. simpl in H.
    by replace (Z.to_nat (zlen a + 1)) with (length a + 1)%nat by lia.
  - rewrite length_app. simpl. lia.
Qed.

Lemma is_cstr_prefix p a b : is_cstr p (a ++ b) -> exists q, p = init a ++ q /\ NUL ∉ a.
Proof.
  intros (r & -> & Hn). exists (init b ++ Some NUL :: r). unfold init.
  rewrite fmap_app, <-app_assoc. split; [done|]. rewrite elem_of_app in Hn. tauto.
Qed.

(** The key SET copies out of the line. *)
Lemma copied_key p k c r :
  is_cstr p (k ++ c :: r) -> key_ok k ->
  exists b kp, memcpy (undef (KEY_MAX + 1)) 0 p (zlen k) = Some b /\
    store_byte b (zlen k) NUL = Some kp /\ is_cstr kp k.
Proof.
  intros Hp [Hk _]. destruct (is_cstr_prefix _ _ _ Hp) as (q & -> & Hn).
  assert (Hu : zlen (undef (KEY_MAX + 1)) = KEY_MAX + 1) by by apply length_undef.
  rewrite memcpy_init by (done || rewrite Hu; lia). eexists _, _. split; [done|].
  rewrite terminate by (done || rewrite Hu; lia). split; [done|]. by apply is_cstr_intro.
Qed.

(** What [handle_set] does with the text after "SET ". *)
Lemma handle_set_spec fd p r :
  is_cstr p r ->
  match parse_set r with
  | Set_ k ttl v => exists kp vp, is_cstr kp k /\ is_cstr vp v /\
      handle_set fd p = set_locked fd kp (zlen k) ttl vp (zlen v)
  | Bad => handle_set fd p = send_reply fd "ERROR\n" []
  | _ => False
  end.
Proof.
  intros Hp. unfold parse_set, handle_set. destruct (cut_at SPACE r) as [[k r']|] eqn:H1.
  2: { by rewrite (strchr_None p r) by (done || by apply cut_at_None). }
  apply cut_at_Some in H1 as [-> Hk]. rewrite (strchr_Some p k _ r') by done.
  assert (Hvk : valid_key p (zlen k) = Some (key_okb k)).
  { destruct (is_cstr_prefix _ _ _ Hp) as (q & -> & _). apply valid_key_init. }
  rewrite Hvk.
  destruct (key_okb k) eqn:Hko; [|done]. apply key_okb_spec in Hko. simpl negb. cbv iota.
  destruct (copied_key _ _ _ _ Hp Hko) as (b & kp & -> & -> & Hkp).
  pose proof (is_cstr_after _ _ _ _ Hp) as Hts. set (ts := drop _ p) in *. clearbody ts.
  destruct (cut_at SPACE r') as [[ds v]|] eqn:H2.
  2: { by rewrite (strchr_None ts r') by (done || by apply cut_at_None). }
  apply cut_at_Some in H2 as [-> Hds]. rewrite (strchr_Some ts ds _ v) by done.
  assert (Hpt : parse_ttl ts (zlen ds) = Some (ttl_of ds)).
  { destruct (is_cstr_prefix _ _ _ Hts) as (q & -> & _). apply parse_ttl_init. }
  rewrite Hpt. destruct (ttl_of ds) as [ttl|]; [|done].
  pose proof (is_cstr_after _ _ _ _ Hts) as Hv. set (vp := drop _ ts) in *. clearbody vp.
  rewrite (strlen_cstr _ _ Hv). rewrite Z.leb_antisym.
  destruct (Z.eqb_spec (zlen v) 0) as [E|E]; simpl.
  - by rewrite (proj2 (Z.ltb_ge 0 (zlen v))) by lia.
  - rewrite (proj2 (Z.ltb_lt 0 (zlen v))) by lia.
    destruct (VALUE_MAX <? zlen v); simpl; [done|]. eauto.
Qed.

(** [handle_line], by the command on the line. *)
Lemma handle_line_spec fd p s :
  is_cstr p s ->
  match parse_line s with
  | Get k => exists kp, is_cstr kp k /\ handle_line fd p = get_locked fd kp
  | Delete k => exists kp, is_cstr kp k /\ handle_line fd p = delete_locked fd kp
  | Set_ k ttl v => exists kp vp, is_cstr kp k /\ is_cstr vp v /\
      handle_line fd p = set_locked fd kp (zlen k) ttl vp (zlen v)
  | Bad => handle_line fd p = send_reply fd "ERROR\n" []
  end.
Proof.
  intros Hp. unfold handle_line, parse_line.
  assert (Hw : forall w, bool_decide (NUL ∉ lit w) = true -> NUL ∉ lit w)
    by (intros w; apply bool_decide_eq_true_1).
  destruct (strncmp_literal p s "GET " Hp) as (z1 & E1 & H1); [by apply Hw|].
  change (length (lit "GET ")) with 4%nat in E1. rewrite E1, H1. clear E1 H1.
  destruct (strip_prefix (lit "GET ") s) as [k|] eqn:E1.
  { pose proof (is_cstr_strip _ _ _ _ Hp E1) as Hk. change (length (lit "GET ")) with 4%nat in Hk.
    unfold handle_get. rewrite (strlen_cstr _ _ Hk), (valid_key_cstr _ _ Hk).
    destruct (key_okb k); [|done]. by eexists. }
  destruct (strncmp_literal p s "DELETE " Hp) as (z2 & E2 & H2); [by apply Hw|].
  change (length (lit "DELETE ")) with 7%nat in E2. rewrite E2, H2. clear E2 H2.
  destruct (strip_prefix (lit "DELETE ") s) as [k|] eqn:E2.
  { pose proof (is_cstr_strip _ _ _ _ Hp E2) as Hk. change (length (lit "DELETE ")) with 7%nat in Hk.
    unfold handle_delete. rewrite (strlen_cstr _ _ Hk), (valid_key_cstr _ _ Hk).
    destruct (key_okb k); [|done]. by eexists. }
  destruct (strncmp_literal p s "SET " Hp) as (z3 & E3 & H3); [by apply Hw|].
  change (length (lit "SET ")) with 4%nat in E3. rewrite E3, H3. clear E3 H3.
  destruct (strip_prefix (lit "SET ") s) as [r|] eqn:E3; [|done].
  pose proof (is_cstr_strip _ _ _ _ Hp E3) as Hr. change (length (lit "SET ")) with 4%nat in Hr.
  pose proof (handle_set_spec fd _ _ Hr) as Hset. by destruct (parse_set r).
Qed.
