(* ===== verification/CacheSession.v ===== *)
(** * The sessions the cache server promises its clients

    The abstract server: one map, one clock, and a session per client.  A session
    holds the input that was received and not consumed and the part of a reply
    that is still to be sent.  A request takes effect at once, at one instant
    between its arrival and its reply; everything else a client sees follows from
    its own input.  The concrete server is shown to refine this in
    [CacheServerProof]. *)

From S2P Require Import Prelude CLib CacheSpec CacheStore CacheProto CacheServer.
Local Open Scope Z_scope.

(** ** Lines and replies *)

Definition render (r : reply) : list byte :=
  match r with
  | RValue v => lit "VALUE " ++ v ++ [LF]
  | RNotFound => lit "NOT_FOUND\n"
  | ROk => lit "OK\n"
  | RError => lit "ERROR\n"
  end.

(** A line without the CR that may end it. *)
Fixpoint strip_cr (s : list byte) : list byte :=
  match s with
  | [] => []
  | [c] => if decide (c = CR) then [] else [c]
  | c :: r => c :: strip_cr r
  end.

(** The command of a line (the bytes before its LF). *)
Definition line_command (l : list byte) : command :=
  if decide (NUL ∈ l) then Bad else parse_line (strip_cr l).

(** ** Sessions *)

Record session := Session {
  s_rx : list byte;    (** received, not consumed *)
  s_due : list byte;   (** reply bytes still to be sent *)
  s_dead : bool        (** the input was too long: nothing more is read *)
}.

Definition session_new : session := Session [] [] false.

(** Input may arrive when everything received was answered. *)
Definition sess_recv (s : session) (chunk : list byte) : option session :=
  if bool_decide (s_due s = []) && negb (s_dead s) && bool_decide (cut_at LF (s_rx s) = None)
  then Some (Session (s_rx s ++ chunk) [] false) else None.

(** The next request, when the input did not overrun the line limit. *)
Definition sess_take (s : session) : option (command * session) :=
  if bool_decide (s_due s = []) && negb (s_dead s) && (zlen (s_rx s) <=? LINE_MAX)
  then
    match cut_at LF (s_rx s) with
    | Some (l, rest) => Some (line_command l, Session rest [] false)
    | None => None
    end
  else None.

(** A request that is no command, and an overlong input, are answered ERROR. *)
Definition sess_refuse (s : session) : option session :=
  if bool_decide (s_due s = []) && negb (s_dead s) && (LINE_MAX <? zlen (s_rx s))
  then Some (Session (s_rx s) (render RError) true)
  else
    match sess_take s with
    | Some (Bad, s') => Some (Session (s_rx s') (render RError) false)
    | _ => None
    end.

(** A session about to send: a reply is under way, or a refusal is due. *)
Definition sess_sending (s : session) : option session :=
  if decide (s_due s = []) then sess_refuse s else Some s.

Definition sess_sent (s : session) (n : nat) : session :=
  Session (s_rx s) (drop n (s_due s)) (s_dead s).

(** ** The abstract server *)

Record astate := AState {
  a_map : cache;
  a_clock : Z;
  a_sessions : gmap nat session;
  a_used : gset nat            (** the clients there have been *)
}.

(** What an observer of the sockets sees of one client. *)
Inductive label :=
| LOpen (c : nat)
| LRecv (c : nat) (data : list byte)
| LSend (c : nat) (data : list byte)
| LClose (c : nat)
| LTurn (data : list byte).   (** sent to a connection that is not served *)

Inductive astep : astate -> option label -> astate -> Prop :=
| astep_open a c :
    c ∉ a_used a ->
    Z.of_nat (size (a_sessions a)) < CLIENT_LIMIT ->
    astep a (Some (LOpen c)) (AState (a_map a) (a_clock a) (<[c := session_new]> (a_sessions a)) ({[c]} ∪ a_used a))
| astep_recv a c s s' data :
    a_sessions a !! c = Some s -> data <> [] -> zlen data <= RECV_BUF ->
    sess_recv s data = Some s' ->
    astep a (Some (LRecv c data)) (AState (a_map a) (a_clock a) (<[c := s']> (a_sessions a)) (a_used a))
| astep_exec a c s cmd s' now :
    a_sessions a !! c = Some s -> sess_take s = Some (cmd, s') -> cmd <> Bad -> a_clock a <= now ->
    astep a None
      (AState (spec_step (a_map a) now cmd).2 now
         (<[c := Session (s_rx s') (render (spec_step (a_map a) now cmd).1) false]> (a_sessions a)) (a_used a))
| astep_refuse a c s s' :
    a_sessions a !! c = Some s -> sess_refuse s = Some s' ->
    astep a None (AState (a_map a) (a_clock a) (<[c := s']> (a_sessions a)) (a_used a))
| astep_send a c s n :
    a_sessions a !! c = Some s -> (0 < n <= length (s_due s))%nat ->
    astep a (Some (LSend c (take n (s_due s))))
      (AState (a_map a) (a_clock a) (<[c := sess_sent s n]> (a_sessions a)) (a_used a))
| astep_close a c s :
    a_sessions a !! c = Some s ->
    astep a (Some (LClose c)) (AState (a_map a) (a_clock a) (delete c (a_sessions a)) (a_used a))
| astep_turn a x data y :
    render RError = x ++ data ++ y -> data <> [] -> astep a (Some (LTurn data)) a
| astep_tick a now :
    a_clock a <= now -> astep a None (AState (a_map a) now (a_sessions a) (a_used a)).

(** The labels of a run. *)
Definition asteps : astate -> list label -> astate -> Prop := ltrace astep.

Definition astate_init (now : Z) : astate := AState ∅ now ∅ ∅.

(** ** Line ends *)

Lemma strip_cr_snoc l c : strip_cr (l ++ [c]) = if decide (c = CR) then l else l ++ [c].
Proof.
  induction l as [|b l IH]; [done|]. simpl. rewrite IH.
  destruct l as [|b' l]; simpl; by case_decide.
Qed.

Lemma strip_cr_elem x l : x ∈ strip_cr l -> x ∈ l.
Proof.
  destruct (decide (l = [])) as [->|Hne]; [done|].
  destruct (exists_last Hne) as (l' & c & ->). rewrite strip_cr_snoc, elem_of_app.
  case_decide; [tauto|]. by rewrite elem_of_app.
Qed.

(** The line handed to [handle_line] is the string [strip_cr l]. *)
Lemma strip_line_spec l d :
  NUL ∉ l -> zlen l < zlen d ->
  exists b, strip_line (init l ++ drop (length l) d) (zlen l) = Some b /\ is_cstr b (strip_cr l).
Proof.
  intros Hn Hd. unfold strip_line. rewrite terminate by done.
  destruct (decide (l = [])) as [->|Hne].
  - eexists. split; [done|]. by apply is_cstr_intro.
  - destruct (exists_last Hne) as (l' & c & ->). rewrite strip_cr_snoc.
    rewrite elem_of_app, list_elem_of_singleton in Hn.
    assert (Hl : zlen (l' ++ [c]) = zlen l' + 1) by (rewrite length_app; simpl; lia).
    rewrite (proj2 (Z.ltb_lt 0 _)) by lia. rewrite init_app, <-app_assoc. simpl.
    rewrite load_byte_init by lia. case_decide as Hc.
    + rewrite store_byte_init by lia. eexists. split; [done|]. apply is_cstr_intro. tauto.
    + eexists. split; [done|]. exists (drop (S (length (l' ++ [c]))) d).
      rewrite init_app, <-app_assoc. split; [done|].
      rewrite elem_of_app, list_elem_of_singleton. tauto.
Qed.

Lemma load_first b s : is_cstr b s -> exists c, load_byte b 0 = Some c /\ (c = NUL <-> s = []).
Proof. destruct s as [|c s]; intros H; cstr_inv; eexists; by split. Qed.

Lemma parse_line_nil : parse_line [] = Bad.
Proof. vm_compute. reflexivity. Qed.
