(* ===== verification/CacheThread.v ===== *)
(** * The threads of the cache server, one at a time

    A logic for one thread of the server in an arbitrary environment: the other
    threads, the clock, the sockets, the heap.  The ghost state ([view]) is what
    the thread owns: its descriptor and session, its client slots, its heap cell,
    and, while it holds a mutex, the variable the mutex protects.  The rules of
    the events ([cache_wp]) allow a shared variable to be touched only under its
    mutex and a reply only when the session owes it.  [client_thread] and the
    accept loop satisfy them. *)

From S2P Require Import Prelude CLib Effects.
From S2P Require Import CacheSpec CacheStore CacheProto CacheServer CacheRefine CacheLine CacheSession.
Local Open Scope Z_scope.

(** ** Ghost state *)

(** Inside the critical section of a command. *)
Record section := Sec {
  sec_store : store;
  sec_map : cache;      (** what the store stood for when the mutex was taken *)
  sec_cmd : command;
  sec_clock : Z;        (** the last reading of the clock *)
  sec_read : bool       (** read in this section *)
}.

(** The thread that accepts, with its listening socket, and the ones that serve
    a client. *)
Inductive role := Acceptor (listener : option Z) | Worker.

Record view := View {
  v_role : role;
  v_fd : option Z;
  v_session : option session;
  v_section : option section;
  v_count : option (Z * Z);  (** [active_clients], and the slots of the other threads *)
  v_slots : Z;
  v_heap : option Z
}.

Definition with_section (c : option section) (v : view) : view :=
  View (v_role v) (v_fd v) (v_session v) c (v_count v) (v_slots v) (v_heap v).
Definition with_session (s : option session) (v : view) : view :=
  View (v_role v) (v_fd v) s (v_section v) (v_count v) (v_slots v) (v_heap v).
Definition with_count (c : option (Z * Z)) (v : view) : view :=
  View (v_role v) (v_fd v) (v_session v) (v_section v) c (v_slots v) (v_heap v).

Definition unlocked (v : view) : Prop := v_section v = None /\ v_count v = None.

(** The documented behaviour of CLOCK_MONOTONIC: a normalised time, and the
    machine has not been up for 290 million years. *)
Definition ms (sec nsec : Z) : Z := sec * 1000 + nsec / 1000000.
Definition clock_ok (sec nsec : Z) : Prop :=
  0 <= sec /\ 0 <= nsec < 1000000000 /\ ms sec nsec <= NOW_MAX.

(** ** The rules of the events *)

Definition lock_wp (m : mutex) (Φ : unit -> view -> Prop) (v : view) : Prop :=
  unlocked v /\
  match m with
  | store_mutex =>
      match v_session v with
      | Some s =>
          match sess_take s with
          | Some (c, s') => c <> Bad /\ forall st m clk, 0 <= clk -> refines clk st m ->
              Φ tt (with_section (Some (Sec st m c clk false)) (with_session (Some s') v))
          | None => False
          end
      | None => False
      end
  | client_count_mutex => forall others, 0 <= others -> others + v_slots v <= CLIENT_LIMIT ->
      Φ tt (with_count (Some (others + v_slots v, others)) v)
  end.

Definition unlock_wp (m : mutex) (Φ : unit -> view -> Prop) (v : view) : Prop :=
  match m with
  | store_mutex =>
      match v_section v, v_session v with
      | Some c, Some s =>
          let '(r, m') := spec_step (sec_map c) (sec_clock c) (sec_cmd c) in
          sec_read c = true /\ refines (sec_clock c) (sec_store c) m' /\
          Φ tt (with_section None (with_session (Some (Session (s_rx s) (render r) false)) v))
      | _, _ => False
      end
  | client_count_mutex =>
      match v_count v with
      | Some (n, others) => 0 <= n - others /\ n <= CLIENT_LIMIT /\
          (v_session v <> None -> 1 <= n - others) /\
          Φ tt (View (v_role v) (v_fd v) (v_session v) (v_section v) None (n - others) (v_heap v))
      | None => False
      end
  end.

Definition store_wp {A} (f : store -> ub (A * store)) (Φ : A -> view -> Prop) (v : view) : Prop :=
  match v_section v with
  | Some c =>
      match f (sec_store c) with
      | Some (a, st) =>
          Φ a (with_section (Some (Sec st (sec_map c) (sec_cmd c) (sec_clock c) (sec_read c))) v)
      | None => False
      end
  | None => False
  end.

Definition count_wp {A} (f : Z -> A * Z) (Φ : A -> view -> Prop) (v : view) : Prop :=
  match v_count v with
  | Some (n, others) => let '(a, n') := f n in Φ a (with_count (Some (n', others)) v)
  | None => False
  end.

Definition clock_wp (Φ : Z * Z -> view -> Prop) (v : view) : Prop :=
  match v_section v with
  | Some c => forall s ns, clock_ok s ns -> sec_clock c <= ms s ns ->
      Φ (s, ns) (with_section (Some (Sec (sec_store c) (sec_map c) (sec_cmd c) (ms s ns) true)) v)
  | None => False
  end.

Definition send_wp (fd : Z) (data : list byte) (Φ : sysres Z -> view -> Prop) (v : view) : Prop :=
  unlocked v /\ v_fd v = Some fd /\
  match v_session v with
  | Some s =>
      match sess_sending s with
      | Some s' => data = s_due s' /\
          (forall n, 0 <= n <= zlen data -> Φ (Ok n) (with_session (Some (sess_sent s' (Z.to_nat n))) v)) /\
          (forall e, Φ (Err e) (with_session (Some s') v))
      | None => False
      end
  | None => data `suffix_of` render RError /\
      (forall n, 0 <= n <= zlen data -> Φ (Ok n) v) /\ (forall e, Φ (Err e) v)
  end.

Definition recv_wp (fd len : Z) (Φ : sysres (list byte) -> view -> Prop) (v : view) : Prop :=
  unlocked v /\ v_fd v = Some fd /\ len <= RECV_BUF /\
  match v_session v with
  | Some s => Φ (Ok []) v /\ (forall e, Φ (Err e) v) /\
      (forall data, data <> [] -> zlen data <= len ->
        match sess_recv s data with
        | Some s' => Φ (Ok data) (with_session (Some s') v)
        | None => False
        end)
  | None => False
  end.

(** A new thread takes the descriptor, the heap cell and one slot. *)
Definition create_wp (arg fd : Z) (Φ : bool -> view -> Prop) (v : view) : Prop :=
  unlocked v /\ v_session v = None /\ v_fd v = Some fd /\ v_heap v = Some arg /\ 1 <= v_slots v /\
  Φ true (View (v_role v) None None None None (v_slots v - 1) None) /\ Φ false v.

(** The connection, with its session, or the listening socket. *)
Definition close_wp (fd : Z) (Φ : unit -> view -> Prop) (v : view) : Prop :=
  unlocked v /\ match v_fd v, v_role v with
  | Some fd', r => fd' = fd /\ Φ tt (View r None None None None (v_slots v) (v_heap v))
  | None, Acceptor (Some l) =>
      l = fd /\ Φ tt (View (Acceptor None) None (v_session v) None None (v_slots v) (v_heap v))
  | None, _ => False
  end.

Definition cache_wp A (e : cacheE A) : (A -> view -> Prop) -> view -> Prop :=
  match e in cacheE A return (A -> view -> Prop) -> view -> Prop with
  | Lock m => lock_wp m
  | Unlock m => unlock_wp m
  | StoreOp f => store_wp f
  | CountOp f => count_wp f
  | ClockGettime => clock_wp
  | Send fd data => send_wp fd data
  | Recv fd len => recv_wp fd len
  | Close fd => close_wp fd
  | Accept l => fun Φ v => unlocked v /\ v_fd v = None /\ v_session v = None /\
      v_role v = Acceptor (Some l) /\
      (forall fd, Φ (Ok fd) (View (v_role v) (Some fd) None None None (v_slots v) (v_heap v))) /\
      (forall e, Φ (Err e) v)
  | Malloc => fun Φ v => v_heap v = None /\ Φ None v /\
      (forall p, Φ (Some p) (View (v_role v) (v_fd v) (v_session v) (v_section v) (v_count v) (v_slots v) (Some p)))
  | Free p => fun Φ v => v_heap v = Some p /\
      Φ tt (View (v_role v) (v_fd v) (v_session v) (v_section v) (v_count v) (v_slots v) None)
  | PthreadCreate arg fd => create_wp arg fd
  | PthreadDetach => fun Φ v => Φ tt v
  | Perror _ => fun Φ v => Φ tt v
  | Print _ _ => fun Φ v => Φ tt v
  | IgnoreSigpipe => fun Φ v => Φ tt v
  | Socket => fun Φ v => v_role v = Acceptor None /\ v_fd v = None /\ (forall e, Φ (Err e) v) /\
      (forall l, Φ (Ok l) (View (Acceptor (Some l)) None (v_session v) (v_section v) (v_count v)
                            (v_slots v) (v_heap v)))
  | SetReuseaddr l => fun Φ v => v_role v = Acceptor (Some l) /\ Φ tt v
  | InetPton _ => fun Φ v => forall a, Φ a v
  | Bind l _ _ => fun Φ v => v_role v = Acceptor (Some l) /\ forall a, Φ a v
  | Listen l _ => fun Φ v => v_role v = Acceptor (Some l) /\ forall a, Φ a v
  | Undefined => fun _ _ => False
  end.

Lemma cache_wp_mono A (e : cacheE A) (Φ Ψ : A -> view -> Prop) v :
  (forall a v', Φ a v' -> Ψ a v') -> cache_wp A e Φ v -> cache_wp A e Ψ v.
Proof.
  intros H. destruct e; cbn [cache_wp];
    unfold lock_wp, unlock_wp, store_wp, count_wp, clock_wp, send_wp, recv_wp, create_wp, close_wp;
    repeat case_match; intros Hw; try done; unpack; split_and?; auto.
  intros data Hd Hl. specialize (H6 data Hd Hl). case_match; [by apply H|done].
Qed.

Lemma cache_wp_inter A (e : cacheE A) (Φ : nat -> A -> view -> Prop) v :
  (forall n, cache_wp A e (Φ n) v) -> cache_wp A e (fun a v' => forall n, Φ n a v') v.
Proof.
  intros H. pose proof (H 0%nat) as H0. destruct e; cbn [cache_wp] in *;
    unfold lock_wp, unlock_wp, store_wp, count_wp, clock_wp, send_wp, recv_wp, create_wp, close_wp in *;
    repeat case_match; try done; unpack; split_and?; try done; intros; try (by apply H).
  destruct (sess_recv s data) eqn:E; [intros n|set (n := 0%nat)];
    destruct (H n) as (_ & _ & _ & _ & _ & Hn); specialize (Hn data); rewrite E in Hn; by apply Hn.
Qed.

#[export] Instance cache_spec : EventSpec cacheE view :=
  {| ev_wp := cache_wp; ev_wp_mono := cache_wp_mono; ev_wp_inter := cache_wp_inter |}.

(** ** Replies *)

(** A client thread outside the critical sections. *)
Definition idle (fd : Z) (s : session) : view := View Worker (Some fd) (Some s) None None 1 None.

Lemma idle_unlocked fd s : unlocked (idle fd s).
Proof. done. Qed.
#[export] Hint Resolve idle_unlocked : cmodel.

Lemma read_bytes_init s r n : n = length s -> read_bytes n (init s ++ r) = Some s.
Proof. intros ->. induction s as [|c s IH]; simpl; [done|]. by rewrite IH. Qed.

(** [send_all] sends what the session owes, all of it or until the connection
    fails. *)
Lemma wp_send_all fd s s' d r Φ :
  sess_sending s = Some s' -> s_due s' = d ->
  Φ 0 (idle fd (Session (s_rx s') [] (s_dead s'))) ->
  (forall s'', Φ (-1) (idle fd s'')) ->
  d <> [] ->
  wp (send_all fd (init d ++ r) (zlen d)) Φ (idle fd s).
Proof.
  intros Hs Hd Hok Hfail Hne.
  apply (wp_iter (fun sent v => 0 <= sent <= zlen d /\
    exists s0, v = idle fd s0 /\ (sent < zlen d -> sess_sending s0 = Some (sess_sent s' (Z.to_nat sent))) /\
      (sent = zlen d -> s0 = sess_sent s' (length d)))).
  { split; [lia|]. exists s. split; [done|]. split.
    - intros _. rewrite Hs. unfold sess_sent. by destruct s'.
    - intros E. by destruct d. }
  intros sent v (Hr & s0 & -> & Hlt & Heq). destruct (Z.ltb_spec sent (zlen d)) as [Hl|Hl].
  - rewrite drop_init by lia. rewrite read_bytes_init by (rewrite length_drop; lia).
    apply wp_call_bind. split; [done|]. split; [done|]. simpl. rewrite Hlt by done.
    split; [unfold sess_sent; simpl; by rewrite Hd|]. split.
    + intros n Hn. rewrite length_drop in Hn. destruct (Z.eqb_spec n 0).
      * apply wp_ret. apply Hfail.
      * apply wp_ret. split; [lia|]. eexists. split; [done|].
        assert (Hss : sess_sent (sess_sent s' (Z.to_nat sent)) (Z.to_nat n) = sess_sent s' (Z.to_nat (sent + n))).
        { unfold sess_sent. simpl. rewrite drop_drop. do 2 f_equal. lia. }
        rewrite Hss. split.
        -- intros Hl'. unfold sess_sending. rewrite decide_False; [done|].
           unfold sess_sent. simpl. rewrite Hd. intros E. apply (f_equal length) in E.
           rewrite length_drop in E. simpl in E. lia.
        -- intros E. by replace (Z.to_nat (sent + n)) with (length d) by lia.
    + intros e. destruct (e =? EINTR); apply wp_ret; [|apply Hfail].
      split; [lia|]. eexists. split; [done|]. split; [|lia]. intros _.
      unfold sess_sending. rewrite decide_False; [done|].
      unfold sess_sent. simpl. rewrite Hd. intros E. apply (f_equal length) in E.
      rewrite length_drop in E. simpl in E. lia.
  - apply wp_ret. rewrite Heq by lia. unfold sess_sent in Hok. revert Hok.
    unfold sess_sent. by rewrite drop_ge by (rewrite Hd; lia).
Qed.

Lemma send_error_render fd :
  send_error fd = send_all fd (init (render RError) ++ [Some NUL]) (zlen (render RError)).
Proof.
  assert (E : zlen (render RError) = 6) by (vm_compute; reflexivity).
  assert (E' : literal "ERROR\n" = init (render RError) ++ [Some NUL]) by (vm_compute; reflexivity).
  unfold send_error. by rewrite E, E'.
Qed.

(** [send_reply] renders every reply of the server. *)
Lemma send_reply_plain fd w :
  forallb (fun c => negb (bool_decide (c = PERCENT))) (lit w) = true ->
  zlen (lit w) < VALUE_MAX + 32 ->
  exists r, send_reply fd w [] = send_all fd (init (lit w) ++ r) (zlen (lit w)).
Proof.
  intros Hp Hl. unfold send_reply, vsnprintf. generalize dependent (lit w). intros s Hp Hl.
  assert (He : expand s [] = Some s).
  { clear Hl. induction s as [|c s IH]; [done|]. cbn [forallb] in Hp. apply andb_true_iff in Hp as [Hc Hp].
    specialize (IH Hp). destruct c; try (cbn [expand]; by rewrite IH). done. }
  rewrite He. bool_lia. rewrite take_ge by lia. simpl. by eexists.
Qed.

Lemma send_reply_value fd p v :
  is_cstr p v -> zlen v <= VALUE_MAX ->
  exists r, send_reply fd "VALUE %s\n" [AStr p] =
    send_all fd (init (render (RValue v)) ++ r) (zlen (render (RValue v))).
Proof.
  intros Hp Hv. unfold send_reply, vsnprintf.
  assert (He : expand (lit "VALUE %s\n") [AStr p] = Some (render (RValue v))).
  { cbn -[cstring]. by rewrite (cstring_cstr _ _ Hp). }
  rewrite He. assert (Hl : zlen (render (RValue v)) = zlen v + 7).
  { unfold render. rewrite !length_app. simpl. lia. }
  generalize dependent (render (RValue v)). intros s _ Hl. unfold VALUE_MAX in *. bool_lia.
  rewrite take_ge by lia. simpl. by eexists.
Qed.

(** ** The critical sections *)

(** What a request leaves behind: an answered session, or a failed connection. *)
Definition answered (fd : Z) (rx : list byte) (r : Z) (v : view) : Prop :=
  (r = 0 /\ v = idle fd (Session rx [] false)) \/ (r = -1 /\ exists s, v = idle fd s).

Lemma wp_reply fd rx r p :
  (exists q, p = send_all fd (init (render r) ++ q) (zlen (render r))) ->
  wp p (answered fd rx) (idle fd (Session rx (render r) false)).
Proof.
  intros [q ->].
  assert (Hne : render r <> []) by by destruct r.
  eapply wp_send_all; simpl.
  - unfold sess_sending. simpl. by rewrite decide_False.
  - done.
  - by left.
  - intros s. right. eauto.
  - done.
Qed.

(** The session inside the section of [c], entered from [s]. *)
Definition inside (fd : Z) (s : session) (c : section) : view :=
  View Worker (Some fd) (Some s) (Some c) None 1 None.

Lemma wp_lock_store fd s c s' (k : prog Z) Φ :
  sess_take s = Some (c, s') -> c <> Bad ->
  (forall st m clk, 0 <= clk -> refines clk st m -> wp k Φ (inside fd s' (Sec st m c clk false))) ->
  wp (call (Lock store_mutex) ;! k)%prog Φ (idle fd s).
Proof.
  intros Hs Hc Hk. apply wp_call_bind. split; [done|]. simpl. rewrite Hs. split; [done|]. apply Hk.
Qed.

Lemma ms_of_ok s ns : clock_ok s ns -> ms_of s ns = Some (ms s ns) /\ 0 <= ms s ns <= NOW_MAX.
Proof.
  intros (Hs & Hns & Hms). unfold ms_of, ms in *.
  assert (0 <= ns / 1000000) by (apply Z.div_pos; lia).
  rewrite Z.quot_div_nonneg by lia.
  unfold NOW_MAX, LLONG_MAX, LONG_MAX, TTL_MAX in *.
  rewrite !llong_ok by (unfold LLONG_MIN, LLONG_MAX, LONG_MIN, LONG_MAX; lia). split; [done|lia].
Qed.

Lemma wp_now fd s st m c clk (k : Z -> prog Z) Φ :
  0 <= clk -> refines clk st m ->
  (forall now, 0 <= now <= NOW_MAX -> refines now st m ->
    wp (k now) Φ (inside fd s (Sec st m c now true))) ->
  wp (ITree.bind now_ms k) Φ (inside fd s (Sec st m c clk false)).
Proof.
  intros Hclk Hr Hk. apply wp_bind, wp_call_bind. simpl. intros sec ns Hok Hle.
  destruct (ms_of_ok _ _ Hok) as [E Hb]. rewrite E. apply wp_ret.
  apply Hk; [done|]. by eapply refines_mono.
Qed.

Lemma wp_store_op {A R} fd s st m c now (f : store -> ub (A * store)) a st' (k : A -> prog R) Φ :
  f st = Some (a, st') -> wp (k a) Φ (inside fd s (Sec st' m c now true)) ->
  wp (ITree.bind (call (StoreOp f)) k) Φ (inside fd s (Sec st m c now true)).
Proof. intros Hf Hk. apply wp_call_bind. simpl. unfold store_wp. simpl. by rewrite Hf. Qed.

(** Leaving the section with the reply of the contract. *)
Lemma wp_unlock_reply fd s st m c now p :
  refines now st (spec_step m now c).2 ->
  (exists q, p = send_all fd (init (render (spec_step m now c).1) ++ q)
                   (zlen (render (spec_step m now c).1))) ->
  wp (call (Unlock store_mutex) ;! p)%prog (answered fd (s_rx s)) (inside fd s (Sec st m c now true)).
Proof.
  intros Hr Hp. apply wp_call_bind. simpl. destruct (spec_step m now c) as [r m'].
  split; [done|]. split; [done|]. by apply wp_reply.
Qed.

Lemma wp_get_locked fd s s' k kp :
  sess_take s = Some (Get k, s') -> is_cstr kp k ->
  wp (get_locked fd kp) (answered fd (s_rx s')) (idle fd s).
Proof.
  intros Hs Hk. eapply wp_lock_store; [done..|]. intros st m clk Hclk Hr.
  apply wp_now; [done..|]. clear Hr. intros now Hnow Hr.
  destruct (get_section now st m kp k Hr Hk) as (idx & st' & Hlk & Hr' & Hres).
  eapply wp_store_op; [done|]. destruct (live now m !! k) as [it|] eqn:Hit.
  - destruct Hres as (Hi & [[_ Hvo] _] & b & Hb & Hbs). rewrite (proj2 (Z.ltb_ge idx 0)) by done.
    eapply wp_store_op; [done|]. apply wp_unlock_reply; simpl; rewrite Hit; [done|].
    by apply send_reply_value.
  - rewrite (proj2 (Z.ltb_lt idx 0)) by done.
    apply wp_unlock_reply; simpl; rewrite Hit; [done|]. by apply send_reply_plain.
Qed.

Lemma wp_delete_locked fd s s' k kp :
  sess_take s = Some (Delete k, s') -> is_cstr kp k ->
  wp (delete_locked fd kp) (answered fd (s_rx s')) (idle fd s).
Proof.
  intros Hs Hk. eapply wp_lock_store; [done..|]. intros st m clk Hclk Hr.
  apply wp_now; [done..|]. clear Hr. intros now Hnow Hr.
  destruct (delete_section now st m kp k Hr Hk) as (idx & st' & Hlk & Hres).
  eapply wp_store_op; [done|]. destruct (live now m !! k) as [it|] eqn:Hit.
  - destruct Hres as (Hi & st'' & Hst & Hr'). rewrite (proj2 (Z.ltb_ge idx 0)) by done.
    eapply wp_store_op; [done|]. apply wp_unlock_reply; simpl; rewrite Hit; [done|].
    by apply send_reply_plain.
  - destruct Hres as [Hi Hr']. rewrite (proj2 (Z.ltb_lt idx 0)) by done.
    apply wp_unlock_reply; simpl; rewrite Hit; [done|]. by apply send_reply_plain.
Qed.

Lemma wp_fill_slot fd s st m c now idx kp klen vp n ttl st' (k : prog Z) Φ :
  fill_store idx kp klen vp n ttl now st = Some (tt, st') ->
  wp k Φ (inside fd s (Sec st' m c now true)) ->
  wp (fill_slot idx kp klen vp n ttl now ;! k)%prog Φ (inside fd s (Sec st m c now true)).
Proof.
  unfold fill_store, fill_slot. intros Hf Hk. apply wp_bind.
  destruct (copy_key idx kp klen st) as [[[] st1]|] eqn:H1; [|done]. eapply wp_store_op; [done|].
  destruct (copy_value idx vp n st1) as [[[] st2]|] eqn:H2; [|done]. eapply wp_store_op; [done|].
  destruct (set_vlen idx n st2) as [[[] st3]|] eqn:H3; [|done]. eapply wp_store_op; [done|].
  destruct (set_used idx 1 st3) as [[[] st4]|] eqn:H4; [|done]. eapply wp_store_op; [done|].
  destruct (ttl =? 0).
  - apply wp_call. simpl. unfold store_wp. simpl. by rewrite Hf.
  - destruct (set_has_expiry idx 1 st4) as [[[] st5]|] eqn:H5; [|done]. eapply wp_store_op; [done|].
    apply wp_call. simpl. unfold store_wp. simpl. by rewrite Hf.
Qed.

Lemma wp_set_locked fd s s' k ttl v kp vp :
  sess_take s = Some (Set_ k ttl v, s') -> is_cstr kp k -> is_cstr vp v ->
  key_ok k -> value_ok v -> 0 <= ttl <= TTL_MAX ->
  wp (set_locked fd kp (zlen k) ttl vp (zlen v)) (answered fd (s_rx s')) (idle fd s).
Proof.
  intros Hs Hk Hv Hko Hvo Ht. eapply wp_lock_store; [done..|]. intros st m clk Hclk Hr.
  apply wp_now; [done..|]. clear Hr. intros now Hnow Hr.
  destruct (set_section now st m kp k ttl vp v Hr Hk Hko Hv Hvo Ht Hnow)
    as (idx & st1 & idx' & st2 & Hlk & Hfs & Hres).
  eapply wp_store_op; [done|].
  assert (Hstep : forall p : Z -> prog Z,
    wp (p idx') (answered fd (s_rx s')) (inside fd s' (Sec st2 m (Set_ k ttl v) now true)) ->
    wp (ITree.bind (if idx <? 0 then call (StoreOp (free_slot now)) else Ret idx) p)
      (answered fd (s_rx s')) (inside fd s' (Sec st1 m (Set_ k ttl v) now true))).
  { intros p Hp. destruct (idx <? 0); [by eapply wp_store_op|].
    simplify_eq. by apply wp_bind, wp_ret. }
  apply Hstep. clear Hstep.
  destruct (spec_step m now (Set_ k ttl v)) as [r m'] eqn:Hspec. destruct r.
  3: { destruct Hres as (Hi & st3 & Hfill & Hr3). rewrite (proj2 (Z.ltb_ge idx' 0)) by done.
       eapply wp_fill_slot; [done|]. apply wp_unlock_reply; rewrite Hspec; [done|].
       by apply send_reply_plain. }
  all: destruct Hres as (Hi & -> & Hr2); rewrite (proj2 (Z.ltb_lt idx' 0)) by done.
  3: { apply wp_unlock_reply; rewrite Hspec; [done|]. by apply send_reply_plain. }
  all: exfalso; revert Hspec; simpl; by repeat case_match.
Qed.

(** ** Lines *)

(** What an admissible line carries. *)
Lemma parse_line_parts s c :
  parse_line s = c -> LF ∉ s ->
  match c with
  | Get k | Delete k => key_ok k
  | Set_ k ttl v => key_ok k /\ value_ok v /\ 0 <= ttl <= TTL_MAX
  | Bad => True
  end.
Proof.
  intros Hp Hlf. destruct c as [k|k|k ttl v|]; [..|done];
    apply parse_line_spec in Hp; try done; inversion Hp as [? Hk|? Hk|? ds ? ? Hk Ht Hv]; subst;
    [done..|].
  split; [done|]. split.
  - split; [done|]. rewrite !elem_of_app, !elem_of_cons, elem_of_app, elem_of_cons in Hlf. tauto.
  - destruct Ht as (_ & Hd & <- & ?). split; [|done].
    apply digits_value_from_nonneg; [done|]. apply forallb_forall. intros x Hx.
    by apply (proj1 (Forall_forall _ _) Hd), list_elem_of_In.
Qed.

(** A refusal, for a line that is no command. *)
Lemma wp_refuse fd s s' rx p :
  sess_refuse s = Some s' -> s_due s' = render RError -> s_rx s' = rx -> s_dead s' = false ->
  (exists q, p = send_all fd (init (render RError) ++ q) (zlen (render RError))) -> s_due s = [] ->
  wp p (answered fd rx) (idle fd s).
Proof.
  intros Hs Hd <- Hdead [q ->] Hdue. eapply wp_send_all.
  - unfold sess_sending. by rewrite decide_True.
  - done.
  - left. by rewrite Hdead.
  - right. eauto.
  - done.
Qed.

(** The session [s] is about to handle the line [l]. *)
Definition at_line (s : session) (l rest : list byte) : Prop :=
  s_due s = [] /\ s_dead s = false /\ zlen (s_rx s) <= LINE_MAX /\ cut_at LF (s_rx s) = Some (l, rest).

Lemma at_line_take s l rest :
  at_line s l rest -> sess_take s = Some (line_command l, Session rest [] false).
Proof.
  intros (Hd & Hdead & Hl & Hc). unfold sess_take. rewrite Hd, Hdead, Hc.
  rewrite (proj2 (Z.leb_le _ _)) by done. done.
Qed.

Lemma at_line_refuse s l rest :
  at_line s l rest -> line_command l = Bad -> sess_refuse s = Some (Session rest (render RError) false).
Proof.
  intros Hat Hb. pose proof (at_line_take _ _ _ Hat) as Ht. destruct Hat as (Hd & Hdead & Hl & Hc).
  unfold sess_refuse. rewrite Hd, Hdead, Ht, Hb. by rewrite (proj2 (Z.ltb_ge _ _)) by done.
Qed.

Lemma wp_send_error_line fd s l rest :
  at_line s l rest -> line_command l = Bad -> wp (send_error fd) (answered fd rest) (idle fd s).
Proof.
  intros Hat Hb. eapply wp_refuse; [by eapply at_line_refuse|done..| |apply Hat].
  exists [Some NUL]. apply send_error_render.
Qed.

(** [handle_line] answers the line as the contract says. *)
Lemma wp_handle_line fd s l rest p :
  at_line s l rest -> is_cstr p (strip_cr l) -> NUL ∉ l -> LF ∉ strip_cr l ->
  wp (handle_line fd p) (answered fd rest) (idle fd s).
Proof.
  intros Hat Hp Hn Hlf. pose proof (at_line_take _ _ _ Hat) as Ht.
  assert (Hlc : line_command l = parse_line (strip_cr l)).
  { unfold line_command. by rewrite decide_False. }
  pose proof (handle_line_spec fd p _ Hp) as Hsp.
  pose proof (parse_line_parts _ _ eq_refl Hlf) as Hparts.
  destruct (parse_line (strip_cr l)) as [k|k|k ttl v|] eqn:Hpl.
  - destruct Hsp as (kp & Hk & ->). rewrite Hlc in Ht. by eapply (wp_get_locked _ _ _ _ _ Ht).
  - destruct Hsp as (kp & Hk & ->). rewrite Hlc in Ht. by eapply (wp_delete_locked _ _ _ _ _ Ht).
  - destruct Hsp as (kp & vp & Hk & Hv & ->). destruct Hparts as (Hko & Hvo & Httl).
    rewrite Hlc in Ht. by eapply (wp_set_locked _ _ _ _ _ _ _ _ Ht).
  - rewrite Hsp. eapply wp_refuse; [by eapply at_line_refuse; [|rewrite Hlc]|done..| |apply Hat].
    by apply send_reply_plain.
Qed.

(** ** The loops of [handle_client] *)

(** [data] is received and not consumed, and nothing is owed. *)
Definition reading (fd : Z) (data : list byte) : view := idle fd (Session data [] false).

Definition line_inv (fd : Z) (data : list byte) (processed : Z) (v : view) : Prop :=
  0 <= processed <= zlen data /\ v = reading fd (drop (Z.to_nat processed) data).

Definition line_exit_post (fd : Z) (data : list byte) (x : line_exit) (v : view) : Prop :=
  match x with
  | LinesDone p => line_inv fd data p v /\ cut_at LF (drop (Z.to_nat p) data) = None
  | ClientDone => exists s, v = idle fd s
  end.

(** Reading the next line of [pending]. *)
Lemma next_line data r processed :
  0 <= processed <= zlen data ->
  memchr (drop (Z.to_nat processed) (init data ++ r)) LF (zlen data - processed) =
    Some (match cut_at LF (drop (Z.to_nat processed) data) with
          | Some (l, _) => Some (zlen l) | None => None end).
Proof.
  intros Hr. rewrite drop_init by lia. set (d := drop (Z.to_nat processed) data).
  assert (Hd : zlen data - processed = zlen d) by (unfold d; rewrite length_drop; lia).
  destruct (cut_at LF d) as [[l rest]|] eqn:Hc.
  - apply cut_at_Some in Hc as [-> Hlf]. by apply memchr_Some.
  - apply cut_at_None in Hc. by apply memchr_None.
Qed.

Lemma wp_line_result fd data p (body : prog Z) rest :
  drop (Z.to_nat p) data = rest -> 0 <= p <= zlen data ->
  forall v, wp body (answered fd rest) v ->
  wp (ITree.bind body (fun r => if negb (r =? 0) then Ret (inr ClientDone) else Ret (inl p)))
    (fun x v' => match x with inl p' => line_inv fd data p' v' | inr x => line_exit_post fd data x v' end) v.
Proof.
  intros Hrest Hp v Hb. apply wp_bind. eapply wp_mono, Hb.
  intros r v' [[-> ->]|[-> [s ->]]]; simpl; apply wp_ret.
  - split; [done|]. by rewrite Hrest.
  - by exists s.
Qed.

(** One round of the inner loop: the next line, its length, and what is run on it. *)
Lemma process_line_spec fd data r processed :
  zlen data <= LINE_MAX -> 0 <= processed <= zlen data ->
  match cut_at LF (drop (Z.to_nat processed) data) with
  | None => process_line fd (init data ++ r) (zlen data) processed = Ret (inr (LinesDone processed))
  | Some (l, rest) =>
      exists body,
        process_line fd (init data ++ r) (zlen data) processed =
          ITree.bind body (fun r => if negb (r =? 0) then Ret (inr ClientDone)
                                    else Ret (inl (processed + (zlen l + 1)))) /\
        drop (Z.to_nat (processed + (zlen l + 1))) data = rest /\
        0 <= processed + (zlen l + 1) <= zlen data /\
        ((line_command l = Bad /\ body = send_error fd) \/
         (NUL ∉ l /\ LF ∉ strip_cr l /\ exists b, is_cstr b (strip_cr l) /\ body = handle_line fd b))
  end.
Proof.
  intros Hmax Hp. unfold process_line. rewrite next_line by done.
  destruct (cut_at LF (drop (Z.to_nat processed) data)) as [[l rest]|] eqn:Hc; [|done].
  apply cut_at_Some in Hc as [Hd Hlf].
  assert (Hlen : zlen data - processed = zlen l + 1 + zlen rest).
  { apply (f_equal length) in Hd. rewrite length_drop, length_app in Hd. simpl in Hd. lia. }
  assert (Hrest : drop (Z.to_nat (processed + (zlen l + 1))) data = rest).
  { replace (Z.to_nat (processed + (zlen l + 1))) with (Z.to_nat processed + (length l + 1))%nat by lia.
    by rewrite <-drop_drop, Hd, drop_app_add. }
  rewrite drop_init by lia. rewrite Hd, init_app, <-app_assoc.
  set (u := undef (LINE_MAX + 1)).
  assert (Hu : zlen u = LINE_MAX + 1) by by apply length_undef.
  clearbody u. rewrite memcpy_init by lia.
  destruct (decide (NUL ∈ l)) as [Hn|Hn].
  - apply list_elem_of_split_l in Hn as (l1 & l2 & -> & Hn1).
    rewrite memchr_Some by done. exists (send_error fd). split_and!; [done|done|lia|lia|].
    left. split; [|done]. unfold line_command. rewrite decide_True; [done|].
    rewrite elem_of_app, elem_of_cons. tauto.
  - rewrite memchr_None by done.
    destruct (strip_line_spec l u Hn) as (b & -> & Hb); [lia|].
    destruct (load_first _ _ Hb) as (c & -> & Hc). case_decide as Hcn.
    + exists (send_error fd). split_and!; [done|done|lia|lia|]. left. split; [|done].
      unfold line_command. rewrite decide_False by done. rewrite (proj1 Hc Hcn). apply parse_line_nil.
    + exists (handle_line fd b). split_and!; [done|done|lia|lia|]. right.
      split_and!; [done|by intros ?%strip_cr_elem|by exists b].
Qed.

Lemma wp_process_line fd data r pending_len processed v :
  pending_len = zlen data -> zlen data <= LINE_MAX -> line_inv fd data processed v ->
  wp (process_line fd (init data ++ r) pending_len processed)
    (fun x v' => match x with inl p' => line_inv fd data p' v' | inr x => line_exit_post fd data x v' end) v.
Proof.
  intros -> Hmax [Hp ->]. pose proof (process_line_spec fd data r processed Hmax Hp) as Hsp.
  destruct (cut_at LF (drop (Z.to_nat processed) data)) as [[l rest]|] eqn:Hc.
  2: { rewrite Hsp. by apply wp_ret. }
  assert (Hat : at_line (Session (drop (Z.to_nat processed) data) [] false) l rest).
  { repeat split; [|done]. simpl. rewrite length_drop. lia. }
  destruct Hsp as (body & -> & Hrest & Hb & Hbody).
  eapply wp_line_result; [done|done|].
  destruct Hbody as [[Hbad ->]|(Hn & Hlf & b & Hs & ->)].
  - by eapply wp_send_error_line.
  - by eapply wp_handle_line.
Qed.

Lemma wp_process_lines fd data r pending_len :
  pending_len = zlen data -> zlen data <= LINE_MAX ->
  wp (process_lines fd (init data ++ r) pending_len) (line_exit_post fd data) (reading fd data).
Proof.
  intros Hl Hmax. apply (wp_iter (line_inv fd data)).
  - split; [lia|]. done.
  - intros p v Hi. by apply wp_process_line.
Qed.
