(* ===== verification/CacheArgs.v ===== *)
(** * The command line of the cache server

    A reference for [parse_args] on the strings of the command line, and the
    proof that the code computes it on every command line. *)

From S2P Require Import Prelude CLib CacheProto CacheServer.
Local Open Scope Z_scope.

(** ** [strtol] on a string: the value, and how many bytes it takes *)

Fixpoint spaces_of (s : list byte) : Z * list byte :=
  match s with
  | c :: r => if isspace c then let '(n, q) := spaces_of r in (n + 1, q) else (0, s)
  | [] => (0, [])
  end.

Fixpoint digits_of (s : list byte) (acc : Z) : Z * Z :=
  match s with
  | c :: r => if isdigit c then let '(n, v) := digits_of r (acc * 10 + digit c) in (n + 1, v) else (0, acc)
  | [] => (0, acc)
  end.

Definition sign_of (s : list byte) : bool * Z * list byte :=
  match s with
  | x2d :: r => (true, 1, r)
  | x2b :: r => (false, 1, r)
  | _ => (false, 0, s)
  end.

Definition strtol_of (s : list byte) : Z * Z :=
  let '(spaces, q) := spaces_of s in
  let '(neg, sign, r) := sign_of q in
  let '(n, v) := digits_of r 0 in
  if n =? 0 then (0, 0) else (clamp_long (if neg then - v else v), spaces + sign + n).

(** A port: a decimal number that is the whole string. *)
Definition port_of (s : list byte) : option Z :=
  let '(v, n) := strtol_of s in
  if (n =? zlen s) && (1 <=? v) && (v <=? 65535) then Some v else None.

(** ** The options *)

Inductive options :=
| Serve (host : list byte) (port : Z)
| BadPort
| Usage (code : Z).

Fixpoint read_args (argv : list (list byte)) (host : list byte) (port : Z) {struct argv} : options :=
  match argv with
  | [] => Serve host port
  | a :: rest =>
      match bool_decide (a = lit "--listen-host"), rest with
      | true, h :: rest' => read_args rest' h port
      | _, _ =>
          match bool_decide (a = lit "--listen-port"), rest with
          | true, p :: rest' =>
              match port_of p with Some v => read_args rest' host v | None => BadPort end
          | _, _ => if bool_decide (a = lit "--help" \/ a = lit "-h") then Usage 0 else Usage 2
          end
      end
  end.

(** What [parse_args] returns stands for these options. *)
Definition args_match (r : args_result) (o : options) : Prop :=
  match r, o with
  | ArgsOk h p, Serve host port => is_cstr h host /\ p = port
  | ArgsBadPort, BadPort => True
  | ArgsUsage c, Usage c' => c = c'
  | _, _ => False
  end.

(** ** [strtol] *)

Lemma skip_spaces_cstr p s :
  is_cstr p s ->
  exists n q t, skip_spaces p = Some (n, q) /\ spaces_of s = (n, t) /\ is_cstr q t /\
    0 <= n /\ zlen s = n + zlen t.
Proof.
  revert p. induction s as [|c s IH]; intros p H.
  - destruct (proj1 (is_cstr_nil _) H) as [x ->]. exists 0, (Some NUL :: x), []. by repeat split.
  - destruct (proj1 (is_cstr_cons _ _ _) H) as (x & -> & Hc & Hx). cbn [skip_spaces spaces_of]. destruct (isspace c).
    + destruct (IH _ Hx) as (n & q & t & -> & -> & Hq & Hn & Hl).
      exists (n + 1), q, t. repeat split; [done|lia|simpl length; lia].
    + exists 0, (Some c :: x), (c :: s). by repeat split.
Qed.

Lemma read_sign_cstr p s :
  is_cstr p s ->
  exists neg n q t, read_sign p = Some (neg, n, q) /\ sign_of s = (neg, n, t) /\ is_cstr q t /\
    0 <= n /\ zlen s = n + zlen t.
Proof.
  intros H. destruct s as [|c s].
  - destruct (proj1 (is_cstr_nil _) H) as [x ->]. exists false, 0, (Some NUL :: x), []. by repeat split.
  - destruct (proj1 (is_cstr_cons _ _ _) H) as (x & -> & Hc & Hx).
    destruct (decide (c = x2d)) as [->|]; [|destruct (decide (c = x2b)) as [->|]].
    + exists true, 1, x, s. repeat split; [done|lia|simpl length; lia].
    + exists false, 1, x, s. repeat split; [done|lia|simpl length; lia].
    + exists false, 0, (Some c :: x), (c :: s).
      split; [by destruct c|]. split; [by destruct c|]. by repeat split.
Qed.

Lemma read_digits_cstr p s acc :
  is_cstr p s ->
  read_digits p acc = Some (digits_of s acc) /\ 0 <= (digits_of s acc).1 <= zlen s.
Proof.
  revert p acc. induction s as [|c s IH]; intros p acc H; cstr_inv; [by split|].
  cbn [read_digits digits_of]. destruct (isdigit c); [|split; [done|cbn; lia]].
  destruct (IH _ (acc * 10 + digit c) H) as [-> Hn].
  destruct (digits_of s _) as [n v]. simpl in *. split; [done|lia].
Qed.

Lemma strtol_cstr p s :
  is_cstr p s -> strtol p = Some (strtol_of s) /\ 0 <= (strtol_of s).2 <= zlen s.
Proof.
  intros H. unfold strtol, strtol_of.
  destruct (skip_spaces_cstr _ _ H) as (n1 & q & t & -> & -> & Hq & ? & Hl1).
  destruct (read_sign_cstr _ _ Hq) as (neg & n2 & r & u & -> & -> & Hr & ? & Hl2).
  destruct (read_digits_cstr _ _ 0 Hr) as [-> Hb]. destruct (digits_of u 0) as [n v].
  destruct (n =? 0); (split; [done|simpl in *; lia]).
Qed.

Lemma load_byte_cstr p s i :
  is_cstr p s -> 0 <= i <= zlen s ->
  exists c, load_byte p i = Some c /\ (c = NUL <-> i = zlen s).
Proof.
  intros (r & -> & Hn) Hi. unfold load_byte, assert_ub.
  rewrite (proj2 (Z.leb_le _ _)) by lia. destruct (decide (i = zlen s)) as [->|Hne].
  - exists NUL. rewrite Nat2Z.id, <-(length_init s), list_lookup_middle by done. done.
  - destruct (lookup_lt_is_Some_2 s (Z.to_nat i)) as [c Hc]; [lia|]. exists c.
    rewrite lookup_app_l by (rewrite length_init; lia). unfold init. rewrite list_lookup_fmap, Hc.
    split; [done|]. split; [|lia]. intros ->. by apply list_elem_of_lookup_2 in Hc.
Qed.

(** The test of [--listen-port]. *)
Lemma port_test p s :
  is_cstr p s ->
  exists v n c, strtol p = Some (v, n) /\ load_byte p n = Some c /\
    port_of s = if negb (bool_decide (c = NUL)) || (v <? 1) || (65535 <? v) then None else Some v.
Proof.
  intros H. destruct (strtol_cstr _ _ H) as [E Hn]. unfold port_of.
  destruct (strtol_of s) as [v n]. simpl in Hn.
  destruct (load_byte_cstr _ _ _ H Hn) as (c & Hc & Hiff). exists v, n, c. repeat split; [done..|].
  rewrite !Z.leb_antisym. destruct (Z.eqb_spec n (zlen s)).
  - rewrite bool_decide_true by tauto. by destruct (v <? 1), (65535 <? v).
  - by rewrite bool_decide_false by tauto.
Qed.

(** ** [parse_args] *)

Lemma strcmp_literal p s w :
  is_cstr p s -> forallb (fun c => negb (bool_decide (c = NUL))) (lit w) = true ->
  exists z, strcmp p (literal w) = Some z /\ (z =? 0) = bool_decide (s = lit w).
Proof.
  intros Hp Hw. destruct (strcmp_cstr p (literal w) s (lit w)) as (z & Hz & Hiff); [done| |].
  - apply is_cstr_intro. intros Hn. rewrite forallb_forall in Hw.
    apply list_elem_of_In, Hw in Hn. by rewrite bool_decide_true in Hn.
  - exists z. split; [done|]. apply eq_true_iff_eq. by rewrite Z.eqb_eq, bool_decide_eq_true.
Qed.

(** On every command line [parse_args] reads the options of the reference. *)
Lemma parse_args_read argv args hostp host port :
  Forall2 is_cstr argv args -> is_cstr hostp host ->
  exists r, parse_args argv hostp port = Some r /\ args_match r (read_args args host port).
Proof.
  intros H. revert hostp host port.
  remember (length argv) as n eqn:Hn. assert (Hle : (length argv <= n)%nat) by lia. clear Hn.
  revert argv args H Hle.
  induction n as [|n IH]; intros [|a rest] args H Hle hostp host port Hh;
    apply Forall2_cons_inv_l in H || apply Forall2_nil_inv_l in H; simpl in Hle; try lia;
    try (subst; by eexists).
  destruct H as (s & args' & Hs & Hrest & ->). cbn [parse_args read_args].
  destruct (strcmp_literal a s "--listen-host" Hs eq_refl) as (z1 & -> & ->).
  destruct (strcmp_literal a s "--listen-port" Hs eq_refl) as (z2 & -> & ->).
  destruct (strcmp_literal a s "--help" Hs eq_refl) as (z3 & -> & ->).
  destruct (strcmp_literal a s "-h" Hs eq_refl) as (z4 & -> & ->).
  assert (Hother : exists r, (if bool_decide (s = lit "--help") then Some (ArgsUsage 0)
      else if bool_decide (s = lit "-h") then Some (ArgsUsage 0) else Some (ArgsUsage 2)) = Some r /\
      args_match r (if bool_decide (s = lit "--help" \/ s = lit "-h") then Usage 0 else Usage 2)).
  { eexists (if bool_decide (s = lit "--help" \/ s = lit "-h") then ArgsUsage 0 else ArgsUsage 2).
    split; repeat case_bool_decide; try done; naive_solver. }
  destruct Hrest as [|b t rest' args'' Hb Hrest'].
  - by destruct (bool_decide (s = lit "--listen-host")), (bool_decide (s = lit "--listen-port")).
  - destruct (bool_decide (s = lit "--listen-host")).
    { apply IH; [done|simpl in Hle; lia|done]. }
    destruct (bool_decide (s = lit "--listen-port")); [|done].
    destruct (port_test _ _ Hb) as (v & m & c & -> & -> & ->).
    destruct (_ || _); [by eexists|]. apply IH; [done|simpl in Hle; lia|done].
Qed.

(** A port printed in decimal is read back. *)
Lemma port_of_decimal p : 1 <= p <= 65535 -> port_of (decimal p) = Some p.
Proof.
  intros Hp. destruct (decimal_spec p) as (Hd & Hv & _ & Hne); [lia|].
  assert (Hstr : is_cstr (init (decimal p) ++ [Some NUL]) (decimal p)).
  { apply is_cstr_intro. intros Hn. by apply (proj1 (Forall_forall _ _) Hd) in Hn. }
  destruct (strtol_cstr _ _ Hstr) as [E _]. unfold port_of.
  rewrite strtol_digits, Hv in E; [|done| |unfold LONG_MAX; lia].
  2: { apply forallb_forall. intros c Hc. by apply (proj1 (Forall_forall _ _) Hd), list_elem_of_In. }
  injection E as <-. rewrite (proj2 (Z.eqb_eq _ _)) by done. bool_lia. done.
Qed.

Lemma parse_args_port p buf host port :
  1 <= p <= 65535 -> is_cstr buf (decimal p) ->
  parse_args [literal "--listen-port"; buf] host port = Some (ArgsOk host p).
Proof.
  intros Hp Hb. cbn [parse_args].
  assert (Ha : is_cstr (literal "--listen-port") (lit "--listen-port"))
    by by apply (cstring_is_cstr (literal "--listen-port") (lit "--listen-port")).
  destruct (strcmp_literal _ _ "--listen-host" Ha eq_refl) as (z1 & -> & ->).
  destruct (strcmp_literal _ _ "--listen-port" Ha eq_refl) as (z2 & -> & ->).
  rewrite bool_decide_false by done. rewrite bool_decide_true by done.
  destruct (port_test _ _ Hb) as (v & m & c & -> & -> & E). pose proof (port_of_decimal p Hp) as Hport.
  rewrite E in Hport. destruct (_ || _); [done|]. injection Hport as ->. done.
Qed.
