(* ===== verification/CacheMain.v ===== *)
(** * The threads of the cache server, from the connection loop to [main]

    [client_thread] and the accept loop satisfy the rules of [CacheThread]: a
    client thread starts with its descriptor, a new session, one client slot and
    its heap cell, and ends with none of them; the accept loop owns nothing when
    it waits. *)

From S2P Require Import Prelude CLib Effects.
From S2P Require Import CacheSpec CacheStore CacheProto CacheServer CacheRefine CacheLine CacheSession CacheThread CacheArgs.
Local Open Scope Z_scope.

(** ** [handle_client] *)

(** The array [pending] holds the unconsumed input [data], without a line end. *)
Definition pending_ok (pending : buf) (pending_len : Z) (data : list byte) : Prop :=
  exists r, pending = init data ++ r /\ zlen pending = LINE_MAX + 1 /\
    pending_len = zlen data /\ zlen data <= LINE_MAX /\ cut_at LF data = None.

Lemma append_chunk pending pending_len data chunk :
  pending_ok pending pending_len data -> pending_len + zlen chunk <= LINE_MAX ->
  exists r, memcpy pending pending_len (init chunk) (zlen chunk) = Some (init (data ++ chunk) ++ r) /\
    zlen (init (data ++ chunk) ++ r) = LINE_MAX + 1.
Proof.
  intros (r & -> & Hl & -> & Hmax & _) Hle.
  rewrite memcpy_ok by (rewrite ?length_init; lia).
  rewrite take_app_le, (take_ge (init data)) by (rewrite length_init; lia).
  rewrite (take_ge (init chunk)) by (rewrite length_init; lia).
  eexists. rewrite app_assoc, <-init_app. split; [done|].
  rewrite length_app, length_init in Hl.
  rewrite length_app, length_init, length_drop, !length_app, length_init. lia.
Qed.

Lemma compact_ok data r processed :
  0 <= processed <= zlen data -> zlen data <= LINE_MAX -> zlen (init data ++ r) = LINE_MAX + 1 ->
  cut_at LF (drop (Z.to_nat processed) data) = None ->
  exists pending, compact (init data ++ r) (zlen data) processed =
      Some (pending, zlen data - processed) /\
    pending_ok pending (zlen data - processed) (drop (Z.to_nat processed) data).
Proof.
  intros Hp Hmax Hl Hc. unfold compact.
  assert (Hd : zlen (drop (Z.to_nat processed) data) = zlen data - processed) by (rewrite length_drop; lia).
  destruct (Z.ltb_spec 0 processed).
  - unfold memmove. rewrite drop_init by lia.
    rewrite memcpy_init by (rewrite ?Hl; lia).
    eexists. split; [done|]. eexists. split; [done|]. split; [|split_and?; [lia..|done]].
    rewrite length_app, length_init, !length_drop. lia.
  - assert (processed = 0) as -> by lia. rewrite Z.sub_0_r in *. eexists. split; [done|].
    exists r. by split_and?.
Qed.

Definition client_inv (fd : Z) (st : buf * Z) (v : view) : Prop :=
  exists data, pending_ok st.1 st.2 data /\ v = reading fd data.

Definition client_post (fd : Z) (r : unit) (v : view) : Prop := exists s, v = idle fd s.

Lemma sess_refuse_overlong data :
  LINE_MAX < zlen data ->
  sess_refuse (Session data [] false) = Some (Session data (render RError) true).
Proof.
  intros Hl. unfold sess_refuse. cbn [s_due s_dead s_rx]. rewrite bool_decide_true by done.
  by rewrite (proj2 (Z.ltb_lt _ _)).
Qed.

Lemma render_ne r : render r <> [].
Proof. by destruct r. Qed.

Lemma wp_refuse_overlong fd data :
  LINE_MAX < zlen data ->
  wp (send_error fd ;! Ret (inr tt))%prog
    (fun (r : (buf * Z) + unit) v => match r with inl st => client_inv fd st v | inr _ => client_post fd tt v end)
    (reading fd data).
Proof.
  intros Hl. apply wp_bind. rewrite send_error_render. eapply wp_send_all.
  - unfold sess_sending. rewrite decide_True by done. by apply sess_refuse_overlong.
  - reflexivity.
  - apply wp_ret. by eexists.
  - intros s. apply wp_ret. by eexists.
  - apply render_ne.
Qed.

(** After the compaction the input never overruns the limit: the second test of
    [pending_len] is never true. *)
Lemma compact_below pending pending_len data :
  pending_ok pending pending_len data -> (LINE_MAX <? pending_len) = false.
Proof. intros (r & _ & _ & -> & H & _). by apply Z.ltb_ge. Qed.

Lemma wp_client_step fd st v :
  client_inv fd st v ->
  wp (client_step fd st)
    (fun r v' => match r with inl st' => client_inv fd st' v' | inr _ => client_post fd tt v' end) v.
Proof.
  destruct st as [pending pending_len]. intros (data & Hok & ->). simpl in Hok.
  assert (Hpost : forall s, client_post fd tt (idle fd s)) by (intros s; by exists s).
  apply wp_call_bind. split; [done|]. split; [done|]. split; [unfold RECV_BUF; lia|].
  cbn [v_session reading idle]. split; [apply wp_ret, Hpost|]. split.
  { intros e. destruct (e =? EINTR); apply wp_ret; [|apply Hpost]. by exists data. }
  intros chunk Hne Hchunk. unfold sess_recv. cbn [s_due s_dead s_rx].
  assert (Hcut : cut_at LF data = None) by by destruct Hok as (? & _ & _ & _ & _ & ?).
  rewrite !bool_decide_true by done. cbn [andb negb].
  assert (Hn : zlen chunk <> 0) by by destruct chunk.
  rewrite (proj2 (Z.eqb_neq _ _)) by done. cbn [with_session].
  assert (Hlen : pending_len = zlen data) by by destruct Hok as (? & _ & _ & ? & _).
  destruct (Z.ltb_spec LINE_MAX (pending_len + zlen chunk)) as [Hbig|Hbig].
  { apply wp_refuse_overlong. rewrite length_app. lia. }
  destruct (append_chunk _ _ _ _ Hok Hbig) as (r & -> & Hl).
  assert (Hmax : zlen (data ++ chunk) <= LINE_MAX) by (rewrite length_app; lia).
  apply wp_bind. eapply wp_mono, wp_process_lines; [|rewrite length_app; lia|done].
  intros [processed|] v'; cbn [line_exit_post].
  - intros [[Hp ->] Hc].
    replace (pending_len + zlen chunk) with (zlen (data ++ chunk)) by (rewrite length_app; lia).
    destruct (compact_ok _ r _ Hp Hmax Hl Hc) as (pending' & -> & Hok').
    rewrite (compact_below _ _ _ Hok'). apply wp_ret. by eexists.
  - intros [s ->]. by apply wp_ret.
Qed.

Lemma wp_handle_client fd : wp (handle_client fd) (client_post fd) (idle fd session_new).
Proof.
  apply (wp_iter (client_inv fd)).
  - exists []. split; [|done]. exists (undef (LINE_MAX + 1)).
    split; [done|]. split; [by apply length_undef|]. by split.
  - intros st v Hi. eapply wp_mono, wp_client_step, Hi. by intros [st'|[]].
Qed.

(** ** Client slots *)

Lemma size_t_small n : 0 <= n <= CLIENT_LIMIT -> size_t n = n.
Proof. intros. apply Z.mod_small. unfold CLIENT_LIMIT in *. lia. Qed.

Lemma wp_release ro fd h Φ :
  Φ tt (View ro fd None None None 0 h) -> wp release_client_slot Φ (View ro fd None None None 1 h).
Proof.
  intros Hk. unfold release_client_slot. apply wp_call_bind. split; [done|].
  cbn [v_slots]. intros others Ho Hle. apply wp_call_bind. cbn.
  apply wp_call. cbn [cache_wp ev_wp cache_spec unlock_wp v_count with_count].
  rewrite size_t_small by lia. split; [lia|]. split; [lia|]. split; [done|].
  by replace (others + 1 - 1 - others) with 0 by lia.
Qed.

Lemma wp_reserve ro fd h Φ :
  Φ true (View ro fd None None None 1 h) -> Φ false (View ro fd None None None 0 h) ->
  wp reserve_client_slot Φ (View ro fd None None None 0 h).
Proof.
  intros Ht Hf. unfold reserve_client_slot. apply wp_call_bind. split; [done|].
  cbn [v_slots]. intros others Ho Hle. apply wp_call_bind. cbn.
  destruct (Z.ltb_spec (others + 0) CLIENT_LIMIT).
  - apply wp_bind, wp_call_bind. cbn. apply wp_ret, wp_call_bind.
    cbn [cache_wp ev_wp cache_spec unlock_wp v_count with_count].
    rewrite size_t_small by lia. split; [lia|]. split; [lia|].
    split; [done|]. apply wp_ret.
    by replace (others + 0 + 1 - others) with 1 by lia.
  - apply wp_bind, wp_ret, wp_call_bind. cbn. split; [lia|]. split; [lia|].
    split; [done|]. apply wp_ret.
    by replace (others + 0 - others) with 0 by lia.
Qed.

(** ** Client threads *)

(** What a new client thread owns, and what a thread that ended owns. *)
Definition view_client (argument fd : Z) : view :=
  View Worker (Some fd) (Some session_new) None None 1 (Some argument).
Definition view_end (r : role) : view := View r None None None None 0 None.

(** A client thread ends with nothing: the descriptor is closed, the slot
    released, the heap cell freed. *)
Lemma wp_client_thread argument fd :
  wp (client_thread argument fd) (fun _ v => v = view_end Worker) (view_client argument fd).
Proof.
  apply wp_call_bind. split; [done|]. apply wp_bind.
  eapply wp_mono, wp_handle_client. intros _ v [s ->].
  apply wp_call_bind. split; [done|]. split; [done|]. by apply wp_release.
Qed.

(** ** The accept loop *)

(** The accepting thread between two connections, and with a connection. *)
Definition view_main (l : option Z) : view := view_end (Acceptor l).
Definition view_accepted (l fd slots : Z) (h : option Z) : view :=
  View (Acceptor (Some l)) (Some fd) None None None slots h.

(** A connection over the limit is told ERROR. *)
Lemma wp_turn_away l fd slots h :
  wp (send_error fd) (fun _ v => v = view_accepted l fd slots h) (view_accepted l fd slots h).
Proof.
  rewrite send_error_render. set (d := render RError).
  assert (Hs : forall n, drop n d `suffix_of` render RError).
  { intros n. exists (take n d). unfold d. symmetry. apply take_drop. }
  clearbody d.
  apply (wp_iter (fun sent v => 0 <= sent <= zlen d /\ v = view_accepted l fd slots h)).
  { split; [lia|done]. }
  intros sent v [Hr ->]. destruct (Z.ltb_spec sent (zlen d)) as [Hl|Hl]; [|by apply wp_ret].
  rewrite drop_init by lia. rewrite read_bytes_init by (rewrite length_drop; lia).
  apply wp_call_bind. split; [done|]. split; [done|]. split; [apply Hs|]. split.
  - intros n Hn. rewrite length_drop in Hn. destruct (n =? 0); apply wp_ret; [done|].
    split; [lia|done].
  - intros e. by destruct (e =? EINTR); apply wp_ret.
Qed.

Lemma wp_accept_step l :
  wp (accept_step l) (fun _ v => v = view_main (Some l)) (view_main (Some l)).
Proof.
  apply wp_call_bind. repeat (split; [done|]). split.
  2: { intros e. destruct (e =? EINTR); [by apply wp_ret|]. apply wp_call_bind. by apply wp_ret. }
  intros fd. apply wp_bind, wp_reserve.
  2: { apply wp_bind. eapply wp_mono, wp_turn_away. intros _ v ->.
       apply wp_call_bind. split; [done|]. split; [done|]. by apply wp_ret. }
  assert (Hundo : forall h, h = None ->
    wp (release_client_slot ;! call (Close fd) ;! Ret (inl tt))%prog
      (fun (_ : unit + Empty_set) v => v = view_main (Some l)) (view_accepted l fd 1 h)).
  { intros h ->. apply wp_bind, wp_release, wp_call_bind. split; [done|]. split; [done|]. by apply wp_ret. }
  apply wp_call_bind. split; [done|]. split; [by apply Hundo|]. intros p.
  apply wp_call_bind. repeat (split; [done || (cbn; lia)|]). split.
  - apply wp_call_bind. by apply wp_ret.
  - apply wp_call_bind. split; [done|]. by apply Hundo.
Qed.

Lemma wp_accept_loop l Φ : wp (accept_loop l) Φ (view_main (Some l)).
Proof.
  apply (wp_iter (fun _ v => v = view_main (Some l))); [done|]. intros _ v ->.
  eapply wp_mono, wp_accept_step. by intros [[]|[]] v.
Qed.

(** ** [main] *)

Lemma wp_serve host_p host port :
  is_cstr host_p host ->
  wp (serve host_p port) (fun _ v => v = view_main None) (view_main None).
Proof.
  intros Hh. apply wp_call_bind. apply wp_call_bind. split; [done|]. split; [done|]. split.
  { intros e. apply wp_call_bind. by apply wp_ret. }
  intros l. apply wp_call_bind. split; [done|]. rewrite (cstring_cstr _ _ Hh).
  assert (Hclose : forall r, wp (call (Close l) ;! Ret r)%prog (fun (_ : Z) v => v = view_main None) (view_main (Some l))).
  { intros r. apply wp_call_bind. split; [done|]. split; [done|]. by apply wp_ret. }
  apply wp_call_bind. intros [|]; cbn [negb].
  2: { apply wp_call_bind. apply Hclose. }
  apply wp_call_bind. split; [done|]. intros [[]|e]; [|apply wp_call_bind, Hclose].
  apply wp_call_bind. split; [done|]. intros [[]|e]; [|apply wp_call_bind, Hclose].
  apply wp_call_bind, wp_bind, wp_accept_loop.
Qed.

(** The whole server, on any command line. *)
Lemma wp_server_main prog_name name argv args :
  is_cstr prog_name name -> Forall2 is_cstr argv args ->
  wp (main prog_name argv) (fun _ v => v = view_main None) (view_main None).
Proof.
  intros Hn Ha. unfold main.
  destruct (parse_args_read argv args (literal "127.0.0.1") (lit "127.0.0.1") DEFAULT_PORT Ha)
    as (r & -> & Hr).
  { apply is_cstr_intro. apply (bool_decide_eq_true_1 (NUL ∉ lit "127.0.0.1")). vm_compute. reflexivity. }
  destruct r as [h p| |c], (read_args _ _ _) as [host port| |c']; try done; simpl in Hr.
  - destruct Hr as [Hh _]. by eapply wp_serve.
  - apply wp_call_bind. by apply wp_ret.
  - apply wp_bind. unfold usage.
    assert (E : exists t, expand (lit "Usage: %s [--listen-host HOST] [--listen-port PORT]\n") [AStr prog_name] = Some t).
    { cbn -[cstring]. rewrite (cstring_cstr _ _ Hn). by eexists. }
    destruct E as [t ->]. apply wp_call. by apply wp_ret.
Qed.
