(* ===== verification/CacheConcurrent.v ===== *)
(** * All the threads of the cache server together

    The step relation of the whole program: threads interleave at every call, the
    environment answers as its interfaces allow.  [inv] relates a configuration to
    the ghost state of its threads and to a state of the abstract server of
    [CacheSession]; every step preserves it. *)

From S2P Require Import Prelude CLib Effects.
From S2P Require Import CacheSpec CacheStore CacheProto CacheServer CacheRefine CacheLine.
From S2P Require Import CacheSession CacheThread CacheArgs CacheMain.
Local Open Scope Z_scope.
Local Open Scope prog_scope.

(** ** Configurations *)

(** What the threads share, and what the kernel and the heap know of them. *)
Record shared := Shared {
  g_store : store;
  g_count : Z;                     (** [active_clients] *)
  g_clock : Z;                     (** the last reading, in milliseconds *)
  g_store_owner : option nat;      (** who holds [store_mutex] *)
  g_count_owner : option nat;      (** who holds [client_count_mutex] *)
  g_fds : gset Z;                  (** open sockets *)
  g_heap : gset Z                  (** allocated cells *)
}.

Definition owner (m : mutex) (g : shared) : option nat :=
  match m with store_mutex => g_store_owner g | client_count_mutex => g_count_owner g end.

Definition set_owner (m : mutex) (o : option nat) (g : shared) : shared :=
  match m with
  | store_mutex => Shared (g_store g) (g_count g) (g_clock g) o (g_count_owner g) (g_fds g) (g_heap g)
  | client_count_mutex =>
      Shared (g_store g) (g_count g) (g_clock g) (g_store_owner g) o (g_fds g) (g_heap g)
  end.

Definition set_store (st : store) (g : shared) : shared :=
  Shared st (g_count g) (g_clock g) (g_store_owner g) (g_count_owner g) (g_fds g) (g_heap g).
Definition set_count (n : Z) (g : shared) : shared :=
  Shared (g_store g) n (g_clock g) (g_store_owner g) (g_count_owner g) (g_fds g) (g_heap g).
Definition set_clock (now : Z) (g : shared) : shared :=
  Shared (g_store g) (g_count g) now (g_store_owner g) (g_count_owner g) (g_fds g) (g_heap g).
Definition set_fds (s : gset Z) (g : shared) : shared :=
  Shared (g_store g) (g_count g) (g_clock g) (g_store_owner g) (g_count_owner g) s (g_heap g).
Definition set_heap (s : gset Z) (g : shared) : shared :=
  Shared (g_store g) (g_count g) (g_clock g) (g_store_owner g) (g_count_owner g) (g_fds g) s.

Definition main_tid : nat := 0.

(** What the other side of a socket sees of [data] sent by the thread [t]. *)
Definition sent_label (t : nat) (data : list byte) : option label :=
  match data with
  | [] => None
  | _ => Some (if decide (t = main_tid) then LTurn data else LSend t data)
  end.

(** The steps of a call by the thread [t]: its answer, what it does to the shared
    state, and what is seen of it.  [pthread_create] may also succeed, see
    [cstep]. *)
Definition call_step (t : nat) (g : shared) A (e : cacheE A) : A -> shared -> option label -> Prop :=
  match e in cacheE A return A -> shared -> option label -> Prop with
  | Lock m => fun _ g' l => owner m g = None /\ g' = set_owner m (Some t) g /\ l = None
  | Unlock m => fun _ g' l => owner m g = Some t /\ g' = set_owner m None g /\ l = None
  | StoreOp f => fun a g' l =>
      l = None /\ match f (g_store g) with Some (a', st) => a = a' /\ g' = set_store st g | None => False end
  | CountOp f => fun a g' l => l = None /\ let '(a', n) := f (g_count g) in a = a' /\ g' = set_count n g
  | ClockGettime => fun '(s, ns) g' l =>
      clock_ok s ns /\ g_clock g <= ms s ns /\ g' = set_clock (ms s ns) g /\ l = None
  | Send fd data => fun r g' l =>
      g' = g /\
      match r with
      | Ok n => 0 <= n <= zlen data /\ l = sent_label t (take (Z.to_nat n) data)
      | Err _ => l = None
      end
  | Recv fd len => fun r g' l =>
      g' = g /\
      match r with
      | Ok [] | Err _ => l = None
      | Ok data => zlen data <= len /\ l = Some (LRecv t data)
      end
  | Close fd => fun _ g' l =>
      g' = set_fds (g_fds g ∖ {[fd]}) g /\ l = if decide (t = main_tid) then None else Some (LClose t)
  | Accept _ | Socket => fun r g' l =>
      l = None /\
      match r with
      | Ok fd => fd ∉ g_fds g /\ g' = set_fds ({[fd]} ∪ g_fds g) g
      | Err _ => g' = g
      end
  | Malloc => fun r g' l =>
      l = None /\
      match r with
      | Some p => p ∉ g_heap g /\ g' = set_heap ({[p]} ∪ g_heap g) g
      | None => g' = g
      end
  | Free p => fun _ g' l => g' = set_heap (g_heap g ∖ {[p]}) g /\ l = None
  | PthreadCreate _ _ => fun created g' l => created = false /\ g' = g /\ l = None
  | Undefined => fun _ _ _ => False
  | _ => fun _ g' l => g' = g /\ l = None
  end.

Record config := Config { c_shared : shared; c_threads : gmap nat (prog unit) }.

Inductive cstep : config -> option label -> config -> Prop :=
| cstep_tau g ts t p p' :
    ts !! t = Some p -> observe p = TauF p' ->
    cstep (Config g ts) None (Config g (<[t := p']> ts))
| cstep_call g ts t p A (e : cacheE A) k a g' l :
    ts !! t = Some p -> observe p = VisF e k -> call_step t g A e a g' l ->
    cstep (Config g ts) l (Config g' (<[t := k a]> ts))
| cstep_create g ts t p arg fd k u :
    ts !! t = Some p -> observe p = VisF (PthreadCreate arg fd) k -> ts !! u = None ->
    cstep (Config g ts) (Some (LOpen u))
      (Config g (<[u := client_thread arg fd]> (<[t := k true]> ts))).

(** The program starts with [main], on a command line. *)
Definition config_init (now : Z) (prog_name : buf) (argv : list buf) : config :=
  Config (Shared store_zero 0 now None None ∅ ∅) {[main_tid := main prog_name argv ;! Ret tt]}.

Definition csteps : config -> list label -> config -> Prop := ltrace cstep.

(** ** Ownership of descriptors and heap cells *)

(** Each element of the pool belongs to one thread. *)
Definition owns (res : view -> list Z) (pool : gset Z) (views : gmap nat view) : Prop :=
  (forall t v, views !! t = Some v -> NoDup (res v)) /\
  (forall t1 t2 v1 v2 x, views !! t1 = Some v1 -> views !! t2 = Some v2 -> x ∈ res v1 -> x ∈ res v2 -> t1 = t2) /\
  (forall x, x ∈ pool <-> exists t v, views !! t = Some v /\ x ∈ res v).

Definition fds_of (v : view) : list Z :=
  option_list (v_fd v) ++ match v_role v with Acceptor (Some l) => [l] | _ => [] end.
Definition heap_of (v : view) : list Z := option_list (v_heap v).

(** A thread gives up and acquires elements. *)
Lemma owns_update res pool pool' views t v v' :
  owns res pool views -> views !! t = Some v -> NoDup (res v') ->
  (forall x, x ∈ res v' -> x ∈ res v \/ x ∉ pool) ->
  (forall x, x ∈ pool' <-> (x ∈ pool /\ x ∉ res v) \/ x ∈ res v') ->
  owns res pool' (<[t := v']> views).
Proof.
  intros (Hnd & Hdj & Hpool) Hv Hnd' Hnew Hpool'. split_and!.
  - intros u w [[<- <-]|[_ Hw]]%lookup_insert_Some; [done|by eapply Hnd].
  - assert (Hone : forall u w x, u <> t -> views !! u = Some w -> x ∈ res v' -> x ∉ res w).
    { intros u w x Hu Hw Hx Hxw. destruct (Hnew x Hx) as [Hx'|Hx'].
      - destruct Hu. by eapply Hdj.
      - destruct Hx'. apply Hpool. eauto. }
    intros t1 t2 v1 v2 x [[<- <-]|[H1 Hv1]]%lookup_insert_Some [[<- <-]|[H2 Hv2]]%lookup_insert_Some Hx1 Hx2;
      [done| | |by eapply Hdj].
    + exfalso. by eapply (Hone t2).
    + exfalso. by eapply (Hone t1).
  - intros x. rewrite Hpool', Hpool. split.
    + intros [[(u & w & Hw & Hx) Hxv]|Hx].
      * exists u, w. destruct (decide (u = t)) as [->|Hu]; [congruence|]. by rewrite lookup_insert_ne.
      * exists t, v'. by rewrite lookup_insert_eq.
    + intros (u & w & [[<- <-]|[Hu Hw]]%lookup_insert_Some & Hx); [by right|].
      left. split; [eauto|]. intros Hxv. destruct Hu. by eapply Hdj.
Qed.

Lemma owns_same res pool views t v v' :
  owns res pool views -> views !! t = Some v -> res v' = res v -> owns res pool (<[t := v']> views).
Proof.
  intros H Hv E. pose proof H as (Hnd & _ & Hpool). eapply owns_update; [done..| | |]; rewrite E.
  - by eapply Hnd.
  - by left.
  - intros x. split; [|intros [[]|Hx]; [done|]; apply Hpool; eauto].
    intros Hx. destruct (decide (x ∈ res v)); [by right|by left].
Qed.

(** A new thread gets elements of another one. *)
Lemma owns_split res pool views t v v' u w :
  owns res pool views -> views !! t = Some v -> views !! u = None -> res v ≡ₚ res w ++ res v' ->
  owns res pool (<[u := w]> (<[t := v']> views)).
Proof.
  intros (Hnd & Hdj & Hpool) Hv Hu E.
  pose proof (Hnd _ _ Hv) as Hndv. rewrite E in Hndv. apply NoDup_app in Hndv as (Hw & Hvw & Hv').
  assert (Hin : forall x, x ∈ res v <-> x ∈ res w \/ x ∈ res v') by (intros x; by rewrite E, elem_of_app).
  assert (Hut : u <> t) by congruence.
  assert (Hlk : forall s z, <[u := w]> (<[t := v']> views) !! s = Some z <->
    (s = u /\ z = w) \/ (s = t /\ z = v') \/ (s <> u /\ s <> t /\ views !! s = Some z)).
  { intros s z. rewrite !lookup_insert_Some. naive_solver. }
  split_and!.
  - intros s z. rewrite Hlk. intros [[-> ->]|[[-> ->]|(_ & _ & Hz)]]; [done..|by eapply Hnd].
  - assert (Hone : forall s z x, s <> t -> views !! s = Some z -> x ∈ res v -> x ∉ res z).
    { intros s z x Hs Hz Hx Hxz. destruct Hs. by eapply Hdj. }
    intros t1 t2 v1 v2 x. rewrite !Hlk.
    intros [[-> ->]|[[-> ->]|(Ha & Hb & Hz1)]] [[-> ->]|[[-> ->]|(Hc & Hd & Hz2)]] Hx1 Hx2; try done;
      first [by eapply Hdj | exfalso].
    + by eapply Hvw.
    + eapply (Hone t2); [done|done|apply Hin|done]. by left.
    + by eapply Hvw.
    + eapply (Hone t2); [done|done|apply Hin|done]. by right.
    + eapply (Hone t1); [done|done|apply Hin|done]. by left.
    + eapply (Hone t1); [done|done|apply Hin|done]. by right.
  - intros x. rewrite Hpool. split.
    + intros (s & z & Hz & Hx). destruct (decide (s = t)) as [->|Hs].
      * simplify_eq. apply Hin in Hx as [Hx|Hx]; [exists u, w|exists t, v']; rewrite Hlk; naive_solver.
      * exists s, z. rewrite Hlk. split; [|done]. right; right. split_and!; [congruence|done..].
    + intros (s & z & Hz & Hx). rewrite Hlk in Hz.
      destruct Hz as [[-> ->]|[[-> ->]|(_ & _ & Hz)]]; [exists t, v|exists t, v|by exists s, z];
        (split; [done|apply Hin; tauto]).
Qed.

(** ** The invariant *)

(** The shape of a thread's ghost state. *)
Definition view_ok (t : nat) (v : view) : Prop :=
  0 <= v_slots v /\ (v_session v <> None -> 1 <= v_slots v) /\
  match v_role v with
  | Worker => t <> main_tid /\ (v_fd v = None <-> v_session v = None)
  | Acceptor _ => t = main_tid /\ v_session v = None
  end.

(** The store and the map of the abstract server; they may differ while a thread
    is in a critical section, which then knows both. *)
Definition section_ok (g : shared) (a : astate) (t : nat) (ov : option view) : Prop :=
  match ov ≫= v_section with
  | Some c => g_store_owner g = Some t /\ sec_store c = g_store g /\ sec_map c = a_map a /\ sec_clock c = g_clock g
  | None => g_store_owner g <> Some t
  end.

Definition store_inv (g : shared) (views : gmap nat view) (a : astate) : Prop :=
  (forall t, section_ok g a t (views !! t)) /\
  (g_store_owner g = None -> refines (g_clock g) (g_store g) (a_map a)) /\
  0 <= a_clock a <= g_clock g.

(** [active_clients] counts the slots of all the threads. *)
Definition count_ok (g : shared) (total : Z) (t : nat) (ov : option view) : Prop :=
  match ov ≫= v_count with
  | Some (n, others) => g_count_owner g = Some t /\ n = g_count g /\ others + from_option v_slots 0 ov = total
  | None => g_count_owner g <> Some t
  end.

Definition count_inv (g : shared) (views : gmap nat view) : Prop :=
  (forall t, count_ok g (map_sum v_slots views) t (views !! t)) /\
  (g_count_owner g = None -> g_count g = map_sum v_slots views) /\
  map_sum v_slots views <= CLIENT_LIMIT.

(** The session of a thread; the abstract one has not taken the request whose
    critical section is under way. *)
Definition session_ok (ov : option view) (os : option session) : Prop :=
  match ov with
  | None => os = None
  | Some v =>
      match v_section v with
      | None => os = v_session v
      | Some c => exists s s', os = Some s /\ v_session v = Some s' /\
          sess_take s = Some (sec_cmd c, s') /\ sec_cmd c <> Bad
      end
  end.

Definition sess_inv (views : gmap nat view) (a : astate) : Prop :=
  (forall t, session_ok (views !! t) (a_sessions a !! t)) /\
  (forall t, t ∈ a_used a -> is_Some (views !! t)).

Record inv (g : shared) (views : gmap nat view) (a : astate) : Prop := Inv {
  inv_views : forall t v, views !! t = Some v -> view_ok t v;
  inv_store : store_inv g views a;
  inv_count : count_inv g views;
  inv_sess : sess_inv views a;
  inv_fds : owns fds_of (g_fds g) views;
  inv_heap : owns heap_of (g_heap g) views
}.

(** *** What a step leaves alone *)

Section update.
Context (g g' : shared) (views : gmap nat view) (a a' : astate) (t : nat) (v v' : view).
Context (Hv : views !! t = Some v).

Lemma views_update :
  (forall u w, views !! u = Some w -> view_ok u w) -> view_ok t v' ->
  forall u w, <[t := v']> views !! u = Some w -> view_ok u w.
Proof. intros H H' u w [[<- <-]|[_ Hw]]%lookup_insert_Some; eauto. Qed.

(** Another thread took no part in what the thread [t] did under the mutex. *)
Lemma store_update :
  store_inv g views a ->
  (forall u, u <> t -> g_store_owner g' = Some u <-> g_store_owner g = Some u) ->
  (g_store_owner g = Some t \/ (g_store g' = g_store g /\ a_map a' = a_map a /\ g_clock g' = g_clock g)) ->
  section_ok g' a' t (Some v') ->
  (g_store_owner g' = None -> refines (g_clock g') (g_store g') (a_map a')) ->
  0 <= a_clock a' <= g_clock g' ->
  store_inv g' (<[t := v']> views) a'.
Proof.
  intros (Hs & _ & _) Ho Hme Hv' Hr Hc. split; [|done].
  intros u. destruct (decide (u = t)) as [->|Hu]; [by rewrite lookup_insert_eq|].
  rewrite lookup_insert_ne by done. specialize (Hs u). unfold section_ok in *.
  destruct (views !! u ≫= v_section) as [c|].
  - destruct Hs as (H1 & H2 & H3 & H4). destruct Hme as [Hme|(-> & -> & ->)]; [congruence|].
    by rewrite Ho by done.
  - by rewrite Ho by done.
Qed.

Lemma store_same :
  store_inv g views a -> v_section v' = v_section v ->
  g_store_owner g' = g_store_owner g -> g_store g' = g_store g -> g_clock g' = g_clock g ->
  a_map a' = a_map a -> a_clock a' = a_clock a ->
  store_inv g' (<[t := v']> views) a'.
Proof.
  intros H Hsec Ho Hst Hck Hm Hac. pose proof H as (Hs & Hr & Hc).
  apply store_update; [done|by rewrite Ho|by right| | |].
  - specialize (Hs t). rewrite Hv in Hs. unfold section_ok in *. simpl in *. by rewrite Hsec, Ho, Hst, Hck, Hm.
  - by rewrite Ho, Hst, Hck, Hm.
  - by rewrite Hac, Hck.
Qed.

Lemma count_update :
  count_inv g views ->
  (forall u, u <> t -> g_count_owner g' = Some u <-> g_count_owner g = Some u) ->
  (g_count_owner g = Some t \/ (g_count g' = g_count g /\ v_slots v' = v_slots v)) ->
  count_ok g' (map_sum v_slots views - v_slots v + v_slots v') t (Some v') ->
  (g_count_owner g' = None -> g_count g' = map_sum v_slots views - v_slots v + v_slots v') ->
  map_sum v_slots views - v_slots v + v_slots v' <= CLIENT_LIMIT ->
  count_inv g' (<[t := v']> views).
Proof.
  intros (Hs & _ & _) Ho Hme Hv' Hr Hl. unfold count_inv. rewrite (map_sum_insert _ _ _ _ _ Hv).
  split; [|done]. intros u. destruct (decide (u = t)) as [->|Hu]; [by rewrite lookup_insert_eq|].
  rewrite lookup_insert_ne by done. specialize (Hs u). unfold count_ok in *.
  destruct (views !! u ≫= v_count) as [[n o]|].
  - destruct Hs as (H1 & H2 & H3). destruct Hme as [Hme|(-> & ->)]; [congruence|].
    rewrite Ho by done. split_and!; [done..|lia].
  - by rewrite Ho by done.
Qed.

Lemma count_same :
  count_inv g views -> v_count v' = v_count v -> v_slots v' = v_slots v ->
  g_count_owner g' = g_count_owner g -> g_count g' = g_count g ->
  count_inv g' (<[t := v']> views).
Proof.
  intros H Hc Hsl Ho Hn. pose proof H as (Hs & Hr & Hl).
  assert (E : map_sum v_slots views - v_slots v + v_slots v' = map_sum v_slots views) by lia.
  apply count_update; rewrite ?E; [done|by rewrite Ho|by right| |by rewrite Ho, Hn|done].
  specialize (Hs t). rewrite Hv in Hs. unfold count_ok in *. simpl in *. by rewrite Hc, Ho, Hn, Hsl.
Qed.

Lemma sess_update os :
  sess_inv views a -> session_ok (Some v') os ->
  a_sessions a' = partial_alter (fun _ => os) t (a_sessions a) -> a_used a' = a_used a ->
  sess_inv (<[t := v']> views) a'.
Proof.
  intros [H Hu] Hok E Eu. split; [|intros u; rewrite Eu, lookup_insert_is_Some'; auto].
  clear Hu. intros u. rewrite E. destruct (decide (u = t)) as [->|Hu].
  - by rewrite lookup_insert_eq, lookup_partial_alter_eq.
  - rewrite lookup_insert_ne, lookup_partial_alter_ne by done. apply H.
Qed.

Lemma sess_same :
  sess_inv views a -> session_ok (Some v') (a_sessions a !! t) -> a_sessions a' = a_sessions a ->
  a_used a' = a_used a -> sess_inv (<[t := v']> views) a'.
Proof.
  intros [H Hu] Hok E Eu. split; [|intros u; rewrite Eu, lookup_insert_is_Some'; auto].
  clear Hu. intros u. rewrite E. destruct (decide (u = t)) as [->|Hu].
  - by rewrite lookup_insert_eq.
  - rewrite lookup_insert_ne by done. apply H.
Qed.

Lemma sess_keep :
  sess_inv views a -> v_session v' = v_session v -> v_section v' = v_section v ->
  a_sessions a' = a_sessions a -> a_used a' = a_used a -> sess_inv (<[t := v']> views) a'.
Proof.
  intros H H1 H2 E Eu. eapply sess_same; [done| |done|done]. destruct H as [H _].
  specialize (H t). rewrite Hv in H.
  unfold session_ok in *. by rewrite H1, H2.
Qed.
End update.

(** *** The steps of the calls *)

(** The result of a step: the new ghost state of the thread, and a run of the
    abstract server with the same label. *)
Definition simulated {A} (g' : shared) (views : gmap nat view) (a : astate) (t : nat)
    (Φ : A -> view -> Prop) (ans : A) (l : option label) : Prop :=
  exists v' a', Φ ans v' /\ inv g' (<[t := v']> views) a' /\ asteps a (option_list l) a'.

Lemma simulated_same {A} g views a t v (Φ : A -> view -> Prop) ans :
  inv g views a -> views !! t = Some v -> Φ ans v -> simulated g views a t Φ ans None.
Proof.
  intros H Hv HΦ. exists v, a. split; [done|]. rewrite insert_id by done. split; [done|constructor].
Qed.

Lemma others_total views t v :
  (forall u w, views !! u = Some w -> view_ok u w) -> views !! t = Some v ->
  v_slots v <= map_sum v_slots views.
Proof. intros H Hv. eapply map_sum_lookup; [|done]. intros j y Hj. by apply (H j y). Qed.

Lemma step_lock g views a t v m Φ g' l :
  inv g views a -> views !! t = Some v -> lock_wp m Φ v ->
  owner m g = None -> g' = set_owner m (Some t) g -> l = None ->
  simulated g' views a t Φ tt l.
Proof.
  intros H Hv [[Hsec Hcnt] Hw] Ho -> ->. destruct m.
  - destruct (v_session v) as [s|] eqn:Hs; [|done].
    destruct (sess_take s) as [[c s']|] eqn:Ht; [|done]. destruct Hw as [Hc HΦ].
    destruct H as [Hvs Hst Hct Hss Hfd Hhp]. pose proof Hst as (H1 & H2 & H3).
    eexists _, a. split; [apply (HΦ (g_store g) (a_map a) (g_clock g)); [lia|by apply H2]|].
    split; [|constructor]. split.
    + apply views_update; [done|]. destruct (Hvs t v Hv) as (Ha & Hb & Hr). unfold view_ok. simpl.
      rewrite Hs in *. split_and!; [done|by intros _; apply Hb|]. destruct (v_role v); naive_solver.
    + eapply store_update; [done|..]; simpl; [|by right|done|done|done].
      intros u Hu. simpl in Ho. rewrite Ho. naive_solver.
    + by eapply count_same.
    + eapply sess_same; [done| |done|done]. destruct Hss as [Hss _]. specialize (Hss t). rewrite Hv in Hss. simpl in Hss.
      rewrite Hsec in Hss. rewrite Hss, Hs. simpl. eauto 10.
    + by eapply owns_same.
    + by eapply owns_same.
  - destruct H as [Hvs Hst Hct Hss Hfd Hhp]. pose proof Hct as (H1 & H2 & H3).
    pose proof (others_total _ _ _ Hvs Hv).
    eexists _, a. split; [apply (Hw (map_sum v_slots views - v_slots v)); lia|].
    split; [|constructor]. split.
    + apply views_update; [done|]. by apply (Hvs t v).
    + by eapply store_same.
    + eapply count_update; [done|done|..]; simpl; [|by right| |done|lia].
      * intros u Hu. simpl in Ho. rewrite Ho. naive_solver.
      * simpl in Ho. split_and!; simpl; [done| |lia]. rewrite H2 by done. lia.
    + by eapply sess_keep.
    + by eapply owns_same.
    + by eapply owns_same.
Qed.

Lemma step_unlock g views a t v m Φ g' l :
  inv g views a -> views !! t = Some v -> unlock_wp m Φ v ->
  owner m g = Some t -> g' = set_owner m None g -> l = None ->
  simulated g' views a t Φ tt l.
Proof.
  intros [Hvs Hst Hct Hss Hfd Hhp] Hv Hw Ho -> ->. destruct m; simpl in Hw.
  - destruct (v_section v) as [c|] eqn:Hsec; [|done].
    destruct (v_session v) as [s|] eqn:Hs; [|done].
    destruct (spec_step (sec_map c) (sec_clock c) (sec_cmd c)) as [r m'] eqn:Hsp.
    destruct Hw as (_ & Hr & HΦ). pose proof Hst as (H1 & H2 & H3).
    pose proof (H1 t) as Hme. rewrite Hv in Hme. unfold section_ok in Hme. simpl in Hme. rewrite Hsec in Hme.
    destruct Hme as (_ & E1 & E2 & E3).
    pose proof (proj1 Hss t) as Hmy. rewrite Hv in Hmy. simpl in Hmy. rewrite Hsec, Hs in Hmy.
    destruct Hmy as (s0 & s' & Hs0 & [= <-] & Htk & Hbad).
    pose proof (astep_exec a t s0 (sec_cmd c) s (g_clock g) Hs0 Htk Hbad) as Hstep.
    rewrite <-E2, <-E3, Hsp in Hstep. simpl in Hstep.
    eexists _, _. split; [exact HΦ|]. split; [|apply ltrace_one, Hstep; lia]. split.
    + apply views_update; [done|]. destruct (Hvs t v Hv) as (Ha & Hb & Hro). unfold view_ok. simpl.
      rewrite Hs in *. split_and!; [done|by intros _; apply Hb|]. destruct (v_role v); naive_solver.
    + eapply store_update; [done|..]; simpl; [|by left|done| |lia].
      * intros u Hu. simpl in Ho. rewrite Ho. naive_solver.
      * intros _. by rewrite <-E1, <-E3.
    + by eapply count_same.
    + by eapply sess_update with (a := a) (os := Some (Session (s_rx s) (render r) false)).
    + by eapply owns_same.
    + by eapply owns_same.
  - destruct (v_count v) as [[n others]|] eqn:Hcnt; [|done].
    destruct Hw as (Hn0 & Hn1 & Hn2 & HΦ). pose proof Hct as (H1 & H2 & H3).
    pose proof (H1 t) as Hme. rewrite Hv in Hme. unfold count_ok in Hme. simpl in Hme. rewrite Hcnt in Hme. destruct Hme as (_ & E1 & E2).
    eexists _, a. split; [exact HΦ|]. split; [|constructor]. split.
    + apply views_update; [done|]. destruct (Hvs t v Hv) as (Ha & Hb & Hro). by split_and!.
    + by eapply store_same.
    + eapply count_update; [done|done|..]; simpl; [|by left|done|lia|lia].
      intros u Hu. simpl in Ho. rewrite Ho. naive_solver.
    + by eapply sess_keep.
    + by eapply owns_same.
    + by eapply owns_same.
Qed.

Lemma step_store_op {A} g views a t v (f : store -> ub (A * store)) Φ ans st :
  inv g views a -> views !! t = Some v -> store_wp f Φ v -> f (g_store g) = Some (ans, st) ->
  simulated (set_store st g) views a t Φ ans None.
Proof.
  intros [Hvs Hst Hct Hss Hfd Hhp] Hv Hw Hf. unfold store_wp in Hw.
  destruct (v_section v) as [c|] eqn:Hsec; [|done]. pose proof Hst as (H1 & H2 & H3).
  pose proof (H1 t) as Hme. rewrite Hv in Hme. unfold section_ok in Hme. simpl in Hme. rewrite Hsec in Hme.
  destruct Hme as (E0 & E1 & E2 & E3). rewrite E1, Hf in Hw.
  eexists _, a. split; [exact Hw|]. split; [|constructor]. split.
  - apply views_update; [done|]. by apply (Hvs t v).
  - eapply store_update; [done|done|..]; simpl; [by left| |congruence|done]. by split_and!.
  - by eapply count_same.
  - eapply sess_same; [done| |done|done]. destruct Hss as [Hss _]. specialize (Hss t). rewrite Hv in Hss. simpl in *.
    by rewrite Hsec in Hss.
  - by eapply owns_same.
  - by eapply owns_same.
Qed.

Lemma step_clock g views a t v Φ s ns :
  inv g views a -> views !! t = Some v -> clock_wp Φ v -> clock_ok s ns -> g_clock g <= ms s ns ->
  simulated (set_clock (ms s ns) g) views a t Φ (s, ns) None.
Proof.
  intros [Hvs Hst Hct Hss Hfd Hhp] Hv Hw Hok Hle. unfold clock_wp in Hw.
  destruct (v_section v) as [c|] eqn:Hsec; [|done]. pose proof Hst as (H1 & H2 & H3).
  pose proof (H1 t) as Hme. rewrite Hv in Hme. unfold section_ok in Hme. simpl in Hme. rewrite Hsec in Hme.
  destruct Hme as (E0 & E1 & E2 & E3).
  eexists _, a. split; [apply Hw; [done|by rewrite E3]|]. split; [|constructor]. split.
  - apply views_update; [done|]. by apply (Hvs t v).
  - eapply store_update; [done|done|..]; simpl; [by left| |congruence|lia]. by split_and!.
  - by eapply count_same.
  - eapply sess_same; [done| |done|done]. destruct Hss as [Hss _]. specialize (Hss t). rewrite Hv in Hss. simpl in *.
    by rewrite Hsec in Hss.
  - by eapply owns_same.
  - by eapply owns_same.
Qed.

Lemma step_count_op {A} g views a t v (f : Z -> A * Z) Φ ans n :
  inv g views a -> views !! t = Some v -> count_wp f Φ v -> f (g_count g) = (ans, n) ->
  simulated (set_count n g) views a t Φ ans None.
Proof.
  intros [Hvs Hst Hct Hss Hfd Hhp] Hv Hw Hf. unfold count_wp in Hw.
  destruct (v_count v) as [[n0 others]|] eqn:Hcnt; [|done]. pose proof Hct as (H1 & H2 & H3).
  pose proof (H1 t) as Hme. rewrite Hv in Hme. unfold count_ok in Hme. simpl in Hme. rewrite Hcnt in Hme. destruct Hme as (E0 & -> & E2).
  rewrite Hf in Hw.
  eexists _, a. split; [exact Hw|]. split; [|constructor]. split.
  - apply views_update; [done|]. by apply (Hvs t v).
  - by eapply store_same.
  - eapply count_update; [done|done|..]; simpl; [done|by left| |congruence|lia].
    split_and!; simpl; [done..|lia].
  - by eapply sess_keep.
  - by eapply owns_same.
  - by eapply owns_same.
Qed.

(** Calls that touch neither the store nor the count. *)
Lemma inv_frame g g' views a a' t v v' :
  inv g views a -> views !! t = Some v -> view_ok t v' ->
  v_section v' = v_section v -> v_count v' = v_count v -> v_slots v' = v_slots v ->
  g' = set_fds (g_fds g') (set_heap (g_heap g') g) ->
  a_map a' = a_map a -> a_clock a' = a_clock a ->
  sess_inv (<[t := v']> views) a' ->
  owns fds_of (g_fds g') (<[t := v']> views) -> owns heap_of (g_heap g') (<[t := v']> views) ->
  inv g' (<[t := v']> views) a'.
Proof.
  intros [Hvs Hst Hct Hss Hfd Hhp] Hv Hok Hsec Hcnt Hsl Hg Hm Hc Hs Hf Hh. split; [|..|done|done|done].
  - by apply views_update.
  - eapply store_same; [done|done|done|..|done|done]; by rewrite Hg.
  - eapply count_same; [done|done|done|done|..]; by rewrite Hg.
Qed.

Lemma fds_same v v' : v_fd v' = v_fd v -> v_role v' = v_role v -> fds_of v' = fds_of v.
Proof. unfold fds_of. by intros -> ->. Qed.

(** A thread outside its critical sections changes its session. *)
Lemma inv_session g views a a' t v s0 s :
  inv g views a -> views !! t = Some v -> v_section v = None -> v_session v = Some s0 ->
  a_map a' = a_map a -> a_clock a' = a_clock a -> a_sessions a' = <[t := s]> (a_sessions a) ->
  a_used a' = a_used a ->
  inv g (<[t := with_session (Some s) v]> views) a'.
Proof.
  intros H Hv Hsec Hs Hm Hc Ha Hu. pose proof H as [Hvs Hst Hct Hss Hfd Hhp].
  eapply inv_frame; [done|done| |done|done|done|by destruct g|done|done|..].
  - destruct (Hvs t v Hv) as (H1 & H2 & H3). unfold view_ok. simpl. rewrite Hs in *.
    split_and!; [done|by intros _; apply H2|]. destruct (v_role v); naive_solver.
  - eapply sess_update with (a := a) (os := Some s); [done| |done|done]. simpl. by rewrite Hsec.
  - by eapply owns_same.
  - by eapply owns_same.
Qed.

Lemma session_of g views a t v s :
  inv g views a -> views !! t = Some v -> v_section v = None -> v_session v = Some s ->
  a_sessions a !! t = Some s.
Proof.
  intros H Hv Hsec Hs. pose proof (proj1 (inv_sess _ _ _ H) t) as Hm. rewrite Hv in Hm. simpl in Hm.
  by rewrite Hsec, Hs in Hm.
Qed.

(** A refusal becomes due when its first byte is about to be sent. *)
Lemma refuse_due g views a t v s s' :
  inv g views a -> views !! t = Some v -> v_section v = None -> v_session v = Some s ->
  sess_sending s = Some s' ->
  exists a', inv g (<[t := with_session (Some s') v]> views) a' /\ asteps a [] a' /\
    a_sessions a' !! t = Some s'.
Proof.
  intros H Hv Hsec Hs Hsend. pose proof (session_of _ _ _ _ _ _ H Hv Hsec Hs) as Ha.
  unfold sess_sending in Hsend. case_decide as Hd.
  - eexists. split; [|split].
    2: { apply (ltrace_one astep a None). by eapply astep_refuse. }
    + by eapply inv_session.
    + simpl. by rewrite lookup_insert_eq.
  - injection Hsend as <-. exists a. split; [|split; [constructor|done]].
    rewrite insert_id; [done|]. rewrite Hv. destruct v; simpl in *; by subst.
Qed.

Lemma step_send g views a t v fd data Φ r l :
  inv g views a -> views !! t = Some v -> send_wp fd data Φ v ->
  match r with
  | Ok n => 0 <= n <= zlen data /\ l = sent_label t (take (Z.to_nat n) data)
  | Err _ => l = None
  end ->
  simulated g views a t Φ r l.
Proof.
  intros H Hv [[Hsec Hcnt] [Hfd Hw]] Hr. pose proof (inv_views _ _ _ H t v Hv) as (Hok1 & Hok2 & Hrole).
  destruct (v_session v) as [s|] eqn:Hs.
  - destruct (sess_sending s) as [s'|] eqn:Hse; [|done]. destruct Hw as (-> & HΦ & HΦe).
    destruct (refuse_due _ _ _ _ _ _ _ H Hv Hsec Hs Hse) as (a' & H' & Hst & Ha').
    assert (Hmain : t <> main_tid) by (destruct (v_role v); naive_solver).
    destruct r as [n|e].
    2: { subst l. exists (with_session (Some s') v), a'. auto. }
    destruct Hr as [Hn ->]. unfold sent_label. rewrite decide_False by done.
    destruct (take (Z.to_nat n) (s_due s')) as [|b bs] eqn:Htake.
    { exists (with_session (Some s') v), a'. split; [|done].
      assert (n = 0) as ->.
      { apply (f_equal length) in Htake. rewrite length_take in Htake. simpl in Htake. lia. }
      specialize (HΦ 0 Hn). unfold sess_sent in HΦ. simpl in HΦ. by destruct s'. }
    eexists (with_session (Some (sess_sent s' (Z.to_nat n))) v), _.
    split; [by apply HΦ|]. split.
    2: { simpl. rewrite <-(app_nil_l [LSend t (b :: bs)]). eapply ltrace_app; [exact Hst|].
         apply (ltrace_one astep a' (Some _)). rewrite <-Htake. eapply astep_send; [done|].
         split; [|lia]. destruct (Z.to_nat n) eqn:E; [done|lia]. }
    pose proof (inv_session g _ a'
      (AState (a_map a') (a_clock a') (<[t := sess_sent s' (Z.to_nat n)]> (a_sessions a')) (a_used a'))
      t (with_session (Some s') v) s' (sess_sent s' (Z.to_nat n)) H') as Hi.
    rewrite insert_insert_eq in Hi. apply Hi; [by apply lookup_insert_eq|done..].
  - destruct Hw as (Hsuf & HΦ & HΦe).
    assert (Hmain : t = main_tid).
    { destruct (v_role v); [tauto|]. destruct Hrole as [_ [_ Hr']]. rewrite Hfd in Hr'. by specialize (Hr' eq_refl). }
    destruct r as [n|e].
    2: { subst l. eapply simulated_same; [done|done|]. apply HΦe. }
    destruct Hr as [Hn ->]. unfold sent_label. rewrite decide_True by done.
    destruct (take (Z.to_nat n) data) as [|b bs] eqn:Htake.
    { eapply simulated_same; [done|done|]. by apply HΦ. }
    exists v, a. split; [by apply HΦ|]. rewrite insert_id by done. split; [done|].
    apply (ltrace_one astep a (Some _)). destruct Hsuf as [x Hx].
    apply (astep_turn a x _ (drop (Z.to_nat n) data)); [|done]. by rewrite <-Htake, take_drop.
Qed.

Lemma step_recv g views a t v fd len Φ r l :
  inv g views a -> views !! t = Some v -> recv_wp fd len Φ v ->
  match r with
  | Ok [] | Err _ => l = None
  | Ok data => zlen data <= len /\ l = Some (LRecv t data)
  end ->
  simulated g views a t Φ r l.
Proof.
  intros H Hv ([Hsec Hcnt] & Hfd & Hlen & Hw) Hr.
  destruct (v_session v) as [s|] eqn:Hs; [|done]. destruct Hw as (H0 & He & Hd).
  destruct r as [[|b bs]|e]; [subst l; by eapply simulated_same| |subst l; by eapply simulated_same].
  destruct Hr as [Hl ->]. specialize (Hd (b :: bs) ltac:(done) Hl).
  destruct (sess_recv s (b :: bs)) as [s'|] eqn:Hrv; [|done].
  pose proof (session_of _ _ _ _ _ _ H Hv Hsec Hs) as Ha.
  eexists _, _. split; [exact Hd|]. split.
  2: { apply (ltrace_one astep a (Some _)). eapply astep_recv; [done|done|lia|done]. }
  by eapply inv_session.
Qed.

Lemma view_ok_main t v l :
  view_ok t v -> v_role v = Acceptor l -> t = main_tid /\ v_session v = None.
Proof. intros (_ & _ & H) E. by rewrite E in H. Qed.

Lemma step_close g views a t v fd Φ g' l :
  inv g views a -> views !! t = Some v -> close_wp fd Φ v ->
  g' = set_fds (g_fds g ∖ {[fd]}) g -> l = (if decide (t = main_tid) then None else Some (LClose t)) ->
  simulated g' views a t Φ tt l.
Proof.
  intros H Hv [[Hsec Hcnt] Hw] -> ->.
  pose proof (inv_views _ _ _ H t v Hv) as Hok. pose proof H as [_ _ _ Hss Hfd Hhp].
  pose proof Hfd as (Hnd & _ & Hpool).
  assert (Hin : forall x, x ∈ fds_of v -> x ∈ g_fds g) by (intros x Hx; apply Hpool; eauto).
  specialize (Hnd t v Hv). pose proof (proj1 Hss t) as Hmy. rewrite Hv in Hmy. simpl in Hmy. rewrite Hsec in Hmy.
  destruct (v_fd v) as [fd'|] eqn:Hf.
  - destruct Hw as [-> HΦ].
    assert (Hfds : fds_of v = fd :: fds_of (View (v_role v) None None None None (v_slots v) (v_heap v))).
    { unfold fds_of. simpl. by rewrite Hf. }
    rewrite Hfds, NoDup_cons in Hnd.
    assert (Hown : owns fds_of (g_fds g ∖ {[fd]})
      (<[t := View (v_role v) None None None None (v_slots v) (v_heap v)]> views)).
    { eapply owns_update; [done|done|tauto| |]; rewrite Hfds.
      - intros x Hx. left. by right.
      - intros x. rewrite not_elem_of_cons, elem_of_difference, elem_of_singleton. split.
        + intros [Hx Hne]. destruct (decide (x ∈ fds_of (View (v_role v) None None None None (v_slots v) (v_heap v)))); tauto.
        + intros [[Hx [Hne Hx']]|Hx]; [done|]. split; [apply Hin; rewrite Hfds; by right|].
          intros ->. tauto. }
    destruct Hok as (Ho1 & Ho2 & Ho3). case_decide as Ht.
    + exists (View (v_role v) None None None None (v_slots v) (v_heap v)), a.
      assert (Hr : v_session v = None) by (destruct (v_role v); tauto).
      split; [done|]. split; [|constructor].
      eapply inv_frame; [done|done| |done|done|done|done|done|done| |done|by eapply owns_same].
      * split; [done|]. split; [done|]. simpl. destruct (v_role v); tauto.
      * eapply sess_same; [done| |done|done]. simpl. by rewrite Hmy.
    + exists (View (v_role v) None None None None (v_slots v) (v_heap v)),
        (AState (a_map a) (a_clock a) (delete t (a_sessions a)) (a_used a)).
      destruct (v_role v) as [|] eqn:Hro; [tauto|].
      destruct (v_session v) as [s|] eqn:Hs; [|exfalso; destruct Ho3 as [_ [_ Ho3]]; by rewrite Hf in Ho3; specialize (Ho3 eq_refl)].
      split; [done|]. split; [|by eapply (ltrace_one astep a (Some _)), astep_close].
      eapply inv_frame; [done|done| |done|done|done|done|done|done| |done|by eapply owns_same].
      * split; [done|]. split; [done|]. by split; [apply Ho3|].
      * by eapply sess_update with (a := a) (os := None).
  - destruct (v_role v) as [[l|]|] eqn:Hro; [|done..]. destruct Hw as [-> HΦ].
    destruct (view_ok_main _ _ _ Hok Hro) as [-> Hs].
    assert (Hfds : fds_of v = [fd]) by (unfold fds_of; by rewrite Hf, Hro).
    rewrite decide_True by done. eexists _, a. split; [exact HΦ|]. split; [|constructor].
    eapply inv_frame; [done|done| |done|done|done|done|done|done| | |by eapply owns_same].
    + destruct Hok as (Ho1 & Ho2 & Ho3). by split_and!.
    + by eapply sess_keep.
    + eapply owns_update; [done|done|constructor| |].
      * intros x Hx. by apply not_elem_of_nil in Hx.
      * intros x. simpl. rewrite Hfds, list_elem_of_singleton, elem_of_difference, elem_of_singleton.
        split; [tauto|]. intros [|Hx]; [tauto|by apply not_elem_of_nil in Hx].
Qed.

(** A thread gets a new descriptor or heap cell. *)
Lemma owns_acquire res pool views t v v' x :
  owns res pool views -> views !! t = Some v -> x ∉ pool -> res v' ≡ₚ x :: res v ->
  owns res ({[x]} ∪ pool) (<[t := v']> views).
Proof.
  intros H Hv Hx E. pose proof H as (Hnd & _ & Hpool). eapply owns_update; [done|done|..].
  - rewrite E. apply NoDup_cons. split; [|by eapply Hnd]. intros Hin. apply Hx, Hpool. eauto.
  - intros y. rewrite E, elem_of_cons. intros [->|Hy]; tauto.
  - intros y. rewrite E, elem_of_cons, elem_of_union, elem_of_singleton. split.
    + intros [->|Hy]; [tauto|]. destruct (decide (y ∈ res v)); tauto.
    + intros [[Hy _]|[->|Hy]]; [tauto..|]. right. apply Hpool. eauto.
Qed.

Lemma step_accept g views a t v l0 Φ r g' l :
  inv g views a -> views !! t = Some v -> cache_wp _ (Accept l0) Φ v ->
  l = None ->
  match r with Ok fd => fd ∉ g_fds g /\ g' = set_fds ({[fd]} ∪ g_fds g) g | Err _ => g' = g end ->
  simulated g' views a t Φ r l.
Proof.
  intros H Hv ([Hsec Hcnt] & Hfd & Hs & Hro & HΦ & HΦe) -> Hr.
  destruct r as [fd|e]; [|subst g'; by eapply simulated_same].
  destruct Hr as [Hnew ->]. pose proof H as [Hvs _ _ Hss Hfds Hhp]. specialize (Hvs t v Hv).
  eexists _, a. split; [apply HΦ|]. split; [|constructor].
  eapply inv_frame; [done|done| |done|done|done|done|done|done| | |by eapply owns_same].
  - destruct Hvs as (H1 & H2 & H3). unfold view_ok. simpl. rewrite Hro in *. destruct H3. by split_and!.
  - eapply sess_keep; [done|done|done| |done|done]. done.
  - eapply owns_acquire; [done|done|done|]. unfold fds_of. simpl. by rewrite Hfd.
Qed.

Lemma step_socket g views a t v Φ r g' l :
  inv g views a -> views !! t = Some v -> cache_wp _ Socket Φ v ->
  l = None ->
  match r with Ok fd => fd ∉ g_fds g /\ g' = set_fds ({[fd]} ∪ g_fds g) g | Err _ => g' = g end ->
  simulated g' views a t Φ r l.
Proof.
  intros H Hv (Hro & Hfd & HΦe & HΦ) -> Hr.
  destruct r as [fd|e]; [|subst g'; by eapply simulated_same].
  destruct Hr as [Hnew ->]. pose proof H as [Hvs _ _ Hss Hfds Hhp]. specialize (Hvs t v Hv).
  eexists _, a. split; [apply HΦ|]. split; [|constructor].
  eapply inv_frame; [done|done| |done|done|done|done|done|done| | |by eapply owns_same].
  - destruct Hvs as (H1 & H2 & H3). unfold view_ok. simpl. rewrite Hro in *. destruct H3. by split_and!.
  - by eapply sess_keep.
  - eapply owns_acquire; [done|done|done|]. unfold fds_of. simpl. by rewrite Hfd, Hro.
Qed.

Lemma step_malloc g views a t v Φ r g' l :
  inv g views a -> views !! t = Some v -> cache_wp _ Malloc Φ v ->
  l = None ->
  match r with Some p => p ∉ g_heap g /\ g' = set_heap ({[p]} ∪ g_heap g) g | None => g' = g end ->
  simulated g' views a t Φ r l.
Proof.
  intros H Hv (Hh & HΦe & HΦ) -> Hr.
  destruct r as [p|]; [|subst g'; by eapply simulated_same].
  destruct Hr as [Hnew ->]. pose proof H as [Hvs _ _ Hss Hfds Hhp].
  eexists _, a. split; [apply HΦ|]. split; [|constructor].
  eapply inv_frame; [done|done| |done|done|done|by destruct g|done|done| |by eapply owns_same|].
  - by apply (Hvs t v).
  - by eapply sess_keep.
  - eapply owns_acquire; [done|done|done|]. unfold heap_of. simpl. by rewrite Hh.
Qed.

Lemma step_free g views a t v p Φ g' l :
  inv g views a -> views !! t = Some v -> cache_wp _ (Free p) Φ v ->
  g' = set_heap (g_heap g ∖ {[p]}) g -> l = None ->
  simulated g' views a t Φ tt l.
Proof.
  intros H Hv (Hh & HΦ) -> ->. pose proof H as [Hvs _ _ Hss Hfds Hhp].
  eexists _, a. split; [exact HΦ|]. split; [|constructor].
  eapply inv_frame; [done|done| |done|done|done|by destruct g|done|done| |by eapply owns_same|].
  - by apply (Hvs t v).
  - by eapply sess_keep.
  - assert (Hres : heap_of v = [p]) by (unfold heap_of; by rewrite Hh).
    eapply owns_update; [done|done|constructor| |].
    + intros x Hx. by apply not_elem_of_nil in Hx.
    + intros x. simpl. rewrite Hres, list_elem_of_singleton, elem_of_difference, elem_of_singleton.
      split; [tauto|]. intros [|Hx]; [tauto|by apply not_elem_of_nil in Hx].
Qed.

(** Every call, when its rule holds, keeps the invariant and is a run of the
    abstract server. *)
Lemma step_call g views a t v A (e : cacheE A) Φ ans g' l :
  inv g views a -> views !! t = Some v -> cache_wp A e Φ v -> call_step t g A e ans g' l ->
  simulated g' views a t Φ ans l.
Proof.
  intros H Hv Hw Hs. destruct e; cbn [cache_wp call_step] in Hw, Hs;
    try (lazymatch type of ans with unit => destruct ans | _ => idtac end;
         destruct Hs as [-> ->]; unpack; eapply simulated_same; [done|done|by auto]).
  - destruct ans; destruct Hs as (Ho & Hg & Hl). by eapply step_lock.
  - destruct ans; destruct Hs as (Ho & Hg & Hl). by eapply step_unlock.
  - destruct Hs as [-> Hs]. destruct (f (g_store g)) as [[a' st]|] eqn:Hf; [|done].
    destruct Hs as [-> ->]. by eapply step_store_op.
  - destruct Hs as [-> Hs]. destruct (f (g_count g)) as [a' n] eqn:Hf.
    destruct Hs as [-> ->]. by eapply step_count_op.
  - destruct ans as [s ns]; destruct Hs as (Hok & Hle & -> & ->). by eapply step_clock.
  - destruct Hs as [-> Hs]. by eapply step_send.
  - destruct Hs as [-> Hs]. by eapply step_recv.
  - destruct ans; destruct Hs as [Hg Hl]. by eapply step_close.
  - destruct Hs as [Hl Hs]. by eapply step_accept.
  - destruct Hs as [Hl Hs]. by eapply step_malloc.
  - destruct ans; destruct Hs as [Hg Hl]. by eapply step_free.
  - destruct Hs as (-> & -> & ->). destruct Hw as (_ & _ & _ & _ & _ & _ & HΦ). by eapply simulated_same.
  - destruct Hs as [Hl Hs]. by eapply step_socket.
  - done.
Qed.
