(* ===== verification/CacheServerProof.v ===== *)
(** * The cache server refines its contract

    Every run of the whole program, with any number of clients, any scheduling and
    any behaviour of the sockets, is a run of the abstract server, and no thread
    ever makes a call it must not make. *)

From S2P Require Import Prelude CLib Effects.
From S2P Require Import CacheSpec CacheStore CacheProto CacheServer CacheRefine CacheLine.
From S2P Require Import CacheSession CacheThread CacheArgs CacheMain CacheConcurrent.
Local Open Scope Z_scope.
Local Open Scope prog_scope.

(** ** New threads *)

Lemma store_spawn g views a a' u w :
  store_inv g views a -> views !! u = None -> v_section w = None ->
  a_map a' = a_map a -> a_clock a' = a_clock a ->
  store_inv g (<[u := w]> views) a'.
Proof.
  intros (Hs & Hr & Hc) Hu Hw Hm Hac. split; [|by rewrite Hm, Hac]. intros t.
  specialize (Hs t). unfold section_ok in *. rewrite Hm. destruct (decide (t = u)) as [->|Hne].
  - rewrite lookup_insert_eq. simpl. rewrite Hw. by rewrite Hu in Hs.
  - by rewrite lookup_insert_ne.
Qed.

Lemma open_below views a t v v' :
  (forall u w, views !! u = Some w -> view_ok u w) -> sess_inv views a ->
  views !! t = Some v -> view_ok t v' -> v_session v = None -> v_session v' = None ->
  v_slots v' = v_slots v - 1 ->
  Z.of_nat (size (a_sessions a)) <= map_sum v_slots views - 1.
Proof.
  intros Hvs [Hs _] Hv Hok Hn Hn' Hsl.
  assert (E : size (a_sessions a) = size (omap v_session (<[t := v']> views))).
  { rewrite <-!size_dom. f_equal. apply set_eq. intros u. rewrite !elem_of_dom, lookup_omap.
    specialize (Hs u). destruct (decide (u = t)) as [->|Hu].
    - rewrite lookup_insert_eq. simpl. rewrite Hv in Hs. simpl in Hs.
      destruct (v_section v) as [c|].
      + destruct Hs as (? & ? & _ & Hs & _). congruence.
      + by rewrite Hs, Hn, Hn'.
    - rewrite lookup_insert_ne by done. destruct (views !! u) as [w|]; simpl in *; [|by rewrite Hs].
      destruct (v_section w) as [c|]; [|by rewrite Hs].
      destruct Hs as (s & s' & -> & -> & _). split; eauto. }
  rewrite E. pose proof (map_sum_insert v_slots views t v v' Hv) as Hsum.
  replace (map_sum v_slots views - 1) with (map_sum v_slots (<[t := v']> views)) by lia.
  apply map_sum_size. intros u w [[<- <-]|[_ Hw]]%lookup_insert_Some.
  - split; [apply Hok|]. by rewrite Hn'.
  - split; apply (Hvs u w Hw).
Qed.

Lemma step_create g views a t v arg fd Φ u :
  inv g views a -> views !! t = Some v -> views !! u = None -> create_wp arg fd Φ v ->
  exists v' a', Φ true v' /\ inv g (<[u := view_client arg fd]> (<[t := v']> views)) a' /\
    astep a (Some (LOpen u)) a'.
Proof.
  intros [Hvs Hst Hct Hss Hfds Hhp] Hv Hu ([Hsec Hcnt] & Hs & Hfd & Hh & Hsl & HΦ & _).
  set (v' := View (v_role v) None None None None (v_slots v - 1) None) in *.
  assert (Hut : u <> t) by congruence.
  pose proof (Hvs t v Hv) as (Hok1 & Hok2 & Hro).
  destruct (v_role v) as [l|] eqn:Hrole.
  2: { destruct Hro as [_ [_ Hro]]. rewrite Hfd in Hro. by specialize (Hro Hs). }
  destruct Hro as [-> _].
  assert (Hok' : view_ok main_tid v') by (split_and!; [simpl; lia|done|done]).
  exists v', (AState (a_map a) (a_clock a) (<[u := session_new]> (a_sessions a)) ({[u]} ∪ a_used a)).
  split; [done|]. pose proof Hct as (H1 & H2 & H3). pose proof Hss as [Hs1 Hs2]. split.
  2: { apply astep_open.
       - intros Hin. apply Hs2 in Hin as [w Hw]. congruence.
       - pose proof (open_below views a main_tid v v' Hvs Hss Hv Hok' Hs ltac:(done) ltac:(done)). lia. }
  assert (Hul : <[main_tid := v']> views !! u = None) by by rewrite lookup_insert_ne.
  assert (Hsum : map_sum v_slots (<[u := view_client arg fd]> (<[main_tid := v']> views)) = map_sum v_slots views).
  { rewrite map_sum_insert_new by done. rewrite (map_sum_insert _ _ _ _ _ Hv). simpl. lia. }
  split.
  - intros s w [[<- <-]|[_ Hw]]%lookup_insert_Some; [by split_and!|].
    by eapply (views_update views main_tid v').
  - eapply store_spawn; [eapply (store_same g g views a a)| | |done|done]; done.
  - split_and!; rewrite ?Hsum; [|done|done]. intros s. specialize (H1 s). unfold count_ok in *.
    rewrite lookup_insert. destruct (decide (u = s)) as [<-|].
    { simpl. by rewrite Hu in H1. }
    rewrite lookup_insert. destruct (decide (main_tid = s)) as [<-|]; [|done].
    simpl. rewrite Hv in H1. simpl in H1. by rewrite Hcnt in H1.
  - split; simpl.
    + intros s. specialize (Hs1 s). rewrite !lookup_insert.
      destruct (decide (u = s)) as [<-|]; [done|]. destruct (decide (main_tid = s)) as [<-|]; [|done].
      rewrite Hv in Hs1. simpl in *. by rewrite Hsec, Hs in Hs1.
    + intros s. rewrite elem_of_union, elem_of_singleton, !lookup_insert_is_Some'. naive_solver.
  - eapply owns_split; [done|done|done|]. unfold fds_of. simpl. by rewrite Hfd, Hrole.
  - eapply owns_split; [done|done|done|]. unfold heap_of. simpl. by rewrite Hh.
Qed.

(** ** The simulation *)

(** A thread that ended owns nothing. *)
Definition thread_end (_ : unit) (v : view) : Prop := v = view_end Worker \/ v = view_end (Acceptor None).

Definition thread_ok (op : option (prog unit)) (ov : option view) : Prop :=
  match op, ov with
  | Some p, Some v => wp p thread_end v
  | None, None => True
  | _, _ => False
  end.

Definition related (c : config) (a : astate) : Prop :=
  exists views, inv (c_shared c) views a /\ forall t, thread_ok (c_threads c !! t) (views !! t).

Lemma thread_view (ts : gmap nat (prog unit)) (views : gmap nat view) t p :
  (forall t, thread_ok (ts !! t) (views !! t)) -> ts !! t = Some p ->
  exists v, views !! t = Some v /\ wp p thread_end v.
Proof. intros H Hp. specialize (H t). rewrite Hp in H. destruct (views !! t) as [v|]; [by exists v|done]. Qed.

Lemma threads_update (ts : gmap nat (prog unit)) (views : gmap nat view) t p v :
  (forall t, thread_ok (ts !! t) (views !! t)) -> wp p thread_end v ->
  forall u, thread_ok (<[t := p]> ts !! u) (<[t := v]> views !! u).
Proof. intros H Hp u. rewrite !lookup_insert. by case_decide. Qed.

Lemma cstep_simulated c l c' a :
  related c a -> cstep c l c' -> exists a', related c' a' /\ asteps a (option_list l) a'.
Proof.
  intros (views & Hinv & Hth) Hs. destruct Hs as [g ts t p p' Hp Ho|g ts t p A e k b g' l Hp Ho Hc|g ts t p arg fd k u Hp Ho Hu];
    simpl in Hinv, Hth; destruct (thread_view _ _ _ _ Hth Hp) as (v & Hv & Hwp).
  - exists a. split; [|constructor]. exists views. split; [done|].
    rewrite <-(insert_id views t v) by done. apply threads_update; [done|]. by eapply wp_tau_inv.
  - apply (wp_vis_inv _ _ _ _ _ Ho) in Hwp.
    destruct (step_call _ _ _ _ _ _ _ _ _ _ _ Hinv Hv Hwp Hc) as (v' & a' & Hk & Hinv' & Ha).
    exists a'. split; [|done]. eexists. split; [done|]. by apply threads_update.
  - apply (wp_vis_inv _ _ _ _ _ Ho) in Hwp.
    assert (Hvu : views !! u = None).
    { specialize (Hth u). rewrite Hu in Hth. by destruct (views !! u). }
    destruct (step_create _ _ _ _ _ _ _ _ _ Hinv Hv Hvu Hwp) as (v' & a' & Hk & Hinv' & Ha).
    exists a'. split; [|by apply (ltrace_one astep a (Some _))]. eexists. split; [done|].
    apply threads_update; [by apply threads_update|].
    eapply wp_mono, wp_client_thread. intros [] w ->. by left.
Qed.

(** The command line is a list of strings, and the clock shows [now]. *)
Definition started (c : config) (now : Z) : Prop :=
  0 <= now /\ exists prog_name name argv args,
    is_cstr prog_name name /\ Forall2 is_cstr argv args /\ c = config_init now prog_name argv.

Lemma related_init c now : started c now -> related c (astate_init now).
Proof.
  intros (Hnow & prog_name & name & argv & args & Hn & Ha & ->).
  exists {[main_tid := view_main None]}. split.
  - split.
    + intros t v [<- <-]%lookup_singleton_Some. by split_and!.
    + split; [|split; [intros _; apply refines_zero|simpl; lia]]. intros t.
      unfold section_ok. by destruct (decide (t = main_tid)) as [->|];
        [rewrite lookup_singleton_eq|rewrite lookup_singleton_ne].
    + assert (E : map_sum v_slots {[main_tid := view_main None]} = 0) by reflexivity.
      split_and!; rewrite ?E; [|done|done]. intros t.
      unfold count_ok. by destruct (decide (t = main_tid)) as [->|];
        [rewrite lookup_singleton_eq|rewrite lookup_singleton_ne].
    + split; [|intros t Ht; by apply elem_of_empty in Ht]. intros t.
      by destruct (decide (t = main_tid)) as [->|]; [rewrite lookup_singleton_eq|rewrite lookup_singleton_ne].
    + split_and!.
      * intros t v [<- <-]%lookup_singleton_Some. constructor.
      * intros t1 t2 v1 v2 x [<- <-]%lookup_singleton_Some [<- <-]%lookup_singleton_Some. done.
      * intros x. split; [intros Hx; by apply elem_of_empty in Hx|].
        intros (t & v & [<- <-]%lookup_singleton_Some & Hx). by apply not_elem_of_nil in Hx.
    + split_and!.
      * intros t v [<- <-]%lookup_singleton_Some. constructor.
      * intros t1 t2 v1 v2 x [<- <-]%lookup_singleton_Some [<- <-]%lookup_singleton_Some. done.
      * intros x. split; [intros Hx; by apply elem_of_empty in Hx|].
        intros (t & v & [<- <-]%lookup_singleton_Some & Hx). by apply not_elem_of_nil in Hx.
  - intros t. simpl. destruct (decide (t = main_tid)) as [->|].
    + rewrite !lookup_singleton_eq. simpl. apply wp_bind. eapply wp_mono, wp_server_main; [|done|done].
      intros _ v ->. apply wp_ret. by right.
    + by rewrite !lookup_singleton_ne.
Qed.

(** Every run of the server is a run of the abstract server. *)
Lemma server_simulation c now ls c' :
  started c now -> csteps c ls c' -> exists a, related c' a /\ asteps (astate_init now) ls a.
Proof.
  intros Hst Hc. eapply ltrace_simulation; [|done|by apply related_init].
  intros s l s' a. apply cstep_simulated.
Qed.

(** ** What no thread ever does *)

Definition holds_none (t : nat) (g : shared) : Prop := forall m, owner m g <> Some t.

(** The call [e] is in order for the thread [t]: shared variables are touched by
    the holder of their mutex only, statements are defined, mutexes are neither
    taken twice nor released by another thread, no socket is waited for under a
    mutex, descriptors are open and cells allocated. *)
Definition call_safe (t : nat) (g : shared) A (e : cacheE A) : Prop :=
  match e with
  | Lock _ => holds_none t g
  | Unlock m => owner m g = Some t
  | StoreOp f => owner store_mutex g = Some t /\ f (g_store g) <> None
  | CountOp _ => owner client_count_mutex g = Some t
  | ClockGettime => owner store_mutex g = Some t
  | Send fd _ | Recv fd _ | Close fd => holds_none t g /\ fd ∈ g_fds g
  | Accept fd => holds_none t g /\ fd ∈ g_fds g
  | Free p => p ∈ g_heap g
  | PthreadCreate p fd => p ∈ g_heap g /\ fd ∈ g_fds g
  | SetReuseaddr fd | Bind fd _ _ | Listen fd _ => fd ∈ g_fds g
  | Undefined => False
  | _ => True
  end.

Section safe.
Context (g : shared) (views : gmap nat view) (a : astate) (t : nat) (v : view).
Context (H : inv g views a) (Hv : views !! t = Some v).

Lemma unlocked_none : unlocked v -> holds_none t g.
Proof.
  intros [Hs Hc] []; simpl.
  - pose proof (proj1 (inv_store _ _ _ H) t) as Hm. rewrite Hv in Hm.
    unfold section_ok in Hm. simpl in Hm. by rewrite Hs in Hm.
  - pose proof (proj1 (inv_count _ _ _ H) t) as Hm. rewrite Hv in Hm.
    unfold count_ok in Hm. simpl in Hm. by rewrite Hc in Hm.
Qed.

Lemma section_owner c : v_section v = Some c -> g_store_owner g = Some t /\ sec_store c = g_store g.
Proof.
  intros Hs. pose proof (proj1 (inv_store _ _ _ H) t) as Hm. rewrite Hv in Hm.
  unfold section_ok in Hm. simpl in Hm. rewrite Hs in Hm. tauto.
Qed.

Lemma count_owner x : v_count v = Some x -> g_count_owner g = Some t.
Proof.
  intros Hs. pose proof (proj1 (inv_count _ _ _ H) t) as Hm. rewrite Hv in Hm.
  unfold count_ok in Hm. simpl in Hm. rewrite Hs in Hm. destruct x. tauto.
Qed.

Lemma fd_open fd : v_fd v = Some fd -> fd ∈ g_fds g.
Proof.
  intros Hf. destruct (inv_fds _ _ _ H) as (_ & _ & Hp). apply Hp. exists t, v. split; [done|].
  unfold fds_of. rewrite Hf. simpl. by left.
Qed.

Lemma listener_open fd : v_role v = Acceptor (Some fd) -> fd ∈ g_fds g.
Proof.
  intros Hf. destruct (inv_fds _ _ _ H) as (_ & _ & Hp). apply Hp. exists t, v. split; [done|].
  unfold fds_of. rewrite Hf. apply elem_of_app. right. by left.
Qed.

Lemma heap_live p : v_heap v = Some p -> p ∈ g_heap g.
Proof.
  intros Hf. destruct (inv_heap _ _ _ H) as (_ & _ & Hp). apply Hp. exists t, v. split; [done|].
  unfold heap_of. rewrite Hf. by left.
Qed.

Lemma wp_safe A (e : cacheE A) Φ : cache_wp A e Φ v -> call_safe t g A e.
Proof.
  pose proof unlocked_none. pose proof section_owner. pose proof count_owner.
  pose proof fd_open. pose proof listener_open. pose proof heap_live.
  intros Hw. destruct e; cbn [cache_wp call_safe] in *; try tauto.
  - apply unlocked_none, Hw.
  - destruct m; simpl in *.
    + destruct (v_section v) as [c|] eqn:E; [|done]. by apply (section_owner c).
    + destruct (v_count v) as [x|] eqn:E; [|done]. by apply (count_owner x).
  - unfold store_wp in Hw. destruct (v_section v) as [c|] eqn:E; [|done].
    destruct (section_owner c E) as [Ho Hst]. split; [done|]. rewrite <-Hst.
    by destruct (f (sec_store c)).
  - unfold count_wp in Hw. destruct (v_count v) as [x|] eqn:E; [|done]. by apply (count_owner x).
  - unfold clock_wp in Hw. destruct (v_section v) as [c|] eqn:E; [|done]. by apply (section_owner c).
  - unfold send_wp in Hw. unpack. split; eauto.
  - unfold recv_wp in Hw. unpack. split; eauto.
  - unfold close_wp in Hw. destruct Hw as [Hu Hw]. split; [by apply unlocked_none|].
    destruct (v_fd v) eqn:E; [destruct Hw as [-> _]; by apply fd_open|].
    destruct (v_role v) as [[l|]|] eqn:E2; [|done..]. destruct Hw as [-> _]. by apply listener_open.
  - unpack. split; eauto.
  - unpack. eauto.
  - unfold create_wp in Hw. unpack. split; eauto.
  - unpack. eauto.
  - unpack. eauto.
  - unpack. eauto.
Qed.
End safe.

(** The next call of every thread is in order. *)
Lemma related_safe c a t p A (e : cacheE A) k :
  related c a -> c_threads c !! t = Some p -> observe p = VisF e k -> call_safe t (c_shared c) A e.
Proof.
  intros (views & Hinv & Hth) Hp Ho. destruct (thread_view _ _ _ _ Hth Hp) as (v & Hv & Hwp).
  eapply wp_safe; [done|done|]. by apply (wp_vis_inv _ _ _ _ _ Ho) in Hwp.
Qed.

(** ** Bounds *)

(** The pool is no larger than what its owners hold. *)
Lemma owns_size res pool views :
  owns res pool views -> Z.of_nat (size pool) <= map_sum (fun v => zlen (res v)) views.
Proof.
  intros (_ & _ & Hp).
  assert (E : pool ⊆ list_to_set ((map_to_list views).*2 ≫= res)).
  { intros x Hx. apply elem_of_list_to_set, list_elem_of_bind.
    apply Hp in Hx as (t & v & Hv & Hx). exists v. split; [done|].
    apply list_elem_of_fmap. exists (t, v). split; [done|]. by apply elem_of_map_to_list. }
  apply subseteq_size in E. etransitivity; [apply inj_le, E|]. clear.
  etransitivity.
  { apply inj_le. apply size_list_to_set_le. }
  unfold map_sum. rewrite map_fold_foldr. induction (map_to_list views) as [|[i v] l IH]; [done|].
  change (zlen (res v ++ (l.*2 ≫= res)) <= zlen (res v) +
    foldr (uncurry (fun (_ : nat) (x : view) (acc : Z) => zlen (res x) + acc)) 0 l).
  rewrite length_app. lia.
Qed.

(** The accepting thread holds at most two sockets, a client thread one. *)
Lemma fds_below g views a :
  inv g views a -> map_sum (fun v => zlen (fds_of v)) views <= map_sum v_slots views + 2.
Proof.
  intros H. pose proof (inv_views _ _ _ H) as Hvs.
  assert (Hw : forall t v, t <> main_tid -> views !! t = Some v -> zlen (fds_of v) <= v_slots v).
  { intros t v Ht Hv. destruct (Hvs t v Hv) as (H0 & H1 & Hr). unfold fds_of.
    destruct (v_role v); [tauto|]. rewrite app_nil_r. destruct (v_fd v); simpl; [|done].
    apply H1. intros Hs. by apply Hr in Hs. }
  destruct (views !! main_tid) as [v|] eqn:Hv.
  - rewrite <-(insert_delete_id views main_tid v Hv), !map_sum_insert_new by apply lookup_delete_eq.
    assert (map_sum (fun v => zlen (fds_of v)) (delete main_tid views) <=
            map_sum v_slots (delete main_tid views)).
    { apply map_sum_le. intros t w [Ht Hw']%lookup_delete_Some. by eapply Hw. }
    assert (zlen (fds_of v) <= 2).
    { unfold fds_of. destruct (v_fd v), (v_role v) as [[?|]|]; simpl; lia. }
    destruct (Hvs _ _ Hv) as (Hsl & _). lia.
  - assert (map_sum (fun v => zlen (fds_of v)) views <= map_sum v_slots views); [|lia].
    apply map_sum_le. intros t w Hw'. eapply Hw; [|done]. congruence.
Qed.

Lemma related_bounds c a :
  related c a ->
  Z.of_nat (size (g_fds (c_shared c))) <= CLIENT_LIMIT + 2 /\
  (g_count_owner (c_shared c) = None -> 0 <= g_count (c_shared c) <= CLIENT_LIMIT) /\
  (g_store_owner (c_shared c) = None -> refines (g_clock (c_shared c)) (g_store (c_shared c)) (a_map a)).
Proof.
  intros (views & H & _). pose proof (inv_count _ _ _ H) as (_ & Hc & Hl).
  split_and!.
  - pose proof (owns_size _ _ _ (inv_fds _ _ _ H)). pose proof (fds_below _ _ _ H). lia.
  - intros Ho. rewrite Hc by done. split; [|done].
    assert (E : map_sum (fun _ => 0) views <= map_sum v_slots views).
    { apply map_sum_le. intros t v Hv. by apply (inv_views _ _ _ H t v). }
    etransitivity; [|exact E]. clear. induction views as [|i x m Hi IH] using map_ind; [done|].
    by rewrite map_sum_insert_new.
  - apply (inv_store _ _ _ H).
Qed.
