(* ===== verification/CachePace.v ===== *)
(** * The pace of the cache server's threads

    How many steps a thread takes between two calls, and while it holds a mutex.
    [paced] is a second calculus over the same programs as the one of
    [CacheThread]: its state is the mutex held and the steps left; every silent
    step is paid, so that a loop that makes no call is refused.  The functions of
    [CacheServer] satisfy it, whatever their arguments and the answers are. *)

From ITree Require Import ITreeFacts.
From S2P Require Import Prelude CLib Effects.
From S2P Require Import CacheSpec CacheStore CacheProto CacheServer.
Local Open Scope nat_scope.
Local Open Scope prog_scope.

(** The longest critical section, the one of SET, makes nine calls before it
    releases the mutex. *)
Definition SECTION_STEPS : nat := 9.

(** The mutex a thread holds, and the steps it may take before it has to release
    it; without a mutex, the silent steps it may take before its next call. *)
Record pace := Pace { p_mutex : option mutex; p_left : nat }.

Definition free_pace (s : pace) : Prop := p_mutex s = None.

(** ** The rules *)

(** A call outside the critical sections gives the thread new steps. *)
Definition outside {A} (Φ : A -> pace -> Prop) (s : pace) : Prop :=
  free_pace s /\ forall a, Φ a (Pace None SECTION_STEPS).

(** One on a shared variable or the clock is paid. *)
Definition within {A} (Φ : A -> pace -> Prop) (s : pace) : Prop :=
  match s with Pace (Some m) (S k) => forall a, Φ a (Pace (Some m) k) | _ => False end.

Definition pace_ev A (e : cacheE A) : (A -> pace -> Prop) -> pace -> Prop :=
  match e in cacheE A return (A -> pace -> Prop) -> pace -> Prop with
  | Lock m => fun Φ s => free_pace s /\ Φ tt (Pace (Some m) SECTION_STEPS)
  | Unlock m => fun Φ s => p_mutex s = Some m /\ Φ tt (Pace None SECTION_STEPS)
  | StoreOp _ | CountOp _ | ClockGettime => within
  | Undefined => fun _ _ => True
  | _ => outside
  end.

Lemma pace_ev_mono A (e : cacheE A) (Φ Ψ : A -> pace -> Prop) s :
  (forall a s', Φ a s' -> Ψ a s') -> pace_ev A e Φ s -> pace_ev A e Ψ s.
Proof.
  intros H. destruct e, s as [[m'|] [|k]]; cbn; unfold outside; naive_solver.
Qed.

Lemma pace_ev_inter A (e : cacheE A) (Φ : nat -> A -> pace -> Prop) s :
  (forall n, pace_ev A e (Φ n) s) -> pace_ev A e (fun a s' => forall n, Φ n a s') s.
Proof.
  intros H. pose proof (H 0) as H0. destruct e, s as [[m'|] [|k]]; cbn in *; unfold outside in *;
    try done; try (intros; by apply H); (split; [apply H0|]); intros; by apply H.
Qed.

(** ** The calculus *)

Section paced.
Context {R : Type}.

Fixpoint pacedn (n : nat) (t : prog R) (Φ : R -> pace -> Prop) (s : pace) : Prop :=
  match n with
  | O => True
  | S n' =>
      match observe t with
      | RetF r => Φ r s
      | TauF t' => match p_left s with O => False | S k => pacedn n' t' Φ (Pace (p_mutex s) k) end
      | VisF e k => pace_ev _ e (fun a s' => pacedn n' (k a) Φ s') s
      end
  end.

Definition paced (t : prog R) (Φ : R -> pace -> Prop) (s : pace) : Prop := forall n, pacedn n t Φ s.

Lemma pacedn_S n t Φ s :
  pacedn (S n) t Φ s =
  match observe t with
  | RetF r => Φ r s
  | TauF t' => match p_left s with O => False | S k => pacedn n t' Φ (Pace (p_mutex s) k) end
  | VisF e k => pace_ev _ e (fun a s' => pacedn n (k a) Φ s') s
  end.
Proof. done. Qed.

Lemma pacedn_mono n t (Φ Ψ : R -> pace -> Prop) s :
  (forall r s', Φ r s' -> Ψ r s') -> pacedn n t Φ s -> pacedn n t Ψ s.
Proof.
  intros H. revert t s. induction n as [|n IH]; intros t s; simpl; [done|].
  destruct (observe t) as [r|t'|A e k]; [apply H | | apply pace_ev_mono; eauto].
  destruct (p_left s); [done|apply IH].
Qed.

Lemma pacedn_pred n t (Φ : R -> pace -> Prop) s : pacedn (S n) t Φ s -> pacedn n t Φ s.
Proof.
  revert t s. induction n as [|n IH]; intros t s; [done|].
  rewrite pacedn_S, (pacedn_S n). destruct (observe t) as [r|t'|A e k]; [done | | apply pace_ev_mono; eauto].
  destruct (p_left s); [done|apply IH].
Qed.

Lemma pacedn_observe n t u (Φ : R -> pace -> Prop) s :
  observe t = observe u -> pacedn n t Φ s -> pacedn n u Φ s.
Proof. destruct n; [done|]. rewrite !pacedn_S. by intros ->. Qed.

Lemma paced_mono t (Φ Ψ : R -> pace -> Prop) s :
  (forall r s', Φ r s' -> Ψ r s') -> paced t Φ s -> paced t Ψ s.
Proof. intros H Ht n. by eapply pacedn_mono, Ht. Qed.

Lemma paced_ret r (Φ : R -> pace -> Prop) s : Φ r s -> paced (Ret r) Φ s.
Proof. intros H [|n]; [done|]. by rewrite pacedn_S. Qed.

Lemma paced_ub (Φ : R -> pace -> Prop) s : paced undefined_behaviour Φ s.
Proof. by intros [|n]. Qed.

(** What a step leaves to show. *)
Lemma paced_ret_inv t r Φ s : observe t = RetF r -> paced t Φ s -> Φ r s.
Proof. intros Ht H. specialize (H 1). by rewrite pacedn_S, Ht in H. Qed.

Lemma paced_tau_inv t u Φ s :
  observe t = TauF u -> paced t Φ s -> exists k, p_left s = S k /\ paced u Φ (Pace (p_mutex s) k).
Proof.
  intros Ht H. pose proof (H 1) as H1. rewrite pacedn_S, Ht in H1.
  destruct (p_left s) as [|k] eqn:E; [done|]. exists k. split; [done|]. intros n.
  specialize (H (S n)). by rewrite pacedn_S, Ht, E in H.
Qed.

Lemma paced_vis_inv t A (e : cacheE A) k Φ s :
  observe t = VisF e k -> paced t Φ s -> pace_ev A e (fun a s' => paced (k a) Φ s') s.
Proof.
  intros Ht H. apply pace_ev_inter. intros n. specialize (H (S n)). by rewrite pacedn_S, Ht in H.
Qed.
End paced.

Lemma pacedn_bind {R T} n (t : prog R) (k : R -> prog T) Φ s :
  pacedn n t (fun r s' => pacedn n (k r) Φ s') s -> pacedn n (ITree.bind t k) Φ s.
Proof.
  revert t s. induction n as [|n IH]; intros t s; [done|].
  rewrite pacedn_S. intros H. eapply pacedn_observe; [symmetry; apply observe_bind|].
  destruct (observe t) as [r|t'|A e h]; [done | |]; rewrite pacedn_S; simpl.
  - destruct (p_left s) as [|j]; [done|]. apply IH. eapply pacedn_mono; [|exact H]. intros ??. apply pacedn_pred.
  - eapply pace_ev_mono; [|exact H]. intros a s' H'. apply IH.
    eapply pacedn_mono; [|exact H']. intros ??. apply pacedn_pred.
Qed.

Lemma paced_bind {R T} (t : prog R) (k : R -> prog T) Φ s :
  paced t (fun r s' => paced (k r) Φ s') s -> paced (ITree.bind t k) Φ s.
Proof. intros H n. apply pacedn_bind. eapply pacedn_mono, H. intros r s' Hk. apply Hk. Qed.

Lemma paced_call {A} (e : cacheE A) Φ s : pace_ev A e Φ s -> paced (call e) Φ s.
Proof.
  intros H [|n]; [done|]. rewrite pacedn_S. simpl. eapply pace_ev_mono; [|exact H].
  intros a s' Ha. by apply (paced_ret a Φ).
Qed.

Lemma paced_call_bind {A R} (e : cacheE A) (k : A -> prog R) Φ s :
  pace_ev A e (fun a s' => paced (k a) Φ s') s -> paced (ITree.bind (call e) k) Φ s.
Proof. intros H. by apply paced_bind, paced_call. Qed.

(** A loop pays for every return to its head. *)
Lemma paced_iter {I R} (Inv : I -> pace -> Prop) (body : I -> prog (I + R)) Φ i s :
  Inv i s ->
  (forall i s, Inv i s ->
    paced (body i) (fun r s' =>
      match r with
      | inl i' => exists k, p_left s' = S k /\ Inv i' (Pace (p_mutex s') k)
      | inr r => Φ r s'
      end) s) ->
  paced (ITree.iter body i) Φ s.
Proof.
  intros Hi Hbody n. revert i s Hi. induction n as [|n IH]; intros i s Hi; [done|].
  eapply pacedn_observe; [symmetry; apply observe_iter|].
  apply pacedn_bind. eapply pacedn_mono, Hbody, Hi. intros [j|r] s'; [|done].
  intros (k & Hk & HI). rewrite pacedn_S. simpl. rewrite Hk. by apply IH.
Qed.

(** ** Symbolic execution *)

(** Statements in sequence, case by case. *)
Ltac pace_simpl := cbn [pace_ev within SECTION_STEPS p_mutex p_left].
Ltac pace_step :=
  lazymatch goal with
  | |- paced (ITree.bind (call _) _) _ _ => apply paced_call_bind; pace_simpl
  | |- paced (ITree.bind _ _) _ _ => apply paced_bind
  | |- paced (call _) _ _ => apply paced_call; pace_simpl
  | |- paced (Ret _) _ _ => apply paced_ret
  | |- paced undefined_behaviour _ _ => apply paced_ub
  | |- paced (match ?x with _ => _ end) _ _ => destruct x
  | |- outside _ _ => split; [done|]
  | |- free_pace _ /\ _ => split; [done|]
  | |- Some _ = Some _ /\ _ => split; [done|]
  | |- forall _, _ => intro
  end.
Ltac pace_run := repeat (pace_step; try done).

(** The state between two calls: no mutex, and steps for the loops around. *)
Definition has_left (n : nat) (s : pace) : Prop := p_mutex s = None /\ n <= p_left s.

Lemma has_left_new n : n <= SECTION_STEPS -> has_left n (Pace None SECTION_STEPS).
Proof. by split. Qed.
#[export] Hint Resolve has_left_new : cmodel.

Lemma has_left_le n m s : has_left n s -> m <= n -> has_left m s.
Proof. intros [H1 H2] Hm. split; [done|lia]. Qed.

(** ** The functions *)

(** Replies are sent by at least one call. *)
Lemma paced_send_all fd p len s :
  (0 < len)%Z -> free_pace s -> paced (send_all fd p len) (fun _ => has_left 8) s.
Proof.
  intros Hlen Hs. apply (paced_iter (fun sent s => free_pace s /\ (sent = 0%Z \/ 8 <= p_left s))); [by auto|].
  clear s Hs. intros sent s [Hs Hsent]. destruct (Z.ltb_spec sent len) as [Hl|Hl].
  - destruct (read_bytes _ _) as [data|]; [|apply paced_ub]. apply paced_call_bind. split; [done|].
    assert (Hstop : has_left 8 (Pace None SECTION_STEPS)) by (apply has_left_new; unfold SECTION_STEPS; lia).
    assert (Hgo : forall sent, exists k, p_left (Pace None SECTION_STEPS) = S k /\
      free_pace (Pace None k) /\ (sent = 0%Z \/ 8 <= p_left (Pace None k))).
    { intros ?. exists 8. split; [done|]. split; [done|by right]. }
    by intros [n|e]; [destruct (n =? 0)%Z|destruct (e =? EINTR)%Z]; apply paced_ret.
  - apply paced_ret. split; [done|]. destruct Hsent; lia.
Qed.

Lemma paced_send_error fd s : free_pace s -> paced (send_error fd) (fun _ => has_left 8) s.
Proof. by apply paced_send_all. Qed.

(** A format whose first byte is printed gives a text that is not empty. *)
Lemma expand_starts c r args s : c <> PERCENT -> expand (c :: r) args = Some s -> (0 < zlen s)%Z.
Proof.
  intros Hc H.
  assert (E : exists t, s = c :: t).
  { destruct c; try done; cbn [expand] in H; by destruct (expand r args); simplify_eq; eexists. }
  destruct E as [t ->]. simpl. lia.
Qed.

Lemma paced_send_reply fd fmt args s :
  match lit fmt with [] => False | c :: _ => c <> PERCENT end ->
  free_pace s -> paced (send_reply fd fmt args) (fun _ => has_left 8) s.
Proof.
  intros Hf Hs. unfold send_reply, vsnprintf.
  destruct (expand (lit fmt) args) as [text|] eqn:Ht; [|apply paced_ub].
  destruct (_ || _); [by apply paced_send_error|].
  apply paced_send_all; [|done]. destruct (lit fmt) as [|c r]; [done|]. by eapply expand_starts.
Qed.

#[export] Hint Resolve paced_send_error : cmodel.

Ltac pace_reply := apply paced_send_reply; [by vm_compute|done].

(** The commands. *)
Lemma paced_now_ms m Φ :
  (forall now, Φ now (Pace (Some m) 8)) -> paced now_ms Φ (Pace (Some m) SECTION_STEPS).
Proof. intros H. unfold now_ms. pace_run. Qed.

Ltac pace_command :=
  repeat first
    [ progress pace_run
    | apply paced_now_ms
    | pace_reply ].

Lemma paced_get fd key s : free_pace s -> paced (handle_get fd key) (fun _ => has_left 8) s.
Proof. intros Hs. unfold handle_get, get_locked. pace_command. Qed.

Lemma paced_delete fd key s : free_pace s -> paced (handle_delete fd key) (fun _ => has_left 8) s.
Proof. intros Hs. unfold handle_delete, delete_locked. pace_command. Qed.

Lemma paced_set fd p s : free_pace s -> paced (handle_set fd p) (fun _ => has_left 8) s.
Proof. intros Hs. unfold handle_set, set_locked, fill_slot. pace_command. Qed.

Lemma paced_handle_line fd line s : free_pace s -> paced (handle_line fd line) (fun _ => has_left 8) s.
Proof.
  intros Hs. unfold handle_line. destruct (strncmp line (literal "GET ") 4) as [c1|]; [|apply paced_ub].
  destruct (c1 =? 0)%Z; [by apply paced_get|]. destruct (strncmp line (literal "DELETE ") 7) as [c2|]; [|apply paced_ub].
  destruct (c2 =? 0)%Z; [by apply paced_delete|]. destruct (strncmp line (literal "SET ") 4) as [c3|]; [|apply paced_ub].
  destruct (c3 =? 0)%Z; [by apply paced_set|]. pace_reply.
Qed.

(** A line is answered before the next one is looked for: the loop over the lines
    of a chunk makes a call at each turn. *)
Lemma paced_line_next (p : prog Z) (k : Z) s :
  paced p (fun _ => has_left 8) s ->
  paced (let* r := p in if negb (r =? 0)%Z then Ret (inr ClientDone) else Ret (inl k))
    (fun r s' =>
      match r with
      | inl _ => exists k, p_left s' = S k /\ has_left 2 (Pace (p_mutex s') k)
      | inr _ => has_left 2 s'
      end) s.
Proof.
  intros Hp. apply paced_bind. eapply paced_mono; [|exact Hp]. intros r [m [|j]] [Hm Hj]; simpl in *; [lia|].
  destruct (r =? 0)%Z; apply paced_ret; [exists j|]; (split; [done|split; [done|simpl; lia]]) || (split; [done|simpl; lia]).
Qed.

Lemma paced_process_lines fd pending n s :
  has_left 2 s -> paced (process_lines fd pending n) (fun _ => has_left 2) s.
Proof.
  intros Hs0. apply (paced_iter (fun _ => has_left 2)); [done|]. clear s Hs0. intros processed s Hs. pose proof Hs as [Hf _].
  unfold process_line. destruct (memchr _ LF _) as [[linelen|]|]; [|by apply paced_ret|apply paced_ub].
  destruct (memcpy _ _ _ _) as [line|]; [|apply paced_ub].
  destruct (memchr line NUL _) as [[z|]|]; [by apply paced_line_next, paced_send_error| |apply paced_ub].
  destruct (strip_line line linelen) as [line'|]; [|apply paced_ub].
  destruct (load_byte line' 0) as [c|]; [|apply paced_ub].
  case_decide; apply paced_line_next; [by apply paced_send_error|by apply paced_handle_line].
Qed.

Lemma paced_client_step fd st s :
  has_left 1 s ->
  paced (client_step fd st) (fun r s' =>
    match r with
    | inl _ => exists k, p_left s' = S k /\ has_left 1 (Pace (p_mutex s') k)
    | inr _ => free_pace s'
    end) s.
Proof.
  intros [Hs _]. destruct st as [pending pending_len].
  assert (Hnext : forall n s', has_left (S (S n)) s' -> exists k, p_left s' = S k /\ has_left 1 (Pace (p_mutex s') k)).
  { intros n [m [|j]] [Hm Hj]; simpl in *; [lia|]. exists j. split; [done|]. split; [done|]. simpl. lia. }
  assert (Hrefuse : paced (send_error fd ;! Ret (inr tt)) (fun (r : buf * Z + unit) s' =>
    match r with inl _ => exists k, p_left s' = S k /\ has_left 1 (Pace (p_mutex s') k) | inr _ => free_pace s' end)
    (Pace None SECTION_STEPS)).
  { apply paced_bind. eapply paced_mono; [|by apply paced_send_error]. intros _ s' [H _]. by apply paced_ret. }
  apply paced_call_bind. split; [done|].
  intros [chunk|e]; [|destruct (e =? EINTR)%Z; apply paced_ret; [by apply (Hnext 7)|done]].
  cbn zeta. destruct (zlen chunk =? 0)%Z; [by apply paced_ret|]. destruct (_ <? _)%Z; [done|].
  destruct (memcpy _ _ _ _) as [pending'|]; [|apply paced_ub].
  apply paced_bind. eapply paced_mono; [|apply paced_process_lines, has_left_new; unfold SECTION_STEPS; lia].
  intros [processed|] s' Hs'; [|by apply paced_ret; destruct Hs'].
  destruct (compact _ _ _) as [[q n]|]; [|apply paced_ub]. destruct (_ <? _)%Z.
  - apply paced_bind. eapply paced_mono; [|apply paced_send_error; by destruct Hs'].
    intros _ s'' [H _]. by apply paced_ret.
  - apply paced_ret. by apply (Hnext 0).
Qed.

Lemma paced_handle_client fd s : has_left 1 s -> paced (handle_client fd) (fun _ => free_pace) s.
Proof. intros Hs. apply (paced_iter (fun _ => has_left 1)); [done|]. intros st s'. apply paced_client_step. Qed.

Lemma paced_release s : free_pace s -> paced release_client_slot (fun _ s' => s' = Pace None SECTION_STEPS) s.
Proof. intros Hs. unfold release_client_slot. pace_run. Qed.

Lemma paced_reserve s : free_pace s -> paced reserve_client_slot (fun _ s' => s' = Pace None SECTION_STEPS) s.
Proof.
  intros Hs. unfold reserve_client_slot. pace_step. split; [done|]. pace_step. intros [|]; pace_run.
Qed.

(** A client thread, from its first call on. *)
Lemma paced_client_thread argument fd s :
  free_pace s -> paced (client_thread argument fd) (fun _ => free_pace) s.
Proof.
  intros Hs. apply paced_call_bind. split; [done|]. intros _.
  apply paced_bind. eapply paced_mono; [|apply paced_handle_client, has_left_new; unfold SECTION_STEPS; lia].
  intros [] s' Hs'. apply paced_call_bind. split; [done|]. intros _.
  eapply paced_mono; [|by apply paced_release]. by intros _ s'' ->.
Qed.

Lemma paced_accept_step l s :
  free_pace s ->
  paced (accept_step l) (fun r s' => has_left 8 s') s.
Proof.
  intros Hs. assert (Hnew : has_left 8 (Pace None SECTION_STEPS)) by (apply has_left_new; unfold SECTION_STEPS; lia).
  assert (Hundo : forall fd, paced (release_client_slot ;! call (Close fd) ;! Ret (inl tt))
    (fun (_ : unit + Empty_set) s' => has_left 8 s') (Pace None SECTION_STEPS)).
  { intros fd. apply paced_bind. eapply paced_mono; [|by apply paced_release]. intros _ s' ->. pace_run. }
  apply paced_call_bind. split; [done|]. intros [fd|e]; [|destruct (e =? EINTR)%Z; pace_run].
  apply paced_bind. eapply paced_mono; [|by apply paced_reserve]. intros [|] s' ->; cbn [negb].
  - apply paced_call_bind. split; [done|]. intros [p|]; [|apply Hundo].
    apply paced_call_bind. split; [done|]. intros [|]; [pace_run|].
    apply paced_call_bind. split; [done|]. intros _. apply Hundo.
  - apply paced_bind. eapply paced_mono; [|by apply paced_send_error]. intros _ s' [Hs' _].
    apply paced_call_bind. split; [done|]. intros _. by apply paced_ret.
Qed.

Lemma paced_accept_loop l Φ s : has_left 1 s -> paced (accept_loop l) Φ s.
Proof.
  intros Hs. apply (paced_iter (fun _ => has_left 1)); [done|]. intros _ s' [Hs' _].
  eapply paced_mono; [|by apply paced_accept_step]. intros [[]|[]] [m [|j]] [Hm Hj]; simpl in *; [lia|].
  exists j. split; [done|]. split; [done|]. simpl. lia.
Qed.

(** The whole server. *)
Lemma paced_main prog_name argv s : free_pace s -> paced (main prog_name argv) (fun _ => free_pace) s.
Proof.
  intros Hs. unfold main. destruct (parse_args _ _ _) as [args|]; [|apply paced_ub].
  destruct args as [host_p port| |code].
  - unfold serve. pace_step. split; [done|]. intros _. pace_step. split; [done|].
    intros [l|e]; [|pace_run]. pace_step. split; [done|]. intros _.
    destruct (cstring host_p) as [host|]; [|apply paced_ub].
    assert (Hend : forall r, paced (call (Close l) ;! Ret r) (fun (_ : Z) => free_pace) (Pace None SECTION_STEPS))
      by (intros r; pace_run).
    pace_step. split; [done|]. intros [|]; cbn [negb]; [|pace_step; split; [done|]; intros _; apply Hend].
    pace_step. split; [done|]. intros [[]|e]; [|pace_step; split; [done|]; intros _; apply Hend].
    pace_step. split; [done|]. intros [[]|e]; [|pace_step; split; [done|]; intros _; apply Hend].
    pace_step. split; [done|]. intros _. apply paced_bind, paced_accept_loop, has_left_new. unfold SECTION_STEPS. lia.
  - pace_run.
  - unfold usage. apply paced_bind. destruct (expand _ _); [|apply paced_ub]. pace_run.
Qed.
