(* ===== verification/CacheLinear.v ===== *)
(** * The cache is linearizable

    What an observer of the sockets can say about a run: there is one sequence of
    commands, with nondecreasing times, that explains every reply of every client,
    at every moment of the run.  Each command takes effect after its line was
    received and before the first byte of its reply was sent. *)

From stdpp Require Import sorting.
From S2P Require Import Prelude CLib CacheSpec CacheStore CacheProto CacheServer CacheSession.
Local Open Scope Z_scope.

(** ** Histories *)

Record op := Op { op_client : nat; op_time : Z; op_command : command; op_reply : reply }.

(** A sequential execution of the contract, from the empty cache. *)
Definition legal (h : list op) (m : cache) : Prop :=
  spec_run ∅ (map (fun o => (op_time o, op_command o)) h) = (map op_reply h, m) /\
  StronglySorted Z.le (map op_time h).

Definition ops_of (c : nat) (h : list op) : list op := filter (fun o => op_client o = c) h.

(** What the client [c] sent and got. *)
Definition received (c : nat) (ls : list label) : list byte :=
  mjoin (omap (fun l => match l with LRecv c' d => if decide (c' = c) then Some d else None | _ => None end) ls).
Definition sent (c : nat) (ls : list label) : list byte :=
  mjoin (omap (fun l => match l with LSend c' d => if decide (c' = c) then Some d else None | _ => None end) ls).

(** The replies to [lines]: ERROR to a line that is no command, and the replies of
    [ops] to the others, in order. *)
Inductive answers : list (list byte) -> list op -> list reply -> Prop :=
| answers_nil : answers [] [] []
| answers_bad l lines ops rs :
    line_command l = Bad -> answers lines ops rs -> answers (l :: lines) ops (RError :: rs)
| answers_op l lines o ops rs :
    line_command l = op_command o -> op_command o <> Bad ->
    answers lines ops rs -> answers (l :: lines) (o :: ops) (op_reply o :: rs).

Definition unlines (lines : list (list byte)) : list byte := mjoin (map (fun l => l ++ [LF]) lines).

(** The bytes of the replies, and of the ERROR to an overlong input. *)
Definition replies_text (rs : list reply) (dead : bool) : list byte :=
  mjoin (map render rs) ++ if dead then render RError else [].

(** The client [c] received [lines] and [rx] after them; its replies are those of
    the history, and [due] is not sent yet. *)
Definition tracked (c : nat) (ls : list label) (h : list op) (rx due : list byte) (dead : bool) : Prop :=
  exists lines rs,
    Forall (fun l => LF ∉ l) lines /\ received c ls = unlines lines ++ rx /\
    answers lines (ops_of c h) rs /\ sent c ls ++ due = replies_text rs dead /\
    (dead = true -> LINE_MAX < zlen rx).

(** The history explains what every client got. *)
Definition explains (h : list op) (ls : list label) : Prop :=
  forall c, exists rx due dead, tracked c ls h rx due dead.

(** ... at every moment. *)
Definition linearizes (h : list op) (ls : list label) : Prop :=
  forall ls1, ls1 `prefix_of` ls -> exists h1, h1 `prefix_of` h /\ explains h1 ls1.

(** ** Facts *)

Lemma answers_snoc_bad l lines ops rs :
  line_command l = Bad -> answers lines ops rs -> answers (lines ++ [l]) ops (rs ++ [RError]).
Proof. intros Hl. induction 1; simpl; [by repeat constructor|by constructor|by constructor]. Qed.

Lemma answers_snoc_op l lines o ops rs :
  line_command l = op_command o -> op_command o <> Bad ->
  answers lines ops rs -> answers (lines ++ [l]) (ops ++ [o]) (rs ++ [op_reply o]).
Proof. intros Hl Hb. induction 1; simpl; [by repeat constructor|by constructor|by constructor]. Qed.

Lemma unlines_snoc lines l : unlines (lines ++ [l]) = unlines lines ++ l ++ [LF].
Proof. unfold unlines. rewrite map_app, join_app. simpl. by rewrite app_nil_r. Qed.

Lemma replies_text_snoc rs r : replies_text (rs ++ [r]) false = replies_text rs false ++ render r.
Proof. unfold replies_text. rewrite map_app, join_app. simpl. by rewrite !app_nil_r. Qed.

Lemma received_app c ls ls' : received c (ls ++ ls') = received c ls ++ received c ls'.
Proof. unfold received. by rewrite omap_app, join_app. Qed.

Lemma sent_app c ls ls' : sent c (ls ++ ls') = sent c ls ++ sent c ls'.
Proof. unfold sent. by rewrite omap_app, join_app. Qed.

Lemma ops_of_snoc c h o :
  ops_of c (h ++ [o]) = ops_of c h ++ if decide (op_client o = c) then [o] else [].
Proof. unfold ops_of. by rewrite filter_app. Qed.

(** A step that is not the client's. *)
Lemma tracked_other c ls h rx due dead l h' :
  tracked c ls h rx due dead -> received c (option_list l) = [] -> sent c (option_list l) = [] ->
  ops_of c h' = ops_of c h -> tracked c (ls ++ option_list l) h' rx due dead.
Proof.
  intros (lines & rs & H1 & H2 & H3 & H4 & H5) Hr Hs Ho. exists lines, rs.
  rewrite received_app, sent_app, Hr, Hs, Ho, !app_nil_r. by split_and!.
Qed.

(** The next line is taken and answered. *)
Lemma tracked_take c ls h h' rx l rest r :
  tracked c ls h rx [] false -> cut_at LF rx = Some (l, rest) ->
  (forall lines rs, answers lines (ops_of c h) rs -> answers (lines ++ [l]) (ops_of c h') (rs ++ [r])) ->
  tracked c ls h' rest (render r) false.
Proof.
  intros (lines & rs & H1 & H2 & H3 & H4 & _) Hc Ha. apply cut_at_Some in Hc as [-> Hl].
  exists (lines ++ [l]), (rs ++ [r]). split_and!.
  - apply Forall_app_2; [done|by constructor].
  - rewrite H2, unlines_snoc, <-!app_assoc. done.
  - by apply Ha.
  - rewrite replies_text_snoc, <-H4. by rewrite app_nil_r.
  - done.
Qed.

(** ** The invariant of the abstract server *)

(** What the session of a client says about the run so far. *)
Definition client_tracked (ls : list label) (h : list op) (a : astate) (c : nat) : Prop :=
  match a_sessions a !! c with
  | Some s => c ∈ a_used a /\ tracked c ls h (s_rx s) (s_due s) (s_dead s)
  | None =>
      (c ∉ a_used a -> received c ls = [] /\ sent c ls = [] /\ ops_of c h = []) /\
      exists rx due dead, tracked c ls h rx due dead
  end.

Record lin_inv (ls : list label) (h : list op) (a : astate) : Prop := LinInv {
  lin_legal : legal h (a_map a);
  lin_clock : Forall (fun o => op_time o <= a_clock a) h;
  lin_clients : forall c, client_tracked ls h a c;
  lin_past : linearizes h ls
}.

Lemma lin_explains ls h a : (forall c, client_tracked ls h a c) -> explains h ls.
Proof.
  intros H c. specialize (H c). unfold client_tracked in H. destruct (a_sessions a !! c) as [s|].
  - destruct H. eauto.
  - tauto.
Qed.

Lemma lin_init now : lin_inv [] [] (astate_init now).
Proof.
  assert (Hc : forall c, client_tracked [] [] (astate_init now) c).
  { intros c. unfold client_tracked. simpl. rewrite lookup_empty. split; [done|].
    exists [], [], false, [], []. split_and!; [constructor|done|constructor|done|done]. }
  split; [by split; [|constructor]|constructor|done|].
  intros ls1 Hp. apply prefix_nil_inv in Hp as ->. exists []. split; [done|]. by eapply lin_explains.
Qed.

Lemma prefix_snoc_inv {A} (k l : list A) x : k `prefix_of` l ++ [x] -> k `prefix_of` l \/ k = l ++ [x].
Proof.
  intros [r Hr]. destruct (decide (r = [])) as [->|Hne].
  - right. by rewrite app_nil_r in Hr.
  - left. destruct (exists_last Hne) as (r' & y & ->). rewrite app_assoc in Hr.
    apply app_inj_tail in Hr as [-> _]. by exists r'.
Qed.

(** The past does not change: only the new moment has to be explained. *)
Lemma linearizes_snoc h h' ls l :
  linearizes h ls -> h `prefix_of` h' -> explains h' (ls ++ option_list l) ->
  linearizes h' (ls ++ option_list l).
Proof.
  intros H Hh He ls1 Hp. destruct l as [l|]; simpl in *.
  - apply prefix_snoc_inv in Hp as [Hp| ->]; [|by exists h'].
    destruct (H ls1 Hp) as (h1 & Hh1 & He1). exists h1. split; [by etrans|done].
  - rewrite app_nil_r in *. destruct (H ls1 Hp) as (h1 & Hh1 & He1).
    exists h1. split; [by etrans|done].
Qed.

(** A step that runs no command; [c] is the client it is about. *)
Lemma lin_quiet ls h a l a' c :
  lin_inv ls h a -> a_map a' = a_map a -> a_clock a <= a_clock a' ->
  (forall c', c' <> c ->
    a_sessions a' !! c' = a_sessions a !! c' /\ (c' ∈ a_used a' <-> c' ∈ a_used a) /\
    received c' (option_list l) = [] /\ sent c' (option_list l) = []) ->
  client_tracked (ls ++ option_list l) h a' c ->
  lin_inv (ls ++ option_list l) h a'.
Proof.
  intros [Hl Hk Hc Hp] Hm Hck Ho Hme.
  assert (Hc' : forall c', client_tracked (ls ++ option_list l) h a' c').
  { intros c'. destruct (decide (c' = c)) as [->|Hne]; [done|].
    destruct (Ho c' Hne) as (E1 & E2 & E3 & E4). specialize (Hc c'). unfold client_tracked in *.
    rewrite E1. destruct (a_sessions a !! c') as [s|].
    - destruct Hc. split; [by apply E2|by eapply tracked_other].
    - destruct Hc as [Hu (rx & due & dead & Ht)]. split.
      + rewrite E2, received_app, sent_app, E3, E4, !app_nil_r. done.
      + exists rx, due, dead. by eapply tracked_other. }
  split; [by rewrite Hm| |done|].
  - eapply Forall_impl; [done|]. simpl. lia.
  - eapply linearizes_snoc; [done|done|]. by eapply lin_explains.
Qed.

Lemma received_one c c' d : received c [LRecv c' d] = if decide (c' = c) then d else [].
Proof. unfold received. simpl. case_decide; simpl; [by rewrite app_nil_r|done]. Qed.
Lemma sent_one c c' d : sent c [LSend c' d] = if decide (c' = c) then d else [].
Proof. unfold sent. simpl. case_decide; simpl; [by rewrite app_nil_r|done]. Qed.

Lemma sess_take_inv s cmd s' :
  sess_take s = Some (cmd, s') ->
  exists l rest, s_due s = [] /\ s_dead s = false /\ cut_at LF (s_rx s) = Some (l, rest) /\
    cmd = line_command l /\ s' = Session rest [] false.
Proof.
  unfold sess_take. destruct (bool_decide_reflect (s_due s = [])); [|done].
  destruct (s_dead s); [done|]. destruct (_ <=? _); [|done]. simpl.
  destruct (cut_at LF (s_rx s)) as [[l rest]|]; [|done]. intros [= <- <-]. eauto 10.
Qed.

Lemma client_session ls h a c s :
  client_tracked ls h a c -> a_sessions a !! c = Some s ->
  c ∈ a_used a /\ tracked c ls h (s_rx s) (s_due s) (s_dead s).
Proof. unfold client_tracked. intros H E. by rewrite E in H. Qed.

Lemma legal_snoc h m now cmd c :
  legal h m -> Forall (fun o => op_time o <= now) h ->
  legal (h ++ [Op c now cmd (spec_step m now cmd).1]) (spec_step m now cmd).2.
Proof.
  intros [Hr Hs] Hf. unfold legal. rewrite !map_app, spec_run_app, Hr. simpl.
  destruct (spec_step m now cmd) as [r m']. simpl. split; [done|].
  apply StronglySorted_app_2; [|done|repeat constructor].
  intros x1 x2 Hx1 ->%list_elem_of_singleton. apply list_elem_of_fmap in Hx1 as (o & -> & Ho).
  by apply (proj1 (Forall_forall _ _) Hf).
Qed.

(** The critical section of a command extends the history. *)
Lemma lin_exec ls h a c s cmd s' now :
  lin_inv ls h a -> a_sessions a !! c = Some s -> sess_take s = Some (cmd, s') -> cmd <> Bad ->
  a_clock a <= now ->
  exists h', h `prefix_of` h' /\
    lin_inv ls h' (AState (spec_step (a_map a) now cmd).2 now
      (<[c := Session (s_rx s') (render (spec_step (a_map a) now cmd).1) false]> (a_sessions a)) (a_used a)).
Proof.
  intros [Hl Hk Hc Hp] Hs Ht Hb Hle.
  assert (Hk' : Forall (fun o => op_time o <= now) h).
  { eapply Forall_impl; [done|]. simpl. lia. }
  set (r := (spec_step (a_map a) now cmd).1). set (m' := (spec_step (a_map a) now cmd).2).
  exists (h ++ [Op c now cmd r]). split; [by eexists|].
  destruct (client_session _ _ _ _ _ (Hc c) Hs) as [Hu Htr].
  destruct (sess_take_inv _ _ _ Ht) as (l & rest & Hd & Hdead & Hcut & -> & ->).
  assert (Hops : ops_of c (h ++ [Op c now (line_command l) r]) = ops_of c h ++ [Op c now (line_command l) r]).
  { rewrite ops_of_snoc. simpl. by rewrite decide_True. }
  assert (Hc' : forall c', client_tracked ls (h ++ [Op c now (line_command l) r])
      (AState m' now (<[c := Session rest (render r) false]> (a_sessions a)) (a_used a)) c').
  { intros c'. specialize (Hc c'). unfold client_tracked in *. simpl.
    destruct (decide (c' = c)) as [->|Hne].
    - rewrite lookup_insert_eq. split; [done|]. rewrite Hd, Hdead in Htr. simpl.
      eapply tracked_take; [done|done|]. intros lines rs Ha. rewrite Hops.
      by apply (answers_snoc_op l lines (Op c now (line_command l) r)).
    - assert (E : ops_of c' (h ++ [Op c now (line_command l) r]) = ops_of c' h).
      { rewrite ops_of_snoc. simpl. by rewrite decide_False, app_nil_r. }
      rewrite lookup_insert_ne by done. unfold tracked in *. by rewrite E. }
  split; [by apply legal_snoc| |done|].
  - apply Forall_app_2; [done|by constructor].
  - rewrite <-(app_nil_r ls). apply (linearizes_snoc h _ ls None); [done|by eexists|].
    simpl. rewrite app_nil_r. by eapply lin_explains.
Qed.

Lemma lin_step ls h a l a' :
  lin_inv ls h a -> astep a l a' -> exists h', h `prefix_of` h' /\ lin_inv (ls ++ option_list l) h' a'.
Proof.
  intros H Hs. pose proof (lin_clients _ _ _ H) as Hc. destruct Hs as
    [a c Hu _|a c s s' data Hs _ _ Hr|a c s cmd s' now Hs Ht Hb Hle|a c s s' Hs Hr|a c s n Hs Hn|a c s Hs|a x d y _ _|a now Hle].
  - exists h. split; [done|]. eapply (lin_quiet _ _ _ _ _ c); [done|done|done| |].
    + intros c' Hne. simpl. rewrite lookup_insert_ne by done. split_and!; [done|set_solver|done|done].
    + specialize (Hc c). unfold client_tracked in *. simpl. rewrite lookup_insert_eq.
      split; [set_solver|]. rewrite app_nil_r || idtac.
      destruct (a_sessions a !! c) as [s|]; [naive_solver|]. destruct Hc as [Hc _].
      destruct (Hc Hu) as (E1 & E2 & E3). exists [], []. rewrite received_app, sent_app, E1, E2, E3.
      split_and!; [constructor|done|constructor|done|done].
  - exists h. split; [done|]. destruct (client_session _ _ _ _ _ (Hc c) Hs) as [Hu Htr].
    eapply (lin_quiet _ _ _ _ _ c); [done|done|done| |].
    + intros c' Hne. simpl. rewrite lookup_insert_ne by done.
      split_and!; [done|done|by rewrite received_one, decide_False|done].
    + unfold client_tracked. simpl. rewrite lookup_insert_eq. split; [done|].
      unfold sess_recv in Hr. destruct (bool_decide_reflect (s_due s = [])) as [Hd|]; [|done].
      destruct (s_dead s) eqn:Hdead; [done|]. destruct (bool_decide _); [|done].
      injection Hr as <-. destruct Htr as (lines & rs & H1 & H2 & H3 & H4 & _).
      exists lines, rs. rewrite received_app, sent_app. simpl. rewrite received_one, decide_True by done.
      rewrite Hd in H4. rewrite app_nil_r. split_and!; [done|by rewrite H2, app_assoc|done|done|done].
  - simpl. rewrite app_nil_r. by eapply lin_exec.
  - exists h. split; [done|]. destruct (client_session _ _ _ _ _ (Hc c) Hs) as [Hu Htr].
    eapply (lin_quiet _ _ _ _ _ c); [done|done|done| |].
    + intros c' Hne. simpl. rewrite lookup_insert_ne by done. by split_and!.
    + unfold client_tracked. simpl. rewrite lookup_insert_eq, app_nil_r. split; [done|].
      unfold sess_refuse in Hr. destruct (bool_decide (s_due s = []) && _ && _) eqn:Hov.
      * apply (inj Some) in Hr as <-. rewrite !andb_true_iff, bool_decide_eq_true, Z.ltb_lt in Hov.
        destruct Hov as [[Hd Hdead] Hlen]. destruct Htr as (lines & rs & H1 & H2 & H3 & H4 & _).
        destruct (s_dead s); [done|]. exists lines, rs. split_and!; [done..| |done].
        cbn [s_due s_dead]. revert H4. rewrite Hd. unfold replies_text.
        rewrite !app_nil_r. by intros ->.
      * destruct (sess_take s) as [[[| | |] s1]|] eqn:Ht; try done. apply (inj Some) in Hr as <-.
        destruct (sess_take_inv _ _ _ Ht) as (l & rest & Hd & Hdead & Hcut & Hbad & ->).
        rewrite Hd, Hdead in Htr. cbn [s_rx s_due s_dead].
        eapply (tracked_take _ _ _ _ _ l _ RError); [done|done|]. intros lines rs Ha.
        by apply answers_snoc_bad.
  - exists h. split; [done|]. destruct (client_session _ _ _ _ _ (Hc c) Hs) as [Hu Htr].
    eapply (lin_quiet _ _ _ _ _ c); [done|done|done| |].
    + intros c' Hne. simpl. rewrite lookup_insert_ne by done.
      split_and!; [done|done|done|by rewrite sent_one, decide_False].
    + unfold client_tracked. simpl. rewrite lookup_insert_eq. split; [done|].
      destruct Htr as (lines & rs & H1 & H2 & H3 & H4 & H5). exists lines, rs.
      rewrite received_app, sent_app. simpl. rewrite sent_one, decide_True by done.
      rewrite <-app_assoc, take_drop, app_nil_r. by split_and!.
  - exists h. split; [done|]. destruct (client_session _ _ _ _ _ (Hc c) Hs) as [Hu Htr].
    eapply (lin_quiet _ _ _ _ _ c); [done|done|done| |].
    + intros c' Hne. simpl. rewrite lookup_delete_ne by done. by split_and!.
    + unfold client_tracked. simpl. rewrite lookup_delete_eq. split; [done|].
      exists (s_rx s), (s_due s), (s_dead s). by eapply (tracked_other _ _ _ _ _ _ (Some (LClose c))).
  - exists h. split; [done|]. eapply (lin_quiet _ _ _ _ _ 0%nat); [done|done|done|by intros; split_and!|].
    specialize (Hc 0%nat). unfold client_tracked in *. destruct (a_sessions a !! 0%nat) as [s|].
    + destruct Hc. split; [done|]. by eapply (tracked_other _ _ _ _ _ _ (Some (LTurn d))).
    + destruct Hc as [Hu (rx & due & dead & Ht)]. split; [by rewrite received_app, sent_app, !app_nil_r|].
      exists rx, due, dead. by eapply (tracked_other _ _ _ _ _ _ (Some (LTurn d))).
  - exists h. split; [done|]. eapply (lin_quiet _ _ _ _ _ 0%nat); [done|done|done|by intros; split_and!|].
    simpl. rewrite app_nil_r. apply Hc.
Qed.

(** Every run of the abstract server is explained by a sequential history. *)
Lemma asteps_linearizable now ls a :
  asteps (astate_init now) ls a -> exists h, legal h (a_map a) /\ linearizes h ls.
Proof.
  intros H. assert (Hi : forall ls0 h0 a0, asteps a0 ls a -> lin_inv ls0 h0 a0 ->
    exists h, lin_inv (ls0 ++ ls) h a).
  { clear H. intros ls0 h0 a0 H. revert ls0 h0.
    induction H as [a|a l a1 ls a2 Hs _ IH]; intros ls0 h0 Hi; [exists h0; by rewrite app_nil_r|].
    destruct (lin_step _ _ _ _ _ Hi Hs) as (h1 & _ & Hi1).
    destruct (IH _ _ Hi1) as [h Hh]. exists h. by rewrite app_assoc. }
  destruct (Hi [] [] _ H (lin_init now)) as [h [Hl _ _ Hp]]. by exists h.
Qed.

(** ** The number of clients *)

(** Connections opened and not closed. *)
Fixpoint connected (ls : list label) : Z :=
  match ls with
  | [] => 0
  | LOpen _ :: ls' => 1 + connected ls'
  | LClose _ :: ls' => connected ls' - 1
  | _ :: ls' => connected ls'
  end.

Lemma connected_app ls ls' : connected (ls ++ ls') = connected ls + connected ls'.
Proof. induction ls as [|[] ls IH]; simpl; lia. Qed.

Lemma astep_connected a l a' :
  astep a l a' -> dom (a_sessions a) ⊆ a_used a ->
  Z.of_nat (size (a_sessions a)) <= CLIENT_LIMIT ->
  Z.of_nat (size (a_sessions a')) = Z.of_nat (size (a_sessions a)) + connected (option_list l) /\
  dom (a_sessions a') ⊆ a_used a' /\ Z.of_nat (size (a_sessions a')) <= CLIENT_LIMIT.
Proof.
  intros Hs Hd Hl.
  assert (Hupd : forall c s s', a_sessions a !! c = Some s ->
    size (<[c := s']> (a_sessions a)) = size (a_sessions a) /\ dom (<[c := s']> (a_sessions a)) ⊆ a_used a).
  { intros c s s' Hc. rewrite map_size_insert_Some by eauto. split; [done|].
    rewrite dom_insert. apply elem_of_dom_2 in Hc. set_solver. }
  destruct Hs as [a c Hu Hlt|a c s s' data Hc _ _ _|a c s cmd s' now Hc _ _ _|a c s s' Hc _|a c s n Hc _|a c s Hc|a x d y _ _|a now _];
    simpl; try (edestruct Hupd as [-> ?]; [done|split_and!; [lia|done|lia]]).
  - rewrite map_size_insert_None by (apply not_elem_of_dom; set_solver).
    split_and!; [lia|rewrite dom_insert; set_solver|lia].
  - pose proof (map_size_delete_Some c (a_sessions a) ltac:(eauto)) as E.
    assert (size (a_sessions a) <> 0%nat).
    { intros E0. apply map_size_empty_inv in E0. by rewrite E0, lookup_empty in Hc. }
    rewrite E. split_and!; [lia|rewrite dom_delete; set_solver|lia].
  - split_and!; [lia|done|lia].
  - split_and!; [lia|done|lia].
Qed.

Lemma asteps_connected now ls a :
  asteps (astate_init now) ls a ->
  connected ls = Z.of_nat (size (a_sessions a)) /\ connected ls <= CLIENT_LIMIT.
Proof.
  intros H. assert (Hi : forall a0, asteps a0 ls a -> dom (a_sessions a0) ⊆ a_used a0 ->
    Z.of_nat (size (a_sessions a0)) <= CLIENT_LIMIT ->
    Z.of_nat (size (a_sessions a)) = Z.of_nat (size (a_sessions a0)) + connected ls /\
    Z.of_nat (size (a_sessions a)) <= CLIENT_LIMIT).
  { clear H. intros a0 H. induction H as [a|a l a1 ls a2 Hs _ IH]; intros Hd Hl; [simpl; lia|].
    destruct (astep_connected _ _ _ Hs Hd Hl) as (E & Hd1 & Hl1).
    destruct (IH Hd1 Hl1). rewrite connected_app. lia. }
  specialize (Hi _ H). simpl in Hi. rewrite map_size_empty in Hi.
  destruct Hi as [E Hl]; [done|unfold CLIENT_LIMIT; lia|]. lia.
Qed.

(** ** The capacity, along a history *)

Lemma spec_run_cap h : forall m t now,
  Z.of_nat (size (live t m)) <= STORE_CAP -> Forall (fun o => t <= op_time o) h ->
  StronglySorted Z.le (map op_time h) -> Forall (fun o => op_time o <= now) h -> t <= now ->
  Z.of_nat (size (live now (spec_run m (map (fun o => (op_time o, op_command o)) h)).2)) <= STORE_CAP.
Proof.
  induction h as [|o h IH]; intros m t now Hm Hlo Hs Hhi Hle; cbn [map spec_run].
  - pose proof (live_size_mono t now m Hle). simpl. lia.
  - apply Forall_cons in Hlo as [Ht Hlo]. apply Forall_cons in Hhi as [Hn Hhi].
    inversion Hs as [|? ? Hs' Hmin]; subst.
    assert (Hm' : Z.of_nat (size (live (op_time o) m)) <= STORE_CAP).
    { pose proof (live_size_mono t (op_time o) m Ht). lia. }
    apply (spec_step_cap m (op_time o) (op_command o)) in Hm'.
    destruct (spec_step m (op_time o) (op_command o)) as [r m1]. simpl in Hm'.
    assert (Hlo' : Forall (fun o' => op_time o <= op_time o') h).
    { apply Forall_forall. intros o' Ho'. apply (proj1 (Forall_forall _ _) Hmin).
      apply list_elem_of_fmap. by exists o'. }
    specialize (IH m1 (op_time o) now Hm' Hlo' Hs' Hhi Hn).
    destruct (spec_run m1 _) as [rs m2]. exact IH.
Qed.

Lemma legal_cap h m now :
  legal h m -> Forall (fun o => op_time o <= now) h -> Z.of_nat (size (live now m)) <= STORE_CAP.
Proof.
  intros [Hr Hs] Hf. destruct h as [|o h]; [simpl in Hr; injection Hr as <-; done|].
  pose proof (spec_run_cap (o :: h) ∅ (op_time o) now) as H. rewrite Hr in H. apply H.
  - done.
  - constructor; [lia|]. simpl in Hs. inversion Hs as [|? ? _ Hmin]; subst.
    apply Forall_forall. intros o' Ho'. apply (proj1 (Forall_forall _ _) Hmin), list_elem_of_fmap. by exists o'.
  - done.
  - done.
  - by apply Forall_cons in Hf as [? _].
Qed.
