(* ===== verification/CacheExec.v ===== *)
(** * Executions of the cache server with one client

    A deterministic environment for one client thread: the kernel delivers given
    chunks and then the end of the stream, accepts the output as a script says,
    and the clock shows given times.  The definitions of [CacheServer] compute in
    it.  In this environment [send_all] and [handle_client] terminate, with the
    output of the reference [serve]; what is answered does not depend on how the
    input is cut into chunks, unless it overruns [LINE_MAX] before it is
    consumed. *)

From S2P Require Import Prelude CLib Effects.
From S2P Require Import CacheSpec CacheStore CacheProto CacheServer CacheRefine CacheLine CacheSession CacheThread CacheMain.
Local Open Scope Z_scope.
Local Open Scope prog_scope.

(** ** The environment *)

Record world := World {
  w_store : store;
  w_count : Z;
  w_held : list mutex;
  w_ticks : nat;                (** readings of the clock *)
  w_rx : list (list byte);      (** chunks to be received *)
  w_tx : list (sysres Z);       (** what the next sends return; then all is accepted *)
  w_out : list byte;            (** what was sent *)
  w_closed : list Z
}.

Section environment.
(** The times the clock shows. *)
Context (clock : nat -> Z * Z).

Definition world_lock (m : mutex) (w : world) : option (unit * world) :=
  if decide (m ∈ w_held w) then None
  else Some (tt, World (w_store w) (w_count w) (m :: w_held w) (w_ticks w) (w_rx w) (w_tx w) (w_out w) (w_closed w)).

Definition world_unlock (m : mutex) (w : world) : option (unit * world) :=
  if decide (m ∈ w_held w)
  then Some (tt, World (w_store w) (w_count w) (filter (fun m' => m' <> m) (w_held w)) (w_ticks w)
                   (w_rx w) (w_tx w) (w_out w) (w_closed w))
  else None.

Definition world_send (data : list byte) (w : world) : option (sysres Z * world) :=
  let done_ n tx := World (w_store w) (w_count w) (w_held w) (w_ticks w) (w_rx w) tx
                      (w_out w ++ take (Z.to_nat n) data) (w_closed w) in
  match w_tx w with
  | [] => Some (Ok (zlen data), done_ (zlen data) [])
  | Ok n :: tx => let n := Z.max 0 (Z.min n (zlen data)) in Some (Ok n, done_ n tx)
  | Err e :: tx => Some (Err e, done_ 0 tx)
  end.

Definition world_recv (len : Z) (w : world) : option (sysres (list byte) * world) :=
  let rest rx := World (w_store w) (w_count w) (w_held w) (w_ticks w) rx (w_tx w) (w_out w) (w_closed w) in
  match w_rx w with
  | [] => Some (Ok [], w)
  | c :: rx => Some (Ok (take (Z.to_nat len) c),
                     rest (if zlen c <=? len then rx else drop (Z.to_nat len) c :: rx))
  end.

Definition cache_env : environment cacheE world := fun A e =>
  match e in cacheE A return world -> option (A * world) with
  | Lock m => world_lock m
  | Unlock m => world_unlock m
  | StoreOp f => fun w =>
      match f (w_store w) with
      | Some (a, st) => Some (a, World st (w_count w) (w_held w) (w_ticks w) (w_rx w) (w_tx w) (w_out w) (w_closed w))
      | None => None
      end
  | CountOp f => fun w => let '(a, n) := f (w_count w) in
      Some (a, World (w_store w) n (w_held w) (w_ticks w) (w_rx w) (w_tx w) (w_out w) (w_closed w))
  | ClockGettime => fun w =>
      Some (clock (w_ticks w),
            World (w_store w) (w_count w) (w_held w) (S (w_ticks w)) (w_rx w) (w_tx w) (w_out w) (w_closed w))
  | Send _ data => world_send data
  | Recv _ len => world_recv len
  | Close fd => fun w =>
      Some (tt, World (w_store w) (w_count w) (w_held w) (w_ticks w) (w_rx w) (w_tx w) (w_out w) (fd :: w_closed w))
  | Free _ => fun w => Some (tt, w)
  | _ => fun _ => None   (* the calls of the accepting thread *)
  end.

(** ** [send_all] *)

(** What a script makes of the output [data]: the result of [send_all], what is
    sent and what is left of the script. *)
Fixpoint deliver (tx : list (sysres Z)) (data : list byte) : Z * list byte * list (sysres Z) :=
  match data with
  | [] => (0, [], tx)
  | _ =>
      match tx with
      | [] => (0, data, [])
      | Err e :: tx' => if e =? EINTR then deliver tx' data else (-1, [], tx')
      | Ok n :: tx' =>
          let n := Z.max 0 (Z.min n (zlen data)) in
          if n =? 0 then (-1, [], tx')
          else
            let '(r, out, tx'') := deliver tx' (drop (Z.to_nat n) data) in
            (r, take (Z.to_nat n) data ++ out, tx'')
      end
  end.

Definition after_send (w : world) (out : list byte) (tx : list (sysres Z)) : world :=
  World (w_store w) (w_count w) (w_held w) (w_ticks w) (w_rx w) tx (w_out w ++ out) (w_closed w).

Definition send_body (fd : Z) (p : buf) (len sent : Z) : prog (Z + Z) :=
  if sent <? len then
    let? data := read_bytes (Z.to_nat (len - sent)) (drop (Z.to_nat sent) p) in
    let* r := call (Send fd data) in
    match r with
    | Err e => if e =? EINTR then Ret (inl sent) else Ret (inr (-1))
    | Ok n => if n =? 0 then Ret (inr (-1)) else Ret (inl (sent + n))
    end
  else Ret (inr 0).

(** One call of [send]. *)
Lemma send_one fd d r w sent ans w1 :
  0 <= sent < zlen d -> world_send (drop (Z.to_nat sent) d) w = Some (ans, w1) ->
  evals cache_env (send_body fd (init d ++ r) (zlen d) sent) w
    (match ans with
     | Err e => if e =? EINTR then inl sent else inr (-1)
     | Ok n => if n =? 0 then inr (-1) else inl (sent + n)
     end) w1.
Proof.
  intros Hs Hw. unfold send_body. bool_lia. rewrite drop_init by lia.
  rewrite read_bytes_init by (rewrite length_drop; lia).
  eapply evals_call_bind; [exact Hw|]. destruct ans as [n|e].
  - destruct (n =? 0); apply evals_ret.
  - destruct (e =? EINTR); apply evals_ret.
Qed.

Lemma send_end fd p len w : evals cache_env (ITree.iter (send_body fd p len) len) w 0 w.
Proof. apply evals_iter_stop. unfold send_body. rewrite Z.ltb_irrefl. apply evals_ret. Qed.

Lemma after_send_app w out1 tx1 out2 tx2 :
  after_send (after_send w out1 tx1) out2 tx2 = after_send w (out1 ++ out2) tx2.
Proof. unfold after_send. simpl. by rewrite app_assoc. Qed.

Lemma after_send_nil w : after_send w [] (w_tx w) = w.
Proof. unfold after_send. rewrite app_nil_r. by destruct w. Qed.

(** From the byte [sent] on, whatever the connection does. *)
Lemma send_loop fd d r script : forall w sent res out tx,
  w_tx w = script -> 0 <= sent <= zlen d ->
  deliver script (drop (Z.to_nat sent) d) = (res, out, tx) ->
  evals cache_env (ITree.iter (send_body fd (init d ++ r) (zlen d)) sent) w res (after_send w out tx).
Proof.
  induction script as [|a script IH]; intros w sent res out tx Htx Hs Hd;
    (destruct (decide (sent = zlen d)) as [->|Hne];
     [rewrite drop_ge in Hd by lia; simpl in Hd; injection Hd as <- <- <-;
      rewrite <-Htx, after_send_nil; apply send_end|]);
    assert (Hlt : 0 <= sent < zlen d) by lia;
    pose proof (send_one fd d r w sent) as Hone; unfold world_send in Hone; rewrite Htx in Hone;
    (destruct (drop (Z.to_nat sent) d) as [|b bs] eqn:E;
     [apply (f_equal length) in E; rewrite length_drop in E; simpl in E; lia|]);
    assert (Hlen : zlen (b :: bs) = zlen d - sent) by (rewrite <-E, length_drop; lia);
    rewrite <-E in Hone, Hlen.
  - cbn [deliver] in Hd. injection Hd as <- <- <-.
    specialize (Hone _ _ Hlt eq_refl). cbv beta iota zeta in Hone. rewrite (proj2 (Z.eqb_neq _ _)) in Hone by lia.
    eapply evals_iter_next; [exact Hone|]. replace (sent + _) with (zlen d) by lia.
    rewrite take_ge by lia. rewrite E. apply send_end.
  - destruct a as [n|e]; specialize (Hone _ _ Hlt eq_refl); cbv beta iota zeta in Hone; cbn [deliver] in Hd; rewrite <-E in Hd.
    + set (n' := Z.max 0 (Z.min n (zlen (drop (Z.to_nat sent) d)))) in *.
      destruct (Z.eqb_spec n' 0) as [Hn|Hn].
      * injection Hd as <- <- <-. rewrite Hn in Hone. by apply evals_iter_stop.
      * destruct (deliver script _) as [[res' out'] tx'] eqn:Hd'. injection Hd as <- <- <-.
        eapply evals_iter_next; [exact Hone|].
        rewrite <-(after_send_app w (take (Z.to_nat n') (drop (Z.to_nat sent) d)) script).
        apply IH; [done|lia|]. rewrite drop_drop in Hd'. rewrite <-Hd'. do 2 f_equal. lia.
    + destruct (e =? EINTR).
      * eapply evals_iter_next; [exact Hone|].
        pose proof (after_send_app w [] script out tx) as Ew. simpl in Ew. rewrite <-Ew.
        apply IH; [done|lia|]. rewrite E. by rewrite <-E.
      * injection Hd as <- <- <-. by apply evals_iter_stop.
Qed.

(** [send_all] terminates, sends a prefix of the data, all of it when it
    returns 0. *)
Lemma send_all_evals fd d r w res out tx :
  deliver (w_tx w) d = (res, out, tx) ->
  evals cache_env (send_all fd (init d ++ r) (zlen d)) w res (after_send w out tx).
Proof. intros H. by apply (send_loop fd d r (w_tx w)); [|lia|]. Qed.
(** ** One command *)

Definition time (n : nat) : Z := ms (clock n).1 (clock n).2.
Context (clock_good : forall n, clock_ok (clock n).1 (clock n).2).
Context (clock_monotone : forall n, time n <= time (S n)).

(** Between two commands, nothing left to be refused by the connection. *)
Definition ready (w : world) (m : cache) : Prop :=
  w_held w = [] /\ w_tx w = [] /\ refines (time (w_ticks w)) (w_store w) m.

(** A command was answered [out]. *)
Definition replied (w : world) (st : store) (ticks : nat) (out : list byte) : world :=
  World st (w_count w) [] ticks (w_rx w) [] (w_out w ++ out) (w_closed w).

Lemma time_bounds n : 0 <= time n <= NOW_MAX.
Proof. apply (ms_of_ok _ _ (clock_good n)). Qed.

Lemma now_evals w :
  evals cache_env now_ms w (time (w_ticks w))
    (World (w_store w) (w_count w) (w_held w) (S (w_ticks w)) (w_rx w) (w_tx w) (w_out w) (w_closed w)).
Proof.
  unfold now_ms. eapply evals_call_bind; [reflexivity|]. unfold time.
  destruct (ms_of_ok _ _ (clock_good (w_ticks w))) as [E _].
  destruct (clock (w_ticks w)) as [s ns]. simpl in *. rewrite E. apply evals_ret.
Qed.

Lemma reply_evals fd r p w :
  (exists q, p = send_all fd (init (render r) ++ q) (zlen (render r))) -> w_tx w = [] ->
  evals cache_env p w 0 (after_send w (render r) []).
Proof.
  intros [q ->] Hw. apply send_all_evals. rewrite Hw.
  pose proof (render_ne r) as Hne. generalize dependent (render r). by intros [].
Qed.

(** The world inside a critical section, after the clock was read. *)
Definition entered (w : world) (st : store) : world :=
  World st (w_count w) [store_mutex] (S (w_ticks w)) (w_rx w) [] (w_out w) (w_closed w).

Lemma store_evals {A R} (f : store -> ub (A * store)) (k : A -> prog R) w st a st' r w' :
  f st = Some (a, st') -> evals cache_env (k a) (entered w st') r w' ->
  evals cache_env (ITree.bind (call (StoreOp f)) k) (entered w st) r w'.
Proof. intros Hf Hk. eapply evals_call_bind; [|exact Hk]. simpl. by rewrite Hf. Qed.

Lemma enter_evals {R} (k : Z -> prog R) w m r w' :
  ready w m -> evals cache_env (k (time (w_ticks w))) (entered w (w_store w)) r w' ->
  evals cache_env (call (Lock store_mutex) ;! ITree.bind now_ms k) w r w'.
Proof.
  intros (Hh & Ht & _) Hk. destruct w as [st n held ticks rx tx out cl]. simpl in *. subst.
  eapply evals_call_bind; [reflexivity|]. eapply evals_bind; [apply now_evals|]. exact Hk.
Qed.

Lemma leave_evals w st fd r p :
  (exists q, p = send_all fd (init (render r) ++ q) (zlen (render r))) ->
  evals cache_env (call (Unlock store_mutex) ;! p) (entered w st) 0 (replied w st (S (w_ticks w)) (render r)).
Proof.
  intros Hp. eapply evals_call_bind; [reflexivity|].
  by apply (reply_evals fd r p (World st (w_count w) [] (S (w_ticks w)) (w_rx w) [] (w_out w) (w_closed w))).
Qed.

(** The command [c] of a line, answered from the map. *)
Definition answered_by (p : prog Z) (c : command) : Prop :=
  forall w m, ready w m ->
  let '(r, m') := spec_step m (time (w_ticks w)) c in
  exists st, evals cache_env p w 0 (replied w st (S (w_ticks w)) (render r)) /\
    refines (time (w_ticks w)) st m'.

Lemma get_evals fd kp k : is_cstr kp k -> answered_by (get_locked fd kp) (Get k).
Proof.
  intros Hk w m Hw. pose proof Hw as (_ & _ & Hr).
  destruct (get_section _ _ _ kp k Hr Hk) as (idx & st & Hlk & Hr' & Hres). simpl.
  destruct (live _ m !! k) as [it|]; exists st; (split; [|done]);
    (eapply enter_evals; [done|]); (eapply store_evals; [exact Hlk|]).
  - destruct Hres as (Hi & [[_ Hvo] _] & b & Hb & Hbs). rewrite (proj2 (Z.ltb_ge idx 0)) by done.
    eapply store_evals; [exact Hb|]. eapply leave_evals. by apply send_reply_value.
  - rewrite (proj2 (Z.ltb_lt idx 0)) by done. eapply leave_evals. by apply (send_reply_plain fd "NOT_FOUND\n").
Qed.

Lemma delete_evals fd kp k : is_cstr kp k -> answered_by (delete_locked fd kp) (Delete k).
Proof.
  intros Hk w m Hw. pose proof Hw as (_ & _ & Hr).
  destruct (delete_section _ _ _ kp k Hr Hk) as (idx & st & Hlk & Hres). simpl.
  destruct (live _ m !! k) as [it|].
  - destruct Hres as (Hi & st' & Hst & Hr'). exists st'. split; [|done].
    eapply enter_evals; [done|]. eapply store_evals; [exact Hlk|].
    rewrite (proj2 (Z.ltb_ge idx 0)) by done. eapply store_evals; [exact Hst|].
    eapply leave_evals. by apply (send_reply_plain fd "OK\n").
  - destruct Hres as [Hi Hr']. exists st. split; [|done].
    eapply enter_evals; [done|]. eapply store_evals; [exact Hlk|].
    rewrite (proj2 (Z.ltb_lt idx 0)) by done. eapply leave_evals. by apply (send_reply_plain fd "NOT_FOUND\n").
Qed.

Lemma fill_evals w st idx kp klen vp n ttl now st' (p : prog Z) r w' :
  fill_store idx kp klen vp n ttl now st = Some (tt, st') ->
  evals cache_env p (entered w st') r w' ->
  evals cache_env (fill_slot idx kp klen vp n ttl now ;! p) (entered w st) r w'.
Proof.
  unfold fill_store, fill_slot. intros Hf Hp. eapply evals_bind; [|exact Hp].
  destruct (copy_key idx kp klen st) as [[[] st1]|] eqn:H1; [|done]. eapply store_evals; [exact H1|].
  destruct (copy_value idx vp n st1) as [[[] st2]|] eqn:H2; [|done]. eapply store_evals; [exact H2|].
  destruct (set_vlen idx n st2) as [[[] st3]|] eqn:H3; [|done]. eapply store_evals; [exact H3|].
  destruct (set_used idx 1 st3) as [[[] st4]|] eqn:H4; [|done]. eapply store_evals; [exact H4|].
  destruct (ttl =? 0).
  - apply evals_call. simpl. by rewrite Hf.
  - destruct (set_has_expiry idx 1 st4) as [[[] st5]|] eqn:H5; [|done]. eapply store_evals; [exact H5|].
    apply evals_call. simpl. by rewrite Hf.
Qed.

Lemma set_evals fd kp k ttl vp v :
  is_cstr kp k -> is_cstr vp v -> key_ok k -> value_ok v -> 0 <= ttl <= TTL_MAX ->
  answered_by (set_locked fd kp (zlen k) ttl vp (zlen v)) (Set_ k ttl v).
Proof.
  intros Hk Hv Hko Hvo Ht w m Hw. pose proof Hw as (_ & _ & Hr).
  destruct (set_section _ _ _ kp k ttl vp v Hr Hk Hko Hv Hvo Ht (time_bounds _))
    as (idx & st1 & idx' & st2 & Hlk & Hfs & Hres).
  assert (Hgo : forall (p : Z -> prog Z) r w',
    evals cache_env (p idx') (entered w st2) r w' ->
    evals cache_env (ITree.bind (if idx <? 0 then call (StoreOp (free_slot (time (w_ticks w)))) else Ret idx) p)
      (entered w st1) r w').
  { intros p r w' Hp. destruct (idx <? 0); [by eapply store_evals|].
    simplify_eq. eapply evals_bind; [apply evals_ret|done]. }
  destruct (spec_step m (time (w_ticks w)) (Set_ k ttl v)) as [r m'] eqn:Hspec.
  assert (Hrr : r = ROk \/ r = RError).
  { clear -Hspec. simpl in Hspec. repeat case_match; simplify_eq; auto. }
  destruct Hrr as [-> | ->].
  - destruct Hres as (Hi & st3 & Hfill & Hr3). exists st3. split; [|done].
    eapply enter_evals; [done|]. eapply store_evals; [exact Hlk|]. apply Hgo.
    rewrite (proj2 (Z.ltb_ge idx' 0)) by done. eapply fill_evals; [exact Hfill|].
    eapply leave_evals. by apply (send_reply_plain fd "OK\n").
  - destruct Hres as (Hi & -> & Hr2). exists st2. split; [|done].
    eapply enter_evals; [done|]. eapply store_evals; [exact Hlk|]. apply Hgo.
    rewrite (proj2 (Z.ltb_lt idx' 0)) by done.
    eapply leave_evals. by apply (send_reply_plain fd "ERROR\n").
Qed.

(** ** One client *)

(** The reply to a line, the map and the readings of the clock after it. *)
Definition answer (m : cache) (n : nat) (l : list byte) : reply * cache * nat :=
  match line_command l with
  | Bad => (RError, m, n)
  | c => let '(r, m') := spec_step m (time n) c in (r, m', S n)
  end.

Fixpoint answer_lines (m : cache) (n : nat) (ls : list (list byte)) : list byte * cache * nat :=
  match ls with
  | [] => ([], m, n)
  | l :: ls' =>
      let '(r, m1, n1) := answer m n l in
      let '(out, m2, n2) := answer_lines m1 n1 ls' in
      (render r ++ out, m2, n2)
  end.

(** The program [p] answers the line [l]. *)
Definition answers_line (p : prog Z) (l : list byte) : Prop :=
  forall w m, ready w m ->
  let '(r, m', n') := answer m (w_ticks w) l in
  exists st, evals cache_env p w 0 (replied w st n' (render r)) /\ ready (replied w st n' (render r)) m'.

Lemma answers_command p l c :
  line_command l = c -> c <> Bad -> answered_by p c -> answers_line p l.
Proof.
  intros Hl Hc Hp w m Hw. specialize (Hp w m Hw). unfold answer. rewrite Hl.
  destruct c; [..|done]; destruct (spec_step m _ _) as [r m']; destruct Hp as (st & He & Hr);
    (exists st; split; [done|]; split; [done|]; split; [done|]; simpl;
     eapply refines_mono, Hr; apply clock_monotone).
Qed.

Lemma answers_error p l fd :
  line_command l = Bad ->
  (exists q, p = send_all fd (init (render RError) ++ q) (zlen (render RError))) -> answers_line p l.
Proof.
  intros Hl Hp w m Hw. unfold answer. rewrite Hl. pose proof Hw as (Hh & Ht & Hr).
  exists (w_store w). split; [|by split_and!].
  pose proof (reply_evals fd RError p w Hp Ht) as He. unfold after_send in He. by rewrite Hh in He.
Qed.

Lemma handle_line_answers fd l b :
  NUL ∉ l -> LF ∉ strip_cr l -> is_cstr b (strip_cr l) -> answers_line (handle_line fd b) l.
Proof.
  intros Hn Hlf Hb. assert (Hlc : line_command l = parse_line (strip_cr l)).
  { unfold line_command. by rewrite decide_False. }
  pose proof (handle_line_spec fd b _ Hb) as Hsp.
  pose proof (parse_line_parts _ _ eq_refl Hlf) as Hparts.
  destruct (parse_line (strip_cr l)) as [k|k|k ttl v|] eqn:Hpl.
  - destruct Hsp as (kp & Hk & ->). eapply answers_command; [done|done|by apply get_evals].
  - destruct Hsp as (kp & Hk & ->). eapply answers_command; [done|done|by apply delete_evals].
  - destruct Hsp as (kp & vp & Hk & Hv & ->). destruct Hparts as (Hko & Hvo & Httl).
    eapply answers_command; [done|done|by apply set_evals].
  - rewrite Hsp. eapply answers_error; [done|]. by apply (send_reply_plain fd "ERROR\n").
Qed.

(** A command as a client prints it is answered as the contract says. *)
Lemma command_evals fd b c :
  command_ok c -> LF ∉ print_command c -> is_cstr b (print_command c) -> answered_by (handle_line fd b) c.
Proof.
  intros Hok Hlf Hb. pose proof (handle_line_spec fd b _ Hb) as Hsp. rewrite (parse_print c Hok) in Hsp.
  pose proof (parse_line_parts _ _ (parse_print c Hok) Hlf) as Hparts.
  destruct c as [k|k|k ttl v|]; [| | |done].
  - destruct Hsp as (kp & Hk & ->). by apply get_evals.
  - destruct Hsp as (kp & Hk & ->). by apply delete_evals.
  - destruct Hsp as (kp & vp & Hk & Hv & ->). destruct Hparts as (Hko & Hvo & Httl). by apply set_evals.
Qed.

(** The complete lines of the input, and what is after them. *)
Fixpoint split_lines (s : list byte) : list (list byte) * list byte :=
  match s with
  | [] => ([], [])
  | b :: s' =>
      let '(ls, r) := split_lines s' in
      if decide (b = LF) then ([] :: ls, r)
      else match ls with [] => ([], b :: r) | l :: ls' => ((b :: l) :: ls', r) end
  end.

Lemma split_lines_cut s :
  split_lines s =
  match cut_at LF s with
  | None => ([], s)
  | Some (l, rest) => let '(ls, r) := split_lines rest in (l :: ls, r)
  end.
Proof.
  induction s as [|b s IH]; [done|]. cbn [split_lines cut_at]. case_decide as Hb; [done|].
  rewrite IH. destruct (cut_at LF s) as [[l rest]|]; [|done]. by destruct (split_lines rest).
Qed.

Lemma split_lines_rest s : cut_at LF (split_lines s).2 = None.
Proof.
  induction s as [|b s IH]; [done|]. cbn [split_lines].
  destruct (split_lines s) as [ls r]. simpl in IH. case_decide as Hb; [done|].
  destruct ls; [|done]. cbn [snd cut_at]. by rewrite decide_False, IH.
Qed.

Lemma replied_replied w st n out st' n' out' :
  replied (replied w st n out) st' n' out' = replied w st' n' (out ++ out').
Proof. unfold replied. simpl. by rewrite app_assoc. Qed.

(** The inner loop answers all the complete lines. *)
Lemma process_lines_evals fd data r k : forall processed w m,
  (length (drop (Z.to_nat processed) data) <= k)%nat ->
  zlen data <= LINE_MAX -> 0 <= processed <= zlen data -> ready w m ->
  let '(ls, rest) := split_lines (drop (Z.to_nat processed) data) in
  let '(out, m', n') := answer_lines m (w_ticks w) ls in
  exists st p, evals cache_env (ITree.iter (process_line fd (init data ++ r) (zlen data)) processed)
      w (LinesDone p) (replied w st n' out) /\
    ready (replied w st n' out) m' /\ 0 <= p <= zlen data /\ drop (Z.to_nat p) data = rest.
Proof.
  induction k as [k IH] using lt_wf_ind. intros processed w m Hk Hmax Hp Hw.
  pose proof (process_line_spec fd data r processed Hmax Hp) as Hsp. rewrite split_lines_cut.
  destruct (cut_at LF (drop (Z.to_nat processed) data)) as [[l rest]|] eqn:Hc.
  - destruct Hsp as (body & Hbody & Hrest & Hb & Hcase).
    assert (Hans : answers_line body l).
    { destruct Hcase as [[Hbad ->]|(Hn & Hlf & b & Hs & ->)].
      - eapply (answers_error _ _ fd); [done|]. exists [Some NUL]. apply send_error_render.
      - by apply handle_line_answers. }
    specialize (Hans w m Hw). cbn [answer_lines].
    apply cut_at_Some in Hc as [Hd _].
    assert (Hlt : (length rest < k)%nat).
    { apply (f_equal length) in Hd. rewrite length_app in Hd. simpl in Hd. lia. }
    destruct (split_lines rest) as [ls rest'] eqn:Hsl. cbn [answer_lines].
    destruct (answer m (w_ticks w) l) as [[r1 m1] n1]. destruct Hans as (st & He & Hw1).
    specialize (IH (length rest) Hlt (processed + (zlen l + 1)) (replied w st n1 (render r1)) m1).
    rewrite Hrest, Hsl in IH. specialize (IH (le_n _) Hmax Hb Hw1). simpl in IH.
    destruct (answer_lines m1 n1 ls) as [[out m2] n2].
    destruct IH as (st2 & p & Hrun & Hw2 & Hp2 & Hrest2). rewrite replied_replied in Hrun, Hw2.
    exists st2, p. split; [|done]. eapply evals_iter_next; [|exact Hrun].
    rewrite Hbody. eapply evals_bind; [exact He|]. apply evals_ret.
  - exists (w_store w), processed. pose proof Hw as (Hh & Ht & Hr). split.
    + apply evals_iter_stop. rewrite Hsp. unfold replied. rewrite app_nil_r.
      destruct w as [st cnt held ticks rx tx o cl]. simpl in *. subst. apply evals_ret.
    + unfold ready. split_and!; done || lia.
Qed.

(** What the client that sends [chunks] is sent, when [rx] is left from the
    chunks before. *)
Fixpoint serve (m : cache) (n : nat) (rx : list byte) (chunks : list (list byte)) : list byte * cache * nat :=
  match chunks with
  | [] => ([], m, n)
  | c :: chunks' =>
      if LINE_MAX <? zlen (rx ++ c) then (render RError, m, n)
      else
        let '(ls, rest) := split_lines (rx ++ c) in
        let '(out, m1, n1) := answer_lines m n ls in
        let '(out', m2, n2) := serve m1 n1 rest chunks' in
        (out ++ out', m2, n2)
  end.

Definition with_rx (rx : list (list byte)) (w : world) : world :=
  World (w_store w) (w_count w) (w_held w) (w_ticks w) rx (w_tx w) (w_out w) (w_closed w).

(** A chunk is what one [recv] returns. *)
Definition chunk_ok (c : list byte) : Prop := c <> [] /\ zlen c <= RECV_BUF.

Lemma recv_evals fd {R} (k : sysres (list byte) -> prog R) w c cs r w' :
  w_rx w = c :: cs -> chunk_ok c ->
  evals cache_env (k (Ok c)) (with_rx cs w) r w' ->
  evals cache_env (ITree.bind (call (Recv fd RECV_BUF)) k) w r w'.
Proof.
  intros Hrx [_ Hc] Hk. eapply evals_call_bind; [|exact Hk]. simpl. unfold world_recv. rewrite Hrx.
  rewrite (proj2 (Z.leb_le _ _)) by done. by rewrite take_ge by lia.
Qed.

(** The outer loop. *)
Lemma client_loop_evals fd chunks : forall pending pending_len data w m,
  Forall chunk_ok chunks -> pending_ok pending pending_len data -> w_rx w = chunks -> ready w m ->
  let '(out, m', n') := serve m (w_ticks w) data chunks in
  exists st rx, evals cache_env (ITree.iter (client_step fd) (pending, pending_len)) w tt
      (with_rx rx (replied w st n' out)) /\
    ready (replied w st n' out) m'.
Proof.
  induction chunks as [|c chunks IH]; intros pending pending_len data w m Hcs Hok Hrx Hw.
  - exists (w_store w), []. pose proof Hw as (Hh & Ht & Hr). split; [|unfold ready; by split_and!].
    apply evals_iter_stop. eapply evals_call_bind; [simpl; unfold world_recv; by rewrite Hrx|].
    unfold with_rx, replied. simpl. rewrite app_nil_r.
    destruct w as [st cnt held ticks rx tx o cl]. simpl in *. subst. apply evals_ret.
  - apply Forall_cons in Hcs as [Hc Hcs]. cbn [serve].
    assert (Hlen : pending_len = zlen data) by by destruct Hok as (? & _ & _ & ? & _).
    assert (Hn : zlen c <> 0) by (destruct Hc; by destruct c).
    destruct (Z.ltb_spec LINE_MAX (zlen (data ++ c))) as [Hbig|Hbig].
    { exists (w_store w), chunks. pose proof Hw as (Hh & Ht & Hr). split; [|unfold ready; by split_and!].
      apply evals_iter_stop. unfold client_step. eapply recv_evals; [done|done|].
      rewrite (proj2 (Z.eqb_neq _ _)) by done. rewrite length_app in Hbig.
      rewrite (proj2 (Z.ltb_lt _ _)) by lia.
      eapply evals_bind; [|apply evals_ret]. rewrite send_error_render.
      replace (with_rx chunks (replied w (w_store w) (w_ticks w) (render RError)))
        with (after_send (with_rx chunks w) (render RError) []).
      - apply (reply_evals fd RError); [by eexists|done].
      - unfold after_send, replied, with_rx. cbn [w_store w_count w_held w_ticks w_rx w_tx w_out w_closed].
        by rewrite Hh. }
    assert (Hbig' : pending_len + zlen c <= LINE_MAX) by (rewrite length_app in Hbig; lia).
    destruct (append_chunk _ _ _ _ Hok Hbig') as (r & Hmem & Hl).
    assert (Hw1 : ready (with_rx chunks w) m) by done.
    pose proof (process_lines_evals fd (data ++ c) r _ 0 (with_rx chunks w) m (le_n _) Hbig ltac:(lia) Hw1) as Hpl.
    change (drop (Z.to_nat 0) (data ++ c)) with (data ++ c) in Hpl.
    destruct (split_lines (data ++ c)) as [ls rest] eqn:Hsl. simpl w_ticks in Hpl.
    destruct (answer_lines m (w_ticks w) ls) as [[out m1] n1].
    destruct Hpl as (st & p & Hrun & Hw2 & Hp & Hrest).
    assert (Hcut : cut_at LF (drop (Z.to_nat p) (data ++ c)) = None).
    { rewrite Hrest. pose proof (split_lines_rest (data ++ c)) as E. by rewrite Hsl in E. }
    destruct (compact_ok _ r _ Hp Hbig Hl Hcut) as (pending' & Hcomp & Hok'). rewrite Hrest in Hok'.
    specialize (IH pending' _ rest (replied (with_rx chunks w) st n1 out) m1 Hcs Hok' eq_refl Hw2).
    simpl w_ticks in IH. destruct (serve m1 n1 rest chunks) as [[out' m2] n2].
    destruct IH as (st' & rx & Hloop & Hw3). rewrite replied_replied in Hloop, Hw3.
    exists st', rx. split; [|exact Hw3].
    eapply evals_iter_next; [|exact Hloop]. unfold client_step. eapply recv_evals; [done|done|].
    rewrite (proj2 (Z.eqb_neq _ _)) by done. rewrite (proj2 (Z.ltb_ge _ _)) by lia.
    rewrite Hmem. replace (pending_len + zlen c) with (zlen (data ++ c)) by (rewrite length_app; lia).
    eapply evals_bind; [exact Hrun|]. cbv beta iota. rewrite Hcomp.
    rewrite (compact_below _ _ _ Hok'). apply evals_ret.
Qed.

(** [handle_client] returns, having sent what [serve] says. *)
Lemma handle_client_evals fd w m :
  Forall chunk_ok (w_rx w) -> ready w m ->
  let '(out, m', n') := serve m (w_ticks w) [] (w_rx w) in
  exists st rx, evals cache_env (handle_client fd) w tt (with_rx rx (replied w st n' out)) /\
    ready (replied w st n' out) m'.
Proof.
  intros Hc Hw. apply client_loop_evals; [done| |done|done].
  exists (undef (LINE_MAX + 1)). split; [done|]. split; [by apply length_undef|]. by split.
Qed.

(** The whole life of a client thread: the connection is closed and its slot is
    free again. *)
Lemma client_thread_evals argument fd w m :
  Forall chunk_ok (w_rx w) -> ready w m -> 1 <= w_count w <= CLIENT_LIMIT ->
  let '(out, m', n') := serve m (w_ticks w) [] (w_rx w) in
  exists st rx, evals cache_env (client_thread argument fd) w tt
    (World st (w_count w - 1) [] n' rx [] (w_out w ++ out) (fd :: w_closed w)) /\
    refines (time n') st m'.
Proof.
  intros Hc Hw Hn. pose proof (handle_client_evals fd w m Hc Hw) as H.
  destruct (serve m (w_ticks w) [] (w_rx w)) as [[out m'] n']. destruct H as (st & rx & He & _ & _ & Hr).
  exists st, rx. split; [|exact Hr].
  eapply evals_call_bind; [reflexivity|]. eapply evals_bind; [exact He|].
  eapply evals_call_bind; [reflexivity|]. unfold release_client_slot.
  eapply evals_call_bind; [reflexivity|]. eapply evals_call_bind; [reflexivity|].
  simpl. rewrite size_t_small by lia. apply evals_call. reflexivity.
Qed.

(** ** Chunks do not matter *)

Lemma split_lines_app a b :
  split_lines (a ++ b) =
  let '(ls, r) := split_lines a in let '(ls', r') := split_lines (r ++ b) in (ls ++ ls', r').
Proof.
  induction a as [|c a IH]; [simpl; by destruct (split_lines b)|]. cbn [split_lines app]. rewrite IH.
  destruct (split_lines a) as [ls r]. case_decide as Hc.
  - by destruct (split_lines (r ++ b)).
  - destruct ls as [|l ls]; cbn [app split_lines].
    + destruct (split_lines (r ++ b)) as [ls' r']. rewrite decide_False by done. by destruct ls'.
    + by destruct (split_lines (r ++ b)).
Qed.

Lemma answer_lines_app m n ls ls' :
  answer_lines m n (ls ++ ls') =
  let '(o1, m1, n1) := answer_lines m n ls in
  let '(o2, m2, n2) := answer_lines m1 n1 ls' in (o1 ++ o2, m2, n2).
Proof.
  revert m n. induction ls as [|l ls IH]; intros m n; cbn [answer_lines app].
  - by destruct (answer_lines m n ls') as [[? ?] ?].
  - destruct (answer m n l) as [[r m1] n1]. rewrite IH.
    destruct (answer_lines m1 n1 ls) as [[o1 m2] n2].
    destruct (answer_lines m2 n2 ls') as [[o2 m3] n3]. by rewrite app_assoc.
Qed.

Lemma split_lines_none s : cut_at LF s = None -> split_lines s = ([], s).
Proof. intros H. rewrite split_lines_cut. by rewrite H. Qed.

Lemma split_lines_length s : zlen (split_lines s).2 <= zlen s.
Proof.
  induction s as [|b s IH]; [done|]. cbn [split_lines].
  destruct (split_lines s) as [ls r]. simpl in *. case_decide; simpl; [lia|]. destruct ls; simpl; lia.
Qed.

(** A chunk overruns the buffer when it does not fit after the incomplete line before
    it, whatever lines it completes: the chunks before the first that does. *)
Fixpoint overrun (rx : list byte) (chunks : list (list byte)) : option (list (list byte)) :=
  match chunks with
  | [] => None
  | c :: chunks' =>
      if LINE_MAX <? zlen (rx ++ c) then Some []
      else cons c <$> overrun (split_lines (rx ++ c)).2 chunks'
  end.

Lemma serve_overrun chunks : forall m n rx,
  cut_at LF rx = None ->
  serve m n rx chunks =
  match overrun rx chunks with
  | None => answer_lines m n (split_lines (rx ++ mjoin chunks)).1
  | Some pre => let '(out, m', n') := answer_lines m n (split_lines (rx ++ mjoin pre)).1 in (out ++ render RError, m', n')
  end.
Proof.
  induction chunks as [|c chunks IH]; intros m n rx Hrx; cbn [serve overrun].
  - simpl. by rewrite app_nil_r, split_lines_none.
  - destruct (LINE_MAX <? zlen (rx ++ c)).
    { change (mjoin []) with (@nil byte). rewrite app_nil_r, split_lines_none by done. cbn [fst answer_lines]. by rewrite app_nil_l. }
    pose proof (fun b => split_lines_app (rx ++ c) b) as Happ. pose proof (split_lines_rest (rx ++ c)) as Hrest.
    destruct (split_lines (rx ++ c)) as [ls rest]. cbn [snd] in Hrest |- *.
    specialize (IH (answer_lines m n ls).1.2 (answer_lines m n ls).2 rest Hrest).
    destruct (overrun rest chunks) as [pre|]; cbn [fmap option_fmap option_map].
    + change (mjoin (c :: pre)) with (c ++ mjoin pre). rewrite app_assoc, Happ.
      destruct (split_lines (rest ++ mjoin pre)) as [ls' r']. cbn [fst] in IH |- *. rewrite answer_lines_app.
      destruct (answer_lines m n ls) as [[out m1] n1]. cbn [fst snd] in IH. rewrite IH.
      destruct (answer_lines m1 n1 ls') as [[out' m2] n2]. by rewrite app_assoc.
    + change (mjoin (c :: chunks)) with (c ++ mjoin chunks). rewrite app_assoc, Happ.
      destruct (split_lines (rest ++ mjoin chunks)) as [ls' r']. cbn [fst] in IH |- *. rewrite answer_lines_app.
      destruct (answer_lines m n ls) as [[out m1] n1]. cbn [fst snd] in IH. rewrite IH.
      by destruct (answer_lines m1 n1 ls') as [[? ?] ?].
Qed.

(** What is small in all does not overrun. *)
Lemma overrun_none chunks : forall rx, zlen (rx ++ mjoin chunks) <= LINE_MAX -> overrun rx chunks = None.
Proof.
  induction chunks as [|c chunks IH]; intros rx Hl; cbn [overrun]; [done|].
  change (mjoin (c :: chunks)) with (c ++ mjoin chunks) in Hl. rewrite app_assoc in Hl.
  pose proof (split_lines_length (rx ++ c)) as Hlen. rewrite length_app in Hl.
  rewrite (proj2 (Z.ltb_ge _ _)) by lia. rewrite IH; [done|]. rewrite length_app. lia.
Qed.

Lemma serve_joined chunks m n rx :
  cut_at LF rx = None -> zlen (rx ++ mjoin chunks) <= LINE_MAX ->
  serve m n rx chunks = answer_lines m n (split_lines (rx ++ mjoin chunks)).1.
Proof. intros Hrx Hl. by rewrite serve_overrun, overrun_none. Qed.

(** The chunks before do not overrun, and what is pending after them. *)
Lemma overrun_app chunks more : forall rx,
  cut_at LF rx = None -> overrun rx chunks = None ->
  overrun rx (chunks ++ more) = app chunks <$> overrun (split_lines (rx ++ mjoin chunks)).2 more.
Proof.
  induction chunks as [|c chunks IH]; intros rx Hrx Ho; cbn [overrun app] in *.
  - simpl. rewrite app_nil_r, split_lines_none by done. cbn [snd]. by destruct (overrun rx more).
  - destruct (LINE_MAX <? zlen (rx ++ c)); [done|]. apply fmap_None in Ho. pose proof (split_lines_rest (rx ++ c)) as Hrest.
    rewrite IH by done. change (mjoin (c :: chunks)) with (c ++ mjoin chunks). rewrite app_assoc, (split_lines_app (rx ++ c) (mjoin chunks)).
    destruct (split_lines (rx ++ c)) as [ls rest]. cbn [snd]. destruct (split_lines (rest ++ mjoin chunks)) as [ls' r'].
    cbn [snd]. by destruct (overrun r' more).
Qed.

Lemma overrun_prefix chunks more : forall rx, overrun rx (chunks ++ more) = None -> overrun rx chunks = None.
Proof.
  induction chunks as [|c chunks IH]; intros rx; cbn [overrun app]; [done|].
  destruct (_ <? _); [done|]. intros H%fmap_None. by rewrite IH.
Qed.

End environment.

Lemma deliver_prefix script : forall d res out tx,
  deliver script d = (res, out, tx) -> out `prefix_of` d /\ (res = 0 -> out = d) /\ (res = 0 \/ res = -1).
Proof.
  induction script as [|[n|e] script IH]; intros [|b d] res out tx; cbn [deliver];
    try (intros [= <- <- <-]; split_and!; [done|done|by left]).
  - set (n' := Z.max 0 (Z.min n (zlen (b :: d)))). destruct (n' =? 0).
    { intros [= <- <- <-]. split_and!; [apply prefix_nil|done|by right]. }
    destruct (deliver script _) as [[res' out'] tx'] eqn:E. intros [= <- <- <-].
    destruct (IH _ _ _ _ E) as (H1 & H2 & H3). split_and!; [|intros Hr; rewrite (H2 Hr); apply take_drop|done].
    rewrite <-(take_drop (Z.to_nat n') (b :: d)) at 2. by apply prefix_app.
  - destruct (e =? EINTR); [apply IH|]. intros [= <- <- <-]. split_and!; [apply prefix_nil|done|by right].
Qed.
