(* ===== verification/CacheDrive.v ===== *)
(** * An executable scheduler for the cache server

    The step relation of [CacheConcurrent] with one choice made at every call: the
    connections that come and the input they deliver are given, everything else
    succeeds, and the threads run in turn until they wait for a socket.  What it
    computes are runs of the step relation ([drive_csteps]), so whole sessions can
    be evaluated. *)

From S2P Require Import Prelude CLib Effects CacheSpec CacheStore CacheServer CacheRefine CacheSession.
From S2P Require Import CacheThread CacheConcurrent.
Local Open Scope Z_scope.

(** A number not in use. *)
Definition unused (s : gset Z) : Z := foldr Z.max 3 (elements s) + 1.

Definition clock_reading (g : shared) : option (Z * Z) :=
  if (0 <=? g_clock g) && (g_clock g <=? NOW_MAX)
  then Some (g_clock g / 1000, (g_clock g mod 1000) * 1000000) else None.

(** The answer to a call of the thread [t], which is delivered [input] when it
    receives. *)
Definition answer_call (t : nat) (g : shared) (input : list byte) A (e : cacheE A)
  : option (A * shared * option label) :=
  match e in cacheE A return option (A * shared * option label) with
  | Lock m => if decide (owner m g = None) then Some (tt, set_owner m (Some t) g, None) else None
  | Unlock m => if decide (owner m g = Some t) then Some (tt, set_owner m None g, None) else None
  | StoreOp f => match f (g_store g) with Some (a, st) => Some (a, set_store st g, None) | None => None end
  | CountOp f => let '(a, n) := f (g_count g) in Some (a, set_count n g, None)
  | ClockGettime => match clock_reading g with Some x => Some (x, g, None) | None => None end
  | Send fd data => Some (Ok (zlen data), g, sent_label t (take (Z.to_nat (zlen data)) data))
  | Recv fd len =>
      match input with
      | [] => Some (Ok [], g, None)
      | _ => if zlen input <=? len then Some (Ok input, g, Some (LRecv t input)) else None
      end
  | Close fd => Some (tt, set_fds (g_fds g ∖ {[fd]}) g, if decide (t = main_tid) then None else Some (LClose t))
  | Accept _ | Socket =>
      let fd := unused (g_fds g) in
      if decide (fd ∉ g_fds g) then Some (Ok fd, set_fds ({[fd]} ∪ g_fds g) g, None) else None
  | Malloc =>
      let p := unused (g_heap g) in
      if decide (p ∉ g_heap g) then Some (Some p, set_heap ({[p]} ∪ g_heap g) g, None) else None
  | Free p => Some (tt, set_heap (g_heap g ∖ {[p]}) g, None)
  | PthreadCreate _ _ => None    (* it succeeds, see [step_thread] *)
  | PthreadDetach => Some (tt, g, None)
  | Perror _ => Some (tt, g, None)
  | Print _ _ => Some (tt, g, None)
  | IgnoreSigpipe => Some (tt, g, None)
  | SetReuseaddr _ => Some (tt, g, None)
  | InetPton _ => Some (true, g, None)
  | Bind _ _ _ => Some (Ok tt, g, None)
  | Listen _ _ => Some (Ok tt, g, None)
  | Undefined => None
  end.

(** [pthread_create] starts a thread with an id not in use. *)
Definition new_thread (t : nat) (g : shared) (ts : gmap nat (prog unit)) A (e : cacheE A)
  : (A -> prog unit) -> option (config * option label) :=
  match e in cacheE A return (A -> prog unit) -> option (config * option label) with
  | PthreadCreate arg fd => fun k =>
      let u := S (foldr Nat.max 0%nat (elements (dom ts))) in
      if decide (ts !! u = None)
      then Some (Config g (<[u := client_thread arg fd]> (<[t := k true]> ts)), Some (LOpen u)) else None
  | _ => fun _ => None
  end.

Definition step_thread (t : nat) (input : list byte) (c : config) : option (config * option label) :=
  match c_threads c !! t with
  | None => None
  | Some p =>
      match observe p with
      | RetF _ => None
      | TauF p' => Some (Config (c_shared c) (<[t := p']> (c_threads c)), None)
      | VisF e k =>
          match answer_call t (c_shared c) input _ e with
          | Some (a, g, l) => Some (Config g (<[t := k a]> (c_threads c)), l)
          | None => new_thread t (c_shared c) (c_threads c) _ e k
          end
      end
  end.

Definition blocks A (e : cacheE A) : bool :=
  match e with Recv _ _ | Accept _ => true | _ => false end.

(** The thread waits for a socket, or has ended. *)
Definition waits (t : nat) (c : config) : bool :=
  match c_threads c !! t with
  | None => true
  | Some p =>
      match observe (p : prog unit) with
      | RetF _ => true
      | TauF _ => false
      | VisF e _ => blocks _ e
      end
  end.

(** Run a thread until it waits. *)
Fixpoint advance (fuel : nat) (t : nat) (c : config) : option (config * list label) :=
  if waits t c then Some (c, [])
  else
    match fuel with
    | O => None
    | S fuel' =>
        match step_thread t [] c with
        | Some (c1, l) =>
            match advance fuel' t c1 with
            | Some (c2, ls) => Some (c2, option_list l ++ ls)
            | None => None
            end
        | None => None
        end
    end.

Inductive move :=
| Start (t : nat)                        (** run a thread until it waits *)
| Deliver (t : nat) (input : list byte). (** answer what it waits for, and run it on *)

Definition do_move (fuel : nat) (m : move) (c : config) : option (config * list label) :=
  match m with
  | Start t => advance fuel t c
  | Deliver t input =>
      match step_thread t input c with
      | Some (c1, l) =>
          match advance fuel t c1 with
          | Some (c2, ls) => Some (c2, option_list l ++ ls)
          | None => None
          end
      | None => None
      end
  end.

Fixpoint drive (fuel : nat) (ms : list move) (c : config) : option (config * list label) :=
  match ms with
  | [] => Some (c, [])
  | m :: ms' =>
      match do_move fuel m c with
      | Some (c1, ls) =>
          match drive fuel ms' c1 with
          | Some (c2, ls') => Some (c2, ls ++ ls')
          | None => None
          end
      | None => None
      end
  end.

(** ** What it computes are runs *)

Lemma answer_call_step t g input A (e : cacheE A) a g' l :
  answer_call t g input A e = Some (a, g', l) -> call_step t g A e a g' l.
Proof.
  destruct e; cbn [answer_call call_step]; intros H;
    try (by repeat case_decide; simplify_eq; repeat split).
  - destruct (f (g_store g)) as [[a' st]|]; [|done]. by simplify_eq.
  - destruct (f (g_count g)) as [a' n]. by simplify_eq.
  - unfold clock_reading in H. destruct ((0 <=? g_clock g) && (g_clock g <=? NOW_MAX)) eqn:E; [|done].
    injection H as <- <- <-. rewrite andb_true_iff, !Z.leb_le in E.
    assert (Hms : ms (g_clock g / 1000) ((g_clock g mod 1000) * 1000000) = g_clock g).
    { unfold ms. rewrite Z.div_mul by lia. pose proof (Z.div_mod (g_clock g) 1000). lia. }
    pose proof (Z.mod_pos_bound (g_clock g) 1000). split; [|split; [lia|]].
    + split; [apply Z.div_pos; lia|]. split; [lia|]. rewrite Hms. lia.
    + rewrite Hms. split; [by destruct g|done].
  - simplify_eq. split; [done|]. split; [lia|done].
  - destruct input as [|b bs]; [by simplify_eq|].
    destruct (Z.leb_spec (zlen (b :: bs)) len); [|done]. by simplify_eq.
Qed.

Lemma step_thread_cstep t input c c' l : step_thread t input c = Some (c', l) -> cstep c l c'.
Proof.
  destruct c as [g ts]. unfold step_thread. simpl. destruct (ts !! t) as [p|] eqn:Ht; [|done].
  destruct (observe p) as [r|p'|A e k] eqn:Ho; [done| |].
  - intros [= <- <-]. by eapply cstep_tau.
  - destruct (answer_call t g input A e) as [[[a g'] l']|] eqn:Ha.
    + intros [= <- <-]. eapply cstep_call; [done|done|]. by eapply answer_call_step.
    + destruct e; cbn [new_thread]; try done. case_decide as Hu; [|done].
      intros [= <- <-]. by eapply cstep_create.
Qed.

Lemma advance_csteps fuel t : forall c c' ls, advance fuel t c = Some (c', ls) -> csteps c ls c'.
Proof.
  induction fuel as [|fuel IH]; intros c c' ls; cbn [advance]; (destruct (waits t c); [intros [= <- <-]; constructor|]);
    [done|].
  destruct (step_thread t [] c) as [[c1 l]|] eqn:E; [|done].
  destruct (advance fuel t c1) as [[c2 ls2]|] eqn:E2; [|done]. intros [= <- <-].
  eapply ltrace_cons; [by eapply step_thread_cstep|]. by eapply IH.
Qed.

Lemma drive_csteps fuel ms : forall c c' ls, drive fuel ms c = Some (c', ls) -> csteps c ls c'.
Proof.
  induction ms as [|m ms IH]; intros c c' ls; cbn [drive]; [intros [= <- <-]; constructor|].
  destruct (do_move fuel m c) as [[c1 ls1]|] eqn:E; [|done].
  destruct (drive fuel ms c1) as [[c2 ls2]|] eqn:E2; [|done]. intros [= <- <-].
  eapply ltrace_app; [|by eapply IH]. destruct m as [t|t input]; simpl in E.
  - by eapply advance_csteps.
  - destruct (step_thread t input c) as [[c3 l]|] eqn:E3; [|done].
    destruct (advance fuel t c3) as [[c4 ls4]|] eqn:E4; [|done]. injection E as <- <-.
    eapply ltrace_cons; [by eapply step_thread_cstep|]. by eapply advance_csteps.
Qed.

(** The run is known by its labels. *)
Lemma drive_run fuel ms c ls :
  option_map snd (drive fuel ms c) = Some ls -> exists c', csteps c ls c'.
Proof.
  destruct (drive fuel ms c) as [[c' ls']|] eqn:E; [|done]. intros [= <-].
  exists c'. by eapply drive_csteps.
Qed.
