(* ===== verification/CacheProgress.v ===== *)
(** * Progress of the cache server

    The steps of one thread ([tstep]), schedules of threads, and what the pace of
    the programs ([CachePace]) and the safety of their calls ([CacheServerProof])
    give together: the server never deadlocks, a mutex is released within a
    bounded number of its holder's steps, no thread spins. *)

From S2P Require Import Prelude CLib Effects.
From S2P Require Import CacheSpec CacheStore CacheProto CacheServer CacheRefine CacheLine CacheSession.
From S2P Require Import CacheThread CacheMain CacheConcurrent CacheServerProof CacheDrive CachePace.
Local Open Scope nat_scope.
Local Open Scope prog_scope.

(** ** The steps of one thread *)

Inductive tstep (t : nat) : config -> option label -> config -> Prop :=
| tstep_tau g ts p p' :
    ts !! t = Some p -> observe p = TauF p' ->
    tstep t (Config g ts) None (Config g (<[t := p']> ts))
| tstep_call g ts p A (e : cacheE A) k a g' l :
    ts !! t = Some p -> observe p = VisF e k -> call_step t g A e a g' l ->
    tstep t (Config g ts) l (Config g' (<[t := k a]> ts))
| tstep_create g ts p arg fd k u :
    ts !! t = Some p -> observe p = VisF (PthreadCreate arg fd) k -> ts !! u = None ->
    tstep t (Config g ts) (Some (LOpen u)) (Config g (<[u := client_thread arg fd]> (<[t := k true]> ts))).

Lemma cstep_tstep c l c' : cstep c l c' <-> exists t, tstep t c l c'.
Proof.
  split.
  - intros []; eexists; [by eapply tstep_tau|by eapply tstep_call|by eapply tstep_create].
  - intros [t []]; [by eapply cstep_tau|by eapply cstep_call|by eapply cstep_create].
Qed.

(** [schedule ts c c']: the threads [ts] make a step each, in this order. *)
Inductive schedule : list nat -> config -> config -> Prop :=
| schedule_nil c : schedule [] c c
| schedule_cons t ts c l c1 c2 : tstep t c l c1 -> schedule ts c1 c2 -> schedule (t :: ts) c c2.

Definition can_step (t : nat) (c : config) : Prop := exists l c', tstep t c l c'.

(** ** What a thread holds and how long it will *)

(** The mutexes that [t] owns are the one of its pace. *)
Definition holds (t : nat) (g : shared) (s : pace) : Prop :=
  forall m, owner m g = Some t <-> p_mutex s = Some m.

Definition thread_paced (c : config) (t : nat) (s : pace) : Prop :=
  exists p, c_threads c !! t = Some p /\ paced p (fun _ => free_pace) s /\
    holds t (c_shared c) s /\ p_left s <= SECTION_STEPS.

(** Every thread keeps its pace, and every owner of a mutex is a thread. *)
Definition all_paced (c : config) : Prop :=
  (forall t, is_Some (c_threads c !! t) -> exists s, thread_paced c t s) /\
  (forall m t, owner m (c_shared c) = Some t -> is_Some (c_threads c !! t)).

(** How the pace changes in a step of the thread: inside a critical section the
    steps left decrease. *)
Definition pace_next (s s' : pace) : Prop :=
  (p_left s <= SECTION_STEPS -> p_left s' <= SECTION_STEPS) /\
  match p_mutex s with
  | Some m => p_mutex s' = None \/ (p_mutex s' = Some m /\ p_left s = S (p_left s'))
  | None => True
  end.

(** *** The effect of the calls on the mutexes *)

Lemma owner_set_owner m m' o g : owner m (set_owner m' o g) = if decide (m = m') then o else owner m g.
Proof. by destruct m, m'. Qed.

Lemma call_step_others t g A (e : cacheE A) a g' l m u :
  call_step t g A e a g' l -> u <> t -> owner m g' = Some u <-> owner m g = Some u.
Proof.
  intros Hs Hu. destruct e; simpl in Hs; repeat case_match; unpack; subst;
    rewrite ?owner_set_owner; try (case_decide; [subst; split; congruence|]); try done; by destruct m.
Qed.

Lemma call_step_pace t g A (e : cacheE A) a g' l s (Φ : A -> pace -> Prop) :
  call_step t g A e a g' l -> holds t g s -> pace_ev A e Φ s ->
  exists s', Φ a s' /\ holds t g' s' /\ pace_next s s'.
Proof.
  intros Hs Hh Hp. assert (Hsame : forall g', g_store_owner g' = g_store_owner g ->
    g_count_owner g' = g_count_owner g -> forall s', p_mutex s' = p_mutex s -> holds t g' s').
  { intros g0 H1 H2 s' Hs' m. rewrite Hs', <-(Hh m). destruct m; simpl; by rewrite ?H1, ?H2. }
  destruct e; cbn [pace_ev] in Hp;
    try (destruct Hp as [Hf Hp]; exists (Pace None SECTION_STEPS); split; [by apply Hp|];
         split; [apply Hsame; [..|done]; simpl in Hs; repeat case_match; unpack; by subst
                |unfold pace_next; rewrite Hf; split; [done|done]]);
    try (destruct s as [[m|] [|k]]; [done| |done..]; exists (Pace (Some m) k); split; [by apply Hp|];
         split; [apply Hsame; [..|done]; simpl in Hs; repeat case_match; unpack; by subst|split; [simpl; lia|by right]]).
  - destruct Hp as [Hf Hp], Hs as (Ho & -> & ->), a. eexists. split; [done|]. split.
    + intros m'. rewrite owner_set_owner. simpl. case_decide as Hm; [by subst|].
      rewrite (Hh m'), Hf. split; congruence.
    + unfold pace_next. by rewrite Hf.
  - destruct Hp as [Hf Hp], Hs as (Ho & -> & ->), a. eexists. split; [done|]. split.
    + intros m'. rewrite owner_set_owner. simpl. case_decide as Hm; [done|].
      rewrite (Hh m'), Hf. split; congruence.
    + unfold pace_next. rewrite Hf. split; [done|by left].
  - done.
Qed.

(** *** The steps *)

Lemma thread_paced_others c c' u s :
  thread_paced c u s -> c_threads c' !! u = c_threads c !! u ->
  (forall m, owner m (c_shared c') = Some u <-> owner m (c_shared c) = Some u) -> thread_paced c' u s.
Proof.
  intros (p & Hp & Hw & Hh & Hl) Ht Ho. exists p. rewrite Ht. split; [done|]. split; [done|].
  split; [|done]. intros m. by rewrite (Ho m).
Qed.

Lemma holds_none_new t g : (forall m, owner m g <> Some t) -> holds t g (Pace None SECTION_STEPS).
Proof. intros H m. by split; [intros Hm; destruct (H m)|]. Qed.

Lemma tstep_paced t c l c' :
  all_paced c -> tstep t c l c' ->
  all_paced c' /\
  (forall s, thread_paced c t s -> exists s', thread_paced c' t s' /\ pace_next s s') /\
  (forall u s, u <> t -> thread_paced c u s -> thread_paced c' u s).
Proof.
  intros [Hall Hown] Hs.
  assert (Hme : forall s, thread_paced c t s -> exists s', thread_paced c' t s' /\ pace_next s s').
  { intros s (p0 & Hp0 & Hw & Hh & Hl).
    destruct Hs as [g ts p p' Hp Ho|g ts p A e k a g' l Hp Ho Hc|g ts p arg fd k u Hp Ho Hu]; simpl in *; simplify_eq.
    - destruct (paced_tau_inv _ _ _ _ Ho Hw) as (j & Hj & Hw'). exists (Pace (p_mutex s) j).
      split; [exists p'; simpl; rewrite lookup_insert_eq; split_and!; [done..|lia]|].
      split; [simpl; lia|]. simpl. destruct (p_mutex s); [by right|done].
    - apply (paced_vis_inv _ _ _ _ _ _ Ho) in Hw.
      destruct (call_step_pace _ _ _ _ _ _ _ _ _ Hc Hh Hw) as (s' & Hw' & Hh' & Hn). exists s'.
      split; [|done]. exists (k a). simpl. rewrite lookup_insert_eq. split_and!; [done..|by apply Hn].
    - apply (paced_vis_inv _ _ _ _ _ _ Ho) in Hw as [Hf Hw]. exists (Pace None SECTION_STEPS).
      assert (u <> t) by congruence. split; [|unfold pace_next; by rewrite Hf].
      exists (k true). simpl. rewrite lookup_insert_ne, lookup_insert_eq by done. split_and!; [done|done| |done].
      intros m. by rewrite (Hh m), Hf. }
  assert (Hothers : forall u s, u <> t -> thread_paced c u s -> thread_paced c' u s).
  { intros u s Hu Hp. eapply thread_paced_others; [exact Hp|..];
      destruct Hs as [g ts p p' Hp' Ho|g ts p A e k a g' l Hp' Ho Hc|g ts p arg fd k v Hp' Ho Hv]; simpl in *;
      try done; try (by rewrite lookup_insert_ne).
    - destruct Hp as (q & Hq & _). simpl in Hq. assert (u <> v) by congruence. by rewrite !lookup_insert_ne.
    - intros m. by eapply call_step_others. }
  split; [|done]. split.
  - intros u Hu. destruct (decide (u = t)) as [->|Hut].
    + destruct (Hall t) as [s Hsp]; [|destruct (Hme s Hsp) as (s' & Hs' & _); by exists s'].
      destruct Hs; simpl; eauto.
    + destruct (c_threads c !! u) as [q|] eqn:Hq.
      * destruct (Hall u) as [s Hsp]; [by eexists|]. exists s. by apply Hothers.
      * destruct Hs as [g ts p p' Hp Ho|g ts p A e k a g' l Hp Ho Hc|g ts p arg fd k v Hp Ho Hv]; simpl in *.
        -- rewrite lookup_insert_ne in Hu by done. rewrite Hq in Hu. by destruct Hu.
        -- rewrite lookup_insert_ne in Hu by done. rewrite Hq in Hu. by destruct Hu.
        -- destruct (decide (u = v)) as [->|Huv].
           ++ exists (Pace None SECTION_STEPS), (client_thread arg fd). simpl. rewrite lookup_insert_eq.
              split; [done|]. split; [by apply paced_client_thread|]. split; [|done]. apply holds_none_new.
              intros m Hm. apply Hown in Hm. simpl in Hm. rewrite Hq in Hm. by destruct Hm.
           ++ rewrite !lookup_insert_ne in Hu by done. rewrite Hq in Hu. by destruct Hu.
  - intros m u Hu. destruct (decide (u = t)) as [->|Hut].
    + destruct Hs; simpl; rewrite ?lookup_insert_is_Some'; auto.
    + assert (Hu' : owner m (c_shared c) = Some u).
      { destruct Hs as [| g ts p A e k a g' l Hp Ho Hc|]; simpl in *; try done. by apply (call_step_others t g A e a g' l m u Hc Hut). }
      apply Hown in Hu'. destruct Hs; simpl in *; rewrite ?lookup_insert_is_Some'; auto.
Qed.

Lemma all_paced_init now prog_name argv : all_paced (config_init now prog_name argv).
Proof.
  split.
  - intros t [p Hp]. simpl in Hp. apply lookup_singleton_Some in Hp as [<- <-].
    exists (Pace None SECTION_STEPS). eexists. split; [apply lookup_singleton_eq|].
    split; [|split; [|done]].
    + apply paced_bind. eapply paced_mono; [|by apply paced_main]. intros r s Hs. by apply paced_ret.
    + by apply holds_none_new; intros [].
  - by intros [] t.
Qed.

Lemma all_paced_steps c ls c' : all_paced c -> csteps c ls c' -> all_paced c'.
Proof.
  intros H Hc. induction Hc as [c|c l c1 ls c2 Hs _ IH]; [done|]. apply IH.
  apply cstep_tstep in Hs as [t Ht]. by apply (tstep_paced t c l c1).
Qed.

(** ** A mutex is released *)

Definition steps_of (t : nat) (ts : list nat) : nat := count_occ Nat.eq_dec ts t.

Lemma released_within t m ts c1 c2 s :
  all_paced c1 -> thread_paced c1 t s -> schedule ts c1 c2 -> p_left s < steps_of t ts ->
  p_mutex s = Some m ->
  exists ts1 ts2 c, ts = ts1 ++ ts2 /\ schedule ts1 c1 c /\ schedule ts2 c c2 /\
    owner m (c_shared c) <> Some t /\ steps_of t ts1 <= S (p_left s).
Proof.
  intros Hall Hsp Hts. revert s Hsp. induction Hts as [c|u ts c l c1 c2 Hu Hts IH]; intros s Hsp Hn Hm; [simpl in Hn; lia|].
  destruct (tstep_paced u c l c1 Hall Hu) as (Hall1 & Hme & Hothers). unfold steps_of in *. simpl in Hn.
  destruct (Nat.eq_dec u t) as [->|Hut].
  - destruct (Hme s Hsp) as (s' & Hsp' & [_ Hnext]). rewrite Hm in Hnext. destruct Hnext as [Hfree|[Hm' Hl]].
    + exists [t], ts, c1. split; [done|]. split; [by eapply schedule_cons, schedule_nil|]. split; [done|].
      split; [|simpl; destruct (Nat.eq_dec t t); lia]. destruct Hsp' as (p & _ & _ & Hh & _). rewrite (Hh m), Hfree. done.
    + destruct (IH Hall1 s' Hsp') as (ts1 & ts2 & c' & -> & H1 & H2 & Ho & Hc); [lia|done|].
      exists (t :: ts1), ts2, c'. split; [done|]. split; [by eapply schedule_cons|]. split; [done|]. split; [done|].
      simpl. destruct (Nat.eq_dec t t); lia.
  - destruct (IH Hall1 s (Hothers t s ltac:(done) Hsp)) as (ts1 & ts2 & c' & -> & H1 & H2 & Ho & Hc); [lia|done|].
    exists (u :: ts1), ts2, c'. split; [done|]. split; [by eapply schedule_cons|]. split; [done|]. split; [done|].
    simpl. destruct (Nat.eq_dec u t); [done|]. lia.
Qed.

(** ** No silent loop *)

(** The program makes a call or ends within [n] silent steps. *)
Fixpoint calls_within {R} (n : nat) (p : prog R) : bool :=
  match observe p with
  | TauF p' => match n with O => false | S n' => calls_within n' p' end
  | _ => true
  end.

Lemma paced_calls {R} n (p : prog R) Φ s : paced p Φ s -> p_left s <= n -> calls_within n p = true.
Proof.
  revert p s. induction n as [|n IH]; intros p s Hp Hn; simpl; destruct (observe p) as [r|p'|A e k] eqn:Ho; try done;
    destruct (paced_tau_inv _ _ _ _ Ho Hp) as (j & Hj & Hp'); [lia|].
  eapply IH; [exact Hp'|]. simpl. lia.
Qed.

(** ** Every call can return *)

Definition clock_in_range (c : config) : Prop := (g_clock (c_shared c) <= NOW_MAX)%Z.

Lemma clock_in_range_steps c ls c' : clock_in_range c -> csteps c ls c' -> clock_in_range c'.
Proof.
  intros H Hc. induction Hc as [c|c l c1 ls c2 Hs _ IH]; [done|]. apply IH. clear IH.
  destruct Hs as [| g ts t p A e k a g' l Hp Ho Hc|]; [done| |done]. unfold clock_in_range in *. simpl in *.
  destruct e; simpl in Hc; repeat case_match; unpack; subst; try done; try (by destruct m).
  by match goal with H : clock_ok _ _ |- _ => destruct H as (_ & _ & H) end.
Qed.

(** A call that is in order returns, a mutex that is taken apart. *)
Lemma call_step_total t g A (e : cacheE A) :
  call_safe t g A e -> (0 <= g_clock g <= NOW_MAX)%Z ->
  match e with Lock m => owner m g = None | _ => True end ->
  exists a g' l, call_step t g A e a g' l.
Proof.
  intros Hsafe Hclk Hlock. destruct e; cbn [call_step call_safe] in *;
    try (by exists tt; eexists _, _).
  - destruct Hsafe as [_ Hf]. destruct (f (g_store g)) as [[a st]|] eqn:E; [|done].
    by exists a, (set_store st g), None.
  - destruct (f (g_count g)) as [a n] eqn:E. by eexists a, (set_count n g), None.
  - exists (g_clock g / 1000, (g_clock g mod 1000) * 1000000)%Z.
    assert (E : ms (g_clock g / 1000) (g_clock g mod 1000 * 1000000) = g_clock g).
    { unfold ms. rewrite Z.div_mul by done. pose proof (Z.div_mod (g_clock g) 1000). lia. }
    eexists _, _. rewrite E. split; [|split; [|by split]]; [|lia].
    pose proof (Z.mod_pos_bound (g_clock g) 1000). pose proof (Z.div_pos (g_clock g) 1000).
    unfold clock_ok. rewrite E. lia.
  - by exists (Err EINTR), g, None.
  - by exists (Err EINTR), g, None.
  - by exists (Err EINTR), g, None.
  - by exists None, g, None.
  - by exists false, g, None.
  - by exists (Err EINTR), g, None.
  - by exists true, g, None.
  - by exists (Ok tt), g, None.
  - by exists (Ok tt), g, None.
  - done.
Qed.

(** A thread that has not ended steps, unless it waits for a mutex. *)
Lemma paced_can_step c t p :
  (forall A (e : cacheE A) k, observe p = VisF e k -> call_safe t (c_shared c) A e) ->
  (0 <= g_clock (c_shared c) <= NOW_MAX)%Z -> c_threads c !! t = Some p ->
  observe p = RetF tt \/ can_step t c \/
  exists m u k, observe p = VisF (Lock m) k /\ owner m (c_shared c) = Some u /\ u <> t.
Proof.
  intros Hsafe Hclk Hp. destruct c as [g ts]. simpl in *.
  destruct (observe p) as [[]|p'|A e k] eqn:Ho; [by left|right..].
  - left. eexists _, _. by eapply tstep_tau.
  - pose proof (Hsafe A e k eq_refl) as He.
    assert (Hgo : match e with Lock m => owner m g = None | _ => True end -> can_step t (Config g ts)).
    { intros Hl. destruct (call_step_total t g A e He Hclk Hl) as (a & g' & l & Hc).
      eexists _, _. by eapply tstep_call. }
    destruct e; try (left; by apply Hgo).
    destruct (owner m g) as [u|] eqn:Hm; [|left; by apply Hgo].
    right. exists m, u, k. split; [done|]. split; [done|]. intros ->. by apply (He m).
Qed.

(** The holder of a mutex steps. *)
Lemma holder_can_step c m u a :
  related c a -> all_paced c -> clock_in_range c -> owner m (c_shared c) = Some u -> can_step u c.
Proof.
  intros Hr [Hall Hown] Hclk Hm. pose proof Hr as (views & Hinv & _).
  destruct (Hall u (Hown m u Hm)) as (s & p & Hp & Hw & Hh & _).
  assert (Hs : p_mutex s = Some m) by by apply Hh.
  pose proof (inv_store _ _ _ Hinv) as (_ & _ & Hck).
  destruct (paced_can_step c u p) as [Hret|[Hgo|(m' & v & k & Ho & _ & _)]]; [|by split; [lia|]|done| |done|].
  - intros A e k. by eapply related_safe.
  - apply (paced_ret_inv _ _ _ _ Hret) in Hw. unfold free_pace in Hw. congruence.
  - apply (paced_vis_inv _ _ _ _ _ _ Ho) in Hw as [Hw _]. unfold free_pace in Hw. congruence.
Qed.

(** Every configuration the server reaches keeps the pace. *)
Lemma started_paced c now ls c' : started c now -> csteps c ls c' -> all_paced c'.
Proof.
  intros (_ & prog_name & name & argv & args & _ & _ & ->) Hc.
  eapply all_paced_steps, Hc. apply all_paced_init.
Qed.

Lemma started_clock c now ls c' :
  started c now -> (now <= NOW_MAX)%Z -> csteps c ls c' -> clock_in_range c'.
Proof.
  intros (_ & prog_name & name & argv & args & _ & _ & ->) Hnow Hc. by eapply clock_in_range_steps, Hc.
Qed.

(** ** The steps of the executable scheduler *)

Lemma step_thread_tstep t input c c' l : step_thread t input c = Some (c', l) -> tstep t c l c'.
Proof.
  destruct c as [g ts]. unfold step_thread. simpl. destruct (ts !! t) as [p|] eqn:Ht; [|done].
  destruct (observe p) as [r|p'|A e k] eqn:Ho; [done| |].
  - intros [= <- <-]. by eapply tstep_tau.
  - destruct (answer_call t g input A e) as [[[a g'] l']|] eqn:Ha.
    + intros [= <- <-]. eapply tstep_call; [done|done|]. by eapply answer_call_step.
    + destruct e; cbn [new_thread]; try done. case_decide as Hu; [|done].
      intros [= <- <-]. by eapply tstep_create.
Qed.

(** [n] steps of the thread [t]. *)
Fixpoint step_times (n : nat) (t : nat) (c : config) : option (config * list label) :=
  match n with
  | O => Some (c, [])
  | S n' =>
      match step_thread t [] c with
      | Some (c1, l) =>
          match step_times n' t c1 with
          | Some (c2, ls) => Some (c2, option_list l ++ ls)
          | None => None
          end
      | None => None
      end
  end.

Lemma step_times_runs n t c c' ls :
  step_times n t c = Some (c', ls) -> csteps c ls c' /\ schedule (replicate n t) c c'.
Proof.
  revert c ls. induction n as [|n IH]; intros c ls; simpl.
  - intros [= <- <-]. split; constructor.
  - destruct (step_thread t [] c) as [[c1 l]|] eqn:E; [|done].
    destruct (step_times n t c1) as [[c2 ls2]|] eqn:E2; [|done]. intros [= <- <-].
    destruct (IH _ _ E2) as [H1 H2]. split.
    + eapply ltrace_cons; [by eapply step_thread_cstep|done].
    + eapply schedule_cons; [by eapply step_thread_tstep|done].
Qed.

(** After [n] steps [t] holds [m], and can make [k] more. *)
Definition held_after (n k t : nat) (m : mutex) (c : config) : bool :=
  match step_times n t c with
  | Some (c1, _) =>
      bool_decide (owner m (c_shared c1) = Some t) && match step_times k t c1 with Some _ => true | None => false end
  | None => false
  end.

Lemma held_after_runs n k t m c :
  held_after n k t m c = true ->
  exists ls c1 c2, csteps c ls c1 /\ owner m (c_shared c1) = Some t /\ schedule (replicate k t) c1 c2.
Proof.
  unfold held_after. destruct (step_times n t c) as [[c1 ls]|] eqn:E1; [|done].
  intros [Hm Hk]%andb_true_iff. apply bool_decide_eq_true in Hm.
  destruct (step_times k t c1) as [[c2 ls2]|] eqn:E2; [|done].
  exists ls, c1, c2. split; [by apply (step_times_runs n t)|]. split; [done|]. by apply (step_times_runs k t c1 c2 ls2).
Qed.
