(* ===== verification/GoLib.v ===== *)
(** * Go library functions

    What the Go programs use of packages bytes, strings, strconv and net, on byte
    slices.  Slices that are only read are lists; [None] is a panic. *)

From S2P Require Import Prelude CLib.
Local Open Scope Z_scope.

(** ** Slices *)

(** [s[lo:hi]], and [s[lo:]]. *)
Definition slice (s : list byte) (lo hi : Z) : ub (list byte) :=
  assert_ub ((0 <=? lo) && (lo <=? hi) && (hi <=? zlen s))
    (Some (take (Z.to_nat (hi - lo)) (drop (Z.to_nat lo) s))).
Definition slice_from (s : list byte) (lo : Z) : ub (list byte) := slice s lo (zlen s).

(** [s[i]] *)
Definition index {A} (s : list A) (i : Z) : ub A := assert_ub (0 <=? i) (s !! Z.to_nat i).

(** ** Searching *)

(** [bytes.Cut]: what is before and after the first [sep]. *)
Fixpoint cut (sep s : list byte) : option (list byte * list byte) :=
  match strip_prefix sep s with
  | Some r => Some ([], r)
  | None =>
      match s with
      | [] => None
      | c :: s' => match cut sep s' with Some (a, b) => Some (c :: a, b) | None => None end
      end
  end.

(** [bytes.Index] of a separator that is there. *)
Definition index_of (sep s : list byte) : option Z :=
  match cut sep s with Some (a, _) => Some (zlen a) | None => None end.

(** [bytes.Split], for a separator that is not empty. *)
Fixpoint split_fuel (n : nat) (sep s : list byte) : list (list byte) :=
  match n with
  | O => [s]
  | S n => match cut sep s with Some (a, b) => a :: split_fuel n sep b | None => [s] end
  end.
Definition split (sep s : list byte) : list (list byte) := split_fuel (length s) sep s.

(** ** Text *)

(** White space of one, two and three bytes in UTF-8. *)
Definition space1 (a : byte) : bool := ((9 <=? uchar a) && (uchar a <=? 13)) || (uchar a =? 32).
Definition space2 (a b : byte) : bool := (uchar a =? 0xc2) && ((uchar b =? 0x85) || (uchar b =? 0xa0)).
Definition space3 (a b c : byte) : bool :=
  let '(a, b, c) := (uchar a, uchar b, uchar c) in
  ((a =? 0xe1) && (b =? 0x9a) && (c =? 0x80)) ||
  ((a =? 0xe2) && (b =? 0x80) && (((0x80 <=? c) && (c <=? 0x8a)) || (c =? 0xa8) || (c =? 0xa9) || (c =? 0xaf))) ||
  ((a =? 0xe2) && (b =? 0x81) && (c =? 0x9f)) ||
  ((a =? 0xe3) && (b =? 0x80) && (c =? 0x80)).

Fixpoint trim_left (s : list byte) : list byte :=
  match s with
  | [] => []
  | a :: s1 =>
      if space1 a then trim_left s1
      else
        match s1 with
        | [] => s
        | b :: s2 =>
            if space2 a b then trim_left s2
            else match s2 with [] => s | c :: s3 => if space3 a b c then trim_left s3 else s end
        end
  end.

(** The same from the other end, on the reversed text. *)
Fixpoint trim_back (s : list byte) : list byte :=
  match s with
  | [] => []
  | a :: s1 =>
      if space1 a then trim_back s1
      else
        match s1 with
        | [] => s
        | b :: s2 =>
            if space2 b a then trim_back s2
            else match s2 with [] => s | c :: s3 => if space3 c b a then trim_back s3 else s end
        end
  end.

(** [bytes.TrimSpace] *)
Definition trim_space (s : list byte) : list byte := rev (trim_back (rev (trim_left s))).

Definition lower (b : byte) : byte := if (65 <=? uchar b) && (uchar b <=? 90) then chr (uchar b + 32) else b.

(** [bytes.ToLower], for a text that is then compared with ASCII: the two
    characters beyond ASCII that have a lower case in ASCII are U+0130 and U+212A;
    all other characters beyond ASCII stay so. *)
Fixpoint to_lower (s : list byte) : list byte :=
  match s with
  | [] => []
  | a :: s1 =>
      match s1 with
      | [] => [lower a]
      | b :: s2 =>
          if (uchar a =? 0xc4) && (uchar b =? 0xb0) then chr 105 :: to_lower s2
          else
            match s2 with
            | [] => lower a :: to_lower s1
            | c :: s3 =>
                if (uchar a =? 0xe2) && (uchar b =? 0x84) && (uchar c =? 0xaa) then chr 107 :: to_lower s3
                else lower a :: to_lower s1
            end
      end
  end.

(** [bytes.EqualFold], for a second argument of ASCII letters that no other
    character folds to. *)
Definition equal_fold (s t : list byte) : bool := bool_decide (map lower s = map lower t).

(** ** Numbers and addresses *)

(** [strconv.Atoi], without its error for numbers beyond 64 bits: the callers
    refuse these for their value. *)
Definition digits_number (ds : list byte) : option Z :=
  if bool_decide (ds <> []) && forallb isdigit ds
  then Some (foldl (fun n c => n * 10 + digit c) 0 ds) else None.

Definition atoi (s : list byte) : option Z :=
  match s with
  | c :: r =>
      if bool_decide (c = chr 45) then Z.opp <$> digits_number r
      else if bool_decide (c = chr 43) then digits_number r
      else digits_number s
  | [] => None
  end.

Definition COLON : byte := chr 58.

(** [net.JoinHostPort] puts a host with a colon in brackets. *)
Definition join_host_port (host port : list byte) : list byte :=
  (if bool_decide (COLON ∈ host) then lit "[" ++ host ++ lit "]" else host) ++ lit ":" ++ port.

(** [net.ParseIP(host).To4() != nil], for a host without a colon: four decimal
    numbers of one to three digits below 256, without leading zeros. *)
Definition octet (s : list byte) : bool :=
  match digits_number s with
  | Some n => (zlen s <=? 3) && (n <=? 255) && (bool_decide (head s <> Some (chr 48)) || (zlen s =? 1))
  | None => false
  end.

Definition is_ipv4 (host : list byte) : bool :=
  let parts := split (lit ".") host in (zlen parts =? 4) && forallb octet parts.

(** ** Facts *)

Lemma assert_ub_true {A} b (k : ub A) : b = true -> assert_ub b k = k.
Proof. by intros ->. Qed.

Lemma slice_ok s lo hi : 0 <= lo <= hi -> hi <= zlen s ->
  slice s lo hi = Some (take (Z.to_nat (hi - lo)) (drop (Z.to_nat lo) s)).
Proof. intros. unfold slice. apply assert_ub_true. rewrite !andb_true_iff, !Z.leb_le. lia. Qed.

Lemma slice_app a b c lo hi :
  lo = zlen a -> hi = zlen a + zlen b -> slice (a ++ b ++ c) lo hi = Some b.
Proof.
  intros -> ->. rewrite slice_ok by (rewrite ?length_app; lia).
  rewrite drop_app_length' by lia. by rewrite take_app_length' by lia.
Qed.

Lemma slice_prefix b c hi : hi = zlen b -> slice (b ++ c) 0 hi = Some b.
Proof. intros ->. by apply (slice_app [] b c). Qed.

Lemma cut_Some sep s a b : cut sep s = Some (a, b) -> s = a ++ sep ++ b.
Proof.
  revert a b. induction s as [|c s IH]; intros a b; cbn [cut]; destruct (strip_prefix sep _) as [r|] eqn:E.
  - intros [= <- <-]. by apply strip_prefix_Some in E.
  - done.
  - intros [= <- <-]. by apply strip_prefix_Some in E.
  - destruct (cut sep s) as [[a' b']|]; [|done]. intros [= <- <-]. by rewrite (IH a' b').
Qed.

(** Nothing before the end of the first separator holds another one. *)
Lemma cut_first sep s a b : cut sep s = Some (a, b) -> forall a' b', s = a' ++ sep ++ b' -> (length a <= length a')%nat.
Proof.
  revert a b. induction s as [|c s IH]; intros a b Hc a' b' Hs; cbn [cut] in Hc;
    destruct (strip_prefix sep _) as [r|] eqn:E; simplify_eq; cbn [length]; try lia.
  destruct (cut sep s) as [[a1 b1]|] eqn:E1; [|done]. injection Hc as <- <-. destruct a' as [|d a'].
  - cbn [app] in Hs. assert (strip_prefix sep (c :: s) = Some b') by by apply strip_prefix_Some. congruence.
  - injection Hs as -> Hs. specialize (IH a1 b1 eq_refl a' b' Hs). simpl. lia.
Qed.

Lemma cut_None sep s : cut sep s = None -> forall a b, s <> a ++ sep ++ b.
Proof.
  induction s as [|c s IH]; intros Hc a b Hs; cbn [cut] in Hc; destruct (strip_prefix sep _) as [r|] eqn:E; try done.
  - destruct a; [|done]. assert (strip_prefix sep [] = Some b) by by apply strip_prefix_Some. congruence.
  - destruct (cut sep s) as [[a' b']|] eqn:E'; [done|]. destruct a as [|d a].
    + assert (strip_prefix sep (c :: s) = Some b) by by apply strip_prefix_Some. congruence.
    + injection Hs as -> Hs. by apply (IH eq_refl a b).
Qed.

(** What was cut off with its separator is cut at the same place. *)
Lemma cut_again sep s a b : cut sep s = Some (a, b) -> cut sep (a ++ sep) = Some (a, []).
Proof.
  intros Hc. pose proof (cut_Some _ _ _ _ Hc) as Hs. destruct (cut sep (a ++ sep)) as [[a' b']|] eqn:E.
  - pose proof (cut_Some _ _ _ _ E) as Ha. pose proof (cut_first _ _ _ _ E a [] ltac:(by rewrite app_nil_r)) as H1.
    assert (Hs' : s = a' ++ sep ++ b' ++ b).
    { rewrite Hs, (app_assoc a), Ha. by rewrite <-!app_assoc. }
    pose proof (cut_first _ _ _ _ Hc a' (b' ++ b) Hs') as H2.
    assert (Hl : length (a ++ sep) = length (a' ++ sep ++ b')) by by rewrite Ha.
    rewrite !length_app in Hl. destruct b'; [|simpl in Hl; lia].
    rewrite app_nil_r in Ha. apply app_inj_2 in Ha as [-> _]; done.
  - exfalso. eapply (cut_None _ _ E a []). by rewrite app_nil_r.
Qed.

Lemma cut_app sep s a b t : cut sep s = Some (a, b) -> cut sep (s ++ t) = Some (a, b ++ t).
Proof.
  intros Hc. pose proof (cut_Some _ _ _ _ Hc) as Hs.
  destruct (cut sep (s ++ t)) as [[a' b']|] eqn:E.
  - pose proof (cut_Some _ _ _ _ E) as Ha.
    assert (Hs' : s ++ t = a ++ sep ++ b ++ t) by (rewrite Hs; by rewrite <-!app_assoc).
    pose proof (cut_first _ _ _ _ E a (b ++ t) Hs') as H1.
    assert (H2 : a' ++ (sep ++ b') = a ++ (sep ++ b ++ t)) by by rewrite <-Ha, Hs'.
    assert (Hpre : (length a <= length a')%nat).
    { apply (cut_first _ _ _ _ Hc a' (drop (length a' + length sep) s)). rewrite Ha in Hs'. 
      assert (Hle : (length a' + length sep <= length s)%nat).
      { apply (f_equal length) in Hs. rewrite !length_app in Hs. lia. }
      transitivity (take (length a' + length sep) s ++ drop (length a' + length sep) s); [by rewrite take_drop|].
      rewrite app_assoc. f_equal. apply (f_equal (take (length a' + length sep))) in Ha.
      rewrite take_app_le in Ha by done. rewrite Ha, app_assoc, take_app_le by (rewrite length_app; lia).
      apply take_ge. rewrite length_app. lia. }
    apply app_inj_1 in H2 as [-> H2]; [|lia]. apply app_inv_head in H2. by rewrite H2.
  - exfalso. eapply (cut_None _ _ E a (b ++ t)). rewrite Hs. by rewrite <-!app_assoc.
Qed.

(** A separator that appears with more text ends in it. *)
Lemma cut_late sep s t a b : cut sep s = None -> cut sep (s ++ t) = Some (a, b) -> zlen s < zlen a + zlen sep.
Proof.
  intros Hn Hc. destruct (Z.lt_ge_cases (zlen s) (zlen a + zlen sep)) as [|Hge]; [done|]. exfalso.
  apply cut_Some in Hc. apply (cut_None _ _ Hn a (drop (length a + length sep) s)).
  rewrite <-(take_drop (length a + length sep) s) at 1. rewrite app_assoc. f_equal.
  apply (f_equal (take (length a + length sep))) in Hc. rewrite take_app_le in Hc by lia.
  rewrite Hc, app_assoc, take_app_le by (rewrite length_app; lia). apply take_ge. rewrite length_app. lia.
Qed.

Lemma cut_cons sep c s :
  cut sep (c :: s) =
  match strip_prefix sep (c :: s) with
  | Some r => Some ([], r)
  | None => match cut sep s with Some (a, b) => Some (c :: a, b) | None => None end
  end.
Proof. done. Qed.

(** No separator starts in a text without its first byte. *)
Lemma cut_skip c sep l s :
  c ∉ l -> cut (c :: sep) (l ++ s) = match cut (c :: sep) s with Some (a, b) => Some (l ++ a, b) | None => None end.
Proof.
  induction l as [|d l IH]; cbn [app].
  - intros _. by destruct (cut _ s) as [[a b]|].
  - rewrite not_elem_of_cons. intros [Hd Hl].
    assert (E : strip_prefix (c :: sep) (d :: l ++ s) = None).
    { destruct (strip_prefix (c :: sep) (d :: l ++ s)) as [r|] eqn:E; [|done].
      apply strip_prefix_Some in E. injection E as E _. congruence. }
    cbn [cut]. rewrite E, IH by done. by destruct (cut _ s) as [[a b]|].
Qed.

Lemma cut_here sep s : cut sep (sep ++ s) = Some ([], s).
Proof.
  assert (E : strip_prefix sep (sep ++ s) = Some s) by by apply strip_prefix_Some.
  destruct (sep ++ s) as [|x r] eqn:Es; cbn [cut]; by rewrite E.
Qed.

(** Enough rounds for every separator. *)
Lemma split_fuel_enough sep s n :
  sep <> [] -> (length s <= n)%nat -> split_fuel n sep s = split sep s.
Proof.
  intros Hsep. unfold split. remember (length s) as k eqn:Hk.
  assert (H : forall n m s, (length s <= n)%nat -> (length s <= m)%nat -> split_fuel n sep s = split_fuel m sep s).
  { clear -Hsep. intros n. induction n as [|n IH]; intros [|m] s Hn Hm; cbn [split_fuel]; try done;
      destruct (cut sep s) as [[a b]|] eqn:E; try done; apply cut_Some in E;
      (assert (length b < length s)%nat by (rewrite E, !length_app; destruct sep; [done|simpl; lia])); [lia..|].
    f_equal. apply IH; lia. }
  intros Hn. subst k. by apply H.
Qed.

Lemma split_cut sep s : sep <> [] ->
  split sep s = match cut sep s with Some (a, b) => a :: split sep b | None => [s] end.
Proof.
  intros Hsep. destruct (cut sep s) as [[a b]|] eqn:E.
  - pose proof (cut_Some _ _ _ _ E) as Hs.
    assert (Hb : (length b < length s)%nat) by (rewrite Hs, !length_app; destruct sep; [done|simpl; lia]).
    unfold split at 1. destruct (length s) as [|n] eqn:Hn; [lia|]. cbn [split_fuel]. rewrite E.
    by rewrite split_fuel_enough by (done || lia).
  - unfold split. destruct (length s); [done|]. cbn [split_fuel]. by rewrite E.
Qed.
