(* ===== verification/PyLib.v ===== *)
(** * Python

    What the Python programs of http-server/ use of the language and its standard
    library: exceptions as values of a result type, slices and indices of [bytes],
    decoded strings as lists of code points, [str] and [bytes] methods. *)

From S2P Require Import Prelude CLib GoLib.
Local Open Scope Z_scope.

(** ** Exceptions *)

Inductive exc :=
| ValueError | NotImplementedError | IndexError | StructError | OSError | CacheError | RuntimeError | KeyboardInterrupt
| ArgumentTypeError.

(** A result, or [raise class(message)]. *)
Inductive pyres (A : Type) :=
| Value (a : A)
| Raise (class : exc) (message : string).
Arguments Value {A} a.
Arguments Raise {A} class message%_string.

Declare Scope py_scope.
Notation "'let!' x := r 'in' k" :=
  (match r with Value x => k | Raise class message => Raise class message end)
  (at level 10, x name, r at level 100, k at level 200) : py_scope.
Notation "'let!' ' p := r 'in' k" :=
  (match r with Value p => k | Raise class message => Raise class message end)
  (at level 10, p pattern, r at level 100, k at level 200) : py_scope.

(** ** Text *)

(** A [str]: its code points. *)
Abbreviation pystr := (list Z).

(** The code points of a literal. *)
Definition text (s : string) : pystr := map uchar (lit s).
Arguments text s%_string.

(** [s.encode("ascii")], [None] for a UnicodeEncodeError, and the other way. *)
Definition encode_ascii (cs : pystr) : option (list byte) :=
  if forallb (fun c => (0 <=? c) && (c <? 128)) cs then Some (map chr cs) else None.
Definition decode_ascii (b : list byte) : option pystr :=
  if forallb (fun c => uchar c <? 128) b then Some (map uchar b) else None.

(** [s.encode("utf8")], [None] for the UnicodeEncodeError of a surrogate. *)
Definition utf8_char (c : Z) : option (list byte) :=
  let tail n := chr (0x80 + Z.land (Z.shiftr c n) 0x3F) in
  if c <? 0x80 then Some [chr c]
  else if c <? 0x800 then Some [chr (0xC0 + Z.shiftr c 6); tail 0]
  else if (0xD800 <=? c) && (c <=? 0xDFFF) then None
  else if c <? 0x10000 then Some [chr (0xE0 + Z.shiftr c 12); tail 6; tail 0]
  else Some [chr (0xF0 + Z.shiftr c 18); tail 12; tail 6; tail 0].
Fixpoint encode_utf8 (cs : pystr) : option (list byte) :=
  match cs with
  | [] => Some []
  | c :: cs =>
      match utf8_char c, encode_utf8 cs with Some b, Some bs => Some (b ++ bs) | _, _ => None end
  end.

(** [b.decode("iso-8859-1")] *)
Definition decode_latin1 (b : list byte) : pystr := map uchar b.

(** ** Lists of characters or bytes *)

Section sequences.
Context {A : Type} `{EqDecision A}.

(** [s[lo:hi]], which never fails. *)
Definition py_slice (s : list A) (lo hi : Z) : list A :=
  take (Z.to_nat (hi - lo)) (drop (Z.to_nat lo) s).

(** [s.split(c)], on one character: the parts between its occurrences. *)
Fixpoint py_split (c : A) (s : list A) : list (list A) :=
  match s with
  | [] => [[]]
  | x :: s' =>
      if decide (x = c) then [] :: py_split c s'
      else match py_split c s' with p :: ps => (x :: p) :: ps | [] => [[x]] end
  end.

(** [s.split(c, 1)], on a character that is there. *)
Fixpoint py_cut (c : A) (s : list A) : option (list A * list A) :=
  match s with
  | [] => None
  | x :: s' =>
      if decide (x = c) then Some ([], s')
      else match py_cut c s' with Some (a, b) => Some (x :: a, b) | None => None end
  end.

(** [s.rsplit(c, 1)], on a character that is there. *)
Definition py_rcut (c : A) (s : list A) : option (list A * list A) :=
  match py_cut c (reverse s) with Some (a, b) => Some (reverse b, reverse a) | None => None end.

(** [s.split(sep, 1)], on a separator that is there. *)
Fixpoint py_cut_str (sep s : list A) : option (list A * list A) :=
  if decide (take (length sep) s = sep) then Some ([], drop (length sep) s)
  else
    match s with
    | [] => None
    | x :: s' => match py_cut_str sep s' with Some (a, b) => Some (x :: a, b) | None => None end
    end.

(** [c.join(parts)] *)
Fixpoint py_join (c : list A) (parts : list (list A)) : list A :=
  match parts with
  | [] => []
  | [p] => p
  | p :: ps => p ++ c ++ py_join c ps
  end.

(** [s.rstrip(cs)] and [s.strip(cs)] *)
Fixpoint py_lstrip (cs s : list A) : list A :=
  match s with
  | [] => []
  | x :: s' => if decide (x ∈ cs) then py_lstrip cs s' else s
  end.
Definition py_rstrip (cs s : list A) : list A := reverse (py_lstrip cs (reverse s)).
Definition py_strip (cs s : list A) : list A := py_rstrip cs (py_lstrip cs s).
End sequences.

(** [s.casefold()], on the characters of ISO-8859-1: the sharp s becomes two
    letters, the micro sign a Greek one. *)
Definition casefold_char (c : Z) : pystr :=
  if (65 <=? c) && (c <=? 90) then [c + 32]
  else if c =? 0xB5 then [0x3BC]
  else if (0xC0 <=? c) && (c <=? 0xDE) && negb (c =? 0xD7) then [c + 32]
  else if c =? 0xDF then [115; 115]
  else [c].
Definition casefold (s : pystr) : pystr := mjoin (map casefold_char s).

(** [s.isascii()], and [c.isalnum()] for an ASCII character. *)
Definition isascii (s : pystr) : bool := forallb (fun c => c <? 128) s.
Definition isalnum (c : Z) : bool :=
  ((48 <=? c) && (c <=? 57)) || ((65 <=? c) && (c <=? 90)) || ((97 <=? c) && (c <=? 122)).

(** [s.partition(sep)] and [s.split(sep)], on bytes; the searches are the ones of
    [GoLib]. *)
Definition py_partition (sep s : list byte) : list byte * list byte * list byte :=
  match cut sep s with Some (a, b) => (a, sep, b) | None => (s, [], []) end.
Definition bytes_split (sep s : list byte) : list (list byte) := split sep s.

(** [str(n)] *)
Definition py_str (n : Z) : pystr := map uchar (decimal n).

(** [int(s)]: white space around, a sign, digits with single underscores between, at
    most 4300 of them; [None] for a ValueError.  What the Unicode database says of
    the other characters, an ASCII digit, a space or a question mark, is a parameter. *)
Fixpoint int_digits (n : Z) (count : Z) (s : pystr) : option (Z * Z) :=
  match s with
  | [] => Some (n, count)
  | c :: s =>
      if (48 <=? c) && (c <=? 57) then int_digits (n * 10 + (c - 48)) (count + 1) s
      else if c =? 95 then
        match s with
        | d :: _ => if (48 <=? d) && (d <=? 57) then int_digits n count s else None
        | [] => None
        end
      else None
  end.
Definition int_unsigned (s : pystr) : option Z :=
  match s with
  | c :: _ =>
      if (48 <=? c) && (c <=? 57) then
        match int_digits 0 0 s with
        | Some (n, count) => if 4300 <? count then None else Some n
        | None => None
        end
      else None
  | [] => None
  end.
Definition py_int_str (unicode_ascii : Z -> Z) (s : pystr) : option Z :=
  match py_strip [9; 10; 11; 12; 13; 32] (map (fun c => if c <? 128 then c else unicode_ascii c) s) with
  | 43 :: s => int_unsigned s
  | 45 :: s => option_map Z.opp (int_unsigned s)
  | s => int_unsigned s
  end.

(** [response.readline(limit)] *)
Definition readline (limit : Z) (stream : list byte) : list byte :=
  match cut_at LF (take (Z.to_nat limit) stream) with
  | Some (line, _) => line ++ [LF]
  | None => take (Z.to_nat limit) stream
  end.

(** ** Facts *)

Section sequences_facts.
Context {A : Type} `{EqDecision A}.
Implicit Types s : list A.

Lemma py_slice_app (a b c : list A) lo hi :
  lo = zlen a -> hi = zlen a + zlen b -> py_slice (a ++ b ++ c) lo hi = b.
Proof.
  intros -> ->. unfold py_slice. rewrite drop_app_length' by lia. by rewrite take_app_length' by lia.
Qed.

Lemma py_split_none c s : c ∉ s -> py_split c s = [s].
Proof.
  induction s as [|x s IH]; [done|]. rewrite not_elem_of_cons. intros [Hx Hs]. cbn [py_split].
  rewrite decide_False by congruence. by rewrite IH.
Qed.

Lemma py_split_app c s t : c ∉ s -> py_split c (s ++ c :: t) = s :: py_split c t.
Proof.
  induction s as [|x s IH]; cbn [app py_split].
  - intros _. by rewrite decide_True.
  - rewrite not_elem_of_cons. intros [Hx Hs]. rewrite decide_False by congruence. by rewrite IH.
Qed.

Lemma py_split_ne c s : py_split c s <> [].
Proof. destruct s as [|x s]; cbn [py_split]; [done|]. case_decide; [done|]. by destruct (py_split c s). Qed.

(** Splitting and joining are inverse. *)
Lemma py_join_split c s : py_join [c] (py_split c s) = s.
Proof.
  induction s as [|x s IH]; [done|]. cbn [py_split]. pose proof (py_split_ne c s) as Hne.
  case_decide as Hx; destruct (py_split c s) as [|p ps]; try done.
  - rewrite <-IH, Hx. by destruct ps.
  - rewrite <-IH. by destruct ps.
Qed.

Lemma py_split_parts c s : Forall (fun p => c ∉ p) (py_split c s).
Proof.
  induction s as [|x s IH]; cbn [py_split].
  - constructor; [by apply not_elem_of_nil|done].
  - case_decide as Hx; [constructor; [by apply not_elem_of_nil|done]|].
    destruct (py_split c s) as [|p ps]; [|inversion IH; subst]; constructor; try done;
      rewrite not_elem_of_cons; (split; [congruence|]); by try apply not_elem_of_nil.
Qed.

Lemma py_split_join c (parts : list (list A)) :
  parts <> [] -> Forall (fun p => c ∉ p) parts -> py_split c (py_join [c] parts) = parts.
Proof.
  intros Hne Hp. induction Hp as [|p ps Hp Hps IH]; [done|]. destruct ps as [|q ps].
  - by apply py_split_none.
  - change (py_split c (p ++ c :: py_join [c] (q :: ps)) = p :: q :: ps).
    rewrite py_split_app by done. by rewrite IH.
Qed.

(** The three parts around two separators. *)
Lemma py_split_three c s a b d :
  py_split c s = [a; b; d] <-> s = a ++ c :: b ++ c :: d /\ c ∉ a /\ c ∉ b /\ c ∉ d.
Proof.
  split.
  - intros H. pose proof (py_join_split c s) as Hj. pose proof (py_split_parts c s) as Hp.
    rewrite H in Hj, Hp. rewrite !Forall_cons in Hp. split; [by rewrite <-Hj|]. tauto.
  - intros (-> & Ha & Hb & Hd). rewrite py_split_app, py_split_app by done. by rewrite py_split_none.
Qed.

Lemma py_cut_Some c s a b : py_cut c s = Some (a, b) <-> s = a ++ c :: b /\ c ∉ a.
Proof.
  revert a b. induction s as [|x s IH]; intros a b; cbn [py_cut].
  - split; [done|]. intros [E _]. by destruct a.
  - case_decide as Hx.
    + subst. split; [intros [= <- <-]; split; [done|apply not_elem_of_nil]|].
      intros [E Ha]. destruct a as [|y a]; simplify_eq/=; [done|].
      rewrite not_elem_of_cons in Ha. by destruct Ha.
    + split.
      * destruct (py_cut c s) as [[a' b']|]; [|done]. intros [= <- <-].
        destruct (proj1 (IH a' b') eq_refl) as [-> Ha]. split; [done|]. rewrite not_elem_of_cons. split; [congruence|done].
      * intros [E Ha]. destruct a as [|y a]; simplify_eq/=. 
        rewrite not_elem_of_cons in Ha. rewrite (proj2 (IH a b)); tauto.
Qed.

Lemma py_cut_None c s : py_cut c s = None <-> c ∉ s.
Proof.
  induction s as [|x s IH]; cbn [py_cut]; [split; [intros _; apply not_elem_of_nil|done]|].
  case_decide as Hx; [subst; split; [done|]; intros H; destruct H; by left|].
  rewrite not_elem_of_cons. destruct (py_cut c s) as [[a b]|]; naive_solver.
Qed.

Lemma py_lstrip_none cs s : (forall x, head s = Some x -> x ∉ cs) -> py_lstrip cs s = s.
Proof. destruct s as [|x s]; [done|]. intros H. cbn. by rewrite decide_False by auto. Qed.

Lemma py_rstrip_none cs s : (forall x, last s = Some x -> x ∉ cs) -> py_rstrip cs s = s.
Proof.
  intros H. unfold py_rstrip. rewrite py_lstrip_none; [apply reverse_involutive|].
  intros x Hx. apply H. by rewrite <-head_reverse.
Qed.

Lemma py_strip_none cs s : (forall x, x ∈ s -> x ∉ cs) -> py_strip cs s = s.
Proof.
  intros H. unfold py_strip. rewrite py_lstrip_none, py_rstrip_none; [done|..].
  - intros x Hx. apply H. by apply last_Some_elem_of.
  - intros x Hx. apply H. destruct s; [done|]. injection Hx as ->. by left.
Qed.

Lemma py_rcut_Some c s a b : py_rcut c s = Some (a, b) <-> s = a ++ c :: b /\ c ∉ b.
Proof.
  unfold py_rcut. split.
  - destruct (py_cut c (reverse s)) as [[x y]|] eqn:E; [|done]. intros [= <- <-].
    apply py_cut_Some in E as [E Hx]. rewrite elem_of_reverse. split; [|done].
    apply (inj reverse). rewrite E, reverse_app, reverse_cons, !reverse_involutive. by rewrite <-app_assoc.
  - intros [-> Hb]. assert (E : py_cut c (reverse (a ++ c :: b)) = Some (reverse b, reverse a)).
    { apply py_cut_Some. rewrite elem_of_reverse, reverse_app, reverse_cons, <-app_assoc. done. }
    rewrite E. by rewrite !reverse_involutive.
Qed.

Lemma py_rcut_None c s : py_rcut c s = None <-> c ∉ s.
Proof.
  unfold py_rcut. destruct (py_cut c (reverse s)) as [[x y]|] eqn:E.
  - apply py_cut_Some in E as [E _]. split; [done|]. intros H. destruct H.
    apply elem_of_reverse. rewrite E. set_solver.
  - apply py_cut_None in E. split; [|done]. intros _ H. apply E. by apply elem_of_reverse.
Qed.

(** A separator is found where its first character is. *)
Lemma py_cut_str_skip c (sep a b : list A) : c ∉ a -> py_cut_str (c :: sep) (a ++ c :: sep ++ b) = Some (a, b).
Proof.
  induction a as [|x a IH]; intros Ha.
  - cbn [app py_cut_str]. rewrite decide_True; [f_equal; f_equal; apply (drop_app_length (c :: sep))|].
    apply (take_app_length (c :: sep)).
  - rewrite not_elem_of_cons in Ha. destruct Ha as [Hx Ha]. cbn [app py_cut_str].
    rewrite decide_False by (cbn [length take]; congruence). by rewrite (IH Ha).
Qed.
End sequences_facts.

Lemma decode_ascii_Some b cs :
  decode_ascii b = Some cs <-> cs = map uchar b /\ Forall (fun c => uchar c < 128) b.
Proof.
  assert (E : forallb (fun c => uchar c <? 128) b = true <-> Forall (fun c => uchar c < 128) b).
  { rewrite forallb_forall, Forall_forall. setoid_rewrite Z.ltb_lt. by setoid_rewrite list_elem_of_In. }
  unfold decode_ascii. destruct (forallb _ b); naive_solver.
Qed.
