(* ===== verification/CacheClient.v ===== *)
(** * The cache client of http-server/cache_client.py

    The Python class [CacheClient] and its helpers, as functions that return a
    value or raise [CacheError]: validation of keys, values and TTLs, the commands
    it sends and the replies it accepts.  The connection is a parameter: what comes
    back on it when a command is sent, or [None] for an [OSError]. *)

From S2P Require Import Prelude CLib PyLib CacheSpec CacheStore CacheProto CacheServer CacheSession.
Local Open Scope Z_scope.
Local Open Scope py_scope.

(** The arguments a caller may pass; a string is its code points. *)
Inductive pyval :=
| PyStr (code_points : pystr)
| PyBytes (b : list byte)
| PyInt (z : Z)
| PyBool (b : bool)
| PyOther.

(** An [int], which a [bool] is too, with its [str]. *)
Definition as_int (v : pyval) : option (Z * list byte) :=
  match v with
  | PyInt z => Some (z, decimal z)
  | PyBool b => Some (if b then (1, lit "True") else (0, lit "False"))
  | _ => None
  end.

Definition endswith_lf (s : list byte) : bool := bool_decide (last s = Some LF).
Definition count_lf (s : list byte) : nat := length (filter (fun b => b = LF) s).

(** ** The module *)

Definition CLIENT_KEY_MAX : Z := 256.
Definition CLIENT_VALUE_MAX : Z := 4096.
Definition CLIENT_TTL_MAX : Z := 86400.
Definition MAX_REPLY_SIZE : Z := CLIENT_VALUE_MAX + zlen (lit "VALUE ") + 1.

Definition encode_key (key : pyval) : pyres (list byte) :=
  match key with
  | PyStr cs =>
      match encode_ascii cs with
      | None => Raise CacheError "cache keys must use ASCII"
      | Some encoded =>
          if negb ((0 <? zlen encoded) && (zlen encoded <=? CLIENT_KEY_MAX)) || existsb (fun b => uchar b <=? 32) encoded
          then Raise CacheError "invalid cache key"
          else Value encoded
      end
  | _ => Raise CacheError "cache keys must be strings"
  end.

Definition encode_value (value : pyval) : pyres (list byte) :=
  match value with
  | PyBytes b =>
      if negb ((0 <? zlen b) && (zlen b <=? CLIENT_VALUE_MAX)) then Raise CacheError "invalid cache value"
      else if bool_decide (CR ∈ b) || bool_decide (LF ∈ b) || bool_decide (NUL ∈ b) then Raise CacheError "invalid cache value"
      else Value b
  | _ => Raise CacheError "invalid cache value"
  end.

Section client.
(** What is received when a command is sent on a new connection. *)
Context (exchange : list byte -> option (list byte)).

Definition client_command (command : list byte) : pyres (list byte) :=
  match exchange command with
  | None => Raise CacheError "cache request failed"
  | Some stream =>
      let reply := readline (MAX_REPLY_SIZE + 1) stream in
      if (MAX_REPLY_SIZE <? zlen reply) || negb (endswith_lf reply) then Raise CacheError "malformed cache reply"
      else Value reply
  end.

(** [CacheClient.get]: None is the Python None. *)
Definition client_get (key : pyval) : pyres (option (list byte)) :=
  let! key := encode_key key in
  let! reply := client_command (lit "GET " ++ key ++ [LF]) in
  if bool_decide (reply = lit "NOT_FOUND\n") then Value None
  else
    match strip_prefix (lit "VALUE ") reply with
    | Some rest =>
        if Nat.eqb (count_lf reply) 1 then
          let! value := encode_value (PyBytes (removelast rest)) in
          Value (Some value)
        else Raise CacheError "unexpected cache GET reply"
    | None => Raise CacheError "unexpected cache GET reply"
    end.

Definition client_set (key value ttl : pyval) : pyres unit :=
  let! key := encode_key key in
  let! value := encode_value value in
  match as_int ttl with
  | Some (t, text) =>
      if negb ((0 <=? t) && (t <=? CLIENT_TTL_MAX)) then Raise CacheError "invalid cache TTL"
      else
        let! reply := client_command (lit "SET " ++ key ++ lit " " ++ text ++ lit " " ++ value ++ [LF]) in
        if bool_decide (reply = lit "OK\n") then Value tt else Raise CacheError "unexpected cache SET reply"
  | None => Raise CacheError "invalid cache TTL"
  end.
End client.

(** ** What the client sends is a request of the protocol *)

Lemma encode_key_ok key k :
  encode_key key = Value k -> key_ok k /\ Forall (fun b => 32 < uchar b) k.
Proof.
  destruct key as [cs| | | |]; try done. cbn [encode_key].
  destruct (encode_ascii cs) as [e|]; [|done]. destruct (_ || _) eqn:E; [done|]. intros [= <-].
  rewrite orb_false_iff, negb_false_iff, andb_true_iff, Z.ltb_lt, Z.leb_le in E. destruct E as [El Eb].
  assert (Hf : Forall (fun b => 32 < uchar b) e).
  { apply Forall_forall. intros b Hb. apply not_true_iff_false in Eb.
    destruct (Z.leb_spec (uchar b) 32); [|lia]. destruct Eb. apply existsb_exists.
    exists b. split; [by apply list_elem_of_In|]. by apply Z.leb_le. }
  split; [|done]. split; [exact El|]. eapply Forall_impl; [exact Hf|].
  intros b Hb. unfold isspace. simpl in Hb. lia.
Qed.

Lemma encode_value_ok v b :
  encode_value v = Value b -> v = PyBytes b /\ value_ok b /\ CR ∉ b /\ NUL ∉ b.
Proof.
  destruct v as [|w| | |]; try done. cbn [encode_value]. destruct (negb _) eqn:E; [done|].
  repeat case_bool_decide; try done. cbn [orb]. intros [= <-].
  rewrite negb_false_iff, andb_true_iff, Z.ltb_lt, Z.leb_le in E. unfold value_ok. tauto.
Qed.

Lemma encode_value_bytes b :
  value_ok b -> CR ∉ b -> NUL ∉ b -> encode_value (PyBytes b) = Value b.
Proof.
  intros [Hl Hlf] Hcr Hnul. cbn [encode_value].
  rewrite (proj2 (Z.ltb_lt _ _)), (proj2 (Z.leb_le _ _)) by (unfold CLIENT_VALUE_MAX, VALUE_MAX in *; lia).
  cbn [andb negb]. by rewrite !bool_decide_false.
Qed.

(** ** It understands the replies of the protocol *)

Definition reply_ok (r : reply) : Prop := match r with RValue v => value_ok v | _ => True end.

(** A reply is one line. *)
Definition reply_body (r : reply) : list byte :=
  match r with
  | RValue v => lit "VALUE " ++ v
  | RNotFound => lit "NOT_FOUND"
  | ROk => lit "OK"
  | RError => lit "ERROR"
  end.

Lemma render_body r : render r = reply_body r ++ [LF].
Proof. destruct r; cbn [render reply_body]; [by rewrite <-app_assoc|reflexivity..]. Qed.

Lemma not_in_lit c s : forallb (fun b => negb (bool_decide (b = c))) (lit s) = true -> c ∉ lit s.
Proof.
  intros H Hc. rewrite forallb_forall in H. apply list_elem_of_In, H in Hc. by rewrite bool_decide_true in Hc.
Qed.

Lemma reply_body_lf r : reply_ok r -> LF ∉ reply_body r /\ zlen (reply_body r) < MAX_REPLY_SIZE.
Proof.
  assert (HM : MAX_REPLY_SIZE = 4103) by reflexivity. rewrite HM.
  destruct r as [v| | |]; cbn [reply_ok reply_body]; intros H;
    try (split; [by apply not_in_lit|reflexivity]).
  destruct H as [Hl Hlf]. split.
  - rewrite elem_of_app. intros [H|H]; [|done]. revert H. by apply not_in_lit.
  - rewrite length_app. change (length (lit "VALUE ")) with 6%nat. unfold VALUE_MAX in *. lia.
Qed.

Lemma client_command_render exchange cmd r :
  reply_ok r -> exchange cmd = Some (render r) -> client_command exchange cmd = Value (render r).
Proof.
  intros Hr He. unfold client_command. rewrite He. destruct (reply_body_lf r Hr) as [Hlf Hlen].
  assert (Hline : readline (MAX_REPLY_SIZE + 1) (render r) = render r).
  { unfold readline. rewrite take_ge.
    - rewrite render_body. by rewrite (proj2 (cut_at_Some LF _ (reply_body r) [])).
    - rewrite render_body, length_app. cbn [length]. lia. }
  rewrite Hline. rewrite (proj2 (Z.ltb_ge _ _)).
  - unfold endswith_lf. rewrite render_body, last_snoc. by rewrite bool_decide_true.
  - rewrite render_body, length_app. cbn [length]. lia.
Qed.

Lemma strip_prefix_render v : strip_prefix (lit "VALUE ") (render (RValue v)) = Some (v ++ [LF]).
Proof. by apply strip_prefix_Some. Qed.

Lemma count_lf_render r : reply_ok r -> count_lf (render r) = 1%nat.
Proof.
  intros Hr. destruct (reply_body_lf r Hr) as [Hlf _]. unfold count_lf. rewrite render_body, filter_app.
  assert (E : filter (fun b => b = LF) (reply_body r) = []).
  { revert Hlf. induction (reply_body r) as [|b s IH]; intros Hlf; [done|].
    rewrite not_elem_of_cons in Hlf. destruct Hlf as [Hb Hs].
    rewrite filter_cons_False by congruence. by apply IH. }
  by rewrite E.
Qed.

(** What [get] makes of a reply of the server. *)
Definition get_reads (r : reply) : pyres (option (list byte)) :=
  match r with
  | RValue v => let! value := encode_value (PyBytes v) in Value (Some value)
  | RNotFound => Value None
  | _ => Raise CacheError "unexpected cache GET reply"
  end.

(** The line a request is sent as. *)
Lemma print_get_line k : lit "GET " ++ k ++ [LF] = print_command (Get k) ++ [LF].
Proof. cbn [print_command]. by rewrite <-app_assoc. Qed.

Lemma print_set_line k t v :
  lit "SET " ++ k ++ lit " " ++ decimal t ++ lit " " ++ v ++ [LF] = print_command (Set_ k t v) ++ [LF].
Proof. cbn [print_command]. rewrite <-!app_assoc. cbn [app]. rewrite <-!app_assoc. reflexivity. Qed.

Lemma client_get_render exchange key k r :
  encode_key key = Value k -> reply_ok r -> exchange (print_command (Get k) ++ [LF]) = Some (render r) ->
  client_get exchange key = get_reads r.
Proof.
  intros Hk Hr He. unfold client_get. rewrite Hk.
  rewrite print_get_line.
  rewrite (client_command_render _ _ r Hr He). destruct r as [v| | |].
  - rewrite bool_decide_false by (cbn [render]; intros H; discriminate H).
    rewrite strip_prefix_render, count_lf_render by done. cbn [Nat.eqb]. by rewrite removelast_last.
  - by rewrite bool_decide_true.
  - rewrite bool_decide_false by done. reflexivity.
  - rewrite bool_decide_false by done. reflexivity.
Qed.

Definition set_reads (r : reply) : pyres unit :=
  match r with ROk => Value tt | _ => Raise CacheError "unexpected cache SET reply" end.

Lemma client_set_render exchange key k v b ttl t r :
  encode_key key = Value k -> encode_value v = Value b -> as_int ttl = Some (t, decimal t) -> 0 <= t <= TTL_MAX ->
  reply_ok r -> exchange (print_command (Set_ k t b) ++ [LF]) = Some (render r) ->
  client_set exchange key v ttl = set_reads r.
Proof.
  intros Hk Hv Ht Hb Hr He. unfold client_set. rewrite Hk, Hv, Ht.
  rewrite (proj2 (Z.leb_le 0 t)), (proj2 (Z.leb_le t _)) by (unfold CLIENT_TTL_MAX, TTL_MAX in *; lia).
  cbn [andb negb].
  rewrite print_set_line.
  rewrite (client_command_render _ _ r Hr He). destruct r as [w| | |].
  - by rewrite bool_decide_false.
  - by rewrite bool_decide_false.
  - by rewrite bool_decide_true.
  - by rewrite bool_decide_false.
Qed.
