(* ===== verification/CacheEndToEnd.v ===== *)
(** * The cache client against the cache server

    [CacheClient.get] and [CacheClient.set] of cache_client.py, when what they
    receive is what [handle_client] of server.c sends for the bytes they send,
    however the connection cuts these. *)

From S2P Require Import Prelude CLib PyLib Effects.
From S2P Require Import CacheSpec CacheStore CacheProto CacheServer CacheRefine CacheSession CacheThread CacheExec CacheClient.
Local Open Scope Z_scope.

(** ** The lines a client prints *)

(** A byte that neither ends nor shortens a line. *)
Definition plain (b : byte) : Prop := b <> LF /\ b <> CR /\ b <> NUL.

Lemma plain_above b : 32 < uchar b -> plain b.
Proof. intros H. split_and!; intros ->; vm_compute in H; congruence. Qed.

Lemma plain_digit b : isdigit b = true -> plain b.
Proof. unfold isdigit. rewrite andb_true_iff, !Z.leb_le. intros []. apply plain_above. lia. Qed.

Lemma plain_lit s :
  forallb (fun b => negb (bool_decide (b = LF) || bool_decide (b = CR) || bool_decide (b = NUL))) (lit s) = true ->
  Forall plain (lit s).
Proof.
  rewrite forallb_forall. intros H. apply Forall_forall. intros b Hb. apply list_elem_of_In, H in Hb.
  rewrite negb_true_iff, !orb_false_iff, !bool_decide_eq_false in Hb. unfold plain. tauto.
Qed.

Lemma plain_not s : Forall plain s -> LF ∉ s /\ CR ∉ s /\ NUL ∉ s.
Proof.
  rewrite Forall_forall. intros H. split_and!; intros Hx; destruct (H _ Hx) as (H1 & H2 & H3); congruence.
Qed.

Lemma strip_cr_none s : CR ∉ s -> strip_cr s = s.
Proof.
  induction s as [|c s IH]; [done|]. rewrite not_elem_of_cons. intros [Hc Hs]. destruct s as [|d s].
  - cbn [strip_cr]. by rewrite decide_False by congruence.
  - change (c :: strip_cr (d :: s) = c :: d :: s). f_equal. by apply IH.
Qed.

Lemma print_get_plain k : Forall (fun b => 32 < uchar b) k -> Forall plain (print_command (Get k)).
Proof.
  intros Hk. cbn [print_command]. apply Forall_app. split; [by apply plain_lit|].
  eapply Forall_impl; [exact Hk|]. apply plain_above.
Qed.

Lemma print_set_plain k t v :
  Forall (fun b => 32 < uchar b) k -> 0 <= t -> Forall plain v -> Forall plain (print_command (Set_ k t v)).
Proof.
  intros Hk Ht Hv. cbn [print_command]. destruct (decimal_spec t Ht) as (Hd & _).
  assert (Hs : plain SPACE) by done.
  apply Forall_app. split; [by apply plain_lit|]. apply Forall_app. split.
  { eapply Forall_impl; [exact Hk|]. apply plain_above. }
  constructor; [done|]. apply Forall_app. split.
  - eapply Forall_impl; [exact Hd|]. apply plain_digit.
  - by constructor.
Qed.

Lemma line_command_print c : command_ok c -> Forall plain (print_command c) -> line_command (print_command c) = c.
Proof.
  intros Hok (_ & Hcr & Hnul)%plain_not. unfold line_command.
  rewrite decide_False by done. rewrite strip_cr_none by done. by apply parse_print.
Qed.

Lemma split_one_line l : LF ∉ l -> split_lines (l ++ [LF]) = ([l], []).
Proof.
  intros H. rewrite split_lines_cut. by rewrite (proj2 (cut_at_Some LF _ l [])).
Qed.

Lemma print_command_length c : command_ok c -> c <> Bad -> zlen (print_command c) < LINE_MAX.
Proof.
  unfold LINE_MAX. destruct c as [k|k|k t v|]; cbn [command_ok print_command]; intros Hok Hne; [| | |done].
  - destruct Hok as [Hk _]. rewrite length_app. change (length (lit "GET ")) with 4%nat. unfold KEY_MAX in *. lia.
  - destruct Hok as [Hk _]. rewrite length_app. change (length (lit "DELETE ")) with 7%nat. unfold KEY_MAX in *. lia.
  - destruct Hok as ([Hk _] & Ht & Hv). destruct (decimal_spec t) as (_ & _ & Hd & _); [lia|].
    specialize (Hd 5 ltac:(lia)). unfold KEY_MAX, VALUE_MAX, TTL_MAX, value_ok in *.
    rewrite !length_app. cbn [length]. rewrite length_app. cbn [length].
    change (length (lit "SET ")) with 4%nat. lia.
Qed.

(** ** What the contract replies *)

Lemma live_value_ok now st m k it :
  refines now st m -> live now m !! k = Some it -> value_ok (it_value it) /\ NUL ∉ it_value it.
Proof.
  intros [Hwf <-] [Hl _]%live_lookup_Some. apply elem_of_list_to_map_2, list_elem_of_omap in Hl as (e & He & Habs).
  apply list_elem_of_lookup in He as [i Hi].
  destruct (entry_wf_abs e) as (k' & it' & Habs' & _ & Hv & _ & _ & Hvo & _);
    [by eapply wf_entries|by eapply entry_abs_used|]. simplify_eq. split; [done|]. by eapply is_cstr_no_nul.
Qed.

Lemma spec_reply_ok now st m c : refines now st m -> reply_ok (spec_step m now c).1.
Proof.
  intros Hr. destruct c as [k|k|k t v|]; cbn [spec_step].
  - destruct (live now m !! k) as [it|] eqn:E; [|done]. by apply (live_value_ok now st m k).
  - by destruct (live now m !! k).
  - destruct (live now m !! k); [done|]. by case_match.
  - done.
Qed.

(** What a GET is replied, read by the client. *)
Lemma get_reads_spec now st m k :
  refines now st m ->
  get_reads (spec_step m now (Get k)).1 =
  match live now m !! k with
  | Some it => if decide (CR ∈ it_value it) then Raise CacheError "invalid cache value" else Value (Some (it_value it))
  | None => Value None
  end.
Proof.
  intros Hr. cbn [spec_step]. destruct (live now m !! k) as [it|] eqn:E; [|done].
  destruct (live_value_ok now st m k it Hr E) as [Hv Hnul]. cbn [fst get_reads].
  case_decide as Hcr; [|by rewrite encode_value_bytes].
  cbn [encode_value]. destruct (negb _); [done|]. by rewrite bool_decide_true.
Qed.

(** ** One exchange *)

(** What the client receives for what it sends. *)
Definition received (sent out : list byte) (cmd : list byte) : option (list byte) :=
  if decide (cmd = sent) then Some out else None.

Section exchange.
Context (clock : nat -> Z * Z).
Context (clock_good : forall n, clock_ok (clock n).1 (clock n).2).
Context (clock_monotone : forall n, time clock n <= time clock (S n)).

(** [handle_client] answers the one line it is sent, and returns. *)
Lemma exchange_answered fd w m c :
  ready clock w m -> Forall chunk_ok (w_rx w) -> command_ok c -> Forall plain (print_command c) ->
  mjoin (w_rx w) = print_command c ++ [LF] ->
  let '(r, m') := spec_step m (time clock (w_ticks w)) c in
  exists st rx,
    evals (cache_env clock) (handle_client fd) w tt (with_rx rx (replied w st (S (w_ticks w)) (render r))) /\
    ready clock (replied w st (S (w_ticks w)) (render r)) m'.
Proof.
  intros Hw Hc Hok Hp Hrx.
  pose proof (handle_client_evals clock clock_good clock_monotone fd w m Hc Hw) as H.
  assert (Hne : c <> Bad) by by intros ->.
  rewrite (serve_joined clock (w_rx w) m (w_ticks w) []) in H; [|done|].
  2: { cbn [app]. rewrite Hrx, length_app. pose proof (print_command_length c Hok Hne) as Hlen.
       clear -Hlen. cbn [length]. lia. }
  cbn [app] in H. rewrite Hrx, split_one_line in H by apply (plain_not _ Hp).
  cbn [fst answer_lines] in H. unfold answer in H. rewrite (line_command_print c Hok Hp) in H.
  destruct c as [k|k|k t v|]; [..|done]; destruct (spec_step m _ _) as [r m']; by rewrite app_nil_r in H.
Qed.

Lemma client_get_exchange fd w m key k :
  ready clock w m -> Forall chunk_ok (w_rx w) -> encode_key key = Value k ->
  mjoin (w_rx w) = lit "GET " ++ k ++ [LF] ->
  exists st rx out,
    evals (cache_env clock) (handle_client fd) w tt (with_rx rx (replied w st (S (w_ticks w)) out)) /\
    client_get (received (mjoin (w_rx w)) out) key =
      match live (time clock (w_ticks w)) m !! k with
      | Some it => if decide (CR ∈ it_value it) then Raise CacheError "invalid cache value" else Value (Some (it_value it))
      | None => Value None
      end.
Proof.
  intros Hw Hc Hk Hrx. destruct (encode_key_ok _ _ Hk) as [Hok Hp].
  rewrite print_get_line in Hrx.
  pose proof (exchange_answered fd w m (Get k) Hw Hc Hok (print_get_plain k Hp) Hrx) as H.
  pose proof Hw as (_ & _ & Hr).
  pose proof (get_reads_spec _ _ m k Hr) as Hg. pose proof (spec_reply_ok _ _ m (Get k) Hr) as Hro.
  destruct (spec_step m _ (Get k)) as [r m']. destruct H as (st & rx & He & _).
  exists st, rx, (render r). split; [exact He|]. cbn [fst] in Hg, Hro. rewrite <-Hg.
  apply (client_get_render _ _ k); [done|done|]. unfold received. by rewrite decide_True.
Qed.

(** Whether the contract accepts a SET. *)
Definition accepts (now : Z) (m : cache) (k : key) : bool :=
  bool_decide (is_Some (live now m !! k)) || (Z.of_nat (size (live now m)) <? STORE_CAP).

Lemma set_reads_spec now m k t v :
  set_reads (spec_step m now (Set_ k t v)).1 =
  if accepts now m k then Value tt else Raise CacheError "unexpected cache SET reply".
Proof.
  unfold accepts. cbn [spec_step]. destruct (live now m !! k) as [it|].
  - by rewrite bool_decide_true.
  - rewrite bool_decide_false by by intros []. cbn [orb]. by case_match.
Qed.

Lemma accepted_live now now' m k t v :
  accepts now m k = true ->
  live now' (spec_step m now (Set_ k t v)).2 !! k =
    if (t =? 0) || (now' <? now + t * 1000) then Some (Item v (expiry now t)) else None.
Proof.
  intros Ha. assert (Hm : (spec_step m now (Set_ k t v)).2 = <[k := Item v (expiry now t)]> m).
  { revert Ha. unfold accepts. cbn [spec_step]. destruct (live now m !! k); [done|].
    rewrite bool_decide_false by by intros []. cbn [orb]. by intros ->. }
  rewrite Hm.
  assert (Hl : item_live now' (Item v (expiry now t)) = (t =? 0) || (now' <? now + t * 1000)).
  { unfold item_live, expiry. cbn [it_expires]. by destruct (t =? 0). }
  destruct (_ || _).
  - apply live_lookup_Some. by rewrite lookup_insert_eq.
  - apply live_lookup_None. intros it Hit. rewrite lookup_insert_eq in Hit. by injection Hit as <-.
Qed.

Lemma client_set_exchange fd w m key k value v t :
  ready clock w m -> Forall chunk_ok (w_rx w) -> encode_key key = Value k -> encode_value value = Value v ->
  0 <= t <= TTL_MAX -> mjoin (w_rx w) = print_command (Set_ k t v) ++ [LF] ->
  let m' := (spec_step m (time clock (w_ticks w)) (Set_ k t v)).2 in
  exists st rx out,
    evals (cache_env clock) (handle_client fd) w tt (with_rx rx (replied w st (S (w_ticks w)) out)) /\
    ready clock (replied w st (S (w_ticks w)) out) m' /\
    client_set (received (mjoin (w_rx w)) out) key value (PyInt t) =
      if accepts (time clock (w_ticks w)) m k then Value tt else Raise CacheError "unexpected cache SET reply".
Proof.
  intros Hw Hc Hk Hv Ht Hrx. destruct (encode_key_ok _ _ Hk) as [Hok Hp].
  destruct (encode_value_ok _ _ Hv) as (_ & [Hvl Hlf] & Hcr & Hnul).
  assert (Hpv : Forall plain v). { apply Forall_forall. intros b Hb. split_and!; by intros ->. }
  assert (Hcok : command_ok (Set_ k t v)) by done.
  pose proof (exchange_answered fd w m _ Hw Hc Hcok (print_set_plain k t v Hp (proj1 Ht) Hpv) Hrx) as H.
  pose proof Hw as (_ & _ & Hr).
  pose proof (set_reads_spec (time clock (w_ticks w)) m k t v) as Hg.
  pose proof (spec_reply_ok _ _ m (Set_ k t v) Hr) as Hro.
  destruct (spec_step m _ (Set_ k t v)) as [r m']. destruct H as (st & rx & He & Hw').
  exists st, rx, (render r). split; [exact He|]. split; [exact Hw'|]. cbn [fst] in Hg, Hro. rewrite <-Hg.
  apply (client_set_render _ _ k _ v _ t); [done|done|done|done|done|]. unfold received. by rewrite decide_True.
Qed.

End exchange.
