(* ===== verification/CacheTheorems.v ===== *)
(** * What holds of the in-memory cache

    The properties of in-mem-cache/server.c, each with a run or an input where its
    hypotheses hold. *)

From stdpp Require Import sorting.
From S2P Require Import Prelude CLib PyLib Effects.
From S2P Require Import CacheSpec CacheStore CacheProto CacheServer CacheRefine CacheLine CacheSession.
From S2P Require Import CacheThread CacheArgs CacheMain CacheConcurrent CacheServerProof CacheLinear CacheExec CacheDrive CachePace CacheProgress CacheClient CacheEndToEnd.
Local Open Scope Z_scope.
Local Open Scope prog_scope.

(** ** A session to look at *)

(** Two clients; the second reads what the first stored, whose second request
    comes in two parts. *)
Definition demo : config := config_init 5000 (literal "server") [].
Definition demo_moves : list move :=
  [Start 0; Deliver 0 []; Start 1; Deliver 1 (lit "SET a 0 hello\nGE"); Deliver 0 []; Start 2;
   Deliver 2 (lit "GET a\n"); Deliver 1 (lit "T a\n"); Deliver 1 []].
Definition demo_labels : list label :=
  [LOpen 1; LRecv 1 (lit "SET a 0 hello\nGE"); LSend 1 (lit "OK\n"); LOpen 2;
   LRecv 2 (lit "GET a\n"); LSend 2 (lit "VALUE hello\n");
   LRecv 1 (lit "T a\n"); LSend 1 (lit "VALUE hello\n"); LClose 1].

Lemma demo_started : started demo 5000.
Proof.
  split; [lia|]. exists (literal "server"), (lit "server"), [], []. split; [|by split].
  by apply (cstring_is_cstr (literal "server") (lit "server")).
Qed.

Lemma demo_run : exists c, csteps demo demo_labels c.
Proof. apply (drive_run 3000 demo_moves). vm_compute. reflexivity. Qed.

(** A client of the deterministic environment. *)
Definition demo_clock (n : nat) : Z * Z := (Z.of_nat (Nat.min n 1000), 0).
Definition demo_world : world :=
  World store_zero 1 [] 0 [lit "SET k 2 v\r\nGET"; lit " k\nnonsense\n"] [] [] [].

Lemma demo_clock_good n : clock_ok (demo_clock n).1 (demo_clock n).2.
Proof.
  unfold demo_clock, clock_ok, ms, NOW_MAX, LLONG_MAX, LONG_MAX, TTL_MAX. cbn [fst snd].
  change (0 / 1000000) with 0. lia.
Qed.
Lemma demo_clock_monotone n : time demo_clock n <= time demo_clock (S n).
Proof. unfold time, demo_clock, ms. cbn [fst snd]. lia. Qed.
Lemma demo_ready : ready demo_clock demo_world ∅.
Proof. split; [done|]. split; [done|]. apply refines_zero. Qed.
Lemma demo_chunks : Forall chunk_ok (w_rx demo_world).
Proof. repeat constructor; try done; vm_compute; congruence. Qed.

(** ** The server *)

(** C1: the server is linearizable.  For every run of the whole program, with any
    number of clients, any scheduling of its threads and any behaviour of the
    sockets, there is one sequential history of the contract, with nondecreasing
    times, that at every moment of the run explains every byte every client was
    sent; a command takes effect between the arrival of its line and the first
    byte of its reply.  At most [STORE_CAP] keys are ever live; when no thread is in a critical section the store stands
    for the map of that history. *)
Theorem server_linearizable c now ls c' :
  started c now -> csteps c ls c' ->
  exists h m, legal h m /\ linearizes h ls /\
    (forall t, Forall (fun o => op_time o <= t) h -> Z.of_nat (size (live t m)) <= STORE_CAP) /\
    (g_store_owner (c_shared c') = None -> refines (g_clock (c_shared c')) (g_store (c_shared c')) m).
Proof.
  intros Hs Hc. destruct (server_simulation _ _ _ _ Hs Hc) as (a & Ha & Hr).
  destruct (asteps_linearizable _ _ _ Hr) as (h & Hl & Hx).
  exists h, (a_map a). split; [done|]. split; [done|]. split; [intros t; by apply legal_cap|].
  by apply (related_bounds c' a).
Qed.

Lemma server_linearizable_witness :
  exists c', csteps demo demo_labels c' /\ exists h m, legal h m /\ linearizes h demo_labels /\
    (forall t, Forall (fun o => op_time o <= t) h -> Z.of_nat (size (live t m)) <= STORE_CAP) /\
    (g_store_owner (c_shared c') = None -> refines (g_clock (c_shared c')) (g_store (c_shared c')) m).
Proof.
  destruct demo_run as [c' Hc]. exists c'. split; [exact Hc|].
  exact (server_linearizable demo 5000 demo_labels c' demo_started Hc).
Defined.

(** C2: every run of the server is a run of the abstract server of
    [CacheSession], with the same bytes received and sent. *)
Theorem server_refines c now ls c' :
  started c now -> csteps c ls c' ->
  exists a, asteps (astate_init now) ls a /\
    (g_store_owner (c_shared c') = None -> refines (g_clock (c_shared c')) (g_store (c_shared c')) (a_map a)).
Proof.
  intros Hs Hc. destruct (server_simulation _ _ _ _ Hs Hc) as (a & Ha & Hr).
  exists a. split; [done|]. by apply (related_bounds c' a).
Qed.

Lemma server_refines_witness :
  exists c', csteps demo demo_labels c' /\ exists a, asteps (astate_init 5000) demo_labels a /\
    (g_store_owner (c_shared c') = None -> refines (g_clock (c_shared c')) (g_store (c_shared c')) (a_map a)).
Proof.
  destruct demo_run as [c' Hc]. exists c'. split; [exact Hc|].
  exact (server_refines demo 5000 demo_labels c' demo_started Hc).
Defined.

(** C3: no thread ever makes a call that is out of order: the store and the client
    count are touched only by the holder of their mutex, no statement on them is
    undefined, no mutex is taken by its holder or released by another thread, no
    thread waits for a socket with a mutex, every descriptor used is open and
    every cell freed is allocated. *)
Theorem server_safe c now ls c' t p A (e : cacheE A) k :
  started c now -> csteps c ls c' -> c_threads c' !! t = Some p -> observe p = VisF e k ->
  call_safe t (c_shared c') A e.
Proof.
  intros Hs Hc Hp Ho. destruct (server_simulation _ _ _ _ Hs Hc) as (a & Ha & _).
  by eapply related_safe.
Qed.

Lemma server_safe_witness :
  exists p A (e : cacheE A) k, c_threads demo !! main_tid = Some p /\ observe p = VisF e k /\
    call_safe main_tid (c_shared demo) A e.
Proof.
  assert (H : c_threads demo !! main_tid = Some (main (literal "server") [] ;! Ret tt)) by reflexivity.
  assert (Hv : match observe (main (literal "server") [] ;! Ret tt) with VisF _ _ => true | _ => false end = true)
    by (vm_compute; reflexivity).
  destruct (observe (main (literal "server") [] ;! Ret tt)) as [r|p|A e k] eqn:Ho; [discriminate..|].
  exists (main (literal "server") [] ;! Ret tt), A, e, k. split; [exact H|]. split; [exact Ho|].
  exact (server_safe demo 5000 [] demo main_tid _ A e k demo_started (ltrace_nil _ _) H Ho).
Defined.

(** At most 32 clients are connected at any time. *)
Theorem client_limit c now ls c' :
  started c now -> csteps c ls c' -> connected ls <= CLIENT_LIMIT.
Proof.
  intros Hs Hc. destruct (server_simulation _ _ _ _ Hs Hc) as (a & _ & Hr).
  by apply (asteps_connected now ls a).
Qed.

Lemma client_limit_witness : exists c', csteps demo demo_labels c' /\ connected demo_labels <= CLIENT_LIMIT.
Proof.
  destruct demo_run as [c' Hc]. exists c'. split; [exact Hc|].
  exact (client_limit demo 5000 demo_labels c' demo_started Hc).
Defined.

(** C4: resources are bounded and accounted for: at most 34 sockets are open (the
    listener, a connection being accepted and 32 clients); outside its critical
    sections the counter of clients is between 0 and 32, so it never wraps, and
    outside the critical sections of the commands the store is well-formed: its
    arrays have their sizes, every used slot holds a proper key and value, and no
    key is held twice. *)
Theorem server_bounds c now ls c' :
  started c now -> csteps c ls c' ->
  Z.of_nat (size (g_fds (c_shared c'))) <= CLIENT_LIMIT + 2 /\
  (g_count_owner (c_shared c') = None -> 0 <= g_count (c_shared c') <= CLIENT_LIMIT) /\
  (g_store_owner (c_shared c') = None -> store_wf (g_store (c_shared c'))).
Proof.
  intros Hs Hc. destruct (server_simulation _ _ _ _ Hs Hc) as (a & Ha & _).
  destruct (related_bounds _ _ Ha) as (H1 & H2 & H3). split_and!; [done|done|].
  intros Ho. by apply H3.
Qed.

Lemma server_bounds_witness :
  exists c', csteps demo demo_labels c' /\ Z.of_nat (size (g_fds (c_shared c'))) <= CLIENT_LIMIT + 2.
Proof.
  destruct demo_run as [c' Hc]. exists c'. split; [exact Hc|].
  exact (proj1 (server_bounds demo 5000 demo_labels c' demo_started Hc)).
Defined.

(** ** One client *)

(** C5: a client thread terminates, for every input and without any fuel: in the
    environment of one client it answers what it was sent as the reference [serve]
    says, closes the connection and gives its slot back, and leaves the store in
    the state of the contract. *)
Theorem client_served clock argument fd w m :
  (forall n, clock_ok (clock n).1 (clock n).2) -> (forall n, time clock n <= time clock (S n)) ->
  Forall chunk_ok (w_rx w) -> ready clock w m -> 1 <= w_count w <= CLIENT_LIMIT ->
  let '(out, m', n') := serve clock m (w_ticks w) [] (w_rx w) in
  exists st rx, evals (cache_env clock) (client_thread argument fd) w tt
    (World st (w_count w - 1) [] n' rx [] (w_out w ++ out) (fd :: w_closed w)) /\
    refines (time clock n') st m'.
Proof. intros Hg Hm Hc Hw Hn. by apply client_thread_evals. Qed.

Lemma client_served_witness :
  let '(out, m', n') := serve demo_clock ∅ 0 [] (w_rx demo_world) in
  out = lit "OK\nVALUE v\nERROR\n" /\
  exists st rx, evals (cache_env demo_clock) (client_thread 7 4) demo_world tt
    (World st 0 [] n' rx [] ([] ++ out) [4]) /\ refines (time demo_clock n') st m'.
Proof.
  pose proof (client_served demo_clock 7 4 demo_world ∅ demo_clock_good demo_clock_monotone demo_chunks
    demo_ready ltac:(unfold CLIENT_LIMIT; simpl; lia)) as H.
  assert (E : (serve demo_clock ∅ 0 [] (w_rx demo_world)).1.1 = lit "OK\nVALUE v\nERROR\n")
    by (vm_compute; reflexivity).
  change (w_ticks demo_world) with 0%nat in H.
  destruct (serve demo_clock ∅ 0 [] (w_rx demo_world)) as [[out m'] n']. split; [exact E|exact H].
Defined.

(** C14: how TCP cuts the input into chunks does not matter, as long as it does not
    exceed [LINE_MAX] in all: [handle_client] terminates and answers the lines of the
    whole input, in their order, the incomplete last one being dropped. *)
Theorem chunking_irrelevant clock fd w m :
  (forall n, clock_ok (clock n).1 (clock n).2) -> (forall n, time clock n <= time clock (S n)) ->
  Forall chunk_ok (w_rx w) -> ready clock w m -> zlen (mjoin (w_rx w)) <= LINE_MAX ->
  let '(out, m', n') := answer_lines clock m (w_ticks w) (split_lines (mjoin (w_rx w))).1 in
  exists st rx, evals (cache_env clock) (handle_client fd) w tt (with_rx rx (replied w st n' out)) /\
    ready clock (replied w st n' out) m'.
Proof.
  intros Hg Hm Hc Hw Hl. pose proof (handle_client_evals clock Hg Hm fd w m Hc Hw) as H.
  by rewrite (serve_joined clock (w_rx w) m (w_ticks w) []) in H.
Qed.

Lemma chunking_irrelevant_witness :
  exists st n rx, evals (cache_env demo_clock) (handle_client 4) demo_world tt
    (with_rx rx (replied demo_world st n (lit "OK\nVALUE v\nERROR\n"))).
Proof.
  pose proof (chunking_irrelevant demo_clock 4 demo_world ∅ demo_clock_good demo_clock_monotone demo_chunks
    demo_ready ltac:(vm_compute; congruence)) as H.
  assert (E : (answer_lines demo_clock ∅ 0 (split_lines (mjoin (w_rx demo_world))).1).1.1 = lit "OK\nVALUE v\nERROR\n")
    by (vm_compute; reflexivity).
  change (w_ticks demo_world) with 0%nat in H.
  destruct (answer_lines demo_clock ∅ 0 _) as [[out m'] n']. cbn [fst] in E. rewrite E in H.
  destruct H as (st & rx & H & _). exists st, n', rx. exact H.
Defined.

(** [send_all] terminates whatever the connection accepts of the data, in any
    pieces and with any interruptions: what is sent is a prefix of the data, all of
    it when 0 is returned, and the other result is -1. *)
Theorem send_all_delivers clock fd d r w :
  exists res out tx, evals (cache_env clock) (send_all fd (init d ++ r) (zlen d)) w res
      (World (w_store w) (w_count w) (w_held w) (w_ticks w) (w_rx w) tx (w_out w ++ out) (w_closed w)) /\
    out `prefix_of` d /\ (res = 0 -> out = d) /\ (res = 0 \/ res = -1).
Proof.
  destruct (deliver (w_tx w) d) as [[res out] tx] eqn:E. exists res, out, tx.
  split; [exact (send_all_evals clock fd d r w res out tx E)|]. by apply (deliver_prefix _ _ _ _ _ E).
Qed.

(** ** The store *)

(** [lookup] returns the slot of a live key, and -1 otherwise; it never leaves
    the store ill-formed nor undefined, and what it drops was expired. *)
Theorem lookup_finds st p k now :
  store_wf st -> is_cstr p k ->
  exists idx st', lookup p now st = Some (idx, st') /\ store_wf st' /\
    live now (store_abs st') = live now (store_abs st) /\
    match live now (store_abs st) !! k with
    | Some it => st' = st /\ 0 <= idx /\ exists e, st !! Z.to_nat idx = Some e /\ entry_abs e = Some (k, it)
    | None => idx = -1 /\ store_abs st' !! k = None
    end.
Proof. apply lookup_spec. Qed.

Lemma lookup_finds_witness :
  exists idx st', lookup (literal "a") 0 store_zero = Some (idx, st') /\ store_wf st' /\
    live 0 (store_abs st') = live 0 (store_abs store_zero) /\
    match live 0 (store_abs store_zero) !! lit "a" with
    | Some it => st' = store_zero /\ 0 <= idx /\
        exists e, store_zero !! Z.to_nat idx = Some e /\ entry_abs e = Some (lit "a", it)
    | None => idx = -1 /\ store_abs st' !! lit "a" = None
    end.
Proof.
  apply (lookup_finds store_zero (literal "a") (lit "a") 0 store_zero_wf).
  by apply (cstring_is_cstr (literal "a") (lit "a")).
Defined.

(** [free_slot] returns an unused slot exactly when fewer than [STORE_CAP]
    keys are live, without losing a live key. *)
Theorem free_slot_finds st now :
  store_wf st ->
  exists idx st', free_slot now st = Some (idx, st') /\ store_wf st' /\
    live now (store_abs st') = live now (store_abs st) /\
    if Z.of_nat (size (live now (store_abs st))) <? STORE_CAP
    then 0 <= idx /\ exists e, st' !! Z.to_nat idx = Some e /\ entry_abs e = None
    else idx = -1.
Proof.
  intros Hwf. destruct (free_slot_spec st now Hwf) as (idx & st' & H1 & H2 & H3 & _ & H4).
  exists idx, st'. by split_and!.
Qed.

Lemma free_slot_finds_witness :
  exists idx st', free_slot 0 store_zero = Some (idx, st') /\ store_wf st' /\
    live 0 (store_abs st') = live 0 (store_abs store_zero) /\
    if Z.of_nat (size (live 0 (store_abs store_zero))) <? STORE_CAP
    then 0 <= idx /\ exists e, st' !! Z.to_nat idx = Some e /\ entry_abs e = None
    else idx = -1.
Proof. apply (free_slot_finds store_zero 0 store_zero_wf). Defined.

(** GET is one atomic step of the contract: [get_locked] takes the mutex, reads
    the clock and the store, copies the value out, releases the mutex and sends the
    reply of the contract, whole. *)
Theorem get_implements clock fd kp k w m :
  (forall n, clock_ok (clock n).1 (clock n).2) -> ready clock w m -> is_cstr kp k ->
  let '(r, m') := spec_step m (time clock (w_ticks w)) (Get k) in
  exists st, evals (cache_env clock) (get_locked fd kp) w 0 (replied w st (S (w_ticks w)) (render r)) /\
    refines (time clock (w_ticks w)) st m'.
Proof. intros Hg Hw Hk. exact (get_evals clock Hg fd kp k Hk w m Hw). Qed.

Lemma get_implements_witness :
  exists st, evals (cache_env demo_clock) (get_locked 4 (literal "a")) demo_world 0
    (replied demo_world st 1 (render RNotFound)) /\ refines (time demo_clock 0) st (spec_step ∅ (time demo_clock 0) (Get (lit "a"))).2.
Proof.
  pose proof (get_implements demo_clock 4 (literal "a") (lit "a") demo_world ∅ demo_clock_good demo_ready
    (cstring_is_cstr (literal "a") (lit "a") eq_refl)) as H.
  assert (E : (spec_step ∅ (time demo_clock 0) (Get (lit "a"))).1 = RNotFound) by (vm_compute; reflexivity).
  change (w_ticks demo_world) with 0%nat in H.
  rewrite (surjective_pairing (spec_step _ _ _)), E in H. exact H.
Defined.

(** DELETE is one atomic step of the contract. *)
Theorem delete_implements clock fd kp k w m :
  (forall n, clock_ok (clock n).1 (clock n).2) -> ready clock w m -> is_cstr kp k ->
  let '(r, m') := spec_step m (time clock (w_ticks w)) (Delete k) in
  exists st, evals (cache_env clock) (delete_locked fd kp) w 0 (replied w st (S (w_ticks w)) (render r)) /\
    refines (time clock (w_ticks w)) st m'.
Proof. intros Hg Hw Hk. exact (delete_evals clock Hg fd kp k Hk w m Hw). Qed.

Lemma delete_implements_witness :
  exists st, evals (cache_env demo_clock) (delete_locked 4 (literal "a")) demo_world 0
    (replied demo_world st 1 (render RNotFound)) /\ refines (time demo_clock 0) st (spec_step ∅ (time demo_clock 0) (Delete (lit "a"))).2.
Proof.
  pose proof (delete_implements demo_clock 4 (literal "a") (lit "a") demo_world ∅ demo_clock_good demo_ready
    (cstring_is_cstr (literal "a") (lit "a") eq_refl)) as H.
  assert (E : (spec_step ∅ (time demo_clock 0) (Delete (lit "a"))).1 = RNotFound) by (vm_compute; reflexivity).
  change (w_ticks demo_world) with 0%nat in H.
  rewrite (surjective_pairing (spec_step _ _ _)), E in H. exact H.
Defined.

(** C20: SET is one atomic step of the contract: the slot of the key, or a free one,
    is filled with the key, the value and the expiry, without overflow; it is refused
    exactly when [STORE_CAP] other keys are live. *)
Theorem set_implements clock fd kp k ttl vp v w m :
  (forall n, clock_ok (clock n).1 (clock n).2) -> ready clock w m ->
  is_cstr kp k -> is_cstr vp v -> key_ok k -> value_ok v -> 0 <= ttl <= TTL_MAX ->
  let '(r, m') := spec_step m (time clock (w_ticks w)) (Set_ k ttl v) in
  exists st, evals (cache_env clock) (set_locked fd kp (zlen k) ttl vp (zlen v)) w 0
      (replied w st (S (w_ticks w)) (render r)) /\
    refines (time clock (w_ticks w)) st m'.
Proof. intros Hg Hw Hk Hv Hko Hvo Ht. exact (set_evals clock Hg fd kp k ttl vp v Hk Hv Hko Hvo Ht w m Hw). Qed.

Lemma set_implements_witness :
  exists st, evals (cache_env demo_clock) (set_locked 4 (literal "a") (zlen (lit "a")) 5 (literal "b c") (zlen (lit "b c")))
      demo_world 0 (replied demo_world st 1 (render ROk)) /\
    refines (time demo_clock 0) st (spec_step ∅ (time demo_clock 0) (Set_ (lit "a") 5 (lit "b c"))).2.
Proof.
  pose proof (set_implements demo_clock 4 (literal "a") (lit "a") 5 (literal "b c") (lit "b c") demo_world ∅
    demo_clock_good demo_ready (cstring_is_cstr (literal "a") (lit "a") eq_refl)
    (cstring_is_cstr (literal "b c") (lit "b c") eq_refl)) as H.
  assert (E : (spec_step ∅ (time demo_clock 0) (Set_ (lit "a") 5 (lit "b c"))).1 = ROk) by (vm_compute; reflexivity).
  change (w_ticks demo_world) with 0%nat in H.
  rewrite (surjective_pairing (spec_step _ _ _)), E in H. apply H.
  - apply key_okb_spec. reflexivity.
  - split; [vm_compute; split; congruence|]. apply (bool_decide_eq_true_1 (LF ∉ lit "b c")). reflexivity.
  - unfold TTL_MAX. lia.
Defined.

(** ** The protocol *)

(** C21: [handle_line] decides exactly the grammar [request]: on a request line it
    runs the critical section of the command with the key, TTL and value of the line,
    whatever follows the line's NUL in memory; any other line is answered ERROR
    without touching the store. *)
Theorem handle_line_decides fd p s :
  is_cstr p s ->
  (forall k, request s (Get k) -> exists kp, is_cstr kp k /\ handle_line fd p = get_locked fd kp) /\
  (forall k, request s (Delete k) -> exists kp, is_cstr kp k /\ handle_line fd p = delete_locked fd kp) /\
  (forall k ttl v, request s (Set_ k ttl v) -> exists kp vp, is_cstr kp k /\ is_cstr vp v /\
     handle_line fd p = set_locked fd kp (zlen k) ttl vp (zlen v)) /\
  ((forall c, ~ request s c) -> handle_line fd p = send_reply fd "ERROR\n" []).
Proof.
  intros Hp. pose proof (handle_line_spec fd p s Hp) as H. split_and!.
  - intros k Hk. apply parse_line_spec in Hk; [|done]. by rewrite Hk in H.
  - intros k Hk. apply parse_line_spec in Hk; [|done]. by rewrite Hk in H.
  - intros k ttl v Hk. apply parse_line_spec in Hk; [|done]. by rewrite Hk in H.
  - intros Hn. destruct (parse_line s) as [k|k|k ttl v|] eqn:E; [..|done];
      by apply parse_line_spec, Hn in E.
Qed.

Lemma handle_line_decides_witness :
  exists kp vp, is_cstr kp (lit "k") /\ is_cstr vp (lit "a b") /\
    handle_line 4 (literal "SET k 007 a b") = set_locked 4 kp (zlen (lit "k")) 7 vp (zlen (lit "a b")).
Proof.
  pose proof (handle_line_decides 4 (literal "SET k 007 a b") (lit "SET k 007 a b")
    (cstring_is_cstr (literal "SET k 007 a b") (lit "SET k 007 a b") eq_refl)) as (_ & _ & H & _).
  apply H, parse_line_spec; [discriminate|]. vm_compute. reflexivity.
Defined.

(** A command printed as clients do is recovered and answered: [handle_line] on
    the printed line sends exactly the rendered reply of the contract to that
    command, and the store follows the contract. *)
Theorem printed_command_answered clock fd p c w m :
  (forall n, clock_ok (clock n).1 (clock n).2) -> ready clock w m ->
  command_ok c -> LF ∉ print_command c -> is_cstr p (print_command c) ->
  let '(r, m') := spec_step m (time clock (w_ticks w)) c in
  exists st, evals (cache_env clock) (handle_line fd p) w 0 (replied w st (S (w_ticks w)) (render r)) /\
    refines (time clock (w_ticks w)) st m'.
Proof. intros Hg Hw Hok Hlf Hp. exact (command_evals clock Hg fd p c Hok Hlf Hp w m Hw). Qed.

Definition hello : command := Set_ (lit "http:/hello") 60 (lit "Hello, world!").

Lemma printed_command_answered_witness :
  exists st, evals (cache_env demo_clock) (handle_line 4 (literal "SET http:/hello 60 Hello, world!")) demo_world 0
    (replied demo_world st 1 (render ROk)) /\
    refines (time demo_clock 0) st (spec_step ∅ (time demo_clock 0) hello).2.
Proof.
  pose proof (printed_command_answered demo_clock 4 (literal "SET http:/hello 60 Hello, world!") hello demo_world ∅
    demo_clock_good demo_ready) as H.
  assert (E : (spec_step ∅ (time demo_clock 0) hello).1 = ROk) by (vm_compute; reflexivity).
  change (w_ticks demo_world) with 0%nat in H.
  rewrite (surjective_pairing (spec_step _ _ _)), E in H. apply H.
  - split; [apply key_okb_spec; reflexivity|]. split; [unfold TTL_MAX; lia|]. vm_compute. split; congruence.
  - apply (bool_decide_eq_true_1 (LF ∉ print_command hello)). vm_compute. reflexivity.
  - apply cstring_is_cstr. vm_compute. reflexivity.
Defined.

(** [parse_ttl] accepts one to five digits of a number up to [TTL_MAX] and
    nothing else, reads them as a decimal number, and stays inside its buffer. *)
Theorem parse_ttl_exact ds r :
  parse_ttl (init ds ++ r) (zlen ds) = Some (ttl_of ds) /\
  (forall ttl, ttl_of ds = Some ttl <-> ttl_text ds ttl) /\
  (forall ttl, ttl_of ds = Some ttl -> 0 <= ttl <= TTL_MAX).
Proof.
  assert (Hiff : forall ttl, ttl_of ds = Some ttl <-> ttl_text ds ttl).
  { intros ttl. unfold ttl_of, ttl_text.
    destruct ((0 <? zlen ds) && (zlen ds <=? 5) && forallb isdigit ds && (digits_value ds <=? TTL_MAX)) eqn:E.
    - rewrite !andb_true_iff, Z.ltb_lt, !Z.leb_le, forallb_forall in E. destruct E as [[[E1 E2] E3] E4].
      split; [|by intros (_ & _ & <- & _)]. intros [= <-]. split_and!; [lia|lia| |done|done].
      apply Forall_forall. intros c Hc. by apply E3, list_elem_of_In.
    - split; [done|]. intros ((H1 & H2) & H3 & <- & H4). rewrite (proj2 (Z.ltb_lt _ _)) in E by done.
      rewrite !(proj2 (Z.leb_le _ _)) in E by done. rewrite !andb_true_r, andb_true_l in E.
      apply not_true_iff_false in E. destruct E. apply forallb_forall. intros c Hc.
      by apply (proj1 (Forall_forall _ _) H3), list_elem_of_In. }
  split; [apply parse_ttl_init|]. split; [done|]. intros ttl Httl. apply Hiff in Httl as (_ & H2 & <- & H4).
  split; [|done]. apply digits_value_from_nonneg; [done|]. apply forallb_forall. intros c Hc.
  by apply (proj1 (Forall_forall _ _) H2), list_elem_of_In.
Qed.

(** [valid_key] accepts the keys of 1 to [KEY_MAX] bytes without white space,
    and looks at no byte after the key. *)
Theorem valid_key_exact k r :
  exists b, valid_key (init k ++ r) (zlen k) = Some b /\ (b = true <-> key_ok k).
Proof. exists (key_okb k). split; [apply valid_key_init|apply key_okb_spec]. Qed.

(** The command line is read as the reference [read_args] says, on every
    command line: the last host and port win, a port must be a whole decimal
    number between 1 and 65535, and anything else is refused with the right code. *)
Theorem parse_args_exact argv args hostp host port :
  Forall2 is_cstr argv args -> is_cstr hostp host ->
  exists r, parse_args argv hostp port = Some r /\ args_match r (read_args args host port).
Proof. apply parse_args_read. Qed.

Lemma parse_args_exact_witness :
  exists r, parse_args [literal "--listen-port"; literal "80x"] (literal "h") DEFAULT_PORT = Some r /\
    args_match r BadPort.
Proof.
  apply (parse_args_exact [literal "--listen-port"; literal "80x"] [lit "--listen-port"; lit "80x"]
    (literal "h") (lit "h") DEFAULT_PORT).
  - repeat constructor; by apply cstring_is_cstr.
  - by apply (cstring_is_cstr (literal "h") (lit "h")).
Defined.

(** A port printed in decimal on the command line is accepted and read back,
    whatever the port was before. *)
Theorem port_roundtrip p buf host port :
  1 <= p <= 65535 -> is_cstr buf (decimal p) ->
  parse_args [literal "--listen-port"; buf] host port = Some (ArgsOk host p).
Proof. apply parse_args_port. Qed.

Lemma port_roundtrip_witness :
  parse_args [literal "--listen-port"; literal "8080"] (literal "::") DEFAULT_PORT = Some (ArgsOk (literal "::") 8080).
Proof.
  apply (port_roundtrip 8080); [lia|].
  by apply (cstring_is_cstr (literal "8080") (lit "8080")).
Defined.

(** What was set is what is read until it expires, and nothing afterwards: when
    the line that sets [k] is answered OK, the next GET of [k] is answered with the
    value exactly if no expiry was asked for or its time has not come. *)
Theorem set_then_get clock fd p q k ttl v w m :
  (forall n, clock_ok (clock n).1 (clock n).2) -> (forall n, time clock n <= time clock (S n)) ->
  ready clock w m -> command_ok (Set_ k ttl v) -> LF ∉ print_command (Set_ k ttl v) ->
  is_cstr p (print_command (Set_ k ttl v)) -> is_cstr q (print_command (Get k)) ->
  exists st r, evals (cache_env clock) (handle_line fd p) w 0 (replied w st (S (w_ticks w)) (render r)) /\
    (r = ROk \/ r = RError) /\
    (r = ROk -> exists st', evals (cache_env clock) (handle_line fd q)
       (replied w st (S (w_ticks w)) (render ROk)) 0
       (replied w st' (S (S (w_ticks w))) (render ROk ++ render
          (if (ttl =? 0) || (time clock (S (w_ticks w)) <? time clock (w_ticks w) + ttl * 1000)
           then RValue v else RNotFound)))).
Proof.
  intros Hg Hm Hw Hok Hlf Hp Hq.
  pose proof (command_evals clock Hg fd p _ Hok Hlf Hp w m Hw) as H1.
  destruct (spec_step m (time clock (w_ticks w)) (Set_ k ttl v)) as [r m'] eqn:E.
  destruct H1 as (st & He & Hr). exists st, r. split; [done|]. split.
  { by eapply spec_set_reply. }
  intros ->. pose proof (spec_set_get _ _ _ _ _ _ (time clock (S (w_ticks w))) E) as Hget.
  assert (Hw1 : ready clock (replied w st (S (w_ticks w)) (render ROk)) m').
  { split; [reflexivity|]. split; [reflexivity|]. exact (refines_mono _ _ _ _ (Hm _) Hr). }
  pose proof (command_evals clock Hg fd q (Get k) (proj1 Hok) (print_set_get_lf _ _ _ Hlf) Hq _ _ Hw1) as H2.
  cbn [w_ticks replied] in H2. destruct (spec_step m' _ (Get k)) as [r2 m2]. cbn [fst] in Hget. subst r2.
  destruct H2 as (st2 & He2 & _). exists st2. by rewrite replied_replied in He2.
Qed.

Definition set_k : command := Set_ (lit "k") 0 (lit "v").

Lemma set_then_get_witness :
  exists st r, evals (cache_env demo_clock) (handle_line 4 (literal "SET k 0 v")) demo_world 0
      (replied demo_world st 1 (render r)) /\ (r = ROk \/ r = RError) /\
    (r = ROk -> exists st', evals (cache_env demo_clock) (handle_line 4 (literal "GET k"))
       (replied demo_world st 1 (render ROk)) 0
       (replied demo_world st' 2 (render ROk ++ render (RValue (lit "v"))))).
Proof.
  pose proof (set_then_get demo_clock 4 (literal "SET k 0 v") (literal "GET k") (lit "k") 0 (lit "v") demo_world ∅
    demo_clock_good demo_clock_monotone demo_ready) as H.
  change (0 =? 0) with true in H. cbn [orb] in H. change (w_ticks demo_world) with 0%nat in H. apply H.
  - split; [apply key_okb_spec; reflexivity|]. split; [unfold TTL_MAX; lia|]. vm_compute. split; congruence.
  - apply (bool_decide_eq_true_1 (LF ∉ print_command set_k)). vm_compute. reflexivity.
  - apply cstring_is_cstr. vm_compute. reflexivity.
  - apply cstring_is_cstr. vm_compute. reflexivity.
Defined.

(** ** The connection loop *)

(** Dropping the processed bytes leaves exactly the unprocessed input in the
    buffer, inside its bounds; the second test of [pending_len] against [LINE_MAX]
    is never true. *)
Theorem compact_keeps data r processed :
  0 <= processed <= zlen data -> zlen data <= LINE_MAX -> zlen (init data ++ r) = LINE_MAX + 1 ->
  exists pending n, compact (init data ++ r) (zlen data) processed = Some (pending, n) /\
    n = zlen data - processed /\ zlen pending = LINE_MAX + 1 /\ (LINE_MAX <? n) = false /\
    exists rest, pending = init (drop (Z.to_nat processed) data) ++ rest.
Proof.
  intros Hp Hmax Hl. unfold compact.
  assert (Hd : zlen (drop (Z.to_nat processed) data) = zlen data - processed) by (rewrite length_drop; lia).
  destruct (Z.ltb_spec 0 processed).
  - unfold memmove. rewrite drop_init by lia. rewrite memcpy_init by (rewrite ?Hl; lia).
    eexists _, _. split; [done|]. split; [done|]. split; [|split; [by apply Z.ltb_ge; lia|by eexists]].
    rewrite length_app, length_init, !length_drop. lia.
  - assert (processed = 0) as -> by lia. eexists _, _. split; [done|].
    split; [lia|]. split; [done|]. split; [by apply Z.ltb_ge; lia|by exists r].
Qed.

Lemma compact_keeps_witness :
  exists pending n, compact (init (lit "GET a\nGE") ++ undef (LINE_MAX - 7)) 8 6 = Some (pending, n) /\
    n = 8 - 6 /\ zlen pending = LINE_MAX + 1 /\ (LINE_MAX <? n) = false /\
    exists rest, pending = init (drop (Z.to_nat 6) (lit "GET a\nGE")) ++ rest.
Proof.
  apply (compact_keeps (lit "GET a\nGE") (undef (LINE_MAX - 7)) 6).
  - simpl. lia.
  - unfold LINE_MAX. simpl. lia.
  - rewrite length_app, length_init, Nat2Z.inj_add, length_undef; unfold LINE_MAX; simpl; lia.
Defined.

(** No reply is truncated: [send_reply] passes the whole text of a reply to
    [send_all], whatever value of at most [VALUE_MAX] bytes it carries. *)
Theorem send_reply_whole fd p v :
  is_cstr p v -> zlen v <= VALUE_MAX ->
  exists r, send_reply fd "VALUE %s\n" [AStr p] =
    send_all fd (init (render (RValue v)) ++ r) (zlen (render (RValue v))).
Proof. apply send_reply_value. Qed.

Lemma send_reply_whole_witness :
  exists r, send_reply 4 "VALUE %s\n" [AStr (literal "x")] =
    send_all 4 (init (render (RValue (lit "x"))) ++ r) (zlen (render (RValue (lit "x")))).
Proof.
  apply (send_reply_whole 4 (literal "x") (lit "x")).
  - by apply (cstring_is_cstr (literal "x") (lit "x")).
  - unfold VALUE_MAX. simpl. lia.
Defined.

(** C22: above [LINE_MAX] the cut into chunks matters.  However the input is cut, and
    however long it is, as long as its client takes the replies, [handle_client]
    returns: when every chunk fits into the buffer
    after the incomplete line before it, all lines of the input are answered, and
    otherwise the lines of the chunks before the first that does not fit, then ERROR,
    and the rest is dropped.  The room is tested before the complete lines of a chunk
    are taken out: two chunks that are answered, the first of which may complete the
    long line, are cut off when TCP delivers the same bytes as one. *)
Theorem chunking_matters clock fd w m :
  (forall n, clock_ok (clock n).1 (clock n).2) -> (forall n, time clock n <= time clock (S n)) ->
  Forall chunk_ok (w_rx w) -> ready clock w m ->
  (let '(out, m', n') :=
     match overrun [] (w_rx w) with
     | None => answer_lines clock m (w_ticks w) (split_lines (mjoin (w_rx w))).1
     | Some pre =>
         let '(out, m', n') := answer_lines clock m (w_ticks w) (split_lines (mjoin pre)).1 in (out ++ render RError, m', n')
     end in
   exists st rx, evals (cache_env clock) (handle_client fd) w tt (with_rx rx (replied w st n' out)) /\
     ready clock (replied w st n' out) m') /\
  (forall pre c1 c2, overrun [] (pre ++ [c1; c2]) = None ->
     LINE_MAX < zlen ((split_lines (mjoin pre)).2 ++ c1 ++ c2) -> overrun [] (pre ++ [c1 ++ c2]) = Some pre).
Proof.
  intros Hg Hm Hc Hw. split.
  - pose proof (handle_client_evals clock Hg Hm fd w m Hc Hw) as H. by rewrite (serve_overrun clock (w_rx w) m (w_ticks w) []) in H.
  - intros pre c1 c2 Ho Hl. rewrite overrun_app by (done || by eapply overrun_prefix). cbn [app overrun].
    rewrite (proj2 (Z.ltb_lt _ _)) by exact Hl. cbn [fmap option_fmap option_map]. by rewrite app_nil_r.
Qed.

(** A line of 65530 bytes, its end, and a proper GET. *)
Definition long_input : list (list byte) := repeat (repeat x61 4096) 15 ++ [repeat x61 4090].
Definition client_of (chunks : list (list byte)) : world := World store_zero 1 [] 0 chunks [] [] [].

Lemma long_chunk_ok c : forallb (fun c => bool_decide (c <> []) && (zlen c <=? RECV_BUF)) (long_input ++ c) = true ->
  Forall chunk_ok (long_input ++ c) /\ ready demo_clock (client_of (long_input ++ c)) ∅.
Proof.
  intros Hc. split; [|by split; [|split; [|apply refines_zero]]]. rewrite forallb_forall in Hc. apply Forall_forall. intros x Hin.
  apply list_elem_of_In, Hc in Hin. apply andb_true_iff in Hin as [H1 H2].
  split; [by apply bool_decide_eq_true_1 in H1|by apply Z.leb_le].
Qed.

(** Answered in two chunks, and cut off in one. *)
Lemma chunking_matters_witness :
  (exists w', evals (cache_env demo_clock) (handle_client 4)
     (client_of (long_input ++ [lit "\n"; lit "GET a\n"])) tt w' /\ w_out w' = lit "ERROR\nNOT_FOUND\n") /\
  (exists w', evals (cache_env demo_clock) (handle_client 4)
     (client_of (long_input ++ [lit "\n" ++ lit "GET a\n"])) tt w' /\ w_out w' = lit "ERROR\n").
Proof.
  destruct (long_chunk_ok [lit "\n"; lit "GET a\n"] ltac:(vm_compute; reflexivity)) as [Hc2 Hr2].
  destruct (long_chunk_ok [lit "\n" ++ lit "GET a\n"] ltac:(vm_compute; reflexivity)) as [Hc1 Hr1].
  destruct (chunking_matters demo_clock 4 (client_of (long_input ++ [lit "\n"; lit "GET a\n"])) ∅
    demo_clock_good demo_clock_monotone Hc2 Hr2) as [H2 Hcut].
  destruct (chunking_matters demo_clock 4 (client_of (long_input ++ [lit "\n" ++ lit "GET a\n"])) ∅
    demo_clock_good demo_clock_monotone Hc1 Hr1) as [H1 _].
  cbn [w_rx w_ticks client_of] in H1, H2.
  assert (Eo : bool_decide (overrun [] (long_input ++ [lit "\n"; lit "GET a\n"]) = None) = true) by (vm_compute; reflexivity).
  apply bool_decide_eq_true_1 in Eo. rewrite Eo in H2.
  rewrite (Hcut _ _ _ Eo) in H1 by (apply Z.ltb_lt; vm_compute; reflexivity).
  assert (E2 : bool_decide ((answer_lines demo_clock ∅ 0 (split_lines (mjoin (long_input ++ [lit "\n"; lit "GET a\n"]))).1).1.1 =
    lit "ERROR\nNOT_FOUND\n") = true) by (vm_compute; reflexivity).
  assert (E1 : bool_decide ((answer_lines demo_clock ∅ 0 (split_lines (mjoin long_input)).1).1.1 = []) = true) by (vm_compute; reflexivity).
  apply bool_decide_eq_true_1 in E1, E2. split.
  - destruct (answer_lines demo_clock ∅ 0 _) as [[out m'] n'] in H2, E2. cbn [fst] in E2. subst out.
    destruct H2 as (st & rx & He & _). eexists. split; [exact He|reflexivity].
  - destruct (answer_lines demo_clock ∅ 0 _) as [[out m'] n'] in H1, E1. cbn [fst] in E1. subst out.
    destruct H1 as (st & rx & He & _). eexists. split; [exact He|reflexivity].
Defined.

(** ** The client of the cache *)

(** [CacheClient.get] of the Python client against [handle_client] of the
    server: for every valid key and however the connection cuts the request, the
    server's thread returns, and the client returns the live value of the key, or
    None when there is none; it refuses a value exactly when another client stored
    one with a carriage return inside. *)
Theorem client_get_served clock fd w m key k :
  (forall n, clock_ok (clock n).1 (clock n).2) -> (forall n, time clock n <= time clock (S n)) ->
  ready clock w m -> Forall chunk_ok (w_rx w) -> encode_key key = Value k ->
  mjoin (w_rx w) = lit "GET " ++ k ++ [LF] ->
  exists st rx out,
    evals (cache_env clock) (handle_client fd) w tt (with_rx rx (replied w st (S (w_ticks w)) out)) /\
    client_get (received (mjoin (w_rx w)) out) key =
      match live (time clock (w_ticks w)) m !! k with
      | Some it => if decide (CR ∈ it_value it) then Raise CacheError "invalid cache value" else Value (Some (it_value it))
      | None => Value None
      end.
Proof. intros Hg Hm. by apply client_get_exchange. Qed.

Definition get_world : world := World store_zero 1 [] 0 [lit "GE"; lit "T k\n"] [] [] [].
Definition key_k : pyval := PyStr [107].

Lemma get_world_rx : mjoin (w_rx get_world) = lit "GET k\n".
Proof. vm_compute. reflexivity. Qed.

Lemma client_get_served_witness :
  exists st rx out,
    evals (cache_env demo_clock) (handle_client 4) get_world tt (with_rx rx (replied get_world st 1 out)) /\
    client_get (received (lit "GET k\n") out) key_k = Value None.
Proof.
  pose proof (client_get_served demo_clock 4 get_world ∅ key_k (lit "k") demo_clock_good demo_clock_monotone) as H.
  assert (E : live (time demo_clock (w_ticks get_world)) ∅ !! lit "k" = None) by (by apply live_lookup_None).
  rewrite E, (get_world_rx) in H. change (w_ticks get_world) with 0%nat in H. apply H.
  - split; [done|]. split; [done|]. apply refines_zero.
  - repeat constructor; try done; vm_compute; congruence.
  - reflexivity.
  - reflexivity.
Defined.

(** C23: what the Python client sets, it gets back: for every valid key, value and
    TTL, however the two requests are cut, both threads of the server return;
    [set] succeeds exactly when the key is live or the store has room, and then a
    [get] on a second connection returns the value until it expires, and None from
    then on. *)
Theorem client_roundtrip clock fd fd' w m key k value v t chunks :
  (forall n, clock_ok (clock n).1 (clock n).2) -> (forall n, time clock n <= time clock (S n)) ->
  ready clock w m -> Forall chunk_ok (w_rx w) -> Forall chunk_ok chunks ->
  encode_key key = Value k -> encode_value value = Value v -> 0 <= t <= TTL_MAX ->
  mjoin (w_rx w) = lit "SET " ++ k ++ lit " " ++ decimal t ++ lit " " ++ v ++ [LF] ->
  mjoin chunks = lit "GET " ++ k ++ [LF] ->
  let now := time clock (w_ticks w) in
  let now' := time clock (S (w_ticks w)) in
  exists w1 w2 out out',
    evals (cache_env clock) (handle_client fd) w tt w1 /\ w_out w1 = w_out w ++ out /\
    client_set (received (mjoin (w_rx w)) out) key value (PyInt t) =
      (if accepts now m k then Value tt else Raise CacheError "unexpected cache SET reply") /\
    evals (cache_env clock) (handle_client fd') (with_rx chunks w1) tt w2 /\ w_out w2 = w_out w1 ++ out' /\
    (accepts now m k = true ->
     client_get (received (mjoin chunks) out') key =
       Value (if (t =? 0) || (now' <? now + t * 1000) then Some v else None)).
Proof.
  intros Hg Hm Hw Hc Hc' Hk Hv Ht Hrx Hrx' now now'. rewrite print_set_line in Hrx.
  destruct (client_set_exchange clock Hg Hm fd w m key k value v t Hw Hc Hk Hv Ht Hrx)
    as (st & rx & out & He & Hw1 & Hset).
  set (w1 := with_rx rx (replied w st (S (w_ticks w)) out)) in *.
  set (m' := (spec_step m (time clock (w_ticks w)) (Set_ k t v)).2) in *.
  assert (Hw2 : ready clock (with_rx chunks w1) m') by exact Hw1.
  destruct (client_get_exchange clock Hg Hm fd' (with_rx chunks w1) m' key k Hw2 Hc' Hk Hrx')
    as (st' & rx' & out' & He' & Hget).
  exists w1, (with_rx rx' (replied (with_rx chunks w1) st' (S (S (w_ticks w))) out')), out, out'.
  split; [exact He|]. split; [done|]. split; [exact Hset|]. split; [exact He'|]. split; [done|].
  intros Hacc. change (w_rx (with_rx chunks w1)) with chunks in Hget. rewrite Hget.
  change (time clock (w_ticks (with_rx chunks w1))) with now'. unfold m'. fold now.
  rewrite (accepted_live now now' m k t v Hacc).
  destruct (_ || _); [|done]. cbn [it_value]. rewrite decide_False; [done|].
  by apply (encode_value_ok _ _ Hv).
Qed.

Definition set_world : world := World store_zero 1 [] 0 [lit "SET k 60 v"; lit "\n"] [] [] [].

Lemma set_world_rx : mjoin (w_rx set_world) = lit "SET k 60 v\n".
Proof. vm_compute. reflexivity. Qed.

Lemma client_roundtrip_witness :
  exists w1 w2 out out',
    evals (cache_env demo_clock) (handle_client 4) set_world tt w1 /\ w_out w1 = out /\
    client_set (received (lit "SET k 60 v\n") out) key_k (PyBytes (lit "v")) (PyInt 60) = Value tt /\
    evals (cache_env demo_clock) (handle_client 5) (with_rx (w_rx get_world) w1) tt w2 /\ w_out w2 = w_out w1 ++ out' /\
    client_get (received (lit "GET k\n") out') key_k = Value (Some (lit "v")).
Proof.
  pose proof (client_roundtrip demo_clock 4 5 set_world ∅ key_k (lit "k") (PyBytes (lit "v")) (lit "v") 60
    (w_rx get_world) demo_clock_good demo_clock_monotone) as H.
  assert (Ha : accepts (time demo_clock 0) ∅ (lit "k") = true) by (vm_compute; reflexivity).
  rewrite get_world_rx, set_world_rx in H. change (w_ticks set_world) with 0%nat in H. cbv zeta in H. rewrite Ha in H.
  destruct H as (w1 & w2 & out & out' & H1 & H2 & H3 & H4 & H5 & H6).
  - split; [done|]. split; [done|]. apply refines_zero.
  - repeat constructor; try done; vm_compute; congruence.
  - repeat constructor; try done; vm_compute; congruence.
  - reflexivity.
  - reflexivity.
  - unfold TTL_MAX. lia.
  - reflexivity.
  - reflexivity.
  - exists w1, w2, out, out'. split; [exact H1|]. split; [exact H2|]. split; [exact H3|]. split; [exact H4|].
    split; [exact H5|]. exact (H6 eq_refl).
Defined.

(** ** Progress *)

(** C7: the server never deadlocks.  In every reachable configuration a thread has
    ended, or its next step can be taken, or it waits for a mutex that another
    thread holds, and then that thread's next step can be taken. *)
Theorem no_deadlock c now ls c' t p :
  started c now -> now <= NOW_MAX -> csteps c ls c' -> c_threads c' !! t = Some p ->
  observe p = RetF tt \/ can_step t c' \/
  exists m u k, observe p = VisF (Lock m) k /\ owner m (c_shared c') = Some u /\ u <> t /\ can_step u c'.
Proof.
  intros Hs Hnow Hc Hp. destruct (server_simulation _ _ _ _ Hs Hc) as (a & Hr & _).
  pose proof (started_paced _ _ _ _ Hs Hc) as Hall. pose proof (started_clock _ _ _ _ Hs Hnow Hc) as Hclk.
  pose proof Hr as (views & Hinv & _). pose proof (inv_store _ _ _ Hinv) as (_ & _ & Hck).
  destruct (paced_can_step c' t p) as [H|[H|(m & u & k & Ho & Hm & Hu)]]; [|by split; [lia|]|done|by left|by right; left|].
  - intros A e k. by eapply related_safe.
  - right; right. exists m, u, k. split_and!; [done..|]. by eapply holder_can_step.
Qed.

Lemma no_deadlock_witness :
  exists p c', csteps demo demo_labels c' /\ c_threads demo !! main_tid = Some p /\
    (observe p = RetF tt \/ can_step main_tid demo \/
     exists m u k, observe p = VisF (Lock m) k /\ owner m (c_shared demo) = Some u /\ u <> main_tid /\ can_step u demo).
Proof.
  assert (H : c_threads demo !! main_tid = Some (main (literal "server") [] ;! Ret tt)) by reflexivity.
  destruct demo_run as [c' Hc]. eexists. exists c'. split; [exact Hc|]. split; [exact H|].
  exact (no_deadlock demo 5000 [] demo main_tid _ demo_started ltac:(vm_compute; discriminate) (ltrace_nil _ _) H).
Defined.

(** C6: a mutex is released.  Whatever the threads do and however they are
    scheduled, a thread that holds a mutex has released it after ten steps of its
    own. *)
Theorem mutex_released c now ls c1 ts c2 t m :
  started c now -> csteps c ls c1 -> owner m (c_shared c1) = Some t ->
  schedule ts c1 c2 -> (SECTION_STEPS < steps_of t ts)%nat ->
  exists ts1 ts2 c', ts = ts1 ++ ts2 /\ schedule ts1 c1 c' /\ schedule ts2 c' c2 /\
    owner m (c_shared c') <> Some t /\ (steps_of t ts1 <= S SECTION_STEPS)%nat.
Proof.
  intros Hs Hc Hm Hts Hn. pose proof (started_paced _ _ _ _ Hs Hc) as Hall.
  pose proof Hall as [Hp Hown]. destruct (Hp t (Hown m t Hm)) as [s Hsp].
  pose proof Hsp as (p & _ & _ & Hh & Hl).
  destruct (released_within t m ts c1 c2 s Hall Hsp Hts) as (ts1 & ts2 & c' & E & H1 & H2 & Ho & Hle); [lia|by apply Hh|].
  exists ts1, ts2, c'. split_and!; [done..|lia].
Qed.

Lemma mutex_released_witness :
  exists c1 c2, owner client_count_mutex (c_shared c1) = Some main_tid /\
    schedule (replicate 11 main_tid) c1 c2 /\
    exists ts1 ts2 c', replicate 11 main_tid = ts1 ++ ts2 /\ schedule ts1 c1 c' /\ schedule ts2 c' c2 /\
      owner client_count_mutex (c_shared c') <> Some main_tid /\ (steps_of main_tid ts1 <= S SECTION_STEPS)%nat.
Proof.
  destruct (held_after_runs 9 11 main_tid client_count_mutex demo) as (ls & c1 & c2 & Hc & Hm & Hts);
    [vm_compute; reflexivity|].
  exists c1, c2. split; [exact Hm|]. split; [exact Hts|].
  exact (mutex_released demo 5000 ls c1 (replicate 11 main_tid) c2 main_tid client_count_mutex
    demo_started Hc Hm Hts ltac:(vm_compute; lia)).
Defined.

(** No thread spins: each of them makes a call or ends within nine silent
    steps, in every reachable configuration. *)
Theorem thread_never_spins c now ls c' t p :
  started c now -> csteps c ls c' -> c_threads c' !! t = Some p ->
  calls_within SECTION_STEPS p = true.
Proof.
  intros Hs Hc Hp. destruct (started_paced _ _ _ _ Hs Hc) as [Hall _].
  destruct (Hall t) as (s & q & Hq & Hw & _ & Hl); [by eexists|]. simplify_eq. by eapply paced_calls.
Qed.

Lemma thread_never_spins_witness :
  exists p, c_threads demo !! main_tid = Some p /\ calls_within SECTION_STEPS p = true.
Proof.
  assert (H : c_threads demo !! main_tid = Some (main (literal "server") [] ;! Ret tt)) by reflexivity.
  eexists. split; [exact H|].
  exact (thread_never_spins demo 5000 [] demo main_tid _ demo_started (ltrace_nil _ _) H).
Defined.
