(* ===== verification/DnsServer.v ===== *)
(** * The DNS server of dns-server/server.go

    [makeResponse] and what it calls, on byte slices.  Then what it answers, as a
    relation on messages ([replies]), and that it answers exactly that. *)

From S2P Require Import Prelude CLib GoLib.
Local Open Scope Z_scope.
Local Open Scope ub_scope.

(** ** Slices that are written *)

(** [binary.BigEndian.Uint16(s)] *)
Definition uint16 (s : list byte) : ub Z :=
  match s with a :: b :: _ => Some (uchar a * 256 + uchar b) | _ => None end.

(** A 16-bit number in network order. *)
Definition word16 (z : Z) : list byte := [chr (z / 256); chr (z mod 256)].

(** [copy(dst[lo:hi], src)] copies what fits. *)
Definition copy_into (dst : list byte) (lo hi : Z) (src : list byte) : ub (list byte) :=
  let? target := slice dst lo hi in
  let src := take (length target) src in
  Some (take (Z.to_nat lo) dst ++ src ++ drop (Z.to_nat lo + length src) dst).

(** [binary.BigEndian.PutUint16(dst[lo:hi], v)] *)
Definition put_uint16 (dst : list byte) (lo hi v : Z) : ub (list byte) :=
  assert_ub (2 <=? hi - lo) (copy_into dst lo hi (word16 v)).

(** ** The server *)

Definition headerSize : Z := 12.
Definition typeA : Z := 1.
Definition classIN : Z := 1.
Definition recordName : list byte := chr 3 :: lit "app" ++ chr 5 :: lit "local" ++ [NUL].

(** The address to listen on, or the error of a port out of range. *)
Definition listenAddress (host : list byte) (port : Z) : option (list byte) :=
  if (port <? 1) || (65535 <? port) then None else Some (join_host_port host (decimal port)).

Definition errorResponse (query : list byte) (queryFlags responseCode : Z) : ub (list byte) :=
  let response := replicate (Z.to_nat headerSize) NUL in
  let? id := slice query 0 2 in
  let? response := copy_into response 0 2 id in
  put_uint16 response 2 4 (Z.lor (Z.lor 0x8000 (Z.land queryFlags 0x7900)) responseCode).

(** The loop over the labels: the position after the name, or [None] for a name
    that does not end in the query. *)
Fixpoint skip_name (fuel : nat) (query : list byte) (position : Z) : ub (option Z) :=
  match fuel with
  | O => None
  | S fuel =>
      if zlen query <=? position then Some None
      else
        let? b := index query position in
        let length := uchar b in
        let position := position + 1 in
        if length =? 0 then Some (Some position)
        else if negb (Z.land length 0xc0 =? 0) || (zlen query <? position + length) then Some None
        else skip_name fuel query (position + length)
  end.

Definition answer_record : list byte :=
  map chr [0xc0; 0x0c; 0x00; 0x01; 0x00; 0x01; 0x00; 0x00; 0x00; 0x3c; 0x00; 0x04; 0x7f; 0x00; 0x00; 0x01].

(** The flags, the answer and the number of answers to a question. *)
Definition choose (queryFlags queryType queryClass : Z) (name : list byte) : Z * list byte * Z :=
  if negb (queryClass =? classIN) then (Z.lor 0x8004 (Z.land queryFlags 0x0100), [], 0)
  else if negb (equal_fold name recordName) then (Z.lor 0x8403 (Z.land queryFlags 0x0100), [], 0)
  else if queryType =? typeA then (Z.lor 0x8400 (Z.land queryFlags 0x0100), answer_record, 1)
  else (Z.lor 0x8400 (Z.land queryFlags 0x0100), [], 0).

(** The end of [makeResponse]: the transaction ID and the question of the query,
    and the answer. *)
Definition assemble (query : list byte) (flags : Z) (question answer : list byte) (answerCount : Z) : ub (list byte) :=
  let response := replicate (Z.to_nat (headerSize + zlen question + zlen answer)) NUL in
  let? id := slice query 0 2 in
  let? response := copy_into response 0 2 id in
  let? response := put_uint16 response 2 4 flags in
  let? response := put_uint16 response 4 6 1 in
  let? response := put_uint16 response 6 8 answerCount in
  let? response := copy_into response headerSize (zlen response) question in
  copy_into response (headerSize + zlen question) (zlen response) answer.

(** [None] is the Go nil: nothing is sent. *)
Definition makeResponse (query : list byte) : ub (option (list byte)) :=
  if zlen query <? headerSize then Some None
  else
    let error flags code := (let? response := errorResponse query flags code in Some (Some response))%ub in
    let? flags_bytes := slice query 2 4 in
    let? queryFlags := uint16 flags_bytes in
    if negb (Z.land queryFlags 0x8000 =? 0) then Some None
    else if negb (Z.land queryFlags 0x7800 =? 0) then error queryFlags 4
    else
      let? count_bytes := slice query 4 6 in
      let? questionCount := uint16 count_bytes in
      if 1 <? questionCount then error queryFlags 1
      else if questionCount =? 0 then Some None
      else
        let? name_end := skip_name (S (length query)) query headerSize in
        match name_end with
        | None => error queryFlags 1
        | Some position =>
            if zlen query <? position + 4 then error queryFlags 1
            else
              let questionEnd := position + 4 in
              let? question := slice query headerSize questionEnd in
              let? type_bytes := slice_from query position in
              let? queryType := uint16 type_bytes in
              let? class_bytes := slice_from query (position + 2) in
              let? queryClass := uint16 class_bytes in
              let? name := slice query headerSize position in
              let '(flags, answer, answerCount) := choose queryFlags queryType queryClass name in
              let? response := assemble query flags question answer answerCount in
              Some (Some response)
        end.

(** The body of the loop of [main]: what is sent back for a datagram of at most
    512 bytes, [None] standing for a failed read. *)
Definition serve_datagram (datagram : option (list byte)) : ub (option (list byte)) :=
  match datagram with
  | None => Some None
  | Some data => makeResponse (take 512 data)
  end.

(** ** What it answers *)

(** A name on the wire: labels of 1 to 63 bytes and the empty label. *)
Inductive wire_name : list byte -> Prop :=
| wire_root : wire_name [NUL]
| wire_label c l n : uchar c = zlen l -> 0 < zlen l < 64 -> wire_name n -> wire_name (c :: l ++ n).

Record dns_header := DnsHeader {
  h_id : list byte;
  h_response : bool;   (** QR *)
  h_opcode : Z;
  h_authoritative : bool;
  h_recursion : bool;  (** RD *)
  h_rcode : Z;
  h_questions : Z;
  h_answers : Z
}.

(** The second word of a header. *)
Definition flags_of (w : Z) : bool * Z * bool * bool * Z :=
  (Z.testbit w 15, Z.land (Z.shiftr w 11) 15, Z.testbit w 10, Z.testbit w 8, Z.land w 15).

Definition flags_word (h : dns_header) : Z :=
  Z.b2z (h_response h) * 0x8000 + h_opcode h * 0x800 + Z.b2z (h_authoritative h) * 0x400 +
  Z.b2z (h_recursion h) * 0x100 + h_rcode h.

(** A header as it is sent: the flags that are not named and the two last counts
    are zero. *)
Definition header_bytes (h : dns_header) : list byte :=
  h_id h ++ word16 (flags_word h) ++ word16 (h_questions h) ++ word16 (h_answers h) ++ word16 0 ++ word16 0.

(** The query starts with the header [h], whatever the bits and counts that are not
    looked at, and [body] follows. *)
Definition has_header (q : list byte) (h : dns_header) (body : list byte) : Prop :=
  exists w m, q = h_id h ++ word16 w ++ word16 (h_questions h) ++ m ++ body /\
    length (h_id h) = 2%nat /\ length m = 6%nat /\ 0 <= w < 65536 /\ 0 <= h_questions h < 65536 /\
    flags_of w = (h_response h, h_opcode h, h_authoritative h, h_recursion h, h_rcode h).

Definition is_question (body name : list byte) (qtype qclass : Z) (rest : list byte) : Prop :=
  body = name ++ word16 qtype ++ word16 qclass ++ rest /\ wire_name name /\
  0 <= qtype < 65536 /\ 0 <= qclass < 65536.

(** An error has a header only. *)
Definition refusal (h : dns_header) (code : Z) : list byte :=
  header_bytes (DnsHeader (h_id h) true (h_opcode h) false (h_recursion h) code 0 0).

(** A reply repeats the question. *)
Definition reply (h : dns_header) (aa : bool) (code : Z) (question answer : list byte) (answers : Z) : list byte :=
  header_bytes (DnsHeader (h_id h) true 0 aa (h_recursion h) code 1 answers) ++ question ++ answer.

(** The address record: a pointer to the name of the question, type A, class IN,
    60 seconds, 127.0.0.1. *)
Definition address_record : list byte :=
  word16 0xc00c ++ word16 typeA ++ word16 classIN ++ word16 0 ++ word16 60 ++ word16 4 ++ map chr [127; 0; 0; 1].

Inductive replies (q : list byte) : option (list byte) -> Prop :=
| replies_short : zlen q < 12 -> replies q None
| replies_response h b : has_header q h b -> h_response h = true -> replies q None
| replies_opcode h b : has_header q h b -> h_response h = false -> h_opcode h <> 0 -> replies q (Some (refusal h 4))
| replies_none h b : has_header q h b -> h_response h = false -> h_opcode h = 0 -> h_questions h = 0 -> replies q None
| replies_many h b : has_header q h b -> h_response h = false -> h_opcode h = 0 -> 1 < h_questions h ->
    replies q (Some (refusal h 1))
| replies_format h b : has_header q h b -> h_response h = false -> h_opcode h = 0 -> h_questions h = 1 ->
    (~ exists n t c rest, is_question b n t c rest) -> replies q (Some (refusal h 1))
| replies_class h b n t c rest : has_header q h b -> h_response h = false -> h_opcode h = 0 -> h_questions h = 1 ->
    is_question b n t c rest -> c <> classIN ->
    replies q (Some (reply h false 4 (n ++ word16 t ++ word16 c) [] 0))
| replies_name h b n t rest : has_header q h b -> h_response h = false -> h_opcode h = 0 -> h_questions h = 1 ->
    is_question b n t classIN rest -> map lower n <> recordName ->
    replies q (Some (reply h true 3 (n ++ word16 t ++ word16 classIN) [] 0))
| replies_address h b n rest : has_header q h b -> h_response h = false -> h_opcode h = 0 -> h_questions h = 1 ->
    is_question b n typeA classIN rest -> map lower n = recordName ->
    replies q (Some (reply h true 0 (n ++ word16 typeA ++ word16 classIN) address_record 1))
| replies_empty h b n t rest : has_header q h b -> h_response h = false -> h_opcode h = 0 -> h_questions h = 1 ->
    is_question b n t classIN rest -> map lower n = recordName -> t <> typeA ->
    replies q (Some (reply h true 0 (n ++ word16 t ++ word16 classIN) [] 0)).

(** ** Slices of a message given by its parts *)

Lemma copy_into_app a b c lo hi src :
  lo = zlen a -> length src = length b -> zlen a + zlen b <= hi <= zlen (a ++ b ++ c) ->
  copy_into (a ++ b ++ c) lo hi src = Some (a ++ src ++ c).
Proof.
  intros -> Hs Hhi. unfold copy_into. rewrite slice_ok by lia.
  rewrite (take_ge src) by (rewrite length_take, length_drop, !length_app in *; lia).
  rewrite Nat2Z.id, take_app_length. do 3 f_equal.
  rewrite app_assoc. apply drop_app_length'. rewrite length_app. lia.
Qed.

Lemma copy_into_prefix b c hi src :
  length src = length b -> hi = zlen b -> copy_into (b ++ c) 0 hi src = Some (src ++ c).
Proof. intros Hs ->. apply (copy_into_app [] b c); [done|done|]. cbn [app length]. rewrite length_app. lia. Qed.

Lemma put_uint16_app a b c lo hi v :
  lo = zlen a -> hi = zlen a + 2 -> length b = 2%nat ->
  put_uint16 (a ++ b ++ c) lo hi v = Some (a ++ word16 v ++ c).
Proof.
  intros -> -> Hb. unfold put_uint16. rewrite assert_ub_true by (apply Z.leb_le; lia).
  apply copy_into_app; [done|by rewrite Hb|rewrite !length_app; lia].
Qed.

Lemma length_word16 z : length (word16 z) = 2%nat.
Proof. done. Qed.

Lemma uint16_word16 z s : 0 <= z < 65536 -> uint16 (word16 z ++ s) = Some z.
Proof.
  intros Hz. unfold word16. cbn [app uint16]. pose proof (Z.mod_pos_bound z 256).
  assert (0 <= z / 256 < 256) by (split; [apply Z.div_pos; lia|apply Z.div_lt_upper_bound; lia]).
  rewrite !uchar_chr by lia.
  f_equal. rewrite Z.mul_comm. symmetry. by apply Z.div_mod.
Qed.

(** Two bytes are a number. *)
Lemma word16_bytes a b : exists z, 0 <= z < 65536 /\ [a; b] = word16 z.
Proof.
  pose proof (uchar_range a). pose proof (uchar_range b).
  exists (uchar a * 256 + uchar b). split; [lia|]. unfold word16. do 2 f_equal.
  - apply uchar_inj. rewrite uchar_chr; rewrite Z.div_add_l, (Z.div_small (uchar b)) by lia; lia.
  - f_equal. apply uchar_inj. rewrite uchar_chr; rewrite Z.add_comm, Z.mod_add, Z.mod_small by lia; lia.
Qed.

Lemma split_word16 s : (2 <= length s)%nat -> exists z r, 0 <= z < 65536 /\ s = word16 z ++ r.
Proof.
  destruct s as [|a [|b r]]; simpl; [lia..|]. intros _. destruct (word16_bytes a b) as (z & Hz & E).
  exists z, r. split; [done|]. change (a :: b :: r) with ([a; b] ++ r). by rewrite E.
Qed.

(** ** The name *)

Lemma wire_name_ne n : wire_name n -> 0 < zlen n.
Proof. destruct 1; simpl; lia. Qed.

(** The tests of a label: its length has six bits. *)
Lemma label_length_test z : 0 <= z < 256 -> (Z.land z 0xc0 =? 0) = (z <? 64).
Proof.
  intros Hz. assert (H : forallb (fun z => Bool.eqb (Z.land z 0xc0 =? 0) (z <? 64)) (seqZ 0 256) = true)
    by (vm_compute; reflexivity).
  rewrite forallb_forall in H. apply eqb_prop, H, list_elem_of_In, elem_of_seqZ. lia.
Qed.

Lemma index_at (pre : list byte) b s : index (pre ++ b :: s) (zlen pre) = Some b.
Proof. unfold index. rewrite assert_ub_true by (apply Z.leb_le; lia). rewrite Nat2Z.id. by apply list_lookup_middle. Qed.

Lemma skip_name_ok n : wire_name n -> forall fuel pre rest,
  (length n <= fuel)%nat -> skip_name fuel (pre ++ n ++ rest) (zlen pre) = Some (Some (zlen pre + zlen n)).
Proof.
  induction 1 as [|c l n Hc Hl Hn IH]; intros [|fuel] pre rest Hf; cbn [length] in Hf; try lia; cbn [skip_name app].
  - rewrite (proj2 (Z.leb_gt _ _)) by (rewrite length_app; simpl; lia). by rewrite index_at.
  - rewrite (proj2 (Z.leb_gt _ _)) by (rewrite length_app; simpl; lia). rewrite index_at.
    rewrite Hc, (proj2 (Z.eqb_neq _ _)) by lia. rewrite label_length_test by lia.
    rewrite (proj2 (Z.ltb_lt _ 64)) by lia.
    rewrite (proj2 (Z.ltb_ge _ _)) by (rewrite !length_app; simpl; rewrite !length_app; lia).
    cbn [negb orb]. rewrite length_app in Hf.
    replace (pre ++ c :: (l ++ n) ++ rest) with ((pre ++ c :: l) ++ n ++ rest) by by rewrite <-!app_assoc.
    replace (zlen pre + 1 + zlen l) with (zlen (pre ++ c :: l)) by (rewrite length_app; simpl; lia).
    rewrite IH by lia. do 2 f_equal. simpl. rewrite !length_app. simpl. lia.
Qed.

Lemma skip_name_total fuel : forall pre s,
  (length s < fuel)%nat ->
  exists r, skip_name fuel (pre ++ s) (zlen pre) = Some r /\
    forall p, r = Some p -> exists n rest, s = n ++ rest /\ wire_name n /\ p = zlen pre + zlen n.
Proof.
  induction fuel as [|fuel IH]; intros pre s Hs; [lia|]. cbn [skip_name].
  destruct s as [|c s].
  { rewrite (proj2 (Z.leb_le _ _)) by (rewrite app_nil_r; lia). by exists None. }
  rewrite (proj2 (Z.leb_gt _ _)) by (rewrite length_app; simpl; lia). rewrite index_at.
  pose proof (uchar_range c) as Hc. destruct (Z.eqb_spec (uchar c) 0) as [E|E].
  { eexists. split; [done|]. intros p [= <-]. exists [c], s. split; [done|]. split; [|simpl; lia].
    rewrite (uchar_inj c NUL E). constructor. }
  rewrite label_length_test by lia. destruct (Z.ltb_spec (uchar c) 64) as [H64|H64]; [|by exists None].
  cbn [negb orb]. case_match eqn:Hlt; [by exists None|]. apply Z.ltb_ge in Hlt.
  rewrite length_app in Hlt. cbn [length] in Hlt, Hs.
  rewrite <-(take_drop (Z.to_nat (uchar c)) s). set (l := take _ s). set (s' := drop _ s).
  assert (Hl : zlen l = uchar c) by (unfold l; rewrite length_take; lia).
  destruct (IH (pre ++ c :: l) s') as (r & Hr & Hp); [unfold s'; rewrite length_drop; lia|].
  exists r. split.
  - rewrite <-Hr. f_equal; [by rewrite <-app_assoc|]. rewrite length_app. simpl. lia.
  - intros p ->. destruct (Hp p eq_refl) as (n & rest & E' & Hn & ->). exists (c :: l ++ n), rest.
    rewrite E'. split; [by rewrite <-app_comm_cons, <-app_assoc|]. split; [by constructor; [..|done]; lia|].
    rewrite length_app. simpl. rewrite length_app. lia.
Qed.

(** ** The message *)

Lemma assemble_ok id s flags question answer n :
  length id = 2%nat ->
  assemble (id ++ s) flags question answer n =
  Some (id ++ word16 flags ++ word16 1 ++ word16 n ++ replicate 4 NUL ++ question ++ answer).
Proof.
  intros Hid. unfold assemble. rewrite slice_prefix by by rewrite Hid.
  assert (E : replicate (Z.to_nat (headerSize + zlen question + zlen answer)) NUL =
    [NUL; NUL] ++ [NUL; NUL] ++ [NUL; NUL] ++ [NUL; NUL] ++ replicate 4 NUL ++
    replicate (length question) NUL ++ replicate (length answer) NUL).
  { replace (Z.to_nat _) with (12 + (length question + length answer))%nat by (unfold headerSize; lia).
    by rewrite replicate_add, replicate_add. }
  rewrite E. rewrite copy_into_prefix by by rewrite ?Hid. rewrite (put_uint16_app id) by (done || by rewrite Hid).
  rewrite (app_assoc id). rewrite (put_uint16_app (id ++ _)) by (done || rewrite length_app, Hid; done).
  rewrite (app_assoc (id ++ _)). rewrite (put_uint16_app ((id ++ _) ++ _)) by (done || rewrite !length_app, Hid; done).
  rewrite (app_assoc ((id ++ _) ++ _)), (app_assoc (((id ++ _) ++ _) ++ _)).
  rewrite copy_into_app; [|by rewrite !length_app, Hid|by rewrite length_replicate|].
  2: { rewrite !length_app, !length_replicate, Hid. cbn [length word16]. unfold headerSize. lia. }
  rewrite app_assoc.
  rewrite <-(app_nil_r (_ ++ replicate (length answer) NUL)), <-app_assoc.
  rewrite copy_into_app; [|by rewrite !length_app, Hid; cbn [length word16]; unfold headerSize; rewrite ?length_replicate; lia|by rewrite length_replicate|].
  2: { rewrite !length_app, !length_replicate, Hid. cbn [length word16]. unfold headerSize. lia. }
  rewrite app_nil_r. by rewrite <-!app_assoc.
Qed.

(** ** The flags *)

(** What the code does with the flags of a query, on the fields. *)
Definition flags_checked (w : Z) : bool :=
  let '(qr, op, _, rd, _) := flags_of w in
  let word aa op code := 0x8000 + op * 0x800 + Z.b2z aa * 0x400 + Z.b2z rd * 0x100 + code in
  Bool.eqb (Z.land w 0x8000 =? 0) (negb qr) && Bool.eqb (Z.land w 0x7800 =? 0) (op =? 0) &&
  (Z.lor (Z.lor 0x8000 (Z.land w 0x7900)) 4 =? word false op 4) &&
  (Z.lor (Z.lor 0x8000 (Z.land w 0x7900)) 1 =? word false op 1) &&
  (Z.lor 0x8004 (Z.land w 0x0100) =? word false 0 4) &&
  (Z.lor 0x8403 (Z.land w 0x0100) =? word true 0 3) &&
  (Z.lor 0x8400 (Z.land w 0x0100) =? word true 0 0).

Lemma flags_check w : 0 <= w < 65536 -> flags_checked w = true.
Proof.
  intros Hw.
  assert (H : forallb (fun a => forallb (fun b => flags_checked (a * 256 + b)) (seqZ 0 256)) (seqZ 0 256) = true)
    by (vm_compute; reflexivity).
  assert (Hb : forall z, 0 <= z < 256 -> In z (seqZ 0 256)).
  { intros z Hz. apply list_elem_of_In, elem_of_seqZ. lia. }
  pose proof (Z.div_mod w 256 ltac:(lia)) as E. pose proof (Z.mod_pos_bound w 256 ltac:(lia)).
  assert (0 <= w / 256 < 256) by (split; [apply Z.div_pos; lia|apply Z.div_lt_upper_bound; lia]).
  rewrite forallb_forall in H. specialize (H (w / 256) (Hb (w / 256) ltac:(lia))).
  rewrite forallb_forall in H. specialize (H (w mod 256) (Hb (w mod 256) ltac:(lia))).
  by rewrite E, Z.mul_comm.
Qed.

Section query.
Context (q body : list byte) (h : dns_header) (w : Z) (m : list byte).
Context (Hq : q = h_id h ++ word16 w ++ word16 (h_questions h) ++ m ++ body).
Context (Hid : length (h_id h) = 2%nat) (Hm : length m = 6%nat).
Context (Hw : 0 <= w < 65536) (Hn : 0 <= h_questions h < 65536).
Context (Hf : flags_of w = (h_response h, h_opcode h, h_authoritative h, h_recursion h, h_rcode h)).

Lemma query_flags :
  (Z.land w 0x8000 =? 0) = negb (h_response h) /\ (Z.land w 0x7800 =? 0) = (h_opcode h =? 0).
Proof.
  pose proof (flags_check w Hw) as H. unfold flags_checked in H. rewrite Hf in H.
  rewrite !andb_true_iff in H. destruct H as [[[[[[H1 H2] _] _] _] _] _]. split; by apply eqb_prop.
Qed.

Lemma refusal_ok code :
  code = 4 \/ code = 1 -> errorResponse q w code = Some (refusal h code).
Proof.
  intros Hc. unfold errorResponse. rewrite Hq.
  rewrite slice_prefix by by rewrite Hid.
  change (replicate (Z.to_nat headerSize) NUL) with ([NUL; NUL] ++ [NUL; NUL] ++ replicate 8 NUL).
  rewrite copy_into_prefix by by rewrite ?Hid.
  rewrite (put_uint16_app (h_id h)) by (done || by rewrite Hid).
  pose proof (flags_check w Hw) as H. unfold flags_checked in H. rewrite Hf in H.
  rewrite !andb_true_iff, !Z.eqb_eq in H. destruct H as [[[[[_ H4] H1] _] _] _].
  unfold refusal, header_bytes, flags_word.
  cbn [h_id h_response h_opcode h_authoritative h_recursion h_rcode h_questions h_answers].
  destruct Hc as [-> | ->]; rewrite ?H4, ?H1; cbn [Z.b2z]; do 4 f_equal; lia.
Qed.

Lemma query_head : q = (h_id h ++ word16 w ++ word16 (h_questions h) ++ m) ++ body /\
  zlen (h_id h ++ word16 w ++ word16 (h_questions h) ++ m) = headerSize.
Proof.
  split; [by rewrite Hq, <-!app_assoc|]. rewrite !length_app, Hid, Hm. reflexivity.
Qed.

(** Up to the question. *)
Lemma makeResponse_head :
  makeResponse q =
  if h_response h then Some None
  else if negb (h_opcode h =? 0) then Some (Some (refusal h 4))
  else if 1 <? h_questions h then Some (Some (refusal h 1))
  else if h_questions h =? 0 then Some None
  else
    let? name_end := skip_name (S (length q)) q headerSize in
    match name_end with
    | None => Some (Some (refusal h 1))
    | Some position =>
        if zlen q <? position + 4 then Some (Some (refusal h 1))
        else
          let? question := slice q headerSize (position + 4) in
          let? type_bytes := slice_from q position in
          let? queryType := uint16 type_bytes in
          let? class_bytes := slice_from q (position + 2) in
          let? queryClass := uint16 class_bytes in
          let? name := slice q headerSize position in
          let '(flags, answer, answerCount) := choose w queryType queryClass name in
          let? response := assemble q flags question answer answerCount in
          Some (Some response)
    end.
Proof.
  destruct query_head as [Hh Hl]. destruct query_flags as [H1 H2]. unfold makeResponse.
  rewrite (proj2 (Z.ltb_ge _ _)) by (rewrite Hh, length_app; lia).
  assert (E1 : slice q 2 4 = Some (word16 w ++ [])) by (rewrite Hq; apply slice_app; by rewrite Hid).
  assert (E2 : slice q 4 6 = Some (word16 (h_questions h) ++ [])).
  { rewrite Hq, app_assoc. apply slice_app; by rewrite length_app, Hid. }
  rewrite E1, uint16_word16, H1, H2, negb_involutive by done.
  rewrite (refusal_ok 4), (refusal_ok 1), E2, uint16_word16 by auto.
  destruct (h_response h); [done|]. by destruct (negb _).
Qed.

Lemma makeResponse_question n t c rest :
  h_response h = false -> h_opcode h = 0 -> h_questions h = 1 -> is_question body n t c rest ->
  makeResponse q =
  let '(flags, answer, answers) := choose w t c n in
  Some (Some (h_id h ++ word16 flags ++ word16 1 ++ word16 answers ++ replicate 4 NUL ++
              (n ++ word16 t ++ word16 c) ++ answer)).
Proof.
  intros Hr Ho Hc (Hb & Hname & Ht & Hcl). rewrite makeResponse_head, Hr, Ho, Hc. cbn [Z.eqb negb Z.ltb Z.compare Pos.compare Pos.compare_cont].
  destruct query_head as [Hh Hl]. set (pre := h_id h ++ word16 w ++ word16 (h_questions h) ++ m) in *.
  rewrite Hb in Hh.
  assert (Hsk : skip_name (S (length q)) q headerSize = Some (Some (headerSize + zlen n))).
  { rewrite <-Hl, Hh. apply skip_name_ok; [done|]. rewrite !length_app. lia. }
  rewrite Hsk. rewrite (proj2 (Z.ltb_ge _ _)).
  2: { rewrite Hh, !length_app, !length_word16. lia. }
  assert (E1 : slice q headerSize (headerSize + zlen n + 4) = Some (n ++ word16 t ++ word16 c)).
  { rewrite Hh. rewrite (app_assoc (word16 t)), (app_assoc n). apply slice_app; [done|].
    rewrite !length_app, !length_word16. lia. }
  assert (E2 : slice_from q (headerSize + zlen n) = Some (word16 t ++ word16 c ++ rest)).
  { unfold slice_from. rewrite Hh, (app_assoc pre n).
    rewrite <-(app_nil_r (word16 t ++ word16 c ++ rest)) at 1. apply slice_app; rewrite !length_app; lia. }
  assert (E3 : slice_from q (headerSize + zlen n + 2) = Some (word16 c ++ rest)).
  { unfold slice_from. rewrite Hh, (app_assoc pre n), (app_assoc (pre ++ n)).
    rewrite <-(app_nil_r (word16 c ++ rest)) at 1. apply slice_app; rewrite !length_app, ?length_word16; lia. }
  assert (E4 : slice q headerSize (headerSize + zlen n) = Some n).
  { rewrite Hh. apply slice_app; lia. }
  rewrite E1, E2, E3, E4, !uint16_word16 by done. destruct (choose w t c n) as [[flags answer] k].
  rewrite Hq. by rewrite assemble_ok.
Qed.

(** [choose], on the fields. *)
Lemma choose_ok t c n :
  h_opcode h = 0 ->
  let '(flags, answer, k) := choose w t c n in
  forall question,
  h_id h ++ word16 flags ++ word16 1 ++ word16 k ++ replicate 4 NUL ++ question ++ answer =
    if negb (c =? classIN) then reply h false 4 question [] 0
    else if negb (bool_decide (map lower n = recordName)) then reply h true 3 question [] 0
    else if t =? typeA then reply h true 0 question address_record 1
    else reply h true 0 question [] 0.
Proof.
  intros Ho. pose proof (flags_check w Hw) as H. unfold flags_checked in H. rewrite Hf in H.
  rewrite !andb_true_iff, !Z.eqb_eq in H. destruct H as [[[_ H1] H2] H3].
  assert (Hrec : map lower recordName = recordName) by (vm_compute; reflexivity).
  unfold choose, equal_fold. rewrite Hrec, H1, H2, H3.
  unfold reply, header_bytes, flags_word.
  cbn [h_id h_response h_opcode h_authoritative h_recursion h_rcode h_questions h_answers].
  destruct (negb (c =? classIN)); [|destruct (negb _); [|destruct (t =? typeA)]]; intros question;
    rewrite <-!app_assoc; reflexivity.
Qed.

End query.

(** ** Every query *)

Lemma has_header_exists q : 12 <= zlen q -> exists h b, has_header q h b.
Proof.
  intros Hl. destruct q as [|i1 [|i2 q]]; simpl in Hl; [lia..|].
  destruct (split_word16 q) as (w & q1 & Hw & ->); [lia|]. rewrite length_app, length_word16 in Hl.
  destruct (split_word16 q1) as (n & q2 & Hn & ->); [lia|]. rewrite length_app, length_word16 in Hl.
  destruct (flags_of w) as [[[[qr op] aa] rd] rc] eqn:Hf.
  exists (DnsHeader [i1; i2] qr op aa rd rc n 0), (drop 6 q2), w, (take 6 q2).
  rewrite take_drop. split; [done|]. split; [done|]. split; [rewrite length_take; lia|]. done.
Qed.

Lemma is_question_end b n t c rest :
  is_question b n t c rest ->
  skip_name (S (length b)) b 0 = Some (Some (zlen n)) /\ zlen n + 4 <= zlen b.
Proof.
  intros (Hb & Hn & _).
  assert (Hl : zlen b = zlen n + 4 + zlen rest) by (rewrite Hb, !length_app, !length_word16; lia).
  split; [|lia]. rewrite Hb at 2. apply (skip_name_ok n Hn _ []). lia.
Qed.

Lemma is_question_dec b :
  (exists n t c rest, is_question b n t c rest) \/ ~ exists n t c rest, is_question b n t c rest.
Proof.
  destruct (skip_name_total (S (length b)) [] b) as (p & Hp & Hname); [lia|].
  change (skip_name (S (length b)) b 0 = Some p) in Hp.
  destruct p as [p|].
  - destruct (Hname p eq_refl) as (n & rest & Hb & Hn & Hpn). change (p = zlen n) in Hpn.
    assert (Hlen : zlen b = zlen n + zlen rest) by (rewrite Hb, length_app; lia).
    destruct (decide (4 <= length rest)%nat) as [Hl|Hl].
    + left. destruct (split_word16 rest) as (t & r1 & Ht & E1); [lia|].
      assert (length rest = 2 + length r1)%nat by by rewrite E1.
      destruct (split_word16 r1) as (c & r2 & Hcl & E2); [lia|].
      exists n, t, c, r2. by rewrite Hb, E1, E2.
    + right. intros (n' & t & c & r & [Hq Hend]%is_question_end). rewrite Hq in Hp. injection Hp as Hp. lia.
  - right. intros (n' & t & c & r & [Hq _]%is_question_end). by rewrite Hq in Hp.
Qed.

(** A question that does not parse. *)
Lemma makeResponse_format q h b :
  has_header q h b -> h_response h = false -> h_opcode h = 0 -> h_questions h = 1 ->
  (~ exists n t c rest, is_question b n t c rest) -> makeResponse q = Some (Some (refusal h 1)).
Proof.
  intros (w & m & Hq & Hid & Hm & Hw & Hn & Hf) Hr Ho Hc Hno.
  rewrite (makeResponse_head q b h w m Hq Hid Hm Hw Hn Hf), Hr, Ho, Hc.
  cbn [Z.eqb negb Z.ltb Z.compare Pos.compare Pos.compare_cont].
  destruct (query_head q b h w m Hq Hid Hm) as [Hh Hl].
  set (pre := h_id h ++ word16 w ++ word16 (h_questions h) ++ m) in *.
  destruct (skip_name_total (S (length q)) pre b) as (p & Hp & Hname).
  { rewrite Hh, length_app. lia. }
  rewrite <-Hh, Hl in Hp. rewrite Hp. destruct p as [p|]; [|done].
  destruct (Hname p eq_refl) as (n & rest & -> & Hwn & ->).
  destruct (Z.ltb_spec (zlen q) (zlen pre + zlen n + 4)) as [Hlt|Hge]; [done|]. destruct Hno.
  rewrite Hh, !length_app in Hge.
  destruct (split_word16 rest) as (t & r1 & Ht & ->); [lia|]. rewrite length_app, length_word16 in Hge.
  destruct (split_word16 r1) as (c & r2 & Hcl & ->); [lia|]. by exists n, t, c, r2.
Qed.

(** Every query is in one of the cases. *)
Lemma replies_total q : exists r, replies q r.
Proof.
  destruct (Z.lt_ge_cases (zlen q) 12) as [Hs|Hs]; [by exists None; apply replies_short|].
  destruct (has_header_exists q Hs) as (h & b & Hh).
  destruct (h_response h) eqn:Hr; [by eexists; eapply replies_response|].
  destruct (decide (h_opcode h = 0)) as [Ho|Ho]; [|by eexists; eapply replies_opcode].
  destruct (decide (h_questions h = 0)) as [Hc|Hc]; [by eexists; eapply replies_none|].
  destruct (Z.lt_ge_cases 1 (h_questions h)) as [Hc1|Hc1]; [by eexists; eapply replies_many|].
  assert (Hone : h_questions h = 1).
  { destruct Hh as (w & m & _ & _ & _ & _ & Hn & _). lia. }
  destruct (is_question_dec b) as [(n & t & c & rest & Hb)|Hno]; [|by eexists; eapply replies_format].
  destruct (decide (c = classIN)) as [->|Hcl]; [|by eexists; eapply replies_class].
  destruct (decide (map lower n = recordName)) as [Hnm|Hnm]; [|by eexists; eapply replies_name].
  destruct (decide (t = typeA)) as [->|Ht]; [by eexists; eapply replies_address|by eexists; eapply replies_empty].
Qed.

Lemma replies_makeResponse q r : replies q r -> makeResponse q = Some r.
Proof.
  assert (Hask : forall h b n t c rest, has_header q h b -> h_response h = false -> h_opcode h = 0 ->
    h_questions h = 1 -> is_question b n t c rest ->
    makeResponse q = Some (Some (
      if negb (c =? classIN) then reply h false 4 (n ++ word16 t ++ word16 c) [] 0
      else if negb (bool_decide (map lower n = recordName)) then reply h true 3 (n ++ word16 t ++ word16 c) [] 0
      else if t =? typeA then reply h true 0 (n ++ word16 t ++ word16 c) address_record 1
      else reply h true 0 (n ++ word16 t ++ word16 c) [] 0))).
  { intros h b n t c rest (w & m & Hq & Hid & Hm & Hw & Hn & Hf) Hr Ho Hc Hb.
    rewrite (makeResponse_question q b h w m Hq Hid Hm Hw Hn Hf n t c rest Hr Ho Hc Hb).
    pose proof (choose_ok h w Hw Hf t c n Ho) as H.
    destruct (choose w t c n) as [[flags answer] k]. by rewrite H. }
  assert (Hhead : forall h b, has_header q h b -> h_response h = true \/ h_opcode h <> 0 \/ h_questions h <> 1 ->
    makeResponse q =
      if h_response h then Some None
      else if negb (h_opcode h =? 0) then Some (Some (refusal h 4))
      else if 1 <? h_questions h then Some (Some (refusal h 1)) else Some None).
  { intros h b (w & m & Hq & Hid & Hm & Hw & Hn & Hf) Hcase.
    rewrite (makeResponse_head q b h w m Hq Hid Hm Hw Hn Hf).
    destruct (h_response h); [done|]. destruct (Z.eqb_spec (h_opcode h) 0) as [E|E]; [|done]. cbn [negb].
    destruct (Z.ltb_spec 1 (h_questions h)); [done|].
    rewrite (proj2 (Z.eqb_eq _ _)); [done|]. destruct Hcase as [Hc|[Hc|Hc]]; [done|done|lia]. }
  intros [Hs|h b Hh Hr|h b Hh Hr Ho|h b Hh Hr Ho Hc|h b Hh Hr Ho Hc|h b Hh Hr Ho Hc Hno|
          h b n t c rest Hh Hr Ho Hc Hb Hcl|h b n t rest Hh Hr Ho Hc Hb Hnm|
          h b n rest Hh Hr Ho Hc Hb Hnm|h b n t rest Hh Hr Ho Hc Hb Hnm Ht].
  - unfold makeResponse. by rewrite (proj2 (Z.ltb_lt _ _)).
  - rewrite (Hhead h b) by auto. by rewrite Hr.
  - rewrite (Hhead h b) by auto. rewrite Hr. by rewrite (proj2 (Z.eqb_neq _ _)).
  - rewrite (Hhead h b) by (auto with lia). by rewrite Hr, Ho, Hc.
  - rewrite (Hhead h b) by (auto with lia). rewrite Hr, Ho. by rewrite (proj2 (Z.ltb_lt _ _)).
  - by apply (makeResponse_format q h b).
  - rewrite (Hask h b n t c rest) by done. by rewrite (proj2 (Z.eqb_neq _ _)).
  - rewrite (Hask h b n t classIN rest) by done. rewrite bool_decide_false by done. reflexivity.
  - rewrite (Hask h b n typeA classIN rest) by done. rewrite bool_decide_true by done. reflexivity.
  - rewrite (Hask h b n t classIN rest) by done. rewrite bool_decide_true by done.
    rewrite (proj2 (Z.eqb_neq t _)) by done. reflexivity.
Qed.
