(* ===== verification/DnsClient.v ===== *)
(** * The DNS resolver of http-server/client.py

    [DNSResolver] and its helpers: the query it builds, the reply it reads.  The
    nameserver is a parameter: the datagram that comes back for the one that is
    sent, [None] for an [OSError], which a timeout is.  Then the resolver against
    the server of [DnsServer]. *)

From S2P Require Import Prelude CLib GoLib PyLib DnsServer.
Local Open Scope Z_scope.
Local Open Scope py_scope.

(** ** Names *)

Definition DNS_HEADER_SIZE : Z := 12.
Definition DNS_TYPE_A : Z := 1.
Definition DNS_CLASS_IN : Z := 1.

(** [struct.pack("!H", z)] *)
Definition pack16 (z : Z) : list byte := [chr (z / 256); chr (z mod 256)].

(** The loop over the labels, from the first one on. *)
Fixpoint encode_labels (labels : list pystr) : pyres (list byte) :=
  match labels with
  | [] => Value [NUL]
  | label :: labels =>
      match encode_ascii label with
      | None => Raise ValueError "DNS names must use ASCII labels"
      | Some label_bytes =>
          if 63 <? zlen label_bytes then Raise ValueError "DNS labels are limited to 63 bytes"
          else
            let! rest := encode_labels labels in
            Value (chr (zlen label_bytes) :: label_bytes ++ rest)
      end
  end.

Definition DOT : Z := 46.

Definition host_labels (host : pystr) : list pystr := py_split DOT (py_rstrip [DOT] host).

Definition encode_dns_name (host : pystr) : pyres (list byte) :=
  let labels := host_labels host in
  if bool_decide (host = []) || existsb (fun label => bool_decide (label = [])) labels
  then Raise ValueError "Invalid DNS name"
  else encode_labels labels.

Definition build_dns_query (host : pystr) (transaction_id : Z) : pyres (list byte) :=
  let header := pack16 transaction_id ++ pack16 0x0100 ++ pack16 1 ++ pack16 0 ++ pack16 0 ++ pack16 0 in
  let! name := encode_dns_name host in
  let question := name ++ pack16 DNS_TYPE_A ++ pack16 DNS_CLASS_IN in
  Value (header ++ question).

(** ** Replies *)

(** [struct.unpack("!H...", b)], a number for every two bytes. *)
Fixpoint unpack16 (b : list byte) : option (list Z) :=
  match b with
  | [] => Some []
  | a :: c :: r => match unpack16 r with Some zs => Some (uchar a * 256 + uchar c :: zs) | None => None end
  | _ => None
  end.

(** [packet[position]], for a position that is not negative. *)
Definition byte_at (packet : list byte) (position : Z) : pyres Z :=
  match packet !! Z.to_nat position with Some b => Value (uchar b) | None => Raise IndexError "index out of range" end.

(** The loop of [_skip_dns_name]; it takes at most one turn for every byte
    ([parse_dns_address_raises]), more turns raise what it never raises. *)
Fixpoint skip_dns_name (fuel : nat) (packet : list byte) (position : Z) : pyres Z :=
  match fuel with
  | O => Raise IndexError "out of fuel"
  | S fuel =>
      if zlen packet <=? position then Raise ValueError "truncated DNS name"
      else
        let! length := byte_at packet position in
        if length =? 0 then Value (position + 1)
        else if Z.land length 0xC0 =? 0xC0 then
          if zlen packet <? position + 2 then Raise ValueError "truncated DNS pointer" else Value (position + 2)
        else if negb (Z.land length 0xC0 =? 0) then Raise ValueError "invalid DNS label"
        else
          let position := position + 1 in
          if zlen packet <? position + length then Raise ValueError "truncated DNS label"
          else skip_dns_name fuel packet (position + length)
  end.

Definition skip_name_in (packet : list byte) (position : Z) : pyres Z :=
  skip_dns_name (S (length packet)) packet position.

(** [socket.inet_ntoa] *)
Definition inet_ntoa (b : list byte) : pyres pystr :=
  match b with
  | [b1; b2; b3; b4] =>
      Value (map uchar (decimal (uchar b1) ++ lit "." ++ decimal (uchar b2) ++ lit "." ++
                        decimal (uchar b3) ++ lit "." ++ decimal (uchar b4)))
  | _ => Raise OSError "packed IP wrong length"
  end.

(** The loop over the answers. *)
Fixpoint find_address (answer_count : nat) (packet : list byte) (position : Z) : pyres pystr :=
  match answer_count with
  | O => Raise ValueError "DNS response did not contain an IPv4 address"
  | S answer_count =>
      let! position := skip_name_in packet position in
      if zlen packet <? position + 10 then Raise ValueError "truncated DNS answer"
      else
        match unpack16 (py_slice packet position (position + 10)) with
        | Some [record_type; record_class; _; _; data_length] =>    (* the TTL has four bytes *)
            let position := position + 10 in
            if zlen packet <? position + data_length then Raise ValueError "truncated DNS answer data"
            else if (record_type =? DNS_TYPE_A) && (record_class =? DNS_CLASS_IN) && (data_length =? 4)
            then inet_ntoa (py_slice packet position (position + data_length))
            else find_address answer_count packet (position + data_length)
        | _ => Raise StructError "unpack requires a buffer of 10 bytes"
        end
  end.

Definition parse_dns_address (packet : list byte) (transaction_id : Z) : pyres pystr :=
  if zlen packet <? DNS_HEADER_SIZE then Raise ValueError "truncated DNS response"
  else
    match unpack16 (py_slice packet 0 DNS_HEADER_SIZE) with
    | Some [response_id; flags; question_count; answer_count; _; _] =>
        if negb (response_id =? transaction_id) then Raise ValueError "unexpected DNS transaction ID"
        else if (Z.land flags 0x8000 =? 0) || negb (Z.land flags 0x000F =? 0)
        then Raise ValueError "DNS response was not successful"
        else if negb (question_count =? 1) then Raise ValueError "DNS response did not contain one question"
        else
          let! position := skip_name_in packet DNS_HEADER_SIZE in
          if zlen packet <? position + 4 then Raise ValueError "truncated DNS question"
          else find_address (Z.to_nat answer_count) packet (position + 4)
    | _ => Raise StructError "unpack requires a buffer of 12 bytes"
    end.

(** ** The resolver *)

Definition RESOLVER_ID : Z := 0x1234.

Section resolver.
Context (nameserver : list byte -> option (list byte)).

(** [DNSResolver.resolve] *)
Definition resolve (host : pystr) : pyres pystr :=
  let! query := build_dns_query host RESOLVER_ID in
  match nameserver query with
  | None => Raise OSError "timed out"
  | Some response => parse_dns_address (take 512 response) RESOLVER_ID
  end.
End resolver.

(** ** Every reply is read or refused *)

Definition raises {A} (e : exc) (r : pyres A) : Prop := match r with Value _ => True | Raise e' _ => e' = e end.

Lemma unpack16_length n b : length b = (n + n)%nat -> exists zs, unpack16 b = Some zs /\ length zs = n.
Proof.
  revert b. induction n as [|n IH]; intros b Hb.
  - destruct b; [|done]. by exists [].
  - destruct b as [|a [|c b]]; simpl in Hb; [lia..|]. destruct (IH b) as (zs & E & Hl); [lia|].
    exists (uchar a * 256 + uchar c :: zs). cbn [unpack16]. rewrite E. split; [done|]. simpl. lia.
Qed.

Lemma unpack16_range b zs : unpack16 b = Some zs -> Forall (fun z => 0 <= z < 65536) zs.
Proof.
  remember (length b) as n eqn:Hn. revert b zs Hn.
  induction n as [n IH] using lt_wf_ind. intros [|a [|c b]] zs Hn H; simpl in *; simplify_eq; [constructor|].
  destruct (unpack16 b) as [zs'|] eqn:E; [|done]. injection H as <-.
  pose proof (uchar_range a). pose proof (uchar_range c). constructor; [lia|]. eapply IH; [|done|done]. lia.
Qed.

Lemma byte_at_ok packet position : 0 <= position < zlen packet ->
  exists b, packet !! Z.to_nat position = Some b /\ byte_at packet position = Value (uchar b).
Proof.
  intros Hp. destruct (lookup_lt_is_Some_2 packet (Z.to_nat position)) as [b Hb]; [lia|].
  exists b. unfold byte_at. by rewrite Hb.
Qed.

(** A name ends after at most its bytes, at a position inside the packet. *)
Lemma skip_dns_name_raises fuel packet position :
  0 <= position <= zlen packet -> zlen packet - position < Z.of_nat fuel ->
  match skip_dns_name fuel packet position with
  | Value p => position < p <= zlen packet
  | Raise e _ => e = ValueError
  end.
Proof.
  revert position. induction fuel as [|fuel IH]; intros position Hp Hf; cbn [skip_dns_name].
  - lia.
  - destruct (Z.leb_spec (zlen packet) position) as [|Hlt]; [done|].
    destruct (byte_at_ok packet position) as (b & _ & ->); [lia|]. pose proof (uchar_range b).
    destruct (Z.eqb_spec (uchar b) 0); [lia|]. destruct (_ =? 0xC0).
    { destruct (Z.ltb_spec (zlen packet) (position + 2)); [done|lia]. }
    destruct (negb _); [done|]. destruct (Z.ltb_spec (zlen packet) (position + 1 + uchar b)) as [|Hle]; [done|].
    specialize (IH (position + 1 + uchar b) ltac:(lia) ltac:(lia)). destruct (skip_dns_name _ _ _); [lia|done].
Qed.

Lemma skip_name_in_raises packet position :
  0 <= position <= zlen packet ->
  match skip_name_in packet position with
  | Value p => position < p <= zlen packet
  | Raise e _ => e = ValueError
  end.
Proof. intros Hp. apply skip_dns_name_raises; lia. Qed.

Lemma length_py_slice {A} (s : list A) lo hi : 0 <= lo <= hi -> hi <= zlen s -> zlen (py_slice s lo hi) = hi - lo.
Proof. intros. unfold py_slice. rewrite length_take, length_drop. lia. Qed.

Lemma find_address_raises n packet position :
  0 <= position <= zlen packet -> raises ValueError (find_address n packet position).
Proof.
  revert position. induction n as [|n IH]; intros position Hp; cbn [find_address]; [done|].
  pose proof (skip_name_in_raises packet position Hp) as Hs.
  destruct (skip_name_in packet position) as [p|e m]; [|done].
  destruct (Z.ltb_spec (zlen packet) (p + 10)); [done|].
  destruct (unpack16_length 5 (py_slice packet p (p + 10))) as (zs & E & Hl).
  { apply Nat2Z.inj. rewrite length_py_slice; lia. }
  rewrite E. apply unpack16_range in E. destruct zs as [|ty [|cl [|t1 [|t2 [|len [|]]]]]]; try done.
  rewrite !Forall_cons in E. destruct E as (_ & _ & _ & _ & Hlen & _).
  destruct (Z.ltb_spec (zlen packet) (p + 10 + len)); [done|].
  destruct (_ && _ && _) eqn:Eq; [|apply IH; lia].
  rewrite !andb_true_iff, Z.eqb_eq in Eq. destruct Eq as [_ Eq].
  assert (Hd : zlen (py_slice packet (p + 10) (p + 10 + len)) = 4) by (rewrite length_py_slice; lia).
  destruct (py_slice packet (p + 10) (p + 10 + len)) as [|? [|? [|? [|? [|]]]]]; simpl in Hd; try lia. done.
Qed.

Lemma parse_dns_address_raises packet transaction_id : raises ValueError (parse_dns_address packet transaction_id).
Proof.
  unfold parse_dns_address, DNS_HEADER_SIZE. destruct (Z.ltb_spec (zlen packet) 12); [done|].
  destruct (unpack16_length 6 (py_slice packet 0 12)) as (zs & E & Hl).
  { apply Nat2Z.inj. rewrite length_py_slice; lia. }
  rewrite E. destruct zs as [|z1 [|z2 [|z3 [|z4 [|z5 [|z6 [|]]]]]]]; try done.
  repeat (case_match; [done|]). pose proof (skip_name_in_raises packet 12 ltac:(lia)) as Hs.
  destruct (skip_name_in packet 12) as [p|e m]; [|done].
  destruct (Z.ltb_spec (zlen packet) (p + 4)); [done|]. apply find_address_raises. lia.
Qed.

(** ** Names on the wire *)

Fixpoint wire (labels : list (list byte)) : list byte :=
  match labels with [] => [NUL] | l :: ls => chr (zlen l) :: l ++ wire ls end.

Definition label_ok (l : list byte) : Prop := 0 < zlen l < 64.

Lemma wire_wire_name ls : Forall label_ok ls -> wire_name (wire ls).
Proof.
  induction 1 as [|l ls Hl Hls IH]; cbn [wire]; [constructor|].
  unfold label_ok in Hl. constructor; [rewrite uchar_chr; lia|lia|done].
Qed.

Lemma wire_inj ls ls' : Forall label_ok ls -> Forall label_ok ls' -> wire ls = wire ls' -> ls = ls'.
Proof.
  assert (Hnul : forall l, label_ok l -> chr (zlen l) <> NUL).
  { intros l Hl E. unfold label_ok in Hl. apply (f_equal uchar) in E. rewrite uchar_chr in E by lia.
    change (uchar NUL) with 0 in E. lia. }
  intros H. revert ls'. induction H as [|l ls Hl Hls IH]; intros [|l' ls'] H' E; cbn [wire] in E; [done|..].
  - inversion H' as [|? ? Hl' _]; subst. injection E as E _. by destruct (Hnul l' Hl').
  - injection E as E _. by destruct (Hnul l Hl).
  - inversion H' as [|? ? Hl' Hls']; subst. injection E as E E'.
    assert (Hlen : length l = length l').
    { unfold label_ok in *. apply (f_equal uchar) in E. rewrite !uchar_chr in E by lia. lia. }
    apply app_inj_1 in E' as [-> E']; [|done]. f_equal. by apply IH.
Qed.

(** The bytes of an encoded name. *)
Lemma encode_labels_ok labels n :
  Forall (fun l => l <> []) labels -> encode_labels labels = Value n ->
  Forall label_ok (map (map chr) labels) /\ Forall (Forall (fun c => 0 <= c < 128)) labels /\
  n = wire (map (map chr) labels).
Proof.
  intros Hne. revert n. induction Hne as [|l ls Hl Hls IH]; intros n; cbn [encode_labels map wire].
  - intros [= <-]. by split; [|split].
  - unfold encode_ascii. destruct (forallb _ l) eqn:Ha; [|done].
    destruct (Z.ltb_spec 63 (zlen (map chr l))) as [|Hle]; [done|].
    destruct (encode_labels ls) as [r|]; [|done]. intros [= <-].
    destruct (IH r eq_refl) as (H1 & H2 & ->). split; [|split; [|done]].
    + constructor; [|done]. unfold label_ok. rewrite length_map in *. destruct l; [done|]. simpl in *. lia.
    + constructor; [|done]. rewrite forallb_forall in Ha. apply Forall_forall. intros c Hc.
      apply list_elem_of_In, Ha in Hc. rewrite andb_true_iff, Z.leb_le, Z.ltb_lt in Hc. lia.
Qed.

Lemma encode_dns_name_ok host n :
  encode_dns_name host = Value n ->
  Forall label_ok (map (map chr) (host_labels host)) /\
  Forall (Forall (fun c => 0 <= c < 128)) (host_labels host) /\ n = wire (map (map chr) (host_labels host)).
Proof.
  unfold encode_dns_name. destruct (bool_decide _ || _) eqn:E; [done|]. apply orb_false_iff in E as [_ E].
  apply encode_labels_ok. apply Forall_forall. intros l Hl ->.
  apply not_true_iff_false in E. destruct E. apply existsb_exists. exists []. split; [by apply list_elem_of_In|done].
Qed.

(** *** Case *)

Definition lower_point (c : Z) : Z := if (65 <=? c) && (c <=? 90) then c + 32 else c.

Lemma lower_chr c : 0 <= c < 128 -> lower (chr c) = chr (lower_point c).
Proof.
  intros Hc. unfold lower, lower_point. rewrite uchar_chr by lia. by destruct (_ && _).
Qed.

Lemma lower_small b : uchar (lower b) < 97 -> lower b = b.
Proof.
  unfold lower. destruct ((65 <=? uchar b) && (uchar b <=? 90)) eqn:E; [|done].
  rewrite andb_true_iff, !Z.leb_le in E. rewrite uchar_chr by lia. lia.
Qed.

Lemma lower_wire ls : Forall label_ok ls -> map lower (wire ls) = wire (map (map lower) ls).
Proof.
  induction 1 as [|l ls Hl Hls IH]; [done|]. cbn [wire map]. unfold label_ok in Hl.
  rewrite map_app, IH, length_map. f_equal. rewrite lower_chr by lia. unfold lower_point.
  destruct ((65 <=? zlen l) && (zlen l <=? 90)) eqn:E; [|done]. rewrite andb_true_iff, !Z.leb_le in E. lia.
Qed.

Lemma map_chr_inj (s t : list Z) :
  Forall (fun c => 0 <= c < 128) s -> Forall (fun c => 0 <= c < 128) t -> map chr s = map chr t -> s = t.
Proof.
  intros Hs. revert t. induction Hs as [|c s Hc Hs IH]; intros [|d t] Ht E; try done.
  inversion Ht as [|? ? Hd Ht']; subst. cbn [map] in E. injection E as E E'.
  apply (f_equal uchar) in E. rewrite !uchar_chr in E by lia. f_equal; [done|]. by apply IH.
Qed.

Lemma map_lower_chr (s : list Z) :
  Forall (fun c => 0 <= c < 128) s -> map lower (map chr s) = map chr (map lower_point s).
Proof. induction 1 as [|c s Hc Hs IH]; [done|]. cbn [map]. by rewrite lower_chr, IH. Qed.

Lemma lower_point_range s : Forall (fun c => 0 <= c < 128) s -> Forall (fun c => 0 <= c < 128) (map lower_point s).
Proof.
  induction 1; constructor; [|done]. unfold lower_point.
  destruct ((65 <=? x) && (x <=? 90)) eqn:E; [|lia]. rewrite andb_true_iff, !Z.leb_le in E. lia.
Qed.

Lemma split_lower s : py_split DOT (map lower_point s) = map (map lower_point) (py_split DOT s).
Proof.
  induction s as [|c s IH]; [done|]. cbn [map py_split]. unfold DOT in *.
  assert (E : lower_point c = 46 <-> c = 46).
  { unfold lower_point. destruct ((65 <=? c) && (c <=? 90)) eqn:E; [|done]. rewrite andb_true_iff, !Z.leb_le in E. lia. }
  rewrite IH. repeat case_decide; try tauto. by destruct (py_split 46 s).
Qed.

Lemma text_chr s :
  forallb (fun b => uchar b <? 128) (lit s) = true ->
  map chr (text s) = lit s /\ Forall (fun c => 0 <= c < 128) (text s).
Proof.
  unfold text. induction (lit s) as [|b bs IH]; [by split|]. cbn [forallb map].
  rewrite andb_true_iff, Z.ltb_lt. intros [Hb Hbs]. destruct (IH Hbs) as [E Hf].
  pose proof (uchar_range b). rewrite E, (uchar_inj (chr (uchar b)) b) by (by rewrite uchar_chr). split; [done|]. constructor; [lia|done].
Qed.

(** The name that the server knows, as the client writes it. *)
Lemma known_name host n :
  encode_dns_name host = Value n ->
  map lower n = recordName <-> map lower_point (py_rstrip [DOT] host) = text "app.local".
Proof.
  intros (Hok & Hascii & ->)%encode_dns_name_ok.
  assert (Hrec : recordName = wire [lit "app"; lit "local"]) by (vm_compute; reflexivity).
  assert (Hsplit : py_split DOT (text "app.local") = [text "app"; text "local"]) by (vm_compute; reflexivity).
  assert (Happ : map chr (text "app") = lit "app" /\ Forall (fun c => 0 <= c < 128) (text "app")) by by apply text_chr.
  assert (Hlocal : map chr (text "local") = lit "local" /\ Forall (fun c => 0 <= c < 128) (text "local")) by by apply text_chr.
  rewrite lower_wire, Hrec by done.
  assert (Hmap : map (map lower) (map (map chr) (host_labels host)) = map (map chr) (map (map lower_point) (host_labels host))).
  { rewrite !map_map. apply map_ext_in. intros l Hl%list_elem_of_In. apply map_lower_chr.
    rewrite Forall_forall in Hascii. by apply Hascii. }
  rewrite Hmap. unfold host_labels in *. rewrite <-split_lower in *. split.
  - intros E. apply wire_inj in E.
    + assert (E' : py_split DOT (map lower_point (py_rstrip [DOT] host)) = [text "app"; text "local"]).
      { assert (Hlow : Forall (Forall (fun c => 0 <= c < 128)) (py_split DOT (map lower_point (py_rstrip [DOT] host)))).
        { rewrite split_lower. apply Forall_map. eapply Forall_impl; [exact Hascii|]. apply lower_point_range. }
        destruct (py_split DOT (map _ _)) as [|a [|b [|]]]; try done. cbn [map] in E. injection E as Ea Eb.
        rewrite !Forall_cons in Hlow. destruct Hlow as (Ha & Hb & _).
        rewrite <-(proj1 Happ) in Ea. rewrite <-(proj1 Hlocal) in Eb.
        by rewrite (map_chr_inj _ _ Ha (proj2 Happ) Ea), (map_chr_inj _ _ Hb (proj2 Hlocal) Eb). }
      rewrite <-(py_join_split DOT (map _ _)), E'. vm_compute. reflexivity.
    + rewrite <-Hmap. apply Forall_map. eapply Forall_impl; [exact Hok|]. intros l Hl. unfold label_ok in *. by rewrite length_map.
    + repeat constructor; done.
  - intros E. rewrite E, Hsplit. vm_compute. reflexivity.
Qed.

(** ** The resolver against the server *)

(** The server of [DnsServer], over a network that loses nothing. *)
Definition local_nameserver (query : list byte) : option (list byte) :=
  match serve_datagram (Some query) with Some (Some response) => Some response | _ => None end.

(** The header of a query. *)
Definition query_header : dns_header := DnsHeader (pack16 RESOLVER_ID) false 0 false true 0 1 0.

Lemma query_has_header b :
  has_header (pack16 RESOLVER_ID ++ pack16 0x0100 ++ pack16 1 ++ pack16 0 ++ pack16 0 ++ pack16 0 ++ b) query_header b.
Proof. exists 0x0100, (pack16 0 ++ pack16 0 ++ pack16 0). repeat split; try done. Qed.

(** A reply with an error code is not read further. *)
Definition failed_header (b : list byte) : bool :=
  match unpack16 b with
  | Some [i; flags; _; _; _; _] =>
      (i =? RESOLVER_ID) && ((Z.land flags 0x8000 =? 0) || negb (Z.land flags 0x000F =? 0))
  | _ => false
  end.

Lemma parse_failed b s :
  length b = 12%nat -> failed_header b = true ->
  parse_dns_address (take 512 (b ++ s)) RESOLVER_ID = Raise ValueError "DNS response was not successful".
Proof.
  intros Hl Hb. rewrite take_app, (take_ge b) by lia. unfold parse_dns_address, DNS_HEADER_SIZE.
  rewrite (proj2 (Z.ltb_ge _ _)) by (rewrite length_app; lia).
  assert (Hs : py_slice (b ++ take (512 - length b) s) 0 12 = b).
  { unfold py_slice. change (Z.to_nat (12 - 0)) with 12%nat. rewrite drop_0. by apply take_app_length'. }
  rewrite Hs. unfold failed_header in Hb. destruct (unpack16 b) as [[|i [|flags [|z1 [|z2 [|z3 [|z4 [|]]]]]]]|]; try done.
  apply andb_true_iff in Hb as [Hi Hf]. by rewrite Hi, Hf.
Qed.

(** The reply to a query is not longer than the query, unless it has the address. *)
Lemma recordName_shape n :
  map lower n = recordName ->
  exists a1 a2 a3 b1 b2 b3 b4 b5, n = [chr 3; a1; a2; a3; chr 5; b1; b2; b3; b4; b5; NUL].
Proof.
  intros E. assert (Hl : length n = 11%nat) by (rewrite <-(length_map lower), E; vm_compute; reflexivity).
  assert (Hat : forall i c, n !! i = Some c -> recordName !! i = Some (lower c)).
  { intros i c Hc. rewrite <-E. by apply list_lookup_fmap_Some_2. }
  destruct n as [|c0 [|c1 [|c2 [|c3 [|c4 [|c5 [|c6 [|c7 [|c8 [|c9 [|c10 [|]]]]]]]]]]]]; try done.
  pose proof (Hat 0%nat c0 eq_refl) as H0. pose proof (Hat 4%nat c4 eq_refl) as H4.
  pose proof (Hat 10%nat c10 eq_refl) as H10. vm_compute (recordName !! _) in H0, H4, H10.
  assert (Hlow : forall c d, Some d = Some (lower c) -> uchar d < 97 -> c = d).
  { intros c d [= ->] Hd. symmetry. by apply lower_small. }
  apply Hlow in H0; [|done]. apply Hlow in H4; [|done]. apply Hlow in H10; [|done]. subst.
  by repeat eexists.
Qed.

(** The address, whatever the case of the name in the question. *)
Lemma parse_address n :
  map lower n = recordName ->
  parse_dns_address (take 512 (reply query_header true 0 (n ++ word16 typeA ++ word16 classIN) address_record 1)) RESOLVER_ID =
  Value (text "127.0.0.1").
Proof.
  intros (a1 & a2 & a3 & b1 & b2 & b3 & b4 & b5 & ->)%recordName_shape. vm_compute. reflexivity.
Qed.

(** The name in a datagram that was cut off is not found. *)
Lemma cut_question n t c :
  wire_name n -> 0 <= t < 65536 -> 0 <= c < 65536 -> forall m, (m < length (n ++ word16 t ++ word16 c))%nat ->
  ~ exists n' t' c' rest, is_question (take m (n ++ word16 t ++ word16 c)) n' t' c' rest.
Proof.
  intros Hn Ht Hc m Hm (n' & t' & c' & rest & Hq). set (b := n ++ word16 t ++ word16 c) in *.
  assert (Hb : is_question b n t c []) by (split; [by rewrite app_nil_r|done]).
  assert (Hb' : is_question b n' t' c' (rest ++ drop m b)).
  { destruct Hq as (E & Hq). split; [|done]. rewrite <-(take_drop m b) at 1. rewrite E. by rewrite <-!app_assoc. }
  apply is_question_end in Hb as [H1 _]. apply is_question_end in Hb' as [H2 _].
  apply is_question_end in Hq as [_ Hlen]. rewrite H1 in H2. injection H2 as H2.
  rewrite length_take in Hlen. unfold b in *. rewrite !length_app, !length_word16 in *. lia.
Qed.

(** What the resolver makes of the server's reply. *)
Lemma resolve_reply n :
  wire_name n ->
  match local_nameserver (pack16 RESOLVER_ID ++ pack16 0x0100 ++ pack16 1 ++ pack16 0 ++ pack16 0 ++ pack16 0 ++
                          n ++ pack16 DNS_TYPE_A ++ pack16 DNS_CLASS_IN) with
  | Some response => parse_dns_address (take 512 response) RESOLVER_ID
  | None => Raise OSError "timed out"
  end =
  if bool_decide (map lower n = recordName) then Value (text "127.0.0.1")
  else Raise ValueError "DNS response was not successful".
Proof.
  intros Hn. set (b := n ++ pack16 DNS_TYPE_A ++ pack16 DNS_CLASS_IN).
  set (pre := pack16 RESOLVER_ID ++ pack16 0x0100 ++ pack16 1 ++ pack16 0 ++ pack16 0 ++ pack16 0).
  assert (Epre : pack16 RESOLVER_ID ++ pack16 0x0100 ++ pack16 1 ++ pack16 0 ++ pack16 0 ++ pack16 0 ++ b = pre ++ b).
  { unfold pre. by rewrite <-!app_assoc. }
  rewrite Epre. assert (Hpre : length pre = 12%nat) by done.
  unfold local_nameserver, serve_datagram.
  assert (Hhead : has_header (pre ++ take 500 b) query_header (take 500 b)).
  { unfold pre. rewrite <-!app_assoc. apply query_has_header. }
  rewrite take_app, (take_ge pre) by lia. change (512 - length pre)%nat with 500%nat.
  destruct (Nat.lt_ge_cases 500 (length b)) as [Hlong|Hshort].
  - rewrite (replies_makeResponse _ _ (replies_format _ _ _ Hhead eq_refl eq_refl eq_refl (cut_question n 1 1 Hn ltac:(lia) ltac:(lia) 500 Hlong))).
    unfold refusal. rewrite <-(app_nil_r (header_bytes _)).
    rewrite parse_failed by (vm_compute; reflexivity). rewrite bool_decide_false; [done|].
    intros E. apply (f_equal length) in E. rewrite length_map in E. change (length recordName) with 11%nat in E.
    unfold b in Hlong. rewrite length_app in Hlong. cbn [length app pack16] in Hlong. lia.
  - rewrite (take_ge b) in * by lia.
    assert (Hq : is_question b n typeA classIN []) by (split; [unfold b; by rewrite app_nil_r|done]).
    case_bool_decide as E.
    + rewrite (replies_makeResponse _ _ (replies_address _ _ _ _ _ Hhead eq_refl eq_refl eq_refl Hq E)).
      by apply parse_address.
    + rewrite (replies_makeResponse _ _ (replies_name _ _ _ _ _ _ Hhead eq_refl eq_refl eq_refl Hq E)).
      unfold reply. rewrite parse_failed by (vm_compute; reflexivity). done.
Qed.

Lemma resolve_local host :
  resolve local_nameserver host =
  let! _ := encode_dns_name host in
  if bool_decide (map lower_point (py_rstrip [DOT] host) = text "app.local") then Value (text "127.0.0.1")
  else Raise ValueError "DNS response was not successful".
Proof.
  unfold resolve, build_dns_query. destruct (encode_dns_name host) as [n|e m] eqn:E; [|done].
  pose proof (known_name host n E) as Hk. destruct (encode_dns_name_ok host n E) as (Hok & _ & Hn).
  rewrite <-!app_assoc. rewrite resolve_reply by (rewrite Hn; by apply wire_wire_name).
  by rewrite (bool_decide_ext _ _ Hk).
Qed.

(** A label that is a short text but for its case is encoded. *)
Lemma encode_label_lower label s rest n :
  map lower_point label = s -> forallb (fun c => (97 <=? c) && (c <? 128)) s = true -> zlen s <= 63 ->
  encode_labels rest = Value n -> exists m, encode_labels (label :: rest) = Value m.
Proof.
  intros <- Hs Hl Hrest. rewrite length_map in Hl. cbn [encode_labels].
  assert (E : encode_ascii label = Some (map chr label)).
  { unfold encode_ascii. assert (Ha : forallb (fun c => (0 <=? c) && (c <? 128)) label = true); [|by rewrite Ha].
    revert Hs. rewrite !forallb_forall. intros H c Hc. specialize (H (lower_point c) (in_map lower_point _ _ Hc)).
    revert H. unfold lower_point. destruct ((65 <=? c) && (c <=? 90)) eqn:Er; lia. }
  rewrite E, length_map, (proj2 (Z.ltb_ge 63 _)) by lia. rewrite Hrest. by eexists.
Qed.

(** A host that is the server's name is encoded. *)
Lemma local_host_encoded host :
  map lower_point (py_rstrip [DOT] host) = text "app.local" -> exists n, encode_dns_name host = Value n.
Proof.
  intros H. apply (f_equal (py_split DOT)) in H. rewrite split_lower in H.
  assert (E : py_split DOT (text "app.local") = [text "app"; text "local"]) by (vm_compute; reflexivity). rewrite E in H.
  unfold encode_dns_name. cbn zeta. fold (host_labels host) in H.
  destruct (host_labels host) as [|l1 [|l2 [|]]] eqn:Eh; try discriminate H. injection H as H1 H2.
  assert (Hne : host <> []) by (intros ->; discriminate Eh).
  assert (Hl1 : l1 <> []) by by intros ->. assert (Hl2 : l2 <> []) by by intros ->.
  cbn [existsb]. rewrite !bool_decide_false by done. cbn [orb].
  destruct (encode_label_lower l2 (text "local") [] [NUL] H2) as [n Hn]; [vm_compute; reflexivity|by vm_compute|reflexivity|].
  eapply (encode_label_lower l1 (text "app")); [exact H1|vm_compute; reflexivity|by vm_compute|exact Hn].
Qed.

Lemma resolve_known host :
  map lower_point (py_rstrip [DOT] host) = text "app.local" -> resolve local_nameserver host = Value (text "127.0.0.1").
Proof.
  intros H. rewrite resolve_local. destruct (local_host_encoded host H) as [n ->]. by rewrite bool_decide_true.
Qed.
