(* ===== verification/DnsMain.v ===== *)
(** * The process of the DNS server

    [main] of dns-server/server.go, and a monitor of it: a datagram that has a reply
    gets it, once, before the next is read, and no other datagram is sent. *)

From S2P Require Import Prelude CLib Effects GoLib DnsServer.
Local Open Scope Z_scope.
Local Open Scope prog_scope.

(** ** The program *)

(** A client is the address of its datagram.  [PanicError] is the panic of [main] with
    the error of its arguments or of the socket, [Panic] that of a statement. *)
Variant dnsE : Type -> Type :=
| ListenPacket (address : list byte) : dnsE bool              (* [err == nil] *)
| PrintServing (address : list byte) : dnsE unit
| ReadFrom (len : Z) : dnsE (option (list byte * Z))
| WriteTo (data : list byte) (client : Z) : dnsE unit         (* its result is not used *)
| PanicError : dnsE Empty_set
| Panic : dnsE Empty_set.

#[export] Instance dnsE_ub : HasUB dnsE := Panic.
Abbreviation dns_process := (itree dnsE).

Definition panic {A} : dns_process A := let* e := call PanicError in match e : Empty_set with end.

Definition buffer_size : Z := 512.

(** One turn of the loop. *)
Definition serve_turn (_ : unit) : dns_process (unit + Empty_set) :=
  let* received := call (ReadFrom buffer_size) in
  match received with
  | None => Ret (inl tt)
  | Some (query, client) =>
      let? response := makeResponse query in
      match response with
      | None => Ret (inl tt)
      | Some response => call (WriteTo response client) ;! Ret (inl tt)
      end
  end.

(** With the values of the flags. *)
Definition main (host : list byte) (port : Z) : dns_process Empty_set :=
  match listenAddress host port with
  | None => panic
  | Some address =>
      let* ok := call (ListenPacket address) in
      if negb ok then panic
      else
        call (PrintServing address) ;!
        ITree.iter serve_turn tt
  end.

(** ** The monitor *)

(** Whether it listens, and the datagram it was sent last and did not answer. *)
Record dns_state := DnsState { listening : bool; unanswered : option (list byte * Z) }.
Definition dns_init : dns_state := DnsState false None.

Definition dns_after A (e : dnsE A) : A -> dns_state -> dns_state :=
  match e in dnsE A return A -> dns_state -> dns_state with
  | ListenPacket _ => fun ok s => DnsState ok (unanswered s)
  | ReadFrom _ => fun r s => DnsState (listening s) r
  | WriteTo _ _ => fun _ s => DnsState (listening s) None
  | _ => fun _ s => s
  end.

(** A datagram is cut to the buffer. *)
Definition dns_answer A (e : dnsE A) : A -> Prop :=
  match e in dnsE A return A -> Prop with
  | ReadFrom len => fun r => match r with Some (data, _) => zlen data <= len | None => True end
  | _ => fun _ => True
  end.
Definition dns_step A (e : dnsE A) (s : dns_state) (a : A) (s' : dns_state) : Prop :=
  dns_answer A e a /\ s' = dns_after A e a s.

Section monitor.
Context (host : list byte) (port : Z).

Definition dns_allowed A (e : dnsE A) (s : dns_state) : Prop :=
  match e with
  | ListenPacket address => listening s = false /\ 1 <= port <= 65535 /\ address = join_host_port host (decimal port)
  | PrintServing _ => listening s = true
  | ReadFrom len =>
      listening s = true /\ len = buffer_size /\
      match unanswered s with Some (query, _) => replies query None | None => True end
  | WriteTo data client => exists query, unanswered s = Some (query, client) /\ replies query (Some data)
  | PanicError => listening s = false
  | Panic => False
  end.
#[export] Instance dns_rules : EventSpec dnsE dns_state := machine_spec dns_step dns_allowed.

Lemma wp_dns {A R} (e : dnsE A) (k : A -> dns_process R) Φ s :
  dns_allowed A e s -> (forall a, dns_answer A e a -> wp (k a) Φ (dns_after A e a s)) -> wp (ITree.bind (call e) k) Φ s.
Proof. intros Ha Hk. apply wp_machine; [exact Ha|]. intros a s' [Hans ->]. by apply Hk. Qed.

Lemma panic_wp {A} (Φ : A -> dns_state -> Prop) s : listening s = false -> wp panic Φ s.
Proof. intros H. unfold panic. apply wp_dns; [exact H|]. intros []. Qed.

(** Between two turns. *)
Definition between (_ : unit) (s : dns_state) : Prop :=
  listening s = true /\ match unanswered s with Some (query, _) => replies query None | None => True end.

Lemma serve_turn_wp s : between tt s ->
  wp (serve_turn tt) (fun r s' => match r with inl i => between i s' | inr _ => False end) s.
Proof.
  intros [Hl Hu]. unfold serve_turn. apply wp_dns; [done|]. intros [[query client]|] _; [|by apply wp_ret].
  destruct (replies_total query) as [r Hr]. rewrite (replies_makeResponse query r Hr).
  destruct r as [response|]; [|by apply wp_ret].
  apply wp_dns; [by exists query|]. intros [] _. by apply wp_ret.
Qed.

Lemma dns_main_wp : wp (main host port) (fun _ _ => False) dns_init.
Proof.
  unfold main, listenAddress. destruct (Z.ltb_spec port 1) as [H1|H1]; cbn [orb]; [by apply panic_wp|].
  destruct (Z.ltb_spec 65535 port) as [H2|H2]; [by apply panic_wp|].
  apply wp_dns; [done|]. intros [] _; [|by apply panic_wp]. cbn [negb dns_after].
  apply wp_dns; [done|]. intros [] _. cbn [dns_after]. apply (wp_iter between); [done|].
  intros [] s Hs. eapply wp_mono; [|by apply serve_turn_wp]. intros [i|[]] s' H. exact H.
Qed.
End monitor.
