(* ===== verification/DnsTheorems.v ===== *)
(** * What holds of the DNS server

    The properties of dns-server/server.go, and of the resolver of
    http-server/client.py against it. *)

From S2P Require Import Prelude CLib Effects GoLib PyLib DnsServer DnsMain DnsClient.
Local Open Scope Z_scope.
Local Open Scope py_scope.

(** ** Replies are responses *)

Lemma testbit_response w : 0x8000 <= w < 65536 -> Z.testbit w 15 = true.
Proof.
  intros Hw. apply Z.testbit_true; [lia|]. change (2 ^ 15) with 0x8000.
  by rewrite <-(Z.div_unique w 0x8000 1 (w - 0x8000)) by lia.
Qed.

(** What starts with the header of a response is not answered. *)
Lemma response_silent h s :
  length (h_id h) = 2%nat -> h_response h = true -> 0 <= h_opcode h < 16 -> 0 <= h_rcode h < 16 ->
  0 <= h_questions h < 65536 -> makeResponse (header_bytes h ++ s) = Some None.
Proof.
  intros Hid Hr Ho Hc Hn. apply replies_makeResponse.
  assert (Hw : 0x8000 <= flags_word h < 65536).
  { unfold flags_word. rewrite Hr. destruct (h_authoritative h), (h_recursion h); cbn [Z.b2z]; lia. }
  destruct (flags_of (flags_word h)) as [[[[qr op] aa] rd] rc] eqn:Hf.
  apply (replies_response _ (DnsHeader (h_id h) qr op aa rd rc (h_questions h) 0) s).
  - exists (flags_word h), (word16 (h_answers h) ++ word16 0 ++ word16 0).
    split; [unfold header_bytes; by rewrite <-!app_assoc|]. split; [done|]. split; [done|].
    split; [lia|]. by split.
  - cbn [h_response]. unfold flags_of in Hf. rewrite testbit_response in Hf by done. by injection Hf.
Qed.

Lemma has_header_bounds q h b :
  has_header q h b -> length (h_id h) = 2%nat /\ take 2 q = h_id h /\ 0 <= h_opcode h < 16 /\ zlen q = 12 + zlen b.
Proof.
  intros (w & m & -> & Hid & Hm & Hw & Hn & Hf). split; [done|]. split; [by rewrite take_app_length'|]. split.
  - unfold flags_of in Hf. injection Hf as _ <- _ _ _. change 15 with (Z.ones 4). rewrite Z.land_ones by lia.
    apply Z.mod_pos_bound. lia.
  - rewrite !length_app, !length_word16. lia.
Qed.

Lemma length_header_bytes h : length (h_id h) = 2%nat -> length (header_bytes h) = 12%nat.
Proof. intros Hid. unfold header_bytes. by rewrite !length_app, Hid. Qed.

Lemma refusal_silent q h b code :
  has_header q h b -> 0 <= code < 16 ->
  makeResponse (refusal h code) = Some None /\ take 2 (refusal h code) = take 2 q /\
  12 <= zlen (refusal h code) <= zlen q + 16.
Proof.
  intros (Hid & Ht & Ho & Hl)%has_header_bounds Hc. unfold refusal. split_and!.
  - rewrite <-(app_nil_r (header_bytes _)). by apply response_silent.
  - unfold header_bytes. cbn [h_id]. by rewrite take_app_length'.
  - rewrite length_header_bytes by done. lia.
  - rewrite length_header_bytes by done. lia.
Qed.

Lemma reply_silent q h b n t c rest aa code answer k :
  has_header q h b -> is_question b n t c rest -> 0 <= code < 16 -> zlen answer <= 16 ->
  let r := reply h aa code (n ++ word16 t ++ word16 c) answer k in
  makeResponse r = Some None /\ take 2 r = take 2 q /\ 12 <= zlen r <= zlen q + 16.
Proof.
  intros (Hid & Ht & Ho & Hl)%has_header_bounds (Hb & _) Hc Ha r. unfold r, reply. split_and!.
  - by apply response_silent.
  - unfold header_bytes. cbn [h_id]. by rewrite <-app_assoc, take_app_length'.
  - rewrite length_app, length_header_bytes by done. lia.
  - rewrite Hb, !length_app, !length_word16 in Hl.
    rewrite !length_app, length_header_bytes, !length_word16 by done. lia.
Qed.

(** ** The properties *)

(** C24: the DNS server answers every datagram as [replies] says, and never panics.
    It stays silent on what is too short, on responses and on messages without a
    question; it refuses other opcodes, several questions and a question that does
    not parse; it answers a question of class IN for app.local, in any case, with
    the address 127.0.0.1 for type A and with an empty answer for another type, and
    says that any other name does not exist. *)
Theorem dns_answers q :
  (exists r, makeResponse q = Some r) /\ (forall r, makeResponse q = Some r <-> replies q r).
Proof.
  destruct (replies_total q) as [r0 H0]. pose proof (replies_makeResponse q r0 H0) as E0.
  split; [by exists r0|]. intros r. split; [|apply replies_makeResponse]. intros E. by simplify_eq.
Qed.

(** C26: a reply of the DNS server repeats the ID of the query, is at most 16 bytes
    longer, and is itself never answered, so two servers cannot be made to send each
    other replies without end. *)
Theorem dns_no_loop q r :
  makeResponse q = Some (Some r) ->
  makeResponse r = Some None /\ take 2 r = take 2 q /\ 12 <= zlen r <= zlen q + 16.
Proof.
  destruct (replies_total q) as [r0 H]. pose proof (replies_makeResponse q r0 H) as E0.
  intros E. rewrite E0 in E. injection E as ->. inversion H; subst;
    solve [eapply refusal_silent; [eassumption|done] | eapply reply_silent; [eassumption|eassumption|done|done]].
Qed.

(** The question app.local of type A, with the name in mixed case. *)
Definition demo_query : list byte :=
  map chr [18; 52; 1; 0; 0; 1; 0; 0; 0; 0; 0; 0] ++ chr 3 :: lit "aPp" ++ chr 5 :: lit "LOCAL" ++ map chr [0; 0; 1; 0; 1].

Lemma dns_no_loop_witness :
  exists r, makeResponse demo_query = Some (Some r) /\
    (makeResponse r = Some None /\ take 2 r = take 2 demo_query /\ 12 <= zlen r <= zlen demo_query + 16).
Proof.
  destruct (makeResponse demo_query) as [[r|]|] eqn:E; [|by vm_compute in E..].
  exists r. split; [done|]. exact (dns_no_loop demo_query r E).
Defined.

(** C38: the resolver and the server understand each other.  For every host, the
    query that [DNSResolver.resolve] builds, as the server answers it, is read as
    127.0.0.1 if the host, without its trailing dots, is app.local in any case, and
    as a failure otherwise; a host that is not a name of ASCII labels of 1 to 63
    bytes is refused before anything is sent.  That holds for names too long for
    the server's buffer of 512 bytes too. *)
Theorem resolver_finds host :
  resolve local_nameserver host =
  let! _ := encode_dns_name host in
  if bool_decide (map lower_point (py_rstrip [DOT] host) = text "app.local") then Value (text "127.0.0.1")
  else Raise ValueError "DNS response was not successful".
Proof. apply resolve_local. Qed.

(** ** The process *)

(** C25: the process of the DNS server, for every host and port and whatever its socket
    does.  It panics only before it listens, or with an error of its arguments or of
    the socket; it reads a datagram of at most 512 bytes, and sends its reply, if it has
    one by [replies], to the sender, once, before it reads the next; nothing else is
    sent, and it never returns. *)
Theorem dns_process_serves host port tr u s :
  runs dns_step (main host port) dns_init tr u s ->
  (forall A (e : dnsE A) k, observe u = VisF e k -> dns_allowed host port A e s) /\
  (forall r, observe u <> RetF r).
Proof.
  intros Hr. split.
  - intros A e k Ho. exact (wp_allowed dns_step (dns_allowed host port) _ _ _ _ _ _ _ e k (dns_main_wp host port) Hr Ho).
  - intros r Ho. exact (wp_returned dns_step (dns_allowed host port) _ _ _ _ _ _ r (dns_main_wp host port) Hr Ho).
Qed.

(** The socket gives one datagram and then no more. *)
Definition one_datagram A (e : dnsE A) (s : dns_state) : option (A * dns_state) :=
  let answer {B} (f : B -> dns_state) (b : B) : option (B * dns_state) := Some (b, f b) in
  match e in dnsE A return (A -> dns_state -> dns_state) -> option (A * dns_state) with
  | ListenPacket _ => fun after => answer (fun b => after b s) true
  | PrintServing _ => fun after => answer (fun b => after b s) tt
  | ReadFrom len =>
      match unanswered s, zlen demo_query <=? len with
      | None, true => fun after => answer (fun b => after b s) (Some (demo_query, 7))
      | _, _ => fun _ => None
      end
  | _ => fun _ => None
  end (dns_after A e).

Lemma one_datagram_ok A (e : dnsE A) s a s' : one_datagram A e s = Some (a, s') -> dns_step A e s a s'.
Proof.
  destruct e as [address|address|len|data client| |]; try done; try (by intros [= <- <-]).
  unfold one_datagram. destruct (unanswered s) as [x|]; [done|].
  destruct (Z.leb_spec (zlen demo_query) len) as [H|H]; [|done]. intros E. apply Some_inj in E. injection E as <- <-.
  split; [exact H|reflexivity].
Qed.

Definition demo_run := trace one_datagram 4 (main (lit "127.0.0.1") 8053) dns_init.

Lemma dns_process_serves_witness :
  exists tr u s data client k,
    runs dns_step (main (lit "127.0.0.1") 8053) dns_init tr u s /\
    observe u = VisF (WriteTo data client) k /\ dns_allowed (lit "127.0.0.1") 8053 _ (WriteTo data client) s.
Proof.
  assert (Hv : match observe demo_run.1.2 with VisF (WriteTo _ _) _ => true | _ => false end = true) by (vm_compute; reflexivity).
  destruct demo_run as [[tr u] s] eqn:Er. cbn [fst snd] in Hv.
  pose proof (trace_runs dns_step one_datagram one_datagram_ok _ _ _ _ _ _ Er) as Hr.
  destruct (dns_process_serves (lit "127.0.0.1") 8053 tr u s Hr) as [Hok _].
  clear Er. destruct (observe u) as [x|t|A e k] eqn:Ho; [discriminate Hv..|].
  destruct e as [| | |data client| |]; try discriminate Hv.
  exists tr, u, s, data, client, k. split; [exact Hr|]. split; [exact Ho|]. exact (Hok _ _ k eq_refl).
Defined.
