(* ===== verification/HttpServer.v ===== *)
(** * The HTTP server of http-server/server.py and application.py

    [handle_connection] and what it calls.  Parsing and building are functions that
    return a value or raise; reading, the cache and the end of the connection are
    events of an interaction tree. *)

From S2P Require Import Prelude CLib Effects GoLib PyLib.
Local Open Scope Z_scope.
Local Open Scope py_scope.

(** ** The application *)

Record request := Request { method : pystr; target : pystr }.
Record response := Response { status : pystr; body : list byte; headers : list (pystr * pystr) }.

(** The keys of a dict are distinct. *)
Definition ROUTES : list (pystr * (pystr * list byte)) :=
  [(text "/", (text "200 OK", lit "HELLO WORLD!\n"));
   (text "/health", (text "200 OK", lit "OK\n"));
   (text "/hello", (text "200 OK", lit "HELLO WORLD!\n"))].

(** [d.get(key, default)] *)
Definition dict_get {V} (key : pystr) (default : V) (d : list (pystr * V)) : V :=
  match List.find (fun kv => bool_decide (kv.1 = key)) d with Some kv => kv.2 | None => default end.

Definition respond (r : request) : response :=
  if negb (bool_decide (method r = text "GET"))
  then Response (text "405 Method Not Allowed") (lit "Method Not Allowed\n") [(text "Allow", text "GET")]
  else
    let '(status, body) := dict_get (target r) (text "404 Not Found", lit "Not Found\n") ROUTES in
    Response status body [].

(** ** Requests *)

Definition CACHE_KEY : pystr := text "http:/hello".
Definition CACHE_TTL : Z := 60.
Definition BUFFER_SIZE : Z := 4096.
Definition MAX_REQUEST_SIZE : Z := 64 * 1024.
Definition SUPPORTED_VERSIONS : list pystr := [text "HTTP/1.0"; text "HTTP/1.1"].
Definition TOKEN_SYMBOLS : pystr := text "!#$%&'*+-.^_`|~".
Definition CRLF : list byte := lit "\r\n".
Definition HEADER_END : list byte := lit "\r\n\r\n".

Definition is_token (value : pystr) : bool :=
  negb (bool_decide (value = [])) && isascii value &&
  forallb (fun character => isalnum character || bool_decide (character ∈ TOKEN_SYMBOLS)) value.

(** A control character in a request target, and in a header value. *)
Definition target_control (c : Z) : bool := (c <? 32) || (c =? 127).
Definition value_control (c : Z) : bool := ((c <? 32) && negb (c =? 9)) || (c =? 127).

Definition startswith_slash (s : pystr) : bool := match s with c :: _ => c =? 47 | [] => false end.

Definition parse_request_line (line : list byte) : pyres (pystr * pystr * pystr) :=
  match decode_ascii line with
  | None => Raise ValueError "malformed request line"
  | Some s =>
      match py_split 32 s with
      | [method; target; version] =>
          if negb (is_token method) || negb (startswith_slash target) || existsb target_control target ||
             negb (bool_decide (version ∈ SUPPORTED_VERSIONS))
          then Raise ValueError "malformed request line"
          else Value (method, target, version)
      | _ => Raise ValueError "malformed request line"
      end
  end.

(** One line of [parse_headers], with the headers of the lines before. *)
Definition parse_header (headers : list (pystr * pystr)) (line : list byte) : pyres (list (pystr * pystr)) :=
  match py_cut 58 (decode_latin1 line) with
  | None => Raise ValueError "malformed header"
  | Some (name, value) =>
      let name := casefold name in
      if negb (is_token name) || bool_decide (name ∈ headers.*1) then Raise ValueError "malformed header name"
      else if existsb value_control value then Raise ValueError "malformed header value"
      else Value (headers ++ [(name, py_strip [32; 9] value)])
  end.

Fixpoint parse_header_lines (headers : list (pystr * pystr)) (lines : list (list byte)) : pyres (list (pystr * pystr)) :=
  match lines with
  | [] => Value headers
  | line :: lines => let! headers := parse_header headers line in parse_header_lines headers lines
  end.

Definition parse_headers (header_block : list byte) : pyres (list (pystr * pystr)) :=
  parse_header_lines [] (if bool_decide (header_block = []) then [] else bytes_split CRLF header_block).

Definition parse_request (request : list byte) : pyres (pystr * pystr * pystr * list (pystr * pystr)) :=
  let '(header_block, separator, _) := py_partition HEADER_END request in
  if bool_decide (separator = []) then Raise ValueError "incomplete request headers"
  else
    match bytes_split CRLF header_block with
    | request_line :: header_lines =>
        if bool_decide (request_line = []) then Raise ValueError "missing request line"
        else
          let! line := parse_request_line request_line in
          let! headers := parse_headers (py_join CRLF header_lines) in
          Value (line, headers)
    | [] => Raise ValueError "not enough values to unpack"
    end.

(** ** Responses *)

Definition build_response (status : pystr) (body : list byte) (headers : list (pystr * pystr)) : pyres (list byte) :=
  let response_headers :=
    [text "HTTP/1.1 " ++ status] ++
    map (fun '(name, value) => name ++ text ": " ++ value) headers ++
    [text "Content-Length: " ++ py_str (zlen body); text "Connection: close"; []; []] in
  match encode_ascii (py_join (text "\r\n") response_headers) with
  | Some head => Value (head ++ body)
  | None => Raise ValueError "ordinal not in range"
  end.

(** ** Events *)

Variant httpE : Type -> Type :=
| HRecv (n : Z) : httpE (sysres (list byte))                   (** [connection.recv(n)], or an OSError *)
| HSendall (data : list byte) : httpE bool                     (** [connection.sendall(data)]; false: an OSError *)
| HClose : httpE unit                                          (** the end of [with connection] *)
| HCacheGet (key : pystr) : httpE (pyres (option (list byte))) (** [cache.get(key)] *)
| HCacheSet (key : pystr) (value : list byte) (ttl : Z) : httpE (pyres unit).

Local Open Scope prog_scope.

Abbreviation hprog := (itree httpE).

(** The loop of [read_request], on what was received. *)
Definition read_step (request : list byte) : hprog (list byte + pyres (list byte)) :=
  match index_of HEADER_END request with
  | Some e =>
      let header_end := e + 4 in
      if MAX_REQUEST_SIZE <? header_end then Ret (inr (Raise ValueError "request headers are too large"))
      else Ret (inr (Value (py_slice request 0 header_end)))
  | None =>
      let* r := call (HRecv BUFFER_SIZE) in
      match r with
      | Err _ => Ret (inr (Raise OSError "recv"))
      | Ok chunk =>
          if bool_decide (chunk = []) then Ret (inr (Raise ValueError "incomplete request headers"))
          else
            let request := request ++ chunk in
            if MAX_REQUEST_SIZE <? zlen request then Ret (inr (Raise ValueError "request headers are too large"))
            else Ret (inl request)
      end
  end.

Definition read_request : hprog (pyres (list byte)) := ITree.iter read_step [].

(** What is stored: the body without its last newline. *)
Definition cache_value (b : list byte) : list byte :=
  if bool_decide (last b = Some LF) then removelast b else b.

Definition respond_with_cache (r : request) (cache : bool) : hprog (pyres response) :=
  if negb cache || negb (bool_decide (method r = text "GET")) || negb (bool_decide (target r = text "/hello"))
  then Ret (Value (respond r))
  else
    let* cached_body := call (HCacheGet CACHE_KEY) in
    match cached_body with
    | Raise CacheError _ => Ret (Value (respond r))
    | Raise class message => Ret (Raise class message)
    | Value (Some cached_body) => Ret (Value (Response (text "200 OK") (cached_body ++ [LF]) []))
    | Value None =>
        let application_response := respond r in
        let* stored := call (HCacheSet CACHE_KEY (cache_value (body application_response)) CACHE_TTL) in
        match stored with
        | Value _ | Raise CacheError _ => Ret (Value application_response)
        | Raise class message => Ret (Raise class message)
        end
    end.

Definition unsupported_headers : list pystr := [text "content-length"; text "transfer-encoding"].

(** The [try] block of [handle_connection]. *)
Definition prepare (cache : bool) : hprog (pyres (list byte)) :=
  let* request := read_request in
  match request with
  | Raise class message => Ret (Raise class message)
  | Value request =>
      match parse_request request with
      | Raise class message => Ret (Raise class message)
      | Value (method, target, _, request_headers) =>
          if existsb (fun name => bool_decide (name ∈ request_headers.*1)) unsupported_headers
          then Ret (Raise ValueError "request bodies are not supported")
          else
            let* r := respond_with_cache (Request method target) cache in
            match r with
            | Raise class message => Ret (Raise class message)
            | Value r => Ret (build_response (status r) (body r) (headers r))
            end
      end
  end.

(** The [except] clause. *)
Definition recover (response : pyres (list byte)) : pyres (list byte) :=
  match response with
  | Raise OSError _ | Raise ValueError _ => build_response (text "400 Bad Request") (lit "Bad Request\n") []
  | r => r
  end.

(** The exception that leaves [handle_connection], if any. *)
Definition handle_connection (cache : bool) : hprog (option exc) :=
  let* response := prepare cache in
  match recover response with
  | Raise class _ => call HClose ;! Ret (Some class)
  | Value response =>
      call (HSendall response) ;!
      call HClose ;!
      Ret None
  end.
