(* ===== verification/HttpExec.v ===== *)
(** * Executions of the HTTP server

    [handle_connection] in a given environment: the client's side of the connection
    is what it delivers, the cache is any object whose methods return or raise
    CacheError.  What the program does there, as functions of the input
    ([receive], [accepted], [answer]). *)

From S2P Require Import Prelude CLib Effects GoLib PyLib HttpServer.
Local Open Scope Z_scope.
Local Open Scope py_scope.

(** ** The environment *)

(** The methods of a cache object with a state. *)
Record cache_object (C : Type) := CacheObject {
  cache_get : pystr -> C -> pyres (option (list byte)) * C;
  cache_set : pystr -> list byte -> Z -> C -> pyres unit * C
}.
Arguments cache_get {C} c key s.
Arguments cache_set {C} c key value ttl s.

Definition cache_raises {A} (r : pyres A) : Prop := match r with Raise CacheError _ | Value _ => True | _ => False end.

Definition cache_object_ok {C} (c : cache_object C) : Prop :=
  (forall key s, cache_raises (cache_get c key s).1) /\
  (forall key value ttl s, cache_raises (cache_set c key value ttl s).1).

Record hworld (C : Type) := HWorld {
  h_rx : list (sysres (list byte));  (** what the next calls of recv return; then the end of the input *)
  h_send_ok : bool;                  (** whether [sendall] succeeds *)
  h_tx : list (list byte);           (** what was sent, call by call *)
  h_closed : bool;
  h_cache : C
}.
Arguments HWorld {C}.
Arguments h_rx {C}.
Arguments h_send_ok {C}.
Arguments h_tx {C}.
Arguments h_closed {C}.
Arguments h_cache {C}.

Section env.
Context {C : Type} (c : cache_object C).

Definition with_h_rx (rx : list (sysres (list byte))) (w : hworld C) : hworld C :=
  HWorld rx (h_send_ok w) (h_tx w) (h_closed w) (h_cache w).
Definition with_h_cache (s : C) (w : hworld C) : hworld C :=
  HWorld (h_rx w) (h_send_ok w) (h_tx w) (h_closed w) s.

(** A closed connection is not used again. *)
Definition http_env : environment httpE (hworld C) := fun A e w =>
  match e in httpE A return option (A * hworld C) with
  | HRecv _ =>
      if h_closed w then None
      else match h_rx w with [] => Some (Ok [], w) | r :: rx => Some (r, with_h_rx rx w) end
  | HSendall data =>
      if h_closed w then None
      else Some (h_send_ok w, HWorld (h_rx w) (h_send_ok w) (h_tx w ++ [data]) (h_closed w) (h_cache w))
  | HClose =>
      if h_closed w then None
      else Some (tt, HWorld (h_rx w) (h_send_ok w) (h_tx w) true (h_cache w))
  | HCacheGet key => let '(r, s) := cache_get c key (h_cache w) in Some (r, with_h_cache s w)
  | HCacheSet key value ttl => let '(r, s) := cache_set c key value ttl (h_cache w) in Some (r, with_h_cache s w)
  end.

(** ** The request that is received *)

Definition too_large : pyres (list byte) := Raise ValueError "request headers are too large".

Fixpoint receive (request : list byte) (rx : list (sysres (list byte))) : pyres (list byte) * list (sysres (list byte)) :=
  match index_of HEADER_END request with
  | Some e => (if MAX_REQUEST_SIZE <? e + 4 then too_large else Value (py_slice request 0 (e + 4)), rx)
  | None =>
      match rx with
      | [] => (Raise ValueError "incomplete request headers", [])
      | Err _ :: rx => (Raise OSError "recv", rx)
      | Ok chunk :: rx =>
          if bool_decide (chunk = []) then (Raise ValueError "incomplete request headers", rx)
          else if MAX_REQUEST_SIZE <? zlen (request ++ chunk) then (too_large, rx)
          else receive (request ++ chunk) rx
      end
  end.

Lemma read_request_evals w :
  h_closed w = false ->
  evals http_env read_request w (receive [] (h_rx w)).1 (with_h_rx (receive [] (h_rx w)).2 w).
Proof.
  intros Hopen. unfold read_request. generalize (@nil byte) as request.
  destruct w as [rx ok tx closed s]. simpl in Hopen. subst closed. cbn [h_rx].
  induction rx as [|r rx IH]; intros request; cbn [receive]; destruct (index_of HEADER_END request) as [e|] eqn:He.
  1,3: eapply evals_iter_stop; unfold read_step; rewrite He; by destruct (_ <? _); apply evals_ret.
  - eapply evals_iter_stop. unfold read_step. rewrite He. eapply evals_call_bind; [done|]. apply evals_ret.
  - destruct r as [chunk|e].
    + assert (Hcall : forall x w', evals http_env
        (if bool_decide (chunk = []) then Ret (inr (Raise ValueError "incomplete request headers"))
         else if MAX_REQUEST_SIZE <? zlen (request ++ chunk) then Ret (inr too_large) else Ret (inl (request ++ chunk)))
        (HWorld rx ok tx false s) x w' -> evals http_env (read_step request) (HWorld (Ok chunk :: rx) ok tx false s) x w').
      { intros x w' H. unfold read_step. rewrite He. by eapply evals_call_bind. }
      destruct (bool_decide (chunk = [])); [eapply evals_iter_stop, Hcall, evals_ret|].
      destruct (_ <? _); [eapply evals_iter_stop, Hcall, evals_ret|].
      eapply evals_iter_next; [apply Hcall, evals_ret|]. apply IH.
    + eapply evals_iter_stop. unfold read_step. rewrite He. eapply evals_call_bind; [done|]. apply evals_ret.
Qed.

(** ** The answer *)

(** The request that is answered; [None] is refused. *)
Definition accepted (received : pyres (list byte)) : option request :=
  match received with
  | Value bytes =>
      match parse_request bytes with
      | Value (method, target, _, hs) =>
          if existsb (fun name => bool_decide (name ∈ hs.*1)) unsupported_headers then None
          else Some (Request method target)
      | Raise _ _ => None
      end
  | Raise _ _ => None
  end.

Definition is_hello (r : request) : bool := bool_decide (method r = text "GET") && bool_decide (target r = text "/hello").

(** What the cache makes of a request. *)
Definition cached_response (cache : bool) (r : request) (s : C) : response * C :=
  if cache && is_hello r then
    match cache_get c CACHE_KEY s with
    | (Value (Some b), s) => (Response (text "200 OK") (b ++ [LF]) [], s)
    | (Value None, s) => (respond r, (cache_set c CACHE_KEY (cache_value (body (respond r))) CACHE_TTL s).2)
    | (Raise _ _, s) => (respond r, s)
    end
  else (respond r, s).

Definition bad_request : response := Response (text "400 Bad Request") (lit "Bad Request\n") [].

Definition answer (cache : bool) (received : pyres (list byte)) (s : C) : response * C :=
  match accepted received with Some r => cached_response cache r s | None => (bad_request, s) end.

(** The bytes of a response, with a head in ASCII. *)
Definition head_text (r : response) : pystr :=
  py_join (text "\r\n")
    ([text "HTTP/1.1 " ++ status r] ++ map (fun '(name, value) => name ++ text ": " ++ value) (headers r) ++
     [text "Content-Length: " ++ py_str (zlen (body r)); text "Connection: close"; []; []]).
Definition response_bytes (r : response) : list byte := map chr (head_text r) ++ body r.
End env.

(** *** The responses of the application have heads in ASCII *)

Definition point (c : Z) : Prop := 0 <= c < 128.

Lemma point_text s : forallb (fun b => uchar b <? 128) (lit s) = true -> Forall point (text s).
Proof.
  unfold text. induction (lit s) as [|b bs IH]; [constructor|]. cbn [forallb map].
  rewrite andb_true_iff, Z.ltb_lt. intros [Hb Hbs]. constructor; [|by apply IH].
  pose proof (uchar_range b). unfold point. lia.
Qed.

Lemma point_digits n : 0 <= n -> Forall point (py_str n).
Proof.
  intros Hn. destruct (decimal_spec n Hn) as (Hd & _). apply Forall_map. eapply Forall_impl; [exact Hd|].
  intros b Hb. unfold isdigit in Hb. rewrite andb_true_iff, !Z.leb_le in Hb. unfold point. simpl. lia.
Qed.

Lemma point_join sep parts : Forall point sep -> Forall (Forall point) parts -> Forall point (py_join sep parts).
Proof.
  intros Hsep. induction 1 as [|p ps Hp Hps IH]; [constructor|]. cbn [py_join].
  destruct ps as [|q ps]; [done|]. by repeat (apply Forall_app; split).
Qed.

Lemma encode_ascii_ok cs : Forall point cs -> encode_ascii cs = Some (map chr cs).
Proof.
  intros H. unfold encode_ascii. assert (E : forallb (fun c => (0 <=? c) && (c <? 128)) cs = true); [|by rewrite E].
  apply forallb_forall. intros c Hc%list_elem_of_In. rewrite Forall_forall in H. specialize (H c Hc).
  unfold point in H. rewrite andb_true_iff, Z.leb_le, Z.ltb_lt. lia.
Qed.

(** A response whose status and headers are ASCII. *)
Definition response_ok (r : response) : Prop :=
  Forall point (status r) /\ Forall (fun nv => Forall point nv.1 /\ Forall point nv.2) (headers r).

Lemma build_response_ok r :
  response_ok r -> build_response (status r) (body r) (headers r) = Value (response_bytes r).
Proof.
  intros [Hs Hh]. unfold build_response, response_bytes, head_text. rewrite encode_ascii_ok; [done|].
  apply point_join; [by apply point_text|]. apply Forall_app. split.
  { constructor; [|done]. apply Forall_app. split; [by apply point_text|done]. }
  apply Forall_app. split.
  - apply Forall_map. eapply Forall_impl; [exact Hh|]. intros [n v] [Hn Hv]. cbn [fst snd] in *.
    apply Forall_app. split; [done|]. apply Forall_app. split; [by apply point_text|done].
  - constructor; [apply Forall_app; split; [by apply point_text|apply point_digits; lia]|].
    constructor; [by apply point_text|]. do 2 (constructor; [constructor|]). constructor.
Qed.

Lemma respond_ok r : response_ok (respond r).
Proof.
  unfold respond. destruct (negb _).
  - split; [by apply point_text|]. constructor; [|done]. split; by apply point_text.
  - unfold dict_get, ROUTES. cbn [List.find].
    repeat (destruct (bool_decide _); [by split; [apply point_text|]|]). by split; [apply point_text|].
Qed.

Lemma bad_request_ok : response_ok bad_request.
Proof. split; [by apply point_text|done]. Qed.

(** *** What parsing raises is caught *)

Lemma recover_bad e m : e = ValueError \/ e = OSError -> recover (Raise e m) = Value (response_bytes bad_request).
Proof.
  intros He. rewrite <-(build_response_ok bad_request bad_request_ok). unfold bad_request.
  destruct He as [-> | ->]; cbn [recover status body headers]; reflexivity.
Qed.

Definition raises_value {A} (r : pyres A) : Prop := match r with Value _ => True | Raise e _ => e = ValueError end.

Lemma parse_request_line_raises line : raises_value (parse_request_line line).
Proof.
  unfold parse_request_line. destruct (decode_ascii line) as [s|]; [|done].
  destruct (py_split 32 s) as [|m [|t [|v [|]]]]; try done. by destruct (_ || _ || _ || _).
Qed.

Lemma parse_header_lines_raises hs lines : raises_value (parse_header_lines hs lines).
Proof.
  revert hs. induction lines as [|line lines IH]; intros hs; cbn [parse_header_lines]; [done|].
  unfold parse_header. destruct (py_cut 58 _) as [[name value]|]; [|done].
  cbn zeta. destruct (_ || _); [done|]. destruct (existsb _ value); [done|]. apply IH.
Qed.

Lemma parse_request_raises bytes : raises_value (parse_request bytes).
Proof.
  unfold parse_request. destruct (py_partition HEADER_END bytes) as [[block sep] rest].
  destruct (bool_decide (sep = [])); [done|]. destruct (bytes_split CRLF block) as [|line lines]; [done|].
  destruct (bool_decide (line = [])); [done|].
  pose proof (parse_request_line_raises line) as H1. destruct (parse_request_line line) as [p|]; [|done].
  pose proof (parse_header_lines_raises [] (if bool_decide (py_join CRLF lines = []) then []
    else bytes_split CRLF (py_join CRLF lines))) as H2.
  unfold parse_headers. by destruct (parse_header_lines _ _).
Qed.

Lemma receive_raises request rx :
  match (receive request rx).1 with Value _ => True | Raise e _ => e = ValueError \/ e = OSError end.
Proof.
  revert request. induction rx as [|r rx IH]; intros request; cbn [receive];
    destruct (index_of HEADER_END request) as [e|]; cbn [fst].
  1,3: by destruct (_ <? _); [left|].
  - by left.
  - destruct r as [chunk|e]; [|by right]. destruct (bool_decide (chunk = [])); [by left|].
    destruct (_ <? _); [by left|]. apply IH.
Qed.

(** ** The whole connection *)

Section serve.
Context {C : Type} (c : cache_object C) (c_ok : cache_object_ok c).

Lemma respond_with_cache_evals r cache w :
  exists r', evals (http_env c) (respond_with_cache r cache) w (Value r') (with_h_cache (cached_response c cache r (h_cache w)).2 w) /\
    r' = (cached_response c cache r (h_cache w)).1 /\ response_ok r'.
Proof.
  assert (Hsame : with_h_cache (h_cache w) w = w) by by destruct w.
  assert (Hplain : exists r', evals (http_env c) (Ret (Value (respond r))) w (Value r') (with_h_cache (respond r, h_cache w).2 w) /\
    r' = (respond r, h_cache w).1 /\ response_ok r').
  { exists (respond r). cbn [fst snd]. rewrite Hsame. split; [apply evals_ret|]. split; [done|apply respond_ok]. }
  unfold respond_with_cache, cached_response, is_hello.
  destruct cache; cbn [negb andb orb]; [|by apply Hplain].
  destruct (bool_decide (method r = text "GET")); cbn [negb andb orb];
    [|by apply Hplain].
  destruct (bool_decide (target r = text "/hello")); cbn [negb andb orb];
    [|by apply Hplain].
  destruct c_ok as [Hg Hst]. specialize (Hg CACHE_KEY (h_cache w)).
  destruct (cache_get c CACHE_KEY (h_cache w)) as [got s] eqn:Eg. cbn [fst] in Hg.
  assert (Hcall : forall x w', evals (http_env c)
    (match got with
     | Raise CacheError _ => Ret (Value (respond r))
     | Raise class message => Ret (Raise class message)
     | Value (Some cached_body) => Ret (Value (Response (text "200 OK") (cached_body ++ [LF]) []))
     | Value None =>
         let* stored := call (HCacheSet CACHE_KEY (cache_value (body (respond r))) CACHE_TTL) in
         match stored with
         | Value _ | Raise CacheError _ => Ret (Value (respond r))
         | Raise class message => Ret (Raise class message)
         end
     end)%prog (with_h_cache s w) x w' ->
    evals (http_env c) (let* got := call (HCacheGet CACHE_KEY) in
      match got with
      | Raise CacheError _ => Ret (Value (respond r))
      | Raise class message => Ret (Raise class message)
      | Value (Some cached_body) => Ret (Value (Response (text "200 OK") (cached_body ++ [LF]) []))
      | Value None =>
         let* stored := call (HCacheSet CACHE_KEY (cache_value (body (respond r))) CACHE_TTL) in
         match stored with
         | Value _ | Raise CacheError _ => Ret (Value (respond r))
         | Raise class message => Ret (Raise class message)
         end
      end)%prog w x w').
  { intros x w' H. eapply evals_call_bind; [|exact H]. cbn [http_env]. by rewrite Eg. }
  destruct got as [[b|]|e m].
  - eexists. split; [apply Hcall, evals_ret|]. split; [done|]. by split; [apply point_text|].
  - specialize (Hst CACHE_KEY (cache_value (body (respond r))) CACHE_TTL s).
    destruct (cache_set c CACHE_KEY (cache_value (body (respond r))) CACHE_TTL s) as [stored s'] eqn:Es. cbn [fst] in Hst.
    exists (respond r). split; [|split; [done|apply respond_ok]]. apply Hcall. eapply evals_call_bind.
    { cbn [http_env]. replace (h_cache (with_h_cache s w)) with s by done. by rewrite Es. }
    destruct stored as [|[] m]; try done; apply evals_ret.
  - destruct e; try done. exists (respond r). split; [apply Hcall, evals_ret|]. split; [done|apply respond_ok].
Qed.

(** [prepare] raises what is caught, or returns the bytes of the response. *)
Lemma prepare_evals cache w :
  h_closed w = false ->
  exists p, evals (http_env c) (prepare cache) w p
      (with_h_cache (answer c cache (receive [] (h_rx w)).1 (h_cache w)).2 (with_h_rx (receive [] (h_rx w)).2 w)) /\
    match p with
    | Value bytes => bytes = response_bytes (answer c cache (receive [] (h_rx w)).1 (h_cache w)).1
    | Raise e _ => (e = ValueError \/ e = OSError) /\ (answer c cache (receive [] (h_rx w)).1 (h_cache w)).1 = bad_request
    end.
Proof.
  intros Hopen. pose proof (read_request_evals c w Hopen) as Hread. pose proof (receive_raises [] (h_rx w)) as Hr.
  unfold answer, accepted. destruct (receive [] (h_rx w)) as [[bytes|e m] rx']; cbn [fst snd] in *.
  2: { exists (Raise e m). split; [|done]. eapply evals_bind; [exact Hread|]. destruct w. apply evals_ret. }
  pose proof (parse_request_raises bytes) as Hp.
  assert (Hgo : forall x w', evals (http_env c)
    (match parse_request bytes with
     | Raise class message => Ret (Raise class message)
     | Value (method, target, _, request_headers) =>
          if existsb (fun name => bool_decide (name ∈ request_headers.*1)) unsupported_headers
          then Ret (Raise ValueError "request bodies are not supported")
          else
            let* r := respond_with_cache (Request method target) cache in
            match r with
            | Raise class message => Ret (Raise class message)
            | Value r => Ret (build_response (status r) (body r) (headers r))
            end
     end)%prog (with_h_rx rx' w) x w' -> evals (http_env c) (prepare cache) w x w').
  { intros x w' H. eapply evals_bind; [exact Hread|exact H]. }
  destruct (parse_request bytes) as [[[[m t] v] hs]|e msg].
  2: { exists (Raise e msg). split; [|split; [by left|done]]. apply Hgo. destruct w. apply evals_ret. }
  destruct (existsb _ _).
  { eexists. split; [apply Hgo; destruct w; apply evals_ret|]. split; [by left|done]. }
  destruct (respond_with_cache_evals (Request m t) cache (with_h_rx rx' w)) as (r' & He & Hr' & Hok).
  exists (Value (response_bytes r')). split; [|by rewrite Hr'].
  apply Hgo. eapply evals_bind; [exact He|]. cbn beta iota. rewrite build_response_ok by done. apply evals_ret.
Qed.

(** One response, and the connection is closed. *)
Lemma handle_connection_evals cache w :
  h_closed w = false ->
  evals (http_env c) (handle_connection cache) w None
    (HWorld (receive [] (h_rx w)).2 (h_send_ok w)
       (h_tx w ++ [response_bytes (answer c cache (receive [] (h_rx w)).1 (h_cache w)).1]) true
       (answer c cache (receive [] (h_rx w)).1 (h_cache w)).2).
Proof.
  intros Hopen. destruct (prepare_evals cache w Hopen) as (p & Hp & Hres).
  unfold handle_connection. eapply evals_bind; [exact Hp|]. clear Hp.
  assert (Hend : forall bytes, bytes = response_bytes (answer c cache (receive [] (h_rx w)).1 (h_cache w)).1 ->
    evals (http_env c) (call (HSendall bytes) ;! call HClose ;! Ret (@None exc))%prog
      (with_h_cache (answer c cache (receive [] (h_rx w)).1 (h_cache w)).2 (with_h_rx (receive [] (h_rx w)).2 w)) None
      (HWorld (receive [] (h_rx w)).2 (h_send_ok w)
         (h_tx w ++ [response_bytes (answer c cache (receive [] (h_rx w)).1 (h_cache w)).1]) true
         (answer c cache (receive [] (h_rx w)).1 (h_cache w)).2)).
  { intros bytes ->. destruct w as [rx ok tx closed s]. simpl in Hopen. subst closed.
    eapply evals_call_bind; [done|]. eapply evals_call_bind; [done|]. apply evals_ret. }
  assert (E : recover p = Value (response_bytes (answer c cache (receive [] (h_rx w)).1 (h_cache w)).1)).
  { destruct p as [bytes|e m]; [by rewrite Hres|]. destruct Hres as [He ->]. by apply recover_bad. }
  rewrite E. by apply Hend.
Qed.
End serve.
