(* ===== verification/HttpRequest.v ===== *)
(** * The requests that the HTTP server accepts

    The grammar of a request, and that [parse_request] of server.py accepts exactly
    its sentences; and that what [read_request] takes from the connection does not
    depend on how the input is cut. *)

From S2P Require Import Prelude CLib Effects GoLib PyLib HttpServer HttpExec.
Local Open Scope Z_scope.
Local Open Scope py_scope.

(** ** The grammar *)

(** Method, target and version, one space between them. *)
Definition request_line (line : list byte) (m t v : pystr) : Prop :=
  line = map chr (m ++ 32 :: t ++ 32 :: v) /\
  is_token m = true /\ startswith_slash t = true /\ Forall (fun c => 32 < c < 127) t /\ v ∈ SUPPORTED_VERSIONS.

(** A name, a colon and a value; the name counts without its case, the value
    without the white space around it. *)
Definition header_line (line : list byte) (h : pystr * pystr) : Prop :=
  exists n v, line = n ++ chr 58 :: v /\ chr 58 ∉ n /\ is_token (casefold (decode_latin1 n)) = true /\
    existsb value_control (decode_latin1 v) = false /\
    h = (casefold (decode_latin1 n), py_strip [32; 9] (decode_latin1 v)).

(** Lines, each behind a CRLF. *)
Fixpoint more_lines (lines : list (list byte)) : list byte :=
  match lines with [] => [] | l :: ls => CRLF ++ l ++ more_lines ls end.

Definition is_request (bytes : list byte) (m t v : pystr) (hs : list (pystr * pystr)) : Prop :=
  exists line lines rest,
    bytes = line ++ more_lines lines ++ HEADER_END ++ rest /\
    request_line line m t v /\ Forall2 header_line lines hs /\ NoDup hs.*1.

(** ** Lines *)

Lemma crlf_shape : CRLF = [CR; LF].
Proof. vm_compute. reflexivity. Qed.
Lemma header_end_shape : HEADER_END = [CR; LF; CR; LF].
Proof. vm_compute. reflexivity. Qed.

#[local] Opaque HEADER_END CRLF.

(** The text of a split is its parts and the separators between. *)
Lemma split_mjoin s :
  match bytes_split CRLF s with
  | l :: ls => s = l ++ more_lines ls
  | [] => False
  end.
Proof.
  unfold bytes_split. remember (length s) as n eqn:Hn. revert s Hn.
  induction n as [n IH] using lt_wf_ind. intros s ->.
  rewrite split_cut by by rewrite crlf_shape. destruct (cut CRLF s) as [[a b]|] eqn:E.
  - apply cut_Some in E. assert (Hb : (length b < length s)%nat) by (rewrite E, !length_app, crlf_shape; simpl; lia).
    specialize (IH (length b) Hb b eq_refl). destruct (split CRLF b) as [|l ls]; [done|].
    rewrite E, IH. done.
  - by rewrite app_nil_r.
Qed.

Lemma py_join_mjoin l ls : py_join CRLF (l :: ls) = l ++ more_lines ls.
Proof.
  revert l. induction ls as [|x ls IH]; intros l; [by rewrite app_nil_r|].
  change (py_join CRLF (l :: x :: ls)) with (l ++ CRLF ++ py_join CRLF (x :: ls)). by rewrite IH.
Qed.

(** Lines without CR are split where they were joined. *)
Lemma split_lines_cr l ls :
  Forall (fun x => CR ∉ x) (l :: ls) -> bytes_split CRLF (l ++ more_lines ls) = l :: ls.
Proof.
  unfold bytes_split. revert l. induction ls as [|x ls IH]; intros l H; inversion H as [|? ? Hl Hls]; subst.
  - cbn [more_lines]. rewrite split_cut by by rewrite crlf_shape.
    assert (E : cut CRLF (l ++ []) = None).
    { rewrite crlf_shape, cut_skip by done. assert (E : cut [CR; LF] [] = None) by (vm_compute; reflexivity). by rewrite E. }
    by rewrite E, app_nil_r.
  - cbn [more_lines]. rewrite split_cut by by rewrite crlf_shape.
    assert (E : cut CRLF (l ++ CRLF ++ x ++ more_lines ls) = Some (l, x ++ more_lines ls)).
    { rewrite crlf_shape at 1. rewrite cut_skip by done. rewrite <-crlf_shape, cut_here. by rewrite app_nil_r. }
    rewrite E. by rewrite IH.
Qed.

(** A line that is not empty does not end the headers. *)
Lemma cut_next_byte d s :
  CR <> d ->
  cut [CR; LF; CR; LF] (CR :: LF :: d :: s) =
  match cut [CR; LF; CR; LF] (d :: s) with Some (a, b) => Some (CR :: LF :: a, b) | None => None end.
Proof.
  intros Hd. assert (E1 : strip_prefix [CR; LF; CR; LF] (CR :: LF :: d :: s) = None).
  { destruct (strip_prefix _ _) as [r|] eqn:E; [|done]. apply strip_prefix_Some in E. injection E as E _. congruence. }
  assert (E2 : strip_prefix [CR; LF; CR; LF] (LF :: d :: s) = None) by done.
  rewrite cut_cons, E1, cut_cons, E2. destruct (cut _ (d :: s)) as [[a b]|]; reflexivity.
Qed.

Lemma cut_next_line d x s :
  CR <> d ->
  cut HEADER_END (CRLF ++ (d :: x) ++ s) =
  match cut HEADER_END ((d :: x) ++ s) with Some (a, b) => Some (CRLF ++ a, b) | None => None end.
Proof. intros Hd. rewrite crlf_shape, header_end_shape. exact (cut_next_byte d (x ++ s) Hd). Qed.

(** The end of the headers is found behind lines that are not empty. *)
Lemma cut_end_skip l s :
  CR ∉ l -> cut HEADER_END (l ++ s) = match cut HEADER_END s with Some (a, b) => Some (l ++ a, b) | None => None end.
Proof. rewrite header_end_shape. apply cut_skip. Qed.

Lemma cut_header_end l ls rest :
  Forall (fun x => CR ∉ x) (l :: ls) -> Forall (fun x => x <> []) ls ->
  cut HEADER_END (l ++ more_lines ls ++ HEADER_END ++ rest) = Some (l ++ more_lines ls, rest).
Proof.
  revert l. induction ls as [|x ls IH]; intros l Hcr Hne; inversion Hcr as [|? ? Hl Hls]; subst; rewrite cut_end_skip by exact Hl.
  - cbn [more_lines]. rewrite app_nil_l, cut_here. reflexivity.
  - inversion Hne as [|? ? Hx Hne']; subst. specialize (IH x Hls Hne').
    inversion Hls as [|? ? Hxc _]; subst. destruct x as [|d x]; [by destruct Hx|].
    rewrite not_elem_of_cons in Hxc. destruct Hxc as [Hd _].
    cbn [more_lines]. rewrite <-!app_assoc. rewrite cut_next_line by exact Hd. rewrite IH. reflexivity.
Qed.

(** ** The lines are read as the grammar says *)

Lemma token_ascii s : is_token s = true -> s <> [] /\ Forall (fun c => c < 128 /\ c <> 13 /\ c <> 32) s.
Proof.
  unfold is_token. rewrite !andb_true_iff, negb_true_iff, bool_decide_eq_false. intros [[Hne Ha] Hs]. split; [done|].
  unfold isascii in Ha. rewrite forallb_forall in Ha, Hs. apply Forall_forall. intros c Hc%list_elem_of_In.
  specialize (Ha c Hc). specialize (Hs c Hc). apply Z.ltb_lt in Ha. split; [done|].
  split; intros ->; vm_compute in Hs; discriminate.
Qed.

Lemma token_point s : is_token s = true -> Forall point s.
Proof.
  intros Hs. destruct (token_ascii s Hs) as [_ Ha]. unfold is_token in Hs. rewrite !andb_true_iff in Hs.
  destruct Hs as [_ Hs]. rewrite forallb_forall in Hs. rewrite Forall_forall in Ha. apply Forall_forall. intros c Hc.
  pose proof (Ha c Hc) as [Hlt _]. apply list_elem_of_In, Hs, orb_true_iff in Hc as [Hc|Hc]; unfold point.
  - unfold isalnum in Hc. lia.
  - apply bool_decide_eq_true in Hc. assert (HT : forallb (fun c => 0 <=? c) TOKEN_SYMBOLS = true) by (vm_compute; reflexivity).
    rewrite forallb_forall in HT. apply list_elem_of_In, HT in Hc. lia.
Qed.

Lemma map_chr_uchar s : map chr (map uchar s) = s.
Proof.
  induction s as [|b s IH]; [done|]. cbn [map]. rewrite IH. f_equal.
  apply uchar_inj, uchar_chr. pose proof (uchar_range b). lia.
Qed.

Lemma map_uchar_chr s : Forall point s -> map uchar (map chr s) = s.
Proof.
  induction 1 as [|c s Hc Hs IH]; [done|]. cbn [map]. unfold point in Hc. rewrite IH, uchar_chr; [done|lia].
Qed.

Lemma supported_points v : v ∈ SUPPORTED_VERSIONS -> Forall point v /\ 32 ∉ v /\ 13 ∉ v.
Proof.
  intros Hv. assert (H : forallb (fun v => forallb (fun c => (0 <=? c) && (c <? 128) && negb (c =? 32) && negb (c =? 13)) v)
    SUPPORTED_VERSIONS = true) by (vm_compute; reflexivity).
  rewrite forallb_forall in H. apply list_elem_of_In, H in Hv. rewrite forallb_forall in Hv.
  assert (Hc : forall c, c ∈ v -> 0 <= c < 128 /\ c <> 32 /\ c <> 13).
  { intros c Hc%list_elem_of_In. specialize (Hv c Hc). lia. }
  split; [apply Forall_forall; intros c Hcv; by apply Hc|]. split; intros Hin; apply Hc in Hin; lia.
Qed.

Lemma parse_request_line_exact line m t v :
  parse_request_line line = Value (m, t, v) <-> request_line line m t v.
Proof.
  unfold parse_request_line, request_line. split.
  - destruct (decode_ascii line) as [s|] eqn:Hd; [|done]. apply decode_ascii_Some in Hd as [-> Ha].
    destruct (py_split 32 (map uchar line)) as [|m' [|t' [|v' [|]]]] eqn:Hs; try done.
    apply py_split_three in Hs as (Hs & Hm & Ht & Hv).
    destruct (_ || _ || _ || _) eqn:Hc; [done|]. intros [= -> -> ->].
    rewrite !orb_false_iff, !negb_false_iff, bool_decide_eq_true in Hc. destruct Hc as [[[H1 H2] H3] H4].
    split; [by rewrite <-Hs, map_chr_uchar|]. split; [done|]. split; [done|]. split; [|done].
    apply Forall_forall. intros c Hc.
    assert (Hin : c ∈ map uchar line) by (rewrite Hs, elem_of_app, elem_of_cons, elem_of_app; auto).
    apply list_elem_of_In, in_map_iff in Hin as (b & <- & Hb%list_elem_of_In).
    rewrite Forall_forall in Ha. specialize (Ha b Hb). pose proof (uchar_range b).
    assert (Hctl : target_control (uchar b) = false).
    { apply not_true_iff_false. intros Hx. apply not_true_iff_false in H3. apply H3, existsb_exists.
      exists (uchar b). split; [by apply list_elem_of_In|done]. }
    unfold target_control in Hctl. rewrite orb_false_iff, Z.ltb_ge, Z.eqb_neq in Hctl.
    assert (uchar b <> 32) by (intros E; rewrite E in Hc; by apply Ht). lia.
  - intros (-> & Hm & Hslash & Ht & Hv).
    destruct (token_ascii m Hm) as [_ Hmc]. destruct (supported_points v Hv) as (Hvp & Hv32 & _).
    pose proof (token_point m Hm) as Hmp.
    assert (Hp : Forall point (m ++ 32 :: t ++ 32 :: v)).
    { apply Forall_app. split; [done|]. constructor; [done|]. apply Forall_app. split.
      - eapply Forall_impl; [exact Ht|]. intros c Hc. unfold point. simpl in Hc. lia.
      - by constructor. }
    rewrite (proj2 (decode_ascii_Some _ (m ++ 32 :: t ++ 32 :: v))).
    2: { rewrite map_uchar_chr by done. split; [done|]. apply Forall_map. eapply Forall_impl; [exact Hp|].
         intros c Hc. unfold point in Hc. simpl. rewrite uchar_chr by lia. lia. }
    rewrite (proj2 (py_split_three 32 _ m t v)).
    2: { split; [done|]. split_and!; [|..|done].
         - intros Hin. rewrite Forall_forall in Hmc. by apply Hmc in Hin as (_ & _ & H).
         - intros Hin. rewrite Forall_forall in Ht. apply Ht in Hin. lia. }
    rewrite Hm, Hslash, (bool_decide_true _ Hv). cbn [negb orb].
    assert (Hctl : existsb target_control t = false).
    { apply not_true_iff_false. intros (c & Hc & Hx)%existsb_exists. apply list_elem_of_In in Hc.
      rewrite Forall_forall in Ht. apply Ht in Hc. unfold target_control in Hx. lia. }
    by rewrite Hctl.
Qed.

Lemma latin1_cut line n v :
  py_cut 58 (decode_latin1 line) = Some (n, v) <->
  exists n' v', line = n' ++ chr 58 :: v' /\ chr 58 ∉ n' /\ n = decode_latin1 n' /\ v = decode_latin1 v'.
Proof.
  rewrite py_cut_Some. unfold decode_latin1. split.
  - intros [E Hn]. exists (map chr n), (map chr v).
    assert (Hr : forall s, (forall c, c ∈ s -> c ∈ map uchar line) -> map uchar (map chr s) = s).
    { intros s Hs. induction s as [|c s IH]; [done|]. cbn [map]. rewrite IH by (intros d Hd; apply Hs; by right).
      f_equal. assert (Hc : c ∈ map uchar line) by (apply Hs; by left).
      apply list_elem_of_In, in_map_iff in Hc as (b & <- & _). apply uchar_chr. pose proof (uchar_range b). lia. }
    assert (En : map uchar (map chr n) = n) by (apply Hr; intros c Hc; rewrite E, elem_of_app; auto).
    assert (Ev : map uchar (map chr v) = v) by (apply Hr; intros c Hc; rewrite E, elem_of_app, elem_of_cons; auto).
    split; [|split; [|done]].
    + rewrite <-(map_chr_uchar line), E, map_app. done.
    + intros Hin. apply Hn. rewrite <-En. apply list_elem_of_In, in_map_iff. exists (chr 58).
      split; [done|by apply list_elem_of_In].
  - intros (n' & v' & -> & Hn & -> & ->). split; [by rewrite map_app|].
    intros Hin. apply Hn. apply list_elem_of_In, in_map_iff in Hin as (b & Hb & Hin%list_elem_of_In).
    by rewrite (uchar_inj (chr 58) b).
Qed.

(** One header line, and all of them; the names are distinct. *)
Lemma parse_header_exact hs line hs' :
  parse_header hs line = Value hs' <-> exists h, header_line line h /\ h.1 ∉ hs.*1 /\ hs' = hs ++ [h].
Proof.
  unfold parse_header, header_line. split.
  - destruct (py_cut 58 (decode_latin1 line)) as [[n v]|] eqn:Hc; [|done].
    apply latin1_cut in Hc as (n' & v' & -> & Hn & -> & ->). cbn zeta.
    destruct (_ || _) eqn:Ht; [done|]. destruct (existsb _ _) eqn:Hv; [done|]. intros [= <-].
    rewrite orb_false_iff, negb_false_iff, bool_decide_eq_false in Ht. destruct Ht as [Ht Hin].
    eexists. split; [by exists n', v'|]. done.
  - intros (h & (n & v & -> & Hn & Ht & Hv & ->) & Hin & ->).
    rewrite (proj2 (latin1_cut _ (decode_latin1 n) (decode_latin1 v))) by (by exists n, v). cbn zeta.
    rewrite Ht, Hv, bool_decide_false by done. done.
Qed.

Lemma parse_header_lines_exact lines hs hs' :
  parse_header_lines hs lines = Value hs' <->
  exists new, hs' = hs ++ new /\ Forall2 header_line lines new /\
    NoDup new.*1 /\ (forall h, h ∈ new.*1 -> h ∉ hs.*1).
Proof.
  revert hs. induction lines as [|line lines IH]; intros hs; cbn [parse_header_lines].
  - split.
    + intros [= <-]. exists []. rewrite app_nil_r. split_and!; [done|constructor|constructor|].
      intros h Hh. by apply not_elem_of_nil in Hh.
    + intros (new & -> & H & _). inversion H. by rewrite app_nil_r.
  - split.
    + destruct (parse_header hs line) as [hs1|] eqn:E; [|done]. apply parse_header_exact in E as (h & Hl & Hin & ->).
      intros (new & -> & Hf & Hnd & Hnew)%IH. exists (h :: new). rewrite <-app_assoc. split; [done|].
      split; [by constructor|]. rewrite fmap_app in Hnew. split.
      * cbn [fmap list_fmap]. apply NoDup_cons. split; [|done]. intros Hh. apply (Hnew _ Hh).
        rewrite elem_of_app. right. by left.
      * intros k. cbn [fmap list_fmap]. rewrite elem_of_cons. intros [->|Hk]; [done|].
        intros Hk'. apply (Hnew k Hk). rewrite elem_of_app. by left.
    + intros (new & -> & Hf & Hnd & Hnew). inversion Hf as [|? h ? new' Hl Hf']; subst.
      cbn [fmap list_fmap] in Hnd, Hnew. apply NoDup_cons in Hnd as [Hh Hnd].
      rewrite (proj2 (parse_header_exact hs line (hs ++ [h]))) by (exists h; split; [done|]; split; [apply Hnew; by left|done]).
      apply IH. exists new'. rewrite <-app_assoc. split; [done|]. split; [done|]. split; [done|].
      intros k Hk. rewrite fmap_app, elem_of_app. intros [Hk'|Hk'].
      * by apply (Hnew k); [right|].
      * apply list_elem_of_singleton in Hk'. by subst.
Qed.

(** What is in a line. *)
Lemma value_no_cr v : existsb value_control (decode_latin1 v) = false -> CR ∉ v.
Proof.
  intros H Hin. apply not_true_iff_false in H. apply H, existsb_exists. exists (uchar CR).
  split; [|vm_compute; reflexivity]. apply in_map, list_elem_of_In, Hin.
Qed.

Lemma casefold_cr n : CR ∈ n -> 13 ∈ casefold (decode_latin1 n).
Proof.
  unfold casefold, decode_latin1. induction n as [|b n IH]; intros Hin; [by apply not_elem_of_nil in Hin|].
  cbn [map]. change (mjoin (casefold_char (uchar b) :: map casefold_char (map uchar n))) with
    (casefold_char (uchar b) ++ mjoin (map casefold_char (map uchar n))).
  rewrite elem_of_app. apply elem_of_cons in Hin as [<-|Hin]; [left; vm_compute; by left|right; by apply IH].
Qed.

Lemma header_line_clean line h : header_line line h -> CR ∉ line /\ line <> [].
Proof.
  intros (n & v & -> & _ & Ht & Hv & _). split; [|by destruct n].
  rewrite elem_of_app, elem_of_cons. intros [Hin|[E|Hin]].
  - apply casefold_cr in Hin. apply token_ascii in Ht as [_ Ht]. rewrite Forall_forall in Ht.
    by apply Ht in Hin as (_ & H & _).
  - apply (f_equal uchar) in E. rewrite uchar_chr in E by lia. vm_compute in E. discriminate.
  - by apply value_no_cr in Hv.
Qed.

Lemma request_line_clean line m t v : request_line line m t v -> CR ∉ line /\ line <> [].
Proof.
  intros (-> & Hm & _ & Ht & Hv). apply token_ascii in Hm as [_ Hm]. apply supported_points in Hv as (Hvp & _ & Hv).
  split; [|by destruct m].
  intros Hin. apply list_elem_of_In, in_map_iff in Hin as (c & Hc & Hin%list_elem_of_In).
  assert (Hc13 : c <> 13 /\ 0 <= c < 256 \/ c < 0 \/ 256 <= c).
  { destruct (decide (0 <= c < 256)); [|lia]. left. split; [|done]. intros ->.
    rewrite elem_of_app, elem_of_cons, elem_of_app, elem_of_cons in Hin. rewrite Forall_forall in Hm, Ht.
    destruct Hin as [Hin|[Hin|[Hin|[Hin|Hin]]]]; [|done| |done|done].
    - by apply Hm in Hin as (_ & H & _).
    - apply Ht in Hin. lia. }
  destruct Hc13 as [[Hne Hr]|Hr].
  - apply (f_equal uchar) in Hc. rewrite uchar_chr in Hc by done. change (uchar CR) with 13 in Hc. congruence.
  - rewrite elem_of_app, elem_of_cons, elem_of_app, elem_of_cons in Hin. rewrite Forall_forall in Hm, Ht, Hvp.
    destruct Hin as [Hin|[Hin|[Hin|[Hin|Hin]]]]; try lia.
    + apply Hm in Hin. simpl in Hin.
      assert (Hchr : chr c = NUL).
      { unfold chr. by replace (Z.to_N c) with 0%N by lia. }
      rewrite Hchr in Hc. discriminate.
    + apply Ht in Hin. lia.
    + apply Hvp in Hin. unfold point in Hin. lia.
Qed.

(** ** The whole request *)

Lemma parse_headers_join lines :
  (forall l ls, lines = l :: ls -> l ++ more_lines ls <> [] /\ bytes_split CRLF (l ++ more_lines ls) = lines) ->
  parse_headers (py_join CRLF lines) = parse_header_lines [] lines.
Proof.
  intros H. unfold parse_headers. destruct lines as [|l ls]; [by rewrite bool_decide_true|].
  destruct (H l ls eq_refl) as [Hne Hs]. rewrite py_join_mjoin, bool_decide_false by done. by rewrite Hs.
Qed.

Lemma crlf_ne : CRLF <> [].
Proof. by rewrite crlf_shape. Qed.

Lemma parse_request_exact bytes m t v hs :
  parse_request bytes = Value (m, t, v, hs) <-> is_request bytes m t v hs.
Proof.
  unfold parse_request, py_partition. split.
  - destruct (cut HEADER_END bytes) as [[block rest]|] eqn:Hcut; [|by rewrite bool_decide_true].
    destruct (bool_decide (HEADER_END = [])); [done|].
    pose proof (split_mjoin block) as Hblock. destruct (bytes_split CRLF block) as [|line lines] eqn:Hsplit; [done|].
    destruct (bool_decide (line = [])); [done|].
    destruct (parse_request_line line) as [[[m' t'] v']|] eqn:Hline; [|done]. apply parse_request_line_exact in Hline.
    rewrite parse_headers_join.
    + destruct (parse_header_lines [] lines) as [hs'|] eqn:Hh; [|done]. intros [= -> -> -> ->].
      apply parse_header_lines_exact in Hh as (new & -> & Hf & Hnd & _). cbn [app].
      exists line, lines, rest. split; [|done]. rewrite app_assoc, <-Hblock. by apply cut_Some.
    + intros l ls ->. unfold bytes_split in Hsplit. rewrite split_cut in Hsplit by apply crlf_ne.
      destruct (cut CRLF block) as [[a b]|] eqn:E; [|done]. injection Hsplit as -> Hb.
      pose proof (split_mjoin b) as Hjoin. unfold bytes_split in *. rewrite Hb in Hjoin. rewrite <-Hjoin, Hb. split; [|done].
      intros ->. cbn [more_lines] in Hblock. symmetry in Hjoin.
      apply app_eq_nil in Hjoin as [-> Hls]. rewrite Hls, app_nil_l, app_nil_r in Hblock.
      pose proof (cut_Some _ _ _ _ Hcut) as Hbytes.
      pose proof (cut_first _ _ _ _ Hcut line (CRLF ++ rest)) as Hfirst.
      assert (Hle : (length block <= length line)%nat).
      { apply Hfirst. rewrite Hbytes, Hblock, header_end_shape, crlf_shape. by rewrite <-!app_assoc. }
      rewrite Hblock, length_app, crlf_shape in Hle. simpl in Hle. lia.
  - intros (line & lines & rest & -> & Hline & Hf & Hnd).
    destruct (request_line_clean _ _ _ _ Hline) as [Hcr Hne].
    assert (Hclean : Forall (fun x => CR ∉ x) lines /\ Forall (fun x => x <> []) lines).
    { clear -Hf. induction Hf as [|l h ls hs Hl Hls [IH1 IH2]]; [by split|].
      apply header_line_clean in Hl as [? ?]. by split; constructor. }
    destruct Hclean as [Hcrs Hnes].
    rewrite cut_header_end by (done || by constructor).
    rewrite bool_decide_false by by rewrite header_end_shape.
    rewrite split_lines_cr by by constructor. rewrite bool_decide_false by done.
    rewrite (proj2 (parse_request_line_exact _ _ _ _) Hline).
    rewrite parse_headers_join.
    + by rewrite (proj2 (parse_header_lines_exact lines [] hs)) by (exists hs; split_and!; [done..|]; intros h _; apply not_elem_of_nil).
    + intros l ls ->. inversion Hnes as [|? ? Hl _]; subst. split; [by destruct l|]. by apply split_lines_cr.
Qed.

(** ** How the input is cut does not matter *)

(** What is taken from a whole input that is not too large. *)
Definition header_of (input : list byte) : pyres (list byte) :=
  match cut HEADER_END input with
  | Some (h, _) => Value (h ++ HEADER_END)
  | None => Raise ValueError "incomplete request headers"
  end.

Lemma receive_joined chunks : forall request,
  Forall (fun chunk => chunk <> []) chunks -> zlen (request ++ mjoin chunks) <= MAX_REQUEST_SIZE ->
  (receive request (map Ok chunks)).1 = header_of (request ++ mjoin chunks).
Proof.
  intros request Hc. revert request. induction Hc as [|chunk chunks Hne Hc IH]; intros request Hl.
  - rewrite app_nil_r in *. cbn [map receive]. unfold index_of, header_of.
    destruct (cut HEADER_END request) as [[h r]|] eqn:E; [|done]. cbn [fst].
    pose proof (cut_Some _ _ _ _ E) as Hr. rewrite Hr, !length_app in Hl. rewrite header_end_shape in Hl at 1. simpl in Hl.
    rewrite (proj2 (Z.ltb_ge _ _)) by lia. f_equal. rewrite Hr, (app_assoc h).
    apply (py_slice_app [] (h ++ HEADER_END) r); [done|]. rewrite length_app, header_end_shape. simpl. lia.
  - change (mjoin (chunk :: chunks)) with (chunk ++ mjoin chunks) in *. cbn [map receive]. unfold index_of.
    destruct (cut HEADER_END request) as [[h r]|] eqn:E.
    + cbn [fst]. unfold header_of. rewrite (cut_app _ _ _ _ _ E).
      pose proof (cut_Some _ _ _ _ E) as Hr. rewrite Hr, !length_app in Hl. rewrite header_end_shape in Hl at 1. simpl in Hl.
      rewrite (proj2 (Z.ltb_ge _ _)) by lia. f_equal. rewrite Hr, (app_assoc h).
      apply (py_slice_app [] (h ++ HEADER_END) r); [done|]. rewrite length_app, header_end_shape. simpl. lia.
    + rewrite bool_decide_false by done. rewrite app_assoc in Hl |- *.
      rewrite (proj2 (Z.ltb_ge _ _)) by (rewrite length_app in Hl; lia). by apply IH.
Qed.

(** ** Two corners *)

(** A byte outside ASCII in the name of a header. *)
Lemma folded_name_accepted :
  parse_request (lit "GET / HTTP/1.0" ++ CRLF ++ chr 0xDF :: lit ": 1" ++ HEADER_END) =
  Value (text "GET", text "/", text "HTTP/1.0", [(text "ss", text "1")]).
Proof. vm_compute. reflexivity. Qed.

Lemma receive_prefix chunks rx : forall request,
  Forall (fun chunk => chunk <> []) chunks -> cut HEADER_END (request ++ mjoin chunks) = None ->
  zlen (request ++ mjoin chunks) <= MAX_REQUEST_SIZE ->
  receive request (map Ok chunks ++ rx) = receive (request ++ mjoin chunks) rx.
Proof.
  intros request Hc. revert request. induction Hc as [|chunk chunks Hne Hc IH]; intros request Hcut Hl.
  - cbn [map app]. by rewrite app_nil_r.
  - change (mjoin (chunk :: chunks)) with (chunk ++ mjoin chunks) in *. rewrite app_assoc in Hcut, Hl |- *.
    cbn [map app receive]. unfold index_of. destruct (cut HEADER_END request) as [[h r]|] eqn:E.
    { rewrite <-app_assoc, (cut_app _ _ _ _ _ E) in Hcut. done. }
    rewrite bool_decide_false by done. rewrite (proj2 (Z.ltb_ge _ _)) by (rewrite length_app in Hl; lia). by apply IH.
Qed.

(** A header block of MAX_REQUEST_SIZE bytes with a byte behind it is taken or refused,
    depending on where it is cut. *)
Lemma oversize_cut p b x a chunks :
  Forall (fun chunk => chunk <> []) chunks -> mjoin chunks = p -> zlen p = MAX_REQUEST_SIZE - 1 ->
  cut HEADER_END p = None -> cut HEADER_END (p ++ [b]) = Some (a, []) ->
  receive [] (map Ok chunks ++ [Ok [b]; Ok [x]]) = (Value (p ++ [b]), [Ok [x]]) /\
  receive [] (map Ok chunks ++ [Ok [b; x]]) = (too_large, []).
Proof.
  intros Hc <- Hl Hcut Hend. rewrite !receive_prefix by (done || (rewrite app_nil_l; done || lia)). rewrite !app_nil_l.
  cbn [receive]. unfold index_of. rewrite Hcut, Hend. rewrite !bool_decide_false by done. rewrite !length_app. cbn [length].
  rewrite (proj2 (Z.ltb_ge _ (Z.of_nat (_ + 1)))) by lia. rewrite (proj2 (Z.ltb_lt _ (Z.of_nat (_ + 2)))) by lia. split; [|done].
  pose proof (cut_Some _ _ _ _ Hend) as Hp. rewrite app_nil_r in Hp. apply (f_equal length) in Hp as Hp'.
  rewrite !length_app in Hp'. rewrite header_end_shape in Hp'. cbn [length] in Hp'.
  rewrite (proj2 (Z.ltb_ge _ _)) by lia. f_equal. f_equal. rewrite <-(app_nil_r (mjoin chunks ++ [b])) at 1.
  apply (py_slice_app [] (mjoin chunks ++ [b]) []); [done|]. rewrite length_app. cbn [length]. lia.
Qed.
