(* ===== verification/HttpClient.v ===== *)
(** * The HTTP client of http-server/client.py

    [_read_response], on the bytes that come until the server closes the connection,
    and the request of [URL.request].  Then that it reads back what the server
    builds. *)

From S2P Require Import Prelude CLib Effects GoLib PyLib HttpServer HttpExec HttpRequest.
Local Open Scope Z_scope.
Local Open Scope py_scope.

(** ** Responses

    [_is_token], SUPPORTED_VERSIONS and TOKEN_SYMBOLS of client.py are the ones of
    server.py. *)

Record client_response := ClientResponse {
  r_version : pystr;
  r_status : Z;
  r_reason : pystr;
  r_headers : list (pystr * pystr);
  r_body : list byte
}.

(** [response_file.readline()]: the line, and what is left. *)
Definition read_line (s : list byte) : list byte * list byte :=
  match cut_at LF s with Some (l, r) => (l ++ [LF], r) | None => (s, []) end.

Definition decode_line (line : list byte) : pyres pystr :=
  if bool_decide (drop (length line - 2) line = CRLF) then Value (decode_latin1 (take (length line - 2) line))
  else Raise ValueError "incomplete response line".

(** [d[key] = value] *)
Fixpoint dict_set (key value : pystr) (d : list (pystr * pystr)) : list (pystr * pystr) :=
  match d with
  | [] => [(key, value)]
  | (k, v) :: d => if bool_decide (k = key) then (k, value) :: d else (k, v) :: dict_set key value d
  end.

(** The loop over the header lines; every turn takes a line ([read_headers_fuel]). *)
Fixpoint read_headers (fuel : nat) (headers : list (pystr * pystr)) (s : list byte)
  : pyres (list (pystr * pystr) * list byte) :=
  match fuel with
  | O => Raise IndexError "out of fuel"
  | S fuel =>
      let '(line, s) := read_line s in
      if bool_decide (line = []) then Raise ValueError "incomplete response headers"
      else if bool_decide (line = CRLF) then Value (headers, s)
      else
        let! header_line := decode_line line in
        match py_cut 58 header_line with
        | None => Raise ValueError "malformed response header"
        | Some (name, value) =>
            let name := casefold name in
            if negb (is_token name) then Raise ValueError "malformed response header name"
            else if existsb value_control value then Raise ValueError "malformed response header value"
            else read_headers fuel (dict_set name (py_strip [32; 9] value) headers) s
        end
  end.

Definition isdigits (s : pystr) : bool := negb (bool_decide (s = [])) && forallb (fun c => (48 <=? c) && (c <=? 57)) s.

(** [int(s)], on ASCII digits. *)
Definition py_int (s : pystr) : Z := foldl (fun n c => n * 10 + (c - 48)) 0 s.

Definition read_response (stream : list byte) : pyres client_response :=
  let '(status_line, s) := read_line stream in
  if bool_decide (status_line = []) then Raise ValueError "empty HTTP response"
  else
    let! status_line := decode_line status_line in
    match py_cut 32 status_line with
    | None => Raise ValueError "malformed response status line"
    | Some (version, line) =>
        match py_cut 32 line with
        | None => Raise ValueError "malformed response status line"
        | Some (raw_status, reason) =>
            if negb (bool_decide (version ∈ SUPPORTED_VERSIONS)) || negb (zlen raw_status =? 3) ||
               negb (isascii raw_status) || negb (isdigits raw_status)
            then Raise ValueError "malformed response status line"
            else if existsb value_control reason then Raise ValueError "malformed response reason phrase"
            else
              let! ' (headers, body) := read_headers (S (length s)) [] s in
              if bool_decide (text "transfer-encoding" ∈ headers.*1)
              then Raise NotImplementedError "Transfer-Encoding responses are not supported"
              else if bool_decide (text "content-encoding" ∈ headers.*1)
              then Raise NotImplementedError "Content-Encoding responses are not supported"
              else Value (ClientResponse version (py_int raw_status) reason headers body)
        end
    end.

(** ** Requests *)

(** The bytes that [URL.request] sends, for a path and a Host header; [None] for a
    UnicodeEncodeError. *)
Definition client_request (path host_header : pystr) : option (list byte) :=
  let request := text "GET " ++ path ++ text " HTTP/1.0\r\n" in
  let request := request ++ text "Host: " ++ host_header ++ text "\r\n" in
  let request := request ++ text "\r\n" in
  encode_utf8 request.

(** ** What the server builds is read back *)

(** A response that survives: a status of three digits and a reason, names that are
    tokens, values without control characters and white space around. *)
Definition clean (s : pystr) : Prop := Forall point s /\ existsb value_control s = false.

Definition sendable (r : response) (code reason : pystr) : Prop :=
  status r = code ++ 32 :: reason /\ length code = 3%nat /\ isdigits code = true /\ clean reason /\
  Forall (fun nv => is_token nv.1 = true /\ clean nv.2 /\ py_strip [32; 9] nv.2 = nv.2 /\
    casefold nv.1 <> text "transfer-encoding" /\ casefold nv.1 <> text "content-encoding") (headers r).

(** The dict of the headers. *)
Definition header_dict (hs : list (pystr * pystr)) : list (pystr * pystr) :=
  foldl (fun d nv => dict_set (casefold nv.1) nv.2 d) [] hs.

Definition sent_headers (r : response) : list (pystr * pystr) :=
  headers r ++ [(text "Content-Length", py_str (zlen (body r))); (text "Connection", text "close")].

#[local] Opaque CRLF text.

(** *** Lines *)

Definition line_bytes (l : pystr) : list byte := map chr l ++ CRLF.

Lemma clean_line l : Forall point l -> existsb value_control l = false -> LF ∉ map chr l.
Proof.
  intros Hp Hc Hin. apply list_elem_of_In, in_map_iff in Hin as (c & E & Hin).
  apply not_true_iff_false in Hc. apply Hc, existsb_exists. exists c. split; [done|].
  rewrite Forall_forall in Hp. apply list_elem_of_In, Hp in Hin. unfold point in Hin.
  apply (f_equal uchar) in E. rewrite uchar_chr in E by lia. rewrite E. vm_compute. reflexivity.
Qed.

Lemma read_line_bytes l rest : LF ∉ map chr l -> read_line (line_bytes l ++ rest) = (line_bytes l, rest).
Proof.
  intros Hl. unfold read_line, line_bytes. rewrite crlf_shape.
  assert (E : cut_at LF ((map chr l ++ [CR; LF]) ++ rest) = Some (map chr l ++ [CR], rest)).
  { apply cut_at_Some. split; [by rewrite <-!app_assoc|]. rewrite elem_of_app. intros [H|H]; [done|].
    apply list_elem_of_singleton in H. discriminate. }
  rewrite E. by rewrite <-app_assoc.
Qed.

Lemma decode_line_bytes l : Forall point l -> decode_line (line_bytes l) = Value l.
Proof.
  intros Hp. unfold decode_line, line_bytes. rewrite length_app.
  assert (E : (length (map chr l) + length CRLF - 2)%nat = length (map chr l)) by (rewrite crlf_shape; simpl; lia).
  rewrite E, drop_app_length, take_app_length, bool_decide_true by done.
  unfold decode_latin1. by rewrite map_uchar_chr.
Qed.

Lemma line_bytes_ne l : line_bytes l <> [] /\ (l <> [] -> line_bytes l <> CRLF).
Proof.
  unfold line_bytes. rewrite crlf_shape. split; [by destruct l|]. destruct l as [|c l]; [done|].
  intros _ E. apply (f_equal length) in E. rewrite length_app in E. simpl in E. lia.
Qed.

(** *** The head *)

Fixpoint all_lines (ls : list pystr) : list byte :=
  match ls with [] => CRLF | l :: ls => line_bytes l ++ all_lines ls end.

Lemma map_chr_crlf : map chr (text "\r\n") = CRLF.
Proof. vm_compute. reflexivity. Qed.

Lemma all_lines_join ls :
  ls <> [] -> map chr (py_join (text "\r\n") (ls ++ [[]; []])) = all_lines ls.
Proof.
  intros Hne. destruct ls as [|l ls]; [done|]. clear Hne. revert l. induction ls as [|x ls IH]; intros l.
  - cbn [app py_join all_lines]. unfold line_bytes. rewrite !map_app, map_chr_crlf. cbn [map]. by rewrite app_nil_r, <-app_assoc.
  - change ((l :: x :: ls) ++ [[]; []]) with (l :: (x :: ls) ++ [[]; []]). change (all_lines (l :: x :: ls)) with (line_bytes l ++ all_lines (x :: ls)). rewrite <-(IH x).
    change (py_join (text "\r\n") (l :: (x :: ls) ++ [[]; []])) with
      (l ++ text "\r\n" ++ py_join (text "\r\n") ((x :: ls) ++ [[]; []])).
    unfold line_bytes. by rewrite !map_app, map_chr_crlf, <-!app_assoc.
Qed.

Definition header_text (nv : pystr * pystr) : pystr := nv.1 ++ text ": " ++ nv.2.

Lemma response_bytes_lines r :
  response_bytes r = all_lines ((text "HTTP/1.1 " ++ status r) :: map header_text (sent_headers r)) ++ body r.
Proof.
  assert (E : map (fun '(name, value) => name ++ text ": " ++ value) (headers r) = map header_text (headers r)).
  { apply map_ext. by intros [n v]. }
  unfold response_bytes, head_text. rewrite E. rewrite <-all_lines_join by discriminate.
  assert (E1 : text "Content-Length: " = text "Content-Length" ++ text ": ") by (vm_compute; reflexivity).
  assert (E2 : text "Connection: close" = text "Connection" ++ text ": " ++ text "close") by (vm_compute; reflexivity).
  unfold sent_headers. rewrite map_app, E1, E2. cbn [map app header_text fst snd].
  rewrite <-!app_assoc. reflexivity.
Qed.

(** *** Header lines *)

Definition token_char (c : Z) : bool := isalnum c || bool_decide (c ∈ TOKEN_SYMBOLS).

Lemma casefold_token_char c :
  point c -> token_char c = true ->
  c <> 58 /\ exists c', casefold_char c = [c'] /\ c' < 128 /\ token_char c' = true.
Proof.
  intros Hc Ht.
  assert (H : forallb (fun c => negb (token_char c) ||
    (negb (c =? 58) && match casefold_char c with [c'] => (c' <? 128) && token_char c' | _ => false end))
    (seqZ 0 128) = true) by (vm_compute; reflexivity).
  rewrite forallb_forall in H. unfold point in Hc. specialize (H c ltac:(apply list_elem_of_In, elem_of_seqZ; lia)).
  rewrite Ht in H. cbn [negb orb] in H. apply andb_true_iff in H as [H1 H2]. split; [lia|].
  destruct (casefold_char c) as [|c' [|]]; try done. apply andb_true_iff in H2 as [H2 H3].
  exists c'. split; [done|]. split; [by apply Z.ltb_lt|done].
Qed.

Lemma casefold_token s : is_token s = true -> is_token (casefold s) = true /\ 58 ∉ s.
Proof.
  intros Hs. pose proof (token_point s Hs) as Hp. unfold is_token in *.
  rewrite !andb_true_iff, negb_true_iff, bool_decide_eq_false in *. destruct Hs as [[Hne _] Hs].
  change (forallb token_char s = true) in Hs. change (forallb _ (casefold s) = true) with (forallb token_char (casefold s) = true).
  assert (H : (isascii (casefold s) = true /\ forallb token_char (casefold s) = true) /\ 58 ∉ s).
  { clear Hne. induction Hp as [|c s Hc Hp IH]; [split; [done|apply not_elem_of_nil]|].
    cbn [forallb] in Hs. apply andb_true_iff in Hs as [Htc Hts].
    destruct (casefold_token_char c Hc Htc) as (Hne & c' & E & Hlt & Ht').
    destruct (IH Hts) as [[H1 H2] H3].
    change (casefold (c :: s)) with (casefold_char c ++ casefold s). rewrite E. cbn [app]. unfold isascii in *. cbn [forallb].
    rewrite H1, H2, Ht', (proj2 (Z.ltb_lt _ _) Hlt). split; [done|]. rewrite not_elem_of_cons. split; congruence. }
  destruct H as [[H1 H2] H3]. split; [|done]. split; [|done]. split; [|done].
  destruct s as [|c s]; [done|]. inversion Hp as [|? ? Hc _]; subst. cbn [forallb] in Hs. apply andb_true_iff in Hs as [Htc _].
  destruct (casefold_token_char c Hc Htc) as (_ & c' & E & _).
  change (casefold (c :: s)) with (casefold_char c ++ casefold s). by rewrite E.
Qed.

(** A header that the client reads. *)
Definition header_sendable (nv : pystr * pystr) : Prop :=
  is_token nv.1 = true /\ clean nv.2 /\ py_strip [32; 9] nv.2 = nv.2.

Lemma colon_text : text ": " = [58; 32].
Proof. vm_compute. reflexivity. Qed.

Lemma header_text_clean nv :
  header_sendable nv -> Forall point (header_text nv) /\ LF ∉ map chr (header_text nv) /\ header_text nv <> [].
Proof.
  destruct nv as [n v]. intros (Hn & [Hv Hc] & _). cbn [fst snd] in *. unfold header_text. cbn [fst snd].
  assert (Hp : Forall point (n ++ text ": " ++ v)).
  { apply Forall_app. split; [by apply token_point|]. rewrite colon_text. by repeat constructor. }
  split; [done|]. split; [|by rewrite colon_text; destruct n].
  rewrite colon_text in *. intros Hin. apply list_elem_of_In, in_map_iff in Hin as (c & E & Hin%list_elem_of_In).
  rewrite Forall_forall in Hp. pose proof (Hp c Hin) as Hpc. unfold point in Hpc.
  apply (f_equal uchar) in E. rewrite uchar_chr in E by lia. change (uchar LF) with 10 in E. subst c.
  cbn [app] in Hin. rewrite elem_of_app, !elem_of_cons in Hin. destruct Hin as [Hin|[Hin|[Hin|Hin]]]; [|done|done|].
  - assert (H10 : token_char 10 = false) by (vm_compute; reflexivity).
    unfold is_token in Hn. rewrite !andb_true_iff in Hn. destruct Hn as [_ Hn]. rewrite forallb_forall in Hn.
    apply list_elem_of_In, Hn in Hin. unfold token_char in H10. congruence.
  - apply not_true_iff_false in Hc. apply Hc, existsb_exists. exists 10. split; [by apply list_elem_of_In|done].
Qed.

Lemma read_header_line fuel d nv s :
  header_sendable nv ->
  read_headers (S fuel) d (line_bytes (header_text nv) ++ s) = read_headers fuel (dict_set (casefold nv.1) nv.2 d) s.
Proof.
  intros H. destruct (header_text_clean nv H) as (Hp & Hlf & Hne). destruct H as (Hn & [Hv Hc] & Hs).
  cbn [read_headers]. rewrite read_line_bytes by done. destruct (line_bytes_ne (header_text nv)) as [H1 H2].
  rewrite !bool_decide_false by auto. rewrite decode_line_bytes by done.
  destruct nv as [n v]. cbn [fst snd] in *. unfold header_text. cbn [fst snd]. rewrite colon_text. cbn [app].
  destruct (casefold_token n Hn) as [Hcf H58].
  rewrite (proj2 (py_cut_Some 58 _ n (32 :: v))) by done. cbn zeta. rewrite Hcf. cbn [negb].
  assert (Hv' : existsb value_control (32 :: v) = false) by done. rewrite Hv'.
  assert (Hstrip : py_strip [32; 9] (32 :: v) = py_strip [32; 9] v) by done. by rewrite Hstrip, Hs.
Qed.

Lemma read_headers_lines hs : Forall header_sendable hs -> forall fuel d body,
  (length hs < fuel)%nat ->
  read_headers fuel d (all_lines (map header_text hs) ++ body) =
  Value (foldl (fun d nv => dict_set (casefold nv.1) nv.2 d) d hs, body).
Proof.
  induction 1 as [|nv hs Hnv Hhs IH]; intros [|fuel] d body Hf; cbn [length] in Hf; [lia| |lia|].
  - cbn [map all_lines foldl read_headers]. unfold read_line. rewrite crlf_shape.
    assert (E : cut_at LF ([CR; LF] ++ body) = Some ([CR], body)) by by apply cut_at_Some; split; [|rewrite list_elem_of_singleton].
    rewrite E. by rewrite bool_decide_false, bool_decide_true.
  - cbn [map all_lines foldl]. rewrite <-app_assoc, read_header_line by done. apply IH. lia.
Qed.

Lemma dict_set_keys k key value d : k ∈ (dict_set key value d).*1 <-> k = key \/ k ∈ d.*1.
Proof.
  induction d as [|[k' v'] d IH]; cbn [dict_set fmap list_fmap fst].
  - rewrite list_elem_of_singleton. split; [by left|]. intros [->|H]; [done|by apply not_elem_of_nil in H].
  - case_bool_decide as E; cbn [fmap list_fmap fst]; rewrite !elem_of_cons; [subst; tauto|].
    change (list_fmap _ _ fst (dict_set key value d)) with ((dict_set key value d).*1). rewrite IH. tauto.
Qed.

Lemma header_dict_keys k hs : k ∈ (header_dict hs).*1 <-> k ∈ map (fun nv => casefold nv.1) hs.
Proof.
  unfold header_dict. assert (H : forall d, k ∈ (foldl (fun d nv => dict_set (casefold nv.1) nv.2 d) d hs).*1 <->
    k ∈ d.*1 \/ k ∈ map (fun nv => casefold nv.1) hs).
  { induction hs as [|nv hs IH]; intros d; cbn [foldl map].
    - split; [by left|]. intros [H|H]; [done|by apply not_elem_of_nil in H].
    - rewrite IH, dict_set_keys, elem_of_cons. tauto. }
  rewrite H. split; [|by right]. intros [Hk|Hk]; [by apply not_elem_of_nil in Hk|done].
Qed.

(** *** Numbers in the head *)

Lemma isdigits_clean s : isdigits s = true -> clean s /\ 32 ∉ s /\ py_strip [32; 9] s = s /\ isascii s = true.
Proof.
  unfold isdigits. rewrite andb_true_iff, negb_true_iff, bool_decide_eq_false. intros [Hne Hd].
  assert (Hr : forall c, c ∈ s -> 48 <= c <= 57).
  { intros c Hc. rewrite forallb_forall in Hd. apply list_elem_of_In, Hd in Hc. lia. }
  split_and!.
  - split; [apply Forall_forall; intros c Hc%Hr; unfold point; lia|].
    apply not_true_iff_false. intros (c & Hc & Hx)%existsb_exists. apply list_elem_of_In, Hr in Hc.
    unfold value_control in Hx. lia.
  - intros Hc%Hr. lia.
  - apply py_strip_none. intros c Hc%Hr. rewrite !elem_of_cons. intros [->|[->|H]]; [lia|lia|by apply not_elem_of_nil in H].
  - apply forallb_forall. intros c Hc%list_elem_of_In%Hr. lia.
Qed.

Lemma py_str_digits n : 0 <= n -> isdigits (py_str n) = true.
Proof.
  intros Hn. destruct (decimal_spec n Hn) as (Hd & _ & _ & Hne). unfold isdigits, py_str.
  rewrite andb_true_iff, negb_true_iff, bool_decide_eq_false. split; [by destruct (decimal n)|].
  apply forallb_forall. intros c (b & <- & Hb%list_elem_of_In)%in_map_iff. rewrite Forall_forall in Hd. exact (Hd b Hb).
Qed.

Lemma sent_headers_sendable r code reason :
  sendable r code reason -> Forall header_sendable (sent_headers r).
Proof.
  intros (_ & _ & _ & _ & Hh). unfold sent_headers. apply Forall_app. split.
  { eapply Forall_impl; [exact Hh|]. intros nv (H1 & H2 & H3 & _). by split_and!. }
  destruct (isdigits_clean (py_str (zlen (body r)))) as (Hc & _ & Hs & _); [apply py_str_digits; lia|].
  constructor; [|constructor; [|done]]; split_and!; cbn [fst snd]; try done; try (vm_compute; reflexivity).
  split; [by apply point_text|vm_compute; reflexivity].
Qed.

(** ** The round trip *)

Lemma read_response_bytes r code reason :
  sendable r code reason ->
  read_response (response_bytes r) =
  Value (ClientResponse (text "HTTP/1.1") (py_int code) reason (header_dict (sent_headers r)) (body r)).
Proof.
  intros Hr. pose proof (sent_headers_sendable r code reason Hr) as Hhs.
  destruct Hr as (Hst & Hlen & Hcode & [Hreason Hctl] & Hh).
  destruct (isdigits_clean code Hcode) as ([Hcp Hcc] & Hc32 & _ & Hcascii).
  assert (Hver : text "HTTP/1.1 " = text "HTTP/1.1" ++ [32]) by (vm_compute; reflexivity).
  assert (Hv32 : 32 ∉ text "HTTP/1.1") by (apply (bool_decide_eq_true_1 (32 ∉ text "HTTP/1.1")); vm_compute; reflexivity).
  assert (Hvs : bool_decide (text "HTTP/1.1" ∈ SUPPORTED_VERSIONS) = true) by (vm_compute; reflexivity).
  assert (Hvc : existsb value_control (text "HTTP/1.1") = false) by (vm_compute; reflexivity).
  assert (Hvp : Forall point (text "HTTP/1.1")) by by apply point_text.
  set (line := text "HTTP/1.1" ++ 32 :: code ++ 32 :: reason).
  assert (Hline : text "HTTP/1.1 " ++ status r = line) by (unfold line; rewrite Hver, Hst, <-app_assoc; done).
  assert (Hp : Forall point line).
  { unfold line. apply Forall_app. split; [done|]. constructor; [done|]. apply Forall_app. split; [done|]. by constructor. }
  assert (Hlc : existsb value_control line = false).
  { unfold line. rewrite existsb_app, Hvc. cbn [existsb]. rewrite existsb_app, Hcc. cbn [existsb]. by rewrite Hctl. }
  rewrite response_bytes_lines, Hline. cbn [all_lines map]. rewrite <-app_assoc. unfold read_response.
  rewrite read_line_bytes by by apply clean_line. destruct (line_bytes_ne line) as [Hne _].
  rewrite bool_decide_false by done. rewrite decode_line_bytes by done.
  rewrite (proj2 (py_cut_Some 32 line (text "HTTP/1.1") (code ++ 32 :: reason))) by done.
  rewrite (proj2 (py_cut_Some 32 _ code reason)) by done.
  rewrite Hvs, Hlen, Hcascii, Hcode, Hctl. cbn [negb orb]. change (negb (Z.of_nat 3 =? 3)) with false. cbn [orb].
  rewrite read_headers_lines; [|done|].
  2: { rewrite length_app. assert (Hl : forall hs, (length hs <= length (all_lines (map header_text hs)))%nat).
       { induction hs as [|h hs IH]; cbn [map all_lines length]; [lia|]. rewrite length_app. unfold line_bytes.
         rewrite length_app, crlf_shape. simpl. lia. }
       specialize (Hl (sent_headers r)). lia. }
  fold (header_dict (sent_headers r)).
  assert (Hno : forall k, k ∈ [text "transfer-encoding"; text "content-encoding"] -> k ∉ (header_dict (sent_headers r)).*1).
  { intros k Hk. rewrite header_dict_keys. unfold sent_headers. rewrite map_app, elem_of_app.
    intros [Hin|Hin].
    - apply list_elem_of_In, in_map_iff in Hin as (nv & <- & Hin%list_elem_of_In). rewrite Forall_forall in Hh.
      destruct (Hh nv Hin) as (_ & _ & _ & H1 & H2). rewrite !elem_of_cons in Hk.
      destruct Hk as [Hk|[Hk|Hk]]; [done|done|by apply not_elem_of_nil in Hk].
    - assert (Hdec : forallb (fun k => negb (bool_decide (k ∈ [casefold (text "Content-Length"); casefold (text "Connection")])))
        [text "transfer-encoding"; text "content-encoding"] = true) by (vm_compute; reflexivity).
      rewrite forallb_forall in Hdec. apply list_elem_of_In, Hdec in Hk. rewrite negb_true_iff, bool_decide_eq_false in Hk.
      by apply Hk. }
  rewrite !bool_decide_false by (apply Hno; rewrite !elem_of_cons; auto). done.
Qed.
