(* ===== verification/HttpUrl.v ===== *)
(** * The URLs of http-server/client.py

    The class [URL]: what its constructor makes of an address, and [request], which
    resolves the host, connects and reads a response. *)

From S2P Require Import Prelude CLib GoLib PyLib DnsClient HttpServer HttpExec HttpRequest HttpClient.
Local Open Scope Z_scope.
Local Open Scope py_scope.

#[local] Opaque text.

(** ** The constructor *)

Record url := Url { u_scheme : pystr; u_path : pystr; u_host : pystr; u_port : Z; u_host_header : pystr }.

Section constructor.
(** The Unicode database, for [int]. *)
Context (unicode_ascii : Z -> Z).

(** The host and the port of the authority. *)
Definition parse_authority (authority : pystr) : pyres (pystr * Z) :=
  match py_rcut 58 authority with
  | Some (host, port) =>
      match py_int_str unicode_ascii port with
      | Some port => Value (host, port)
      | None => Raise ValueError "Invalid port"
      end
  | None => Value (authority, 80)
  end.

(** [URL.__init__] *)
Definition parse_url (address : pystr) : pyres url :=
  let address := match py_cut_str (text "://") address with None => text "http://" ++ address | Some _ => address end in
  match py_cut_str (text "://") address with
  | None => Raise ValueError "not enough values to unpack"
  | Some (scheme, address) =>
      if negb (bool_decide (scheme = text "http")) then Raise ValueError "Only http:// addresses are supported"
      else
        let '(authority, path) :=
          match py_cut 47 address with
          | Some (authority, path) => (authority, text "/" ++ path)
          | None => (address, text "/")
          end in
        let! ' (host, port) := parse_authority authority in
        if bool_decide (host = []) then Raise ValueError "A host is required"
        else if negb ((1 <=? port) && (port <=? 65535)) then Raise ValueError "Port must be between 1 and 65535"
        else Value (Url scheme path host port authority)
  end.
End constructor.

(** ** The request *)

Section request.
(** [resolver.resolve], if there is a resolver; and the network: [None] when no
    connection to a host and port can be made, or what comes back on it for what is
    sent, [None] for an OSError. *)
Context (resolver : option (pystr -> pyres pystr)).
Context (connect : pystr -> Z -> option (list byte -> option (list byte))).

(** [URL.request] *)
Definition url_request (u : url) : pyres client_response :=
  let! host := match resolver with Some resolve => resolve (u_host u) | None => Value (u_host u) end in
  match connect host (u_port u) with
  | None => Raise OSError "connect"
  | Some connection =>
      match client_request (u_path u) (u_host_header u) with
      | None => Raise ValueError "surrogates not allowed"
      | Some bytes =>
          match connection bytes with
          | None => Raise OSError "timed out"
          | Some stream => read_response stream
          end
      end
  end.
End request.

(** ** What the constructor makes *)

(** A well-formed URL. *)
Definition url_ok (u : url) : Prop :=
  u_scheme u = text "http" /\ startswith_slash (u_path u) = true /\ u_host u <> [] /\ 1 <= u_port u <= 65535 /\
  47 ∉ u_host_header u /\ (u_host_header u = u_host u \/ exists port, u_host_header u = u_host u ++ 58 :: port).

Lemma slash_text : text "/" = [47].
Proof. vm_compute. reflexivity. Qed.

Lemma parse_url_ok unicode_ascii address :
  match parse_url unicode_ascii address with Value u => url_ok u | Raise e _ => e = ValueError end.
Proof.
  unfold parse_url. cbn zeta. destruct (py_cut_str (text "://") (match _ with Some _ => _ | None => _ end)) as [[scheme rest]|]; [|done].
  destruct (bool_decide_reflect (scheme = text "http")) as [->|]; [|done]. cbn [negb].
  destruct (match py_cut 47 rest with Some (a, p) => (a, text "/" ++ p) | None => (rest, text "/") end) as [authority path] eqn:E.
  assert (Hs : startswith_slash path = true /\ 47 ∉ authority).
  { destruct (py_cut 47 rest) as [[a p]|] eqn:Ec; injection E as <- <-; rewrite slash_text; (split; [done|]).
    - by apply py_cut_Some in Ec as [_ ?].
    - by apply py_cut_None. }
  unfold parse_authority. destruct (py_rcut 58 authority) as [[host p]|] eqn:Er.
  - apply py_rcut_Some in Er as [-> _]. destruct (py_int_str unicode_ascii p) as [port|]; [|done].
    case_bool_decide; [done|]. destruct (negb _) eqn:Ep; [done|].
    rewrite negb_false_iff, andb_true_iff, !Z.leb_le in Ep. unfold url_ok. cbn [u_scheme u_path u_host u_port u_host_header].
    destruct Hs. split_and!; try done; [lia..|]. right. by eexists.
  - case_bool_decide; [done|]. cbn [negb andb Z.leb]. destruct (negb _) eqn:Ep; [done|].
    unfold url_ok. cbn [u_scheme u_path u_host u_port u_host_header]. destruct Hs. split_and!; try done. by left.
Qed.

(** ** A URL is what it is printed as *)

(** The digits of a number. *)
Lemma int_digits_spec ds : Forall (fun b => isdigit b = true) ds -> forall n count,
  int_digits n count (map uchar ds) = Some (digits_value_from n ds, count + zlen ds).
Proof.
  induction 1 as [|d ds Hd Hds IH]; intros n count; cbn [map int_digits digits_value_from fold_left length]; [by rewrite Z.add_0_r|].
  unfold isdigit in Hd. rewrite Hd, IH. unfold digits_value_from, digit. do 2 f_equal. lia.
Qed.

Lemma py_int_str_decimal unicode_ascii n : 0 <= n < 65536 -> py_int_str unicode_ascii (py_str n) = Some n.
Proof.
  intros Hn. destruct (decimal_spec n) as (Hd & Hv & Hl & Hne); [lia|]. specialize (Hl 5 ltac:(lia) ltac:(lia)).
  unfold py_str, digits_value in *.
  assert (Hr : forall c, c ∈ map uchar (decimal n) -> 48 <= c <= 57).
  { apply Forall_forall, Forall_map. eapply Forall_impl; [exact Hd|]. intros b. unfold isdigit. simpl. lia. }
  unfold py_int_str. rewrite (map_ext_in _ (fun c => c)), map_id.
  2: { intros c Hc%list_elem_of_In%Hr. rewrite (proj2 (Z.ltb_lt c 128)) by lia. done. }
  rewrite py_strip_none.
  2: { intros c Hc%Hr. rewrite !elem_of_cons, elem_of_nil. lia. }
  assert (Hu : int_unsigned (map uchar (decimal n)) = Some n).
  { unfold int_unsigned. rewrite int_digits_spec, Hv by done. rewrite (proj2 (Z.ltb_ge _ _)) by lia.
    destruct (decimal n) as [|d ds]; [done|]. cbn [map] in *. specialize (Hr (uchar d) ltac:(by left)).
    by rewrite (proj2 (Z.leb_le 48 _)), (proj2 (Z.leb_le _ 57)) by lia. }
  destruct (decimal n) as [|d ds]; [done|]. cbn [map] in *.
  specialize (Hr (uchar d) ltac:(by left)). set (c := uchar d) in *. clearbody c.
  destruct c as [|c|c]; [lia| |lia]. do 6 (destruct c as [c|c|]; try done; try lia).
Qed.

(** The ways to write a URL: the scheme may be left out, and the port if it is 80. *)
Definition print_url (scheme port : bool) (u : url) : pystr :=
  (if scheme then text "http://" else []) ++ u_host u ++ (if port then text ":" ++ py_str (u_port u) else []) ++ u_path u.

Definition printable (scheme port : bool) (u : url) : Prop :=
  u_scheme u = text "http" /\ startswith_slash (u_path u) = true /\ u_host u <> [] /\ 47 ∉ u_host u /\
  1 <= u_port u <= 65535 /\ u_host_header u = u_host u ++ (if port then text ":" ++ py_str (u_port u) else []) /\
  (port = false -> u_port u = 80 /\ 58 ∉ u_host u) /\
  (scheme = false -> py_cut_str (text "://") (print_url false port u) = None).

Lemma parse_print_url unicode_ascii scheme port u :
  printable scheme port u -> parse_url unicode_ascii (print_url scheme port u) = Value u.
Proof.
  intros (Hs & Hpath & Hne & Hslash & Hport & Hhh & Hdef & Hbare).
  assert (E1 : text "://" = [58; 47; 47]) by (vm_compute; reflexivity).
  assert (E2 : text "http://" = text "http" ++ text "://") by (vm_compute; reflexivity).
  assert (Hh : 58 ∉ text "http") by (apply (bool_decide_eq_true_1 (58 ∉ text "http")); vm_compute; reflexivity).
  assert (Hcut : forall rest, py_cut_str (text "://") (text "http://" ++ rest) = Some (text "http", rest)).
  { intros rest. rewrite E2, E1, <-app_assoc. by apply py_cut_str_skip. }
  unfold parse_url. cbn zeta.
  assert (Haddr : match py_cut_str (text "://") (print_url scheme port u) with
                  | Some _ => print_url scheme port u | None => text "http://" ++ print_url scheme port u end =
                  text "http://" ++ u_host_header u ++ u_path u).
  { rewrite Hhh, <-app_assoc. destruct scheme.
    - unfold print_url. by rewrite Hcut.
    - by rewrite Hbare. }
  rewrite Haddr, Hcut. rewrite bool_decide_true by done. cbn [negb].
  destruct (u_path u) as [|c path] eqn:Ep; [done|]. cbn [startswith_slash] in Hpath. apply Z.eqb_eq in Hpath as ->.
  assert (Hc : text ":" = [58]) by (vm_compute; reflexivity).
  assert (Hd : forall x, x ∈ py_str (u_port u) -> 48 <= x <= 57).
  { apply Forall_forall, Forall_map. destruct (decimal_spec (u_port u)) as (Hd & _); [lia|].
    eapply Forall_impl; [exact Hd|]. intros b. unfold isdigit. simpl. lia. }
  rewrite (proj2 (py_cut_Some 47 _ (u_host_header u) path)).
  2: { split; [done|]. rewrite Hhh, elem_of_app. intros [H|H]; [done|]. destruct port; [|by apply elem_of_nil in H].
       rewrite Hc, elem_of_app, elem_of_cons, elem_of_nil in H. destruct H as [[H|[]]|H%Hd]; lia. }
  assert (Ha : parse_authority unicode_ascii (u_host_header u) = Value (u_host u, u_port u)).
  { unfold parse_authority. rewrite Hhh. destruct port.
    - rewrite (proj2 (py_rcut_Some 58 _ (u_host u) (py_str (u_port u)))).
      + by rewrite py_int_str_decimal by lia.
      + rewrite Hc. split; [done|]. intros H%Hd. lia.
    - destruct (Hdef eq_refl) as [-> Hcolon]. by rewrite app_nil_r, (proj2 (py_rcut_None 58 _)). }
  rewrite Ha. rewrite bool_decide_false by done.
  rewrite (proj2 (Z.leb_le 1 _)), (proj2 (Z.leb_le _ 65535)) by lia. cbn [negb andb].
  rewrite slash_text. destruct u. cbn in *. by subst.
Qed.

(** ** Whatever comes back is read or refused *)

Definition refused {A} (r : pyres A) : Prop :=
  match r with Value _ => True | Raise e _ => e = ValueError \/ e = NotImplementedError \/ e = OSError end.

Lemma decode_line_refused line : match decode_line line with Value _ => True | Raise e _ => e = ValueError end.
Proof. unfold decode_line. by destruct (bool_decide _). Qed.

Lemma read_line_shorter s : (read_line s).1 <> [] -> (length (read_line s).2 < length s)%nat.
Proof.
  unfold read_line. destruct (cut_at LF s) as [[l r]|] eqn:E; cbn [fst snd].
  - apply cut_at_Some in E as [-> _]. intros _. rewrite length_app. cbn [length]. lia.
  - intros H. destruct s; [done|]. cbn [length]. lia.
Qed.

(** Every turn of the loop takes a byte, so the fuel is enough. *)
Lemma read_headers_fuel fuel : forall d s, (length s < fuel)%nat ->
  match read_headers fuel d s with Value _ => True | Raise e _ => e = ValueError end.
Proof.
  induction fuel as [|fuel IH]; intros d s Hl; [lia|]. cbn [read_headers].
  pose proof (read_line_shorter s) as Hs. destruct (read_line s) as [line s']. cbn [fst snd] in Hs.
  case_bool_decide as Hne; [done|]. specialize (Hs Hne). case_bool_decide; [done|].
  pose proof (decode_line_refused line) as Hd. destruct (decode_line line) as [h|]; [|done].
  destruct (py_cut 58 h) as [[name value]|]; [|done]. cbn zeta. destruct (negb _); [done|]. destruct (existsb _ _); [done|].
  apply IH. lia.
Qed.

Lemma read_response_refused stream : refused (read_response stream).
Proof.
  unfold read_response. destruct (read_line stream) as [line s]. case_bool_decide; [by left|].
  pose proof (decode_line_refused line) as Hd. destruct (decode_line line) as [l|]; [|by left].
  destruct (py_cut 32 l) as [[version l']|]; [|by left]. destruct (py_cut 32 l') as [[raw reason]|]; [|by left].
  destruct (_ || _ || _ || _); [by left|]. destruct (existsb _ _); [by left|].
  pose proof (read_headers_fuel (S (length s)) [] s (Nat.lt_succ_diag_r _)) as Hh.
  destruct (read_headers _ _ _) as [[hs b]|]; [|by left]. case_bool_decide; [by right; left|]. case_bool_decide; [by right; left|done].
Qed.

Lemma url_request_refused resolver connect u :
  (forall host, refused (resolver host)) -> refused (url_request (Some resolver) connect u).
Proof.
  intros Hres. unfold url_request. specialize (Hres (u_host u)). destruct (resolver (u_host u)) as [ip|]; [|done].
  destruct (connect ip (u_port u)) as [connection|]; [|by right; right]. destruct (client_request _ _) as [bytes|]; [|by left].
  destruct (connection bytes) as [stream|]; [|by right; right]. apply read_response_refused.
Qed.

Lemma encode_labels_raises labels : raises ValueError (encode_labels labels).
Proof.
  induction labels as [|label labels IH]; [done|]. cbn [encode_labels]. destruct (encode_ascii label); [|done].
  destruct (_ <? _); [done|]. by destruct (encode_labels labels).
Qed.

Lemma resolve_refused nameserver host : refused (resolve nameserver host).
Proof.
  unfold resolve, build_dns_query, encode_dns_name. cbn zeta. destruct (_ || _); [by left|].
  pose proof (encode_labels_raises (host_labels host)) as Hl. destruct (encode_labels _) as [n|]; [|by left].
  destruct (nameserver _) as [response|]; [|by right; right].
  pose proof (parse_dns_address_raises (take 512 response) RESOLVER_ID) as Hp.
  destruct (parse_dns_address _ _); [done|by left].
Qed.
