(* ===== verification/HttpCache.v ===== *)
(** * The HTTP server's cache

    What [respond_with_cache] needs of a cache ([HonestCache]), and the cache it has:
    [CacheClient] on a network, against the contract of the cache server, shared with
    other clients ([shared_cache]).  The responses are those of a server without a
    cache. *)

From S2P Require Import Prelude CLib Effects GoLib PyLib.
From S2P Require Import CacheSpec CacheProto CacheServer CacheRefine CacheSession CacheClient CacheEndToEnd.
From S2P Require Import HttpServer HttpExec.
Local Open Scope Z_scope.
Local Open Scope py_scope.

#[local] Opaque text lit.

(** ** What the server needs of a cache *)

Definition HELLO_KEY : list byte := lit "http:/hello".
Definition HELLO_VALUE : list byte := lit "HELLO WORLD!".

(** A cache that returns, for the key of the server, the value of the server. *)
Class HonestCache {C : Type} (c : cache_object C) (honest : C -> Prop) := {
  honest_raises : cache_object_ok c;
  honest_get s : honest s ->
    honest (cache_get c CACHE_KEY s).2 /\
    match (cache_get c CACHE_KEY s).1 with Value (Some b) => b = HELLO_VALUE | _ => True end;
  honest_set s : honest s -> honest (cache_set c CACHE_KEY HELLO_VALUE CACHE_TTL s).2
}.

Lemma hello_response r :
  is_hello r = true ->
  respond r = Response (text "200 OK") (HELLO_VALUE ++ [LF]) [] /\ cache_value (body (respond r)) = HELLO_VALUE.
Proof.
  unfold is_hello. rewrite andb_true_iff, !bool_decide_eq_true. intros [Hm Ht]. destruct r as [m t]. cbn [method target] in *.
  rewrite Hm, Ht. split; vm_compute; reflexivity.
Qed.

Section transparent.
Context {C : Type} (c : cache_object C) (honest : C -> Prop) `{Hc : !HonestCache c honest}.

Lemma cached_response_honest cache r s :
  honest s -> (cached_response c cache r s).1 = respond r /\ honest (cached_response c cache r s).2.
Proof using Hc.
  intros Hs. unfold cached_response. destruct cache; [|by split]. destruct (is_hello r) eqn:Er; [|by split].
  destruct (hello_response r Er) as [Hr Hv]. cbn [andb]. rewrite Hv. pose proof (honest_get s Hs) as [Hg Hb].
  destruct (cache_get c CACHE_KEY s) as [[[b|]|e m] s']; cbn [fst snd] in *.
  - by rewrite Hr, Hb.
  - split; [done|]. by apply honest_set.
  - by split.
Qed.

Lemma answer_honest cache received s :
  honest s ->
  (answer c cache received s).1 = (answer c false received s).1 /\ honest (answer c cache received s).2.
Proof using Hc.
  intros Hs. unfold answer. destruct (accepted received) as [r|]; [|done].
  destruct (cached_response_honest cache r s Hs) as [-> H]. by split.
Qed.
End transparent.

(** ** The cache of the server *)

(** What happens to a call: the connection fails, after the server has or has not
    executed the command, or so many bytes of the reply arrive. *)
Variant fate := Lost (executed : bool) | Arrives (bytes : nat).

(** A call: what other clients do before it, when the server executes it, its fate. *)
Record turn := Turn { others : list (Z * command); turn_now : Z; turn_fate : fate }.

(** The state of the cache server and the calls to come; a call that is not listed fails. *)
Record shared := Shared { shared_store : cache; turns : list turn }.

(** The server's reply to the line it is sent. *)
Definition exchange_at (m : cache) (t : turn) (sent : list byte) : option (list byte) :=
  match turn_fate t with
  | Lost _ => None
  | Arrives n => Some (take n (render (spec_step m (turn_now t) (line_command (removelast sent))).1))
  end.

Definition executed_at (m : cache) (t : turn) (c : command) : cache :=
  match turn_fate t with Lost false => m | _ => (spec_step m (turn_now t) c).2 end.

Definition shared_get (key : pystr) (s : shared) : pyres (option (list byte)) * shared :=
  match turns s with
  | [] => (client_get (fun _ => None) (PyStr key), s)
  | t :: ts =>
      let m := (spec_run (shared_store s) (others t)).2 in
      (client_get (exchange_at m t) (PyStr key), Shared m ts)
  end.

Definition shared_set (key : pystr) (value : list byte) (ttl : Z) (s : shared) : pyres unit * shared :=
  match turns s with
  | [] => (client_set (fun _ => None) (PyStr key) (PyBytes value) (PyInt ttl), s)
  | t :: ts =>
      let m := (spec_run (shared_store s) (others t)).2 in
      (client_set (exchange_at m t) (PyStr key) (PyBytes value) (PyInt ttl),
       Shared (match encode_key (PyStr key), encode_value (PyBytes value) with
               | Value k, Value v => if (0 <=? ttl) && (ttl <=? CLIENT_TTL_MAX) then executed_at m t (Set_ k ttl v) else m
               | _, _ => m
               end) ts)
  end.

Definition shared_cache : cache_object shared := CacheObject shared shared_get shared_set.

(** *** It is honest when the other clients are *)

Definition honest_command (c : command) : Prop := match c with Set_ k _ v => k = HELLO_KEY -> v = HELLO_VALUE | _ => True end.
Definition honest_store (m : cache) : Prop := forall it, m !! HELLO_KEY = Some it -> it_value it = HELLO_VALUE.
Definition honest_shared (s : shared) : Prop :=
  honest_store (shared_store s) /\ Forall (fun t => Forall (fun tc => honest_command tc.2) (others t)) (turns s).

Lemma honest_store_step m now c : honest_store m -> honest_command c -> honest_store (spec_step m now c).2.
Proof.
  intros Hm Hc it. destruct c as [k|k|k t v|]; cbn [spec_step].
  - destruct (live now m !! k); apply Hm.
  - destruct (live now m !! k); [|apply Hm]. cbn [snd]. intros [_ H]%lookup_delete_Some. by apply Hm.
  - assert (Hi : forall x, <[k:=Item v (expiry now t)]> m !! HELLO_KEY = Some x -> it_value x = HELLO_VALUE).
    { intros x [[Hk <-]|[_ Hx]]%lookup_insert_Some; [by apply Hc|by apply Hm]. }
    destruct (live now m !! k); [apply Hi|]. destruct (_ <? _); [apply Hi|apply Hm].
  - apply Hm.
Qed.

Lemma honest_store_run cs : forall m,
  honest_store m -> Forall (fun tc => honest_command tc.2) cs -> honest_store (spec_run m cs).2.
Proof.
  induction cs as [|[now c] cs IH]; intros m Hm Hcs; [done|]. inversion Hcs as [|? ? Hc Hcs']; subst.
  cbn [spec_run]. pose proof (honest_store_step m now c Hm Hc) as H.
  destruct (spec_step m now c) as [r m1]. specialize (IH m1 H Hcs'). by destruct (spec_run m1 cs).
Qed.

Lemma elem_of_taken {A} n (x : A) l : x ∈ take n l -> x ∈ l.
Proof. intros H. rewrite <-(take_drop n l). apply elem_of_app. by left. Qed.

(** A reply that is cut is an error. *)
Lemma client_command_cut exchange sent r n :
  reply_ok r -> exchange sent = Some (take n (render r)) ->
  exchange sent = Some (render r) \/ exists m, client_command exchange sent = Raise CacheError m.
Proof.
  intros Hr He. destruct (decide (length (render r) <= n)%nat) as [Hn|Hn].
  { left. by rewrite He, take_ge. }
  right. unfold client_command. rewrite He. rewrite render_body in *. rewrite length_app in Hn. cbn [length] in Hn.
  rewrite take_app_le by lia. assert (E : endswith_lf (readline (MAX_REPLY_SIZE + 1) (take n (reply_body r))) = false).
  { unfold endswith_lf. apply bool_decide_eq_false. intros Hlast%last_Some_elem_of.
    destruct (reply_body_lf r Hr) as [Hlf _]. apply Hlf. apply (elem_of_taken n), (elem_of_taken (Z.to_nat (MAX_REPLY_SIZE + 1))).
    unfold readline in Hlast. destruct (cut_at LF _) as [[a b]|] eqn:Ec; [|done].
    apply cut_at_Some in Ec as [-> _]. set_solver. }
  rewrite E, orb_true_r. by eexists.
Qed.

(** *** The calls of the client *)

Lemma client_get_raises exchange key : cache_raises (client_get exchange key).
Proof.
  unfold client_get, encode_key. destruct key as [cs| | | |]; try exact I.
  destruct (encode_ascii cs) as [k|]; [|exact I]. destruct (_ || _); [exact I|].
  unfold client_command. destruct (exchange _) as [stream|]; [|exact I]. destruct (_ || _); [exact I|].
  destruct (bool_decide _); [exact I|]. destruct (strip_prefix _ _) as [rest|]; [|exact I].
  destruct (Nat.eqb _ _); [|exact I]. unfold encode_value. destruct (negb _); [exact I|]. by destruct (_ || _ || _).
Qed.

Lemma client_set_raises exchange key value ttl : cache_raises (client_set exchange key value ttl).
Proof.
  unfold client_set, encode_key. destruct key as [cs| | | |]; try exact I.
  destruct (encode_ascii cs) as [k|]; [|exact I]. destruct (_ || _); [exact I|].
  unfold encode_value. destruct value as [|v| | |]; try exact I. destruct (negb _); [exact I|]. destruct (_ || _ || _); [exact I|].
  destruct (as_int ttl) as [[t b]|]; [|exact I]. destruct (negb _); [exact I|].
  unfold client_command. destruct (exchange _) as [stream|]; [|exact I]. destruct (_ || _); [exact I|].
  by destruct (bool_decide _).
Qed.

Lemma shared_cache_ok : cache_object_ok shared_cache.
Proof.
  split; cbn [cache_get cache_set shared_cache]; unfold shared_get, shared_set; intros.
  - destruct (turns s); apply client_get_raises.
  - destruct (turns s); apply client_set_raises.
Qed.

Lemma hello_key : encode_key (PyStr CACHE_KEY) = Value HELLO_KEY.
Proof. vm_compute. reflexivity. Qed.

Lemma hello_value : encode_value (PyBytes HELLO_VALUE) = Value HELLO_VALUE.
Proof. vm_compute. reflexivity. Qed.

(** What a call of [get] returns: what the contract holds, or an error. *)
Lemma exchange_get m t :
  honest_store m ->
  match client_get (exchange_at m t) (PyStr CACHE_KEY) with Value (Some b) => b = HELLO_VALUE | _ => True end.
Proof.
  intros Hm. destruct (encode_key_ok _ _ hello_key) as [Hok Hp]. destruct (encode_value_ok _ _ hello_value) as (_ & Hv & _).
  set (r := (spec_step m (turn_now t) (Get HELLO_KEY)).1).
  assert (Hr : r = RNotFound \/ r = RValue HELLO_VALUE).
  { unfold r. cbn [spec_step]. destruct (live (turn_now t) m !! HELLO_KEY) as [it|] eqn:E; [|by left].
    right. cbn [fst]. apply live_lookup_Some in E as [E _]. by rewrite (Hm it E). }
  assert (Hro : reply_ok r) by (destruct Hr as [-> | ->]; done).
  pose proof (client_get_raises (exchange_at m t) (PyStr CACHE_KEY)) as Hraise.
  assert (Hex : forall n, turn_fate t = Arrives n ->
    exchange_at m t (print_command (Get HELLO_KEY) ++ [LF]) = Some (take n (render r))).
  { intros n Hn. unfold exchange_at. rewrite Hn, removelast_last.
    rewrite line_command_print; [done|exact Hok|by apply print_get_plain]. }
  destruct (turn_fate t) as [executed|n] eqn:Ef.
  - unfold client_get. rewrite hello_key. unfold client_command, exchange_at. by rewrite Ef.
  - specialize (Hex n eq_refl). destruct (client_command_cut _ _ r n Hro Hex) as [Hfull|[msg Herr]].
    + rewrite (client_get_render _ _ HELLO_KEY r hello_key Hro Hfull).
      destruct Hr as [-> | ->]; cbn [get_reads]; [done|]. by rewrite hello_value.
    + unfold client_get. by rewrite hello_key, print_get_line, Herr.
Qed.

#[export] Instance shared_honest : HonestCache shared_cache honest_shared.
Proof.
  split; [exact shared_cache_ok|..]; intros s [Hm Ht]; cbn [cache_get cache_set shared_cache]; unfold shared_get, shared_set.
  - destruct (turns s) as [|t ts] eqn:Ets; cbn [fst snd].
    + split; [|by vm_compute]. split; [done|by rewrite Ets].
    + inversion Ht as [|? ? Hh Hts]; subst. pose proof (honest_store_run _ _ Hm Hh) as Hm'.
      split; [by split|]. by apply exchange_get.
  - destruct (turns s) as [|t ts] eqn:Ets; cbn [snd].
    + split; [done|by rewrite Ets].
    + inversion Ht as [|? ? Hh Hts]; subst. pose proof (honest_store_run _ _ Hm Hh) as Hm'.
      rewrite hello_key, hello_value. destruct (_ && _); [|by split]. split; [|done]. unfold executed_at.
      destruct (turn_fate t) as [[]|]; try done; by apply honest_store_step.
Qed.
