(* ===== verification/HttpEndToEnd.v ===== *)
(** * The HTTP client and the HTTP server together

    The request of client.py is accepted by server.py however the connection cuts it,
    and every response of server.py is read back by client.py, with any cache.  Then
    [URL.request] over the whole stack: resolver, DNS server, HTTP server and cache. *)

From S2P Require Import Prelude CLib Effects GoLib PyLib HttpServer HttpExec HttpRequest HttpClient HttpUrl HttpCache.
Local Open Scope Z_scope.
Local Open Scope py_scope.

(** ** Every answer is read back *)

Lemma simple_sendable status code reason b hs :
  status = code ++ 32 :: reason -> length code = 3%nat -> isdigits code = true ->
  forallb (fun c => (0 <=? c) && (c <? 128)) reason && negb (existsb value_control reason) = true ->
  hs = [] \/ hs = [(text "Allow", text "GET")] ->
  sendable (Response status b hs) code reason.
Proof.
  intros Hs Hl Hd [Hr Hc]%andb_true_iff Hhs. split; [exact Hs|]. split; [exact Hl|]. split; [exact Hd|]. split.
  - split; [|by apply negb_true_iff]. apply Forall_forall. intros c Hin. rewrite forallb_forall in Hr.
    apply list_elem_of_In, Hr in Hin. unfold point. lia.
  - destruct Hhs as [-> | ->]; [constructor|]. constructor; [|constructor]. cbn [fst snd].
    assert (H : is_token (text "Allow") && negb (existsb value_control (text "GET")) &&
      bool_decide (py_strip [32; 9] (text "GET") = text "GET") &&
      negb (bool_decide (casefold (text "Allow") = text "transfer-encoding")) &&
      negb (bool_decide (casefold (text "Allow") = text "content-encoding")) = true) by (vm_compute; reflexivity).
    rewrite !andb_true_iff, !negb_true_iff, bool_decide_eq_true, !bool_decide_eq_false in H.
    destruct H as [[[[H1 H2] H3] H4] H5]. split; [exact H1|]. split; [|by split].
    split; [by apply point_text|exact H2].
Qed.

(** The status lines of the server. *)
Definition status_parts (r : response) : pystr * pystr := (take 3 (status r), drop 4 (status r)).

Lemma status_sendable s :
  bool_decide (s = take 3 s ++ 32 :: drop 4 s) && (zlen (take 3 s) =? 3) && isdigits (take 3 s) &&
  (forallb (fun c => (0 <=? c) && (c <? 128)) (drop 4 s) && negb (existsb value_control (drop 4 s))) = true ->
  forall b hs, hs = [] \/ hs = [(text "Allow", text "GET")] -> sendable (Response s b hs) (take 3 s) (drop 4 s).
Proof.
  rewrite !andb_true_iff, bool_decide_eq_true, Z.eqb_eq. intros [[[H1 H2] H3] H4] b hs Hhs.
  apply simple_sendable; [exact H1|lia|exact H3|by rewrite !andb_true_iff|exact Hhs].
Qed.

Lemma respond_sendable r : sendable (respond r) (status_parts (respond r)).1 (status_parts (respond r)).2.
Proof.
  unfold respond. destruct (negb _).
  - apply status_sendable; [vm_compute; reflexivity|by right].
  - unfold dict_get, ROUTES. cbn [List.find].
    repeat (destruct (bool_decide _); [apply status_sendable; [vm_compute; reflexivity|by left]|]).
    apply status_sendable; [vm_compute; reflexivity|by left].
Qed.

Lemma answer_sendable {C} (c : cache_object C) cache received s :
  let r := (answer c cache received s).1 in sendable r (status_parts r).1 (status_parts r).2.
Proof.
  cbn zeta. unfold answer. destruct (accepted received) as [r|].
  2: { apply status_sendable; [vm_compute; reflexivity|by left]. }
  unfold cached_response. destruct (_ && _); [|apply respond_sendable].
  destruct (cache_get c CACHE_KEY s) as [[[b|]|e m] s']; [|apply respond_sendable..].
  apply status_sendable; [vm_compute; reflexivity|by left].
Qed.

(** What the client sees of a response. *)
Definition client_view (r : response) : client_response :=
  ClientResponse (text "HTTP/1.1") (py_int (status_parts r).1) (status_parts r).2 (header_dict (sent_headers r)) (body r).

Lemma read_answer {C} (c : cache_object C) cache received s :
  read_response (response_bytes (answer c cache received s).1) = Value (client_view (answer c cache received s).1).
Proof. apply read_response_bytes, answer_sendable. Qed.

(** ** The client's request is accepted *)

(** A path and a Host header that a URL may have. *)
Definition path_ok (path : pystr) : Prop := startswith_slash path = true /\ Forall (fun c => 32 < c < 127) path.

Lemma strip_space s : py_strip [32; 9] (32 :: s) = py_strip [32; 9] s.
Proof. reflexivity. Qed.

Lemma host_header host :
  clean host -> header_line (map chr (text "Host" ++ 58 :: 32 :: host)) (text "host", py_strip [32; 9] host).
Proof.
  intros [Hp Hc]. exists (map chr (text "Host")), (map chr (32 :: host)). split; [by rewrite map_app|].
  split; [apply (bool_decide_eq_true_1 (chr 58 ∉ map chr (text "Host"))); vm_compute; reflexivity|].
  split; [vm_compute; reflexivity|]. unfold decode_latin1.
  rewrite (map_uchar_chr (32 :: host)) by by constructor. split; [exact Hc|].
  assert (E : casefold (map uchar (map chr (text "Host"))) = text "host") by (vm_compute; reflexivity).
  rewrite E, strip_space. reflexivity.
Qed.

Lemma get_line path :
  path_ok path ->
  request_line (map chr (text "GET" ++ 32 :: path ++ 32 :: text "HTTP/1.0")) (text "GET") path (text "HTTP/1.0").
Proof.
  intros [Hslash Hchars]. split; [reflexivity|]. split; [vm_compute; reflexivity|].
  split; [exact Hslash|]. split; [exact Hchars|].
  apply (bool_decide_eq_true_1 (text "HTTP/1.0" ∈ SUPPORTED_VERSIONS)). vm_compute. reflexivity.
Qed.

Lemma request_shape (get version name path host : pystr) (crlf : list byte) :
  map chr ((get ++ [32]) ++ path ++ (32 :: version ++ map uchar crlf) ++ (name ++ [58; 32]) ++ host ++
           map uchar crlf ++ map uchar crlf) =
  map chr (get ++ 32 :: path ++ 32 :: version) ++ (crlf ++ map chr (name ++ 58 :: 32 :: host)) ++ (crlf ++ crlf) ++ [].
Proof.
  repeat (rewrite ?map_app, ?map_chr_uchar; cbn [map]). rewrite app_nil_r, <-?app_assoc.
  cbn [app]. rewrite <-?app_assoc. cbn [app]. rewrite <-?app_assoc. reflexivity.
Qed.

Lemma more_line l : more_lines [l] = CRLF ++ l.
Proof. cbn [more_lines]. by rewrite app_nil_r. Qed.

Lemma encode_utf8_ok cs : Forall point cs -> encode_utf8 cs = Some (map chr cs).
Proof.
  induction 1 as [|c cs Hc Hcs IH]; [done|]. cbn [encode_utf8 map]. rewrite IH. unfold utf8_char, point in *.
  rewrite (proj2 (Z.ltb_lt c 0x80)) by lia. done.
Qed.

Lemma path_points path : path_ok path -> Forall point path.
Proof. intros [_ H]. eapply Forall_impl; [exact H|]. unfold point. lia. Qed.

Lemma client_request_bytes path host :
  path_ok path -> clean host ->
  client_request path host =
  Some (map chr (text "GET" ++ 32 :: path ++ 32 :: text "HTTP/1.0") ++
        more_lines [map chr (text "Host" ++ 58 :: 32 :: host)] ++ HEADER_END ++ []).
Proof.
  intros Hpath%path_points [Hhost _]. unfold client_request. cbn zeta. rewrite <-!app_assoc.
  rewrite encode_utf8_ok.
  2: { repeat (apply Forall_app; split); solve [exact Hpath|exact Hhost|by apply point_text]. }
  assert (E1 : text "GET " = text "GET" ++ [32]) by (vm_compute; reflexivity).
  assert (E2 : text " HTTP/1.0\r\n" = 32 :: text "HTTP/1.0" ++ map uchar CRLF) by (vm_compute; reflexivity).
  assert (E3 : text "Host: " = text "Host" ++ [58; 32]) by (vm_compute; reflexivity).
  assert (E4 : HEADER_END = CRLF ++ CRLF) by (vm_compute; reflexivity).
  assert (E5 : text "\r\n" = map uchar CRLF) by (vm_compute; reflexivity).
  rewrite E1, E2, E3, E5, request_shape, more_line, E4. reflexivity.
Qed.

Section request.
Context (path host : pystr) (bytes : list byte).
Context (Hpath : path_ok path) (Hhost : clean host) (Hreq : client_request path host = Some bytes).

Lemma client_request_accepted :
  header_of bytes = Value bytes /\ accepted (Value bytes) = Some (Request (text "GET") path).
Proof using Hpath Hhost Hreq.
  pose proof (client_request_bytes path host Hpath Hhost) as Hb. rewrite Hreq in Hb. apply Some_inj in Hb. pose proof (get_line path Hpath) as Hl.
  pose proof (host_header host Hhost) as Hh. revert Hb Hl Hh.
  generalize (map chr (text "GET" ++ 32 :: path ++ 32 :: text "HTTP/1.0")) as line.
  generalize (map chr (text "Host" ++ 58 :: 32 :: host)) as hline. intros hline line Hb Hl Hh.
  destruct (request_line_clean _ _ _ _ Hl) as [Hlcr _]. destruct (header_line_clean _ _ Hh) as [Hhcr Hhne].
  split.
  - unfold header_of. rewrite Hb at 1. rewrite cut_header_end by (repeat constructor; done).
    rewrite Hb, <-app_assoc. by rewrite app_nil_r.
  - assert (Hp : parse_request bytes = Value (text "GET", path, text "HTTP/1.0", [(text "host", py_strip [32; 9] host)])).
    { apply parse_request_exact. exists line, [hline], []. split; [exact Hb|]. split; [exact Hl|].
      split; [by repeat constructor|]. cbn [fmap list_fmap]. apply NoDup_singleton. }
    unfold accepted. rewrite Hp. cbn [fmap list_fmap fst].
    assert (Hno : existsb (fun name => bool_decide (name ∈ [text "host"])) unsupported_headers = false) by (vm_compute; reflexivity).
    by rewrite Hno.
Qed.
End request.

(** ** The response it gets *)

Section fetch.
Context {C : Type} (c : cache_object C) (c_ok : cache_object_ok c).

(** The client sends its request, cut in any way, and reads what is sent back. *)
Lemma fetch_answered path host bytes chunks cache s :
  path_ok path -> clean host -> client_request path host = Some bytes ->
  mjoin chunks = bytes -> Forall (fun chunk => chunk <> []) chunks -> zlen bytes <= MAX_REQUEST_SIZE ->
  exists rx out,
    evals (http_env c) (handle_connection cache) (HWorld (map Ok chunks) true [] false s) None
      (HWorld rx true [out] true (cached_response c cache (Request (text "GET") path) s).2) /\
    read_response out = Value (client_view (cached_response c cache (Request (text "GET") path) s).1).
Proof using c_ok.
  intros Hpath Hhost Hreq Hj Hne Hl. destruct (client_request_accepted path host bytes Hpath Hhost Hreq) as [Hhead Hacc].
  pose proof (handle_connection_evals c c_ok cache (HWorld (map Ok chunks) true [] false s) eq_refl) as He.
  cbn [h_rx h_tx h_cache h_send_ok app] in He.
  assert (Hrecv : (receive [] (map Ok chunks)).1 = Value bytes).
  { rewrite receive_joined by (done || by rewrite app_nil_l, Hj). rewrite app_nil_l, Hj. exact Hhead. }
  rewrite Hrecv in He. assert (Hans : answer c cache (Value bytes) s = cached_response c cache (Request (text "GET") path) s).
  { unfold answer. by rewrite Hacc. }
  pose proof (read_answer c cache (Value bytes) s) as Hread. rewrite Hans in *.
  eexists _, _. split; [exact He|exact Hread].
Qed.
End fetch.

(** ** The whole stack *)

Section stack.
Context {C : Type} (c : cache_object C) (honest : C -> Prop) `{Hc : !HonestCache c honest}.

(** What [handle_connection] sends on a connection over which these bytes come, in
    some chunks. *)
Definition served (cache : bool) (s : C) (bytes out : list byte) : Prop :=
  exists chunks rest s',
    mjoin chunks = bytes /\ Forall (fun chunk => chunk <> []) chunks /\
    evals (http_env c) (handle_connection cache) (HWorld (map Ok chunks) true [] false s) None (HWorld rest true [out] true s').

Lemma served_read path host bytes cache s out :
  path_ok path -> clean host -> client_request path host = Some bytes -> zlen bytes <= MAX_REQUEST_SIZE ->
  honest s -> served cache s bytes out ->
  read_response out = Value (client_view (respond (Request (text "GET") path))).
Proof using Hc.
  intros Hpath Hhost Hreq Hl Hs (chunks & rest & s' & Hj & Hne & He).
  destruct (fetch_answered c honest_raises path host bytes chunks cache s Hpath Hhost Hreq Hj Hne Hl) as (rest' & out' & He' & Hread).
  destruct (evals_det _ _ _ _ _ _ _ He He') as [_ Hw]. injection Hw as _ -> _.
  by rewrite (proj1 (cached_response_honest c honest cache (Request (text "GET") path) s Hs)) in Hread.
Qed.

Lemma request_served resolver connect u ip connection cache s bytes out :
  path_ok (u_path u) -> clean (u_host_header u) -> client_request (u_path u) (u_host_header u) = Some bytes ->
  zlen bytes <= MAX_REQUEST_SIZE -> resolver (u_host u) = Value ip -> connect ip (u_port u) = Some connection ->
  connection bytes = Some out -> honest s -> served cache s bytes out ->
  url_request (Some resolver) connect u = Value (client_view (respond (Request (text "GET") (u_path u)))).
Proof using Hc.
  intros Hpath Hhost Hreq Hl Hres Hconn Hout Hs Hserved. unfold url_request.
  rewrite Hres, Hconn, Hreq, Hout. by eapply served_read.
Qed.
End stack.
