(* ===== verification/HttpTheorems.v ===== *)
(** * Theorems about the HTTP server and client

    What [handle_connection] of server.py does with any connection and any cache, the
    requests it accepts, and what client.py makes of its responses; last the client,
    the server and the shared cache together. *)

From S2P Require Import Prelude CLib Effects GoLib PyLib.
From S2P Require Import CacheSpec CacheClient DnsClient.
From S2P Require Import HttpServer HttpExec HttpRequest HttpClient HttpUrl HttpCache HttpEndToEnd.
Local Open Scope Z_scope.
Local Open Scope py_scope.

(** ** The server *)

(** C11: a connection is served to its end.  Whatever arrives on it, in any chunks and
    with any error, whether the response can be sent or not, and with any cache whose
    methods return or raise CacheError, [handle_connection] returns without an
    exception, has sent exactly one response, that of the request received or 400,
    and has closed the connection, which it does not use again. *)
Theorem http_served {C} (c : cache_object C) cache (w : hworld C) :
  cache_object_ok c -> h_closed w = false ->
  let '(received, rest) := receive [] (h_rx w) in
  let '(response, s) := answer c cache received (h_cache w) in
  evals (http_env c) (handle_connection cache) w None
    (HWorld rest (h_send_ok w) (h_tx w ++ [response_bytes response]) true s).
Proof.
  intros Hc Hw. pose proof (handle_connection_evals c Hc cache w Hw) as H.
  destruct (receive [] (h_rx w)) as [received rest]. cbn [fst snd] in H. by destruct (answer c cache received (h_cache w)).
Qed.

(** A cache that always fails. *)
Definition broken_cache : cache_object unit :=
  CacheObject unit (fun _ s => (Raise CacheError "cache request failed", s)) (fun _ _ _ s => (Raise CacheError "cache request failed", s)).

Definition hello_chunks : list (list byte) :=
  [lit "GET /hel"; lit "lo HTTP/1.1\r\nHost: 10.0.0.1\r"; lit "\n\r\n"].

Lemma http_served_witness :
  evals (http_env broken_cache) (handle_connection true) (HWorld (map Ok hello_chunks) true [] false tt) None
    (HWorld [] true [lit "HTTP/1.1 200 OK\r\nContent-Length: 13\r\nConnection: close\r\n\r\nHELLO WORLD!\n"] true tt).
Proof.
  pose proof (http_served broken_cache true (HWorld (map Ok hello_chunks) true [] false tt)) as H.
  specialize (H ltac:(by split) eq_refl).
  assert (E1 : receive [] (map Ok hello_chunks) = (Value (mjoin hello_chunks), [])) by (vm_compute; reflexivity).
  assert (E2 : answer broken_cache true (Value (mjoin hello_chunks)) tt =
    (Response (text "200 OK") (lit "HELLO WORLD!\n") [], tt)) by (vm_compute; reflexivity).
  assert (E3 : response_bytes (Response (text "200 OK") (lit "HELLO WORLD!\n") []) =
    lit "HTTP/1.1 200 OK\r\nContent-Length: 13\r\nConnection: close\r\n\r\nHELLO WORLD!\n") by (vm_compute; reflexivity).
  cbn [h_rx h_cache h_send_ok h_tx] in H. rewrite E1, E2, E3 in H. exact H.
Defined.

(** C34: [parse_request] accepts exactly the sentences of the request grammar: a
    request line of a token, a target of printable ASCII that starts with a slash,
    and HTTP/1.0 or 1.1; then lines of a name, a colon and a value, with no name
    twice, whatever its case; then an empty line.  It returns their parts. *)
Theorem request_grammar bytes m t v hs :
  parse_request bytes = Value (m, t, v, hs) <-> is_request bytes m t v hs.
Proof. apply parse_request_exact. Qed.

(** How TCP cuts a request does not matter: of an input that is not larger than
    MAX_REQUEST_SIZE, [read_request] takes what is before and with the first empty
    line, and refuses an input without one. *)
Theorem request_chunks chunks chunks' :
  Forall (fun chunk => chunk <> []) (chunks ++ chunks') -> mjoin chunks = mjoin chunks' ->
  zlen (mjoin chunks) <= MAX_REQUEST_SIZE ->
  (receive [] (map Ok chunks)).1 = (receive [] (map Ok chunks')).1.
Proof.
  intros [H1 H2]%Forall_app E Hl. rewrite !receive_joined by (rewrite ?app_nil_l, <-?E; done).
  by rewrite !app_nil_l, E.
Qed.

Lemma request_chunks_witness :
  (receive [] (map Ok hello_chunks)).1 = (receive [] (map Ok [mjoin hello_chunks])).1.
Proof.
  apply (request_chunks hello_chunks [mjoin hello_chunks]); [|vm_compute; reflexivity|apply Z.leb_le; vm_compute; reflexivity].
  apply (bool_decide_eq_true_1 (Forall (fun chunk => chunk <> []) (hello_chunks ++ [mjoin hello_chunks]))). vm_compute. reflexivity.
Defined.

(** ** The client *)

(** C35: client.py understands every response of server.py.  Whatever arrives on a
    connection, with or without a cache, whose calls return anything or raise
    CacheError, [handle_connection] sends one message, and [read_response] returns from its bytes
    the status, the reason, the headers and the body of the response to the request
    received, or of 400. *)
Theorem response_read {C} (c : cache_object C) cache (w : hworld C) :
  cache_object_ok c -> h_closed w = false ->
  exists w' out,
    evals (http_env c) (handle_connection cache) w None w' /\ h_tx w' = h_tx w ++ [out] /\
    read_response out = Value (client_view (answer c cache (receive [] (h_rx w)).1 (h_cache w)).1).
Proof.
  intros Hc Hw. eexists _, _. split; [exact (handle_connection_evals c Hc cache w Hw)|]. split; [reflexivity|].
  apply read_answer.
Qed.

(** The server has no cache, and the client sees its greeting. *)
Lemma response_read_witness :
  exists w' out,
    evals (http_env broken_cache) (handle_connection false) (HWorld (map Ok hello_chunks) true [] false tt) None w' /\
    h_tx w' = [out] /\
    read_response out = Value (ClientResponse (text "HTTP/1.1") 200 (text "OK")
      [(text "content-length", text "13"); (text "connection", text "close")] (lit "HELLO WORLD!\n")).
Proof.
  destruct (response_read broken_cache false (HWorld (map Ok hello_chunks) true [] false tt)) as (w' & out & He & Hout & Hr).
  - by split.
  - reflexivity.
  - exists w', out. split; [exact He|]. split; [exact Hout|]. rewrite Hr. vm_compute. reflexivity.
Defined.

(** ** The cache *)

(** C10: the cache cannot be noticed while nobody else stores another value under the
    server's key.  The server shares the cache server with other clients, and any of its
    calls may fail, before or after the cache has executed it, or have its reply cut.
    If the value stored under the key, when there is one, is the server's own and the
    commands of the others do not set the key to anything else, a connection is sent
    the very bytes that it is sent by a server without a cache, and the store stays
    such that the next one is too.  Another value under the key is not covered: the
    server answers with whatever is stored. *)
Theorem cache_transparent (w : hworld shared) :
  h_closed w = false -> honest_shared (h_cache w) ->
  exists w1 w2,
    evals (http_env shared_cache) (handle_connection true) w None w1 /\
    evals (http_env shared_cache) (handle_connection false) w None w2 /\
    h_tx w1 = h_tx w2 /\ honest_shared (h_cache w1).
Proof.
  intros Hw Hh. eexists _, _.
  split; [exact (handle_connection_evals shared_cache shared_cache_ok true w Hw)|].
  split; [exact (handle_connection_evals shared_cache shared_cache_ok false w Hw)|]. cbn [h_tx h_cache].
  by destruct (answer_honest shared_cache honest_shared true (receive [] (h_rx w)).1 (h_cache w) Hh) as [-> H].
Qed.

(** Another client deletes the entry before the first call; the second call's reply is lost. *)
Definition demo_shared : shared :=
  Shared {[HELLO_KEY := Item HELLO_VALUE None]}
    [Turn [(0, Delete HELLO_KEY); (1, Set_ (lit "x") 5 (lit "y"))] 2 (Arrives 40); Turn [] 3 (Lost true); Turn [] 4 (Arrives 40)].

Lemma demo_honest : honest_shared demo_shared.
Proof.
  split.
  - intros it H. cbn [shared_store demo_shared] in H. apply lookup_singleton_Some in H as [_ <-]. reflexivity.
  - repeat constructor. cbn [snd honest_command]. intros E. apply (bool_decide_eq_false_1 (lit "x" = HELLO_KEY)) in E; [done|].
    vm_compute. reflexivity.
Qed.

Lemma cache_transparent_witness :
  exists w1 w2 : hworld shared,
    evals (http_env shared_cache) (handle_connection true) (HWorld (map Ok hello_chunks) true [] false demo_shared) None w1 /\
    evals (http_env shared_cache) (handle_connection false) (HWorld (map Ok hello_chunks) true [] false demo_shared) None w2 /\
    h_tx w1 = h_tx w2 /\ honest_shared (h_cache w1).
Proof. exact (cache_transparent (HWorld (map Ok hello_chunks) true [] false demo_shared) eq_refl demo_honest). Defined.

(** ** URLs *)

(** C36: a URL object is well-formed.  Whatever the address, the constructor raises
    ValueError or makes an object whose scheme is http, whose path starts with a
    slash, whose host is not empty, whose port is between 1 and 65535, and whose Host
    header is the host, with the text of the port if it was given. *)
Theorem url_typed unicode_ascii address :
  match parse_url unicode_ascii address with Value u => url_ok u | Raise e _ => e = ValueError end.
Proof. apply parse_url_ok. Qed.

(** A URL that is printed, with or without its scheme, and without its port if
    that is 80, is read back. *)
Theorem url_roundtrip unicode_ascii scheme port u :
  printable scheme port u -> parse_url unicode_ascii (print_url scheme port u) = Value u.
Proof. apply parse_print_url. Qed.

Definition hello_url : url := Url (text "http") (text "/hello") (text "App.Local.") 8088 (text "App.Local.:8088").

Lemma url_roundtrip_witness :
  parse_url (fun _ => 63) (text "App.Local.:8088/hello") = Value hello_url.
Proof.
  assert (E : text "App.Local.:8088/hello" = print_url false true hello_url) by (vm_compute; reflexivity).
  rewrite E. apply url_roundtrip. split; [reflexivity|]. split; [vm_compute; reflexivity|].
  split; [apply (bool_decide_eq_true_1 (text "App.Local." <> [])); vm_compute; reflexivity|].
  split; [apply (bool_decide_eq_true_1 (47 ∉ text "App.Local.")); vm_compute; reflexivity|].
  split; [split; apply Z.leb_le; reflexivity|]. split; [vm_compute; reflexivity|]. split; [discriminate|].
  intros _. vm_compute. reflexivity.
Defined.

(** C37: nothing that comes from the network breaks the client.  Whatever the
    nameserver and the server send, [URL.request] with a resolver returns a response or
    raises ValueError, NotImplementedError or OSError: it never reads outside a
    datagram or a line, and its loops, over names in which lengths and pointers come
    from the network, over answers and over header lines, end. *)
Theorem client_refuses nameserver connect u :
  match url_request (Some (resolve nameserver)) connect u with
  | Value _ => True
  | Raise e _ => e = ValueError \/ e = NotImplementedError \/ e = OSError
  end.
Proof. apply url_request_refused, resolve_refused. Qed.

(** ** The whole stack *)

(** End to end.  The URL of a path at app.local, in any case, is fetched through
    the DNS server, a connection to the address it gives, which cuts the request in
    any way, and the HTTP server with any honest cache, as the application's response
    to that path. *)
Theorem stack_fetches {C} (c : cache_object C) honest `{!HonestCache c honest} connect u bytes connection out cache s :
  path_ok (u_path u) -> clean (u_host_header u) ->
  map lower_point (py_rstrip [DOT] (u_host u)) = text "app.local" ->
  client_request (u_path u) (u_host_header u) = Some bytes -> zlen bytes <= MAX_REQUEST_SIZE ->
  connect (text "127.0.0.1") (u_port u) = Some connection -> connection bytes = Some out ->
  honest s -> served c cache s bytes out ->
  url_request (Some (resolve local_nameserver)) connect u = Value (client_view (respond (Request (text "GET") (u_path u)))).
Proof. intros Hpath Hhost Hname%resolve_known Hreq Hl Hconn Hout Hs Hserved. by eapply request_served. Qed.

(** A network with the server at one address; it shares its cache. *)
Definition demo_out (bytes : list byte) : list byte :=
  response_bytes (answer shared_cache true (receive [] [Ok bytes]).1 demo_shared).1.
Definition demo_network (host : pystr) (port : Z) : option (list byte -> option (list byte)) :=
  if bool_decide (host = text "127.0.0.1") && (port =? 8088) then Some (fun bytes => Some (demo_out bytes)) else None.

Lemma demo_served bytes : bytes <> [] -> served shared_cache true demo_shared bytes (demo_out bytes).
Proof.
  intros Hne. exists [bytes]. eexists _, _. split; [cbn [mjoin list_join]; by rewrite app_nil_r|]. split; [by repeat constructor|].
  exact (handle_connection_evals shared_cache shared_cache_ok true (HWorld [Ok bytes] true [] false demo_shared) eq_refl).
Qed.

Lemma stack_fetches_witness :
  url_request (Some (resolve local_nameserver)) demo_network hello_url =
    Value (ClientResponse (text "HTTP/1.1") 200 (text "OK")
      [(text "content-length", text "13"); (text "connection", text "close")] (lit "HELLO WORLD!\n")).
Proof.
  assert (Hc : client_request (u_path hello_url) (u_host_header hello_url) =
    Some (lit "GET /hello HTTP/1.0\r\nHost: App.Local.:8088\r\n\r\n")) by (vm_compute; reflexivity).
  assert (Hp : path_ok (u_path hello_url)).
  { split; [vm_compute; reflexivity|]. apply (bool_decide_eq_true_1 (Forall (fun c => 32 < c < 127) (text "/hello"))).
    vm_compute. reflexivity. }
  assert (Hh : clean (u_host_header hello_url)) by (split; [by apply point_text|vm_compute; reflexivity]).
  assert (E : client_view (respond (Request (text "GET") (u_path hello_url))) =
    ClientResponse (text "HTTP/1.1") 200 (text "OK")
        [(text "content-length", text "13"); (text "connection", text "close")] (lit "HELLO WORLD!\n")) by (vm_compute; reflexivity).
  assert (Hn : map lower_point (py_rstrip [DOT] (u_host hello_url)) = text "app.local") by (vm_compute; reflexivity).
  assert (Hw : demo_network (text "127.0.0.1") (u_port hello_url) = Some (fun bytes => Some (demo_out bytes))).
  { unfold demo_network. by rewrite bool_decide_true. }
  rewrite <-E. eapply (stack_fetches shared_cache honest_shared demo_network hello_url _ _ _ true demo_shared Hp Hh Hn Hc).
  - apply Z.leb_le. vm_compute. reflexivity.
  - exact Hw.
  - reflexivity.
  - exact demo_honest.
  - by apply demo_served.
Defined.
