(* ===== verification/BalancerPool.v ===== *)
(** * The backend pool of load-balancer/server.go

    [backendPool] and its methods, on the objects the pool points to: a
    [*backendState] is a number, and goroutines that took a snapshot share the
    objects with the pool.  Each method holds the mutex from its first statement to
    its last, so it is one function of the pool and of the time it reads.  Slices
    are never shared: [snapshot] copies, and what the pool overwrites in place no
    other goroutine holds.

    The contract: a table of leases by address ([leases]), and that the methods
    and the registry handler implement it. *)

From S2P Require Import Prelude CLib GoLib.
Local Open Scope ub_scope.
Local Open Scope Z_scope.

(** ** State *)

(** Times in nanoseconds; [None] is the zero time. *)
Record backendState := BackendState {
  address : list byte;
  retryAt : option Z;
  expiresAt : option Z
}.

Record backendPool := BackendPool {
  objects : gmap nat backendState;
  backends : list nat;
  allocated : nat
}.

Definition healthCooldown : Z := 1000000000.
Definition backendLease : Z := 3000000000.
Definition maxBackends : Z := 32.
Definition maxAddressSize : Z := 128.

(** [&backendState{...}] *)
Definition new_object (b : backendState) (p : backendPool) : nat * backendPool :=
  (allocated p, BackendPool (<[allocated p := b]> (objects p)) (backends p) (S (allocated p))).

Definition set_object (ptr : nat) (b : backendState) (p : backendPool) : backendPool :=
  BackendPool (<[ptr := b]> (objects p)) (backends p) (allocated p).
Definition set_backends (l : list nat) (p : backendPool) : backendPool :=
  BackendPool (objects p) l (allocated p).

(** ** The methods *)

Fixpoint add_backends (addresses : list (list byte)) (p : backendPool) : backendPool :=
  match addresses with
  | [] => p
  | a :: rest =>
      let '(ptr, p) := new_object (BackendState a None None) p in
      add_backends rest (set_backends (backends p ++ [ptr]) p)
  end.
Definition newBackendPool (addresses : list (list byte)) : backendPool :=
  add_backends addresses (BackendPool ∅ [] 0).

(** The lease of a backend has not run out. *)
Definition unexpired (now : Z) (b : backendState) : bool :=
  match expiresAt b with None => true | Some t => now <? t end.

Fixpoint active_backends (now : Z) (objs : gmap nat backendState) (l : list nat) : ub (list nat) :=
  match l with
  | [] => Some []
  | ptr :: rest =>
      let? b := objs !! ptr in
      let? active := active_backends now objs rest in
      Some (if unexpired now b then ptr :: active else active)
  end.
Definition pruneExpired (now : Z) (p : backendPool) : ub backendPool :=
  let? active := active_backends now (objects p) (backends p) in
  Some (set_backends active p).

Definition snapshot (now : Z) (p : backendPool) : ub (list nat * backendPool) :=
  let? p := pruneExpired now p in
  Some (backends p, p).

(** The first backend with an address, and its index. *)
Fixpoint find_backend (addr : list byte) (objs : gmap nat backendState) (l : list nat) (i : Z)
  : ub (option (Z * nat)) :=
  match l with
  | [] => Some None
  | ptr :: rest =>
      let? b := objs !! ptr in
      if bool_decide (address b = addr) then Some (Some (i, ptr)) else find_backend addr objs rest (i + 1)
  end.

Definition register (addr : list byte) (now : Z) (p : backendPool) : ub (option string * backendPool) :=
  let? p := pruneExpired now p in
  let? found := find_backend addr (objects p) (backends p) 0 in
  match found with
  | Some (_, ptr) =>
      let? b := objects p !! ptr in
      Some (None, set_object ptr (BackendState (address b) (retryAt b) (Some (now + backendLease))) p)
  | None =>
      if maxBackends <=? zlen (backends p) then Some (Some "backend limit reached"%string, p)
      else
        let '(ptr, p) := new_object (BackendState addr None (Some (now + backendLease))) p in
        Some (None, set_backends (backends p ++ [ptr]) p)
  end.

Definition remove (addr : list byte) (p : backendPool) : ub (bool * backendPool) :=
  let? found := find_backend addr (objects p) (backends p) 0 in
  match found with
  | Some (i, _) =>
      Some (true, set_backends (take (Z.to_nat i) (backends p) ++ drop (Z.to_nat (i + 1)) (backends p)) p)
  | None => Some (false, p)
  end.

Definition usable (now : Z) (b : backendState) : bool :=
  unexpired now b && match retryAt b with None => true | Some t => negb (now <? t) end.
Definition available (ptr : nat) (now : Z) (p : backendPool) : ub (bool * backendPool) :=
  let? b := objects p !! ptr in Some (usable now b, p).

Definition markFailure (ptr : nat) (now : Z) (p : backendPool) : ub (unit * backendPool) :=
  let? b := objects p !! ptr in
  Some (tt, set_object ptr (BackendState (address b) (Some (now + healthCooldown)) (expiresAt b)) p).

Definition markSuccess (ptr : nat) (p : backendPool) : ub (unit * backendPool) :=
  let? b := objects p !! ptr in
  Some (tt, set_object ptr (BackendState (address b) None (expiresAt b)) p).

(** ** Addresses and the registry handler *)

Definition hostPort (host : list byte) (port : Z) : option (list byte) :=
  if (port <? 1) || (65535 <? port) then None else Some (join_host_port host (decimal port)).

(** HOST:PORT, or an error. *)
Definition backendAddress (value : list byte) : option (list byte) :=
  match cut (lit ":") value with
  | Some (host, rawPort) =>
      if bool_decide (host = []) || bool_decide (rawPort = []) then None
      else match atoi rawPort with Some port => hostPort host port | None => None end
  | None => None
  end.

(** The host of an address that [backendAddress] made of a host without colon. *)
Definition address_host (address : list byte) : list byte :=
  match cut (lit ":") address with Some (host, _) => host | None => [] end.

Inductive method := MethodGet | MethodPut | MethodDelete | OtherMethod.

(** A request of the registry: its body is [None] when it cannot be read. *)
Record registry_request := RegistryRequest {
  rq_path : string;
  rq_method : method;
  rq_body : option (list byte)
}.

(** The addresses of the backends, in order. *)
Fixpoint addresses_of (objs : gmap nat backendState) (l : list nat) : ub (list (list byte)) :=
  match l with
  | [] => Some []
  | ptr :: rest =>
      let? b := objs !! ptr in
      let? as_ := addresses_of objs rest in
      Some (address b :: as_)
  end.

Inductive registry_reply :=
| Listing (addresses : list (list byte))
| Status (code : Z).

(** The address of a PUT or DELETE, or none: the body is at most 128 bytes
    HOST:PORT, with an IPv4 host. *)
Definition request_address (body : option (list byte)) : option (list byte) :=
  match body with
  | None => None
  | Some body =>
      let body := take (Z.to_nat (maxAddressSize + 1)) body in
      if maxAddressSize <? zlen body then None
      else
        match backendAddress (trim_space body) with
        | None => None
        | Some address => if is_ipv4 (address_host address) then Some address else None
        end
  end.

Definition registryHandler (rq : registry_request) (now : Z) (p : backendPool) : ub (registry_reply * backendPool) :=
  if negb (bool_decide (rq_path rq = "/backends"%string)) then Some (Status 404, p)
  else
    match rq_method rq with
    | MethodGet =>
        let? ' (ptrs, p) := snapshot now p in
        let? as_ := addresses_of (objects p) ptrs in
        Some (Listing as_, p)
    | OtherMethod => Some (Status 405, p)
    | MethodPut =>
        match request_address (rq_body rq) with
        | None => Some (Status 400, p)
        | Some addr =>
            let? ' (err, p) := register addr now p in
            Some (Status (match err with Some _ => 409 | None => 204 end), p)
        end
    | MethodDelete =>
        match request_address (rq_body rq) with
        | None => Some (Status 400, p)
        | Some addr =>
            let? ' (removed, p) := remove addr p in
            Some (Status (if removed then 204 else 404), p)
        end
    end.

(** What goroutines do with the pool. *)
Inductive pool_op :=
| Registry (rq : registry_request)
| Snapshot
| Available (ptr : nat)
| MarkFailure (ptr : nat)
| MarkSuccess (ptr : nat).

Inductive pool_result :=
| Replied (r : registry_reply)
| Taken (ptrs : list nat)
| Answered (b : bool)
| Marked.

Definition pool_apply (op : pool_op) (now : Z) (p : backendPool) : ub (pool_result * backendPool) :=
  match op with
  | Registry rq => let? ' (r, p) := registryHandler rq now p in Some (Replied r, p)
  | Snapshot => let? ' (ptrs, p) := snapshot now p in Some (Taken ptrs, p)
  | Available ptr => let? ' (b, p) := available ptr now p in Some (Answered b, p)
  | MarkFailure ptr => let? ' (_, p) := markFailure ptr now p in Some (Marked, p)
  | MarkSuccess ptr => let? ' (_, p) := markSuccess ptr p in Some (Marked, p)
  end.

(** A history of the pool: times, calls and results, in the order of the mutex. *)
Abbreviation history := (list (Z * pool_op * pool_result)).

Inductive pool_run : backendPool -> history -> backendPool -> Prop :=
| pool_run_nil p : pool_run p [] p
| pool_run_cons p now op r p1 h p2 :
    pool_apply op now p = Some (r, p1) -> pool_run p1 h p2 -> pool_run p ((now, op, r) :: h) p2.

(** ** The contract *)

(** The lease of every registered address. *)
Abbreviation leases := (gmap (list byte) (option Z)).

Definition lease_live (now : Z) (e : option Z) : bool :=
  match e with None => true | Some t => now <? t end.
Definition current (now : Z) (t : leases) : leases := filter (fun kv => lease_live now kv.2 = true) t.

Inductive registry_spec (now : Z) : registry_request -> leases -> registry_reply -> leases -> Prop :=
| spec_path rq t : rq_path rq <> "/backends"%string -> registry_spec now rq t (Status 404) t
| spec_list rq t l :
    rq_path rq = "/backends"%string -> rq_method rq = MethodGet ->
    NoDup l -> (forall a, a ∈ l <-> is_Some (current now t !! a)) ->
    registry_spec now rq t (Listing l) (current now t)
| spec_method rq t :
    rq_path rq = "/backends"%string -> rq_method rq = OtherMethod -> registry_spec now rq t (Status 405) t
| spec_invalid rq t :
    rq_path rq = "/backends"%string -> rq_method rq = MethodPut \/ rq_method rq = MethodDelete ->
    request_address (rq_body rq) = None -> registry_spec now rq t (Status 400) t
| spec_register rq t a :
    rq_path rq = "/backends"%string -> rq_method rq = MethodPut -> request_address (rq_body rq) = Some a ->
    is_Some (current now t !! a) \/ Z.of_nat (size (current now t)) < maxBackends ->
    registry_spec now rq t (Status 204) (<[a := Some (now + backendLease)]> (current now t))
| spec_full rq t a :
    rq_path rq = "/backends"%string -> rq_method rq = MethodPut -> request_address (rq_body rq) = Some a ->
    current now t !! a = None -> maxBackends <= Z.of_nat (size (current now t)) ->
    registry_spec now rq t (Status 409) (current now t)
| spec_remove rq t a :
    rq_path rq = "/backends"%string -> rq_method rq = MethodDelete -> request_address (rq_body rq) = Some a ->
    is_Some (t !! a) -> registry_spec now rq t (Status 204) (delete a t)
| spec_unknown rq t a :
    rq_path rq = "/backends"%string -> rq_method rq = MethodDelete -> request_address (rq_body rq) = Some a ->
    t !! a = None -> registry_spec now rq t (Status 404) t.

(** What a call does to the leases: a snapshot drops those that ran out, the marks
    of failures do not touch them. *)
Definition pool_spec (now : Z) (op : pool_op) (t : leases) (r : pool_result) (t' : leases) : Prop :=
  match op, r with
  | Registry rq, Replied r => registry_spec now rq t r t'
  | Snapshot, Taken ptrs => t' = current now t /\ length ptrs = size (current now t)
  | Available _, Answered _ => t' = t
  | MarkFailure _, Marked | MarkSuccess _, Marked => t' = t
  | _, _ => False
  end.

Inductive pool_explained : leases -> history -> leases -> Prop :=
| explained_nil t : pool_explained t [] t
| explained_cons t now op r t1 h t2 :
    pool_spec now op t r t1 -> pool_explained t1 h t2 -> pool_explained t ((now, op, r) :: h) t2.

(** ** The invariant *)

(** The pool holds the objects [l], in order. *)
Definition pool_rep (p : backendPool) (l : list (nat * backendState)) : Prop :=
  backends p = l.*1 /\ Forall (fun x => objects p !! x.1 = Some x.2) l /\ NoDup l.*1 /\
  (forall ptr, is_Some (objects p !! ptr) -> (ptr < allocated p)%nat).

Definition addresses (l : list (nat * backendState)) : list (list byte) := (fun x => address x.2) <$> l.
Definition table (l : list (nat * backendState)) : leases :=
  list_to_map ((fun x => (address x.2, expiresAt x.2)) <$> l).

(** The pool stands for the leases [t]. *)
Definition pool_ok (p : backendPool) (t : leases) : Prop :=
  exists l, pool_rep p l /\ NoDup (addresses l) /\ zlen l <= maxBackends /\ table l = t.

Lemma table_keys l : ((fun x => (address x.2, expiresAt x.2)) <$> l).*1 = addresses l.
Proof. unfold addresses. by rewrite <-list_fmap_compose. Qed.

Lemma table_lookup l a e :
  NoDup (addresses l) -> table l !! a = Some e <-> exists x, x ∈ l /\ address x.2 = a /\ expiresAt x.2 = e.
Proof.
  intros Hnd. unfold table. rewrite <-elem_of_list_to_map by by rewrite table_keys.
  rewrite list_elem_of_fmap. split; [intros (x & Hx & ?)|intros (x & ? & <- & <-)]; [|by exists x].
  injection Hx as -> ->. by exists x.
Qed.

Lemma table_None l a : table l !! a = None <-> a ∉ addresses l.
Proof.
  unfold table. rewrite <-not_elem_of_list_to_map, table_keys. done.
Qed.

Lemma table_size l : NoDup (addresses l) -> size (table l) = length l.
Proof.
  intros Hnd. unfold table. rewrite <-length_map_to_list, map_to_list_to_map by by rewrite table_keys.
  apply length_fmap.
Qed.

Lemma pool_rep_object p l x : pool_rep p l -> x ∈ l -> objects p !! x.1 = Some x.2.
Proof. intros (_ & Ho & _) Hx. by apply (proj1 (Forall_forall _ _) Ho). Qed.

(** ** The methods implement the contract *)

Definition unexpired_in (now : Z) (l : list (nat * backendState)) : list (nat * backendState) :=
  filter (fun x => unexpired now x.2 = true) l.

Lemma active_backends_ok now objs l :
  Forall (fun x => objs !! x.1 = Some x.2) l ->
  active_backends now objs l.*1 = Some (unexpired_in now l).*1.
Proof.
  induction 1 as [|[ptr b] l Hx Hl IH]; [done|]. cbn [fmap list_fmap active_backends fst snd] in *.
  rewrite Hx, IH. unfold unexpired_in. destruct (unexpired now b) eqn:E.
  - rewrite filter_cons_True by exact E. done.
  - rewrite filter_cons_False by (simpl; congruence). done.
Qed.

Lemma addresses_unexpired now l : NoDup (addresses l) -> NoDup (addresses (unexpired_in now l)).
Proof. intros H. eapply sublist_NoDup; [exact H|]. apply fmap_sublist, sublist_filter. Qed.

Lemma table_unexpired now l : NoDup (addresses l) -> table (unexpired_in now l) = current now (table l).
Proof.
  intros Hnd. apply map_eq. intros a. apply option_eq. intros e. unfold current. rewrite map_lookup_filter_Some.
  rewrite !table_lookup by auto using addresses_unexpired. setoid_rewrite list_elem_of_filter.
  unfold unexpired, lease_live. split; [intros (x & [Hu Hx] & <- & <-)|intros [(x & Hx & <- & <-) Hu]]; eauto 10.
Qed.

Lemma prune_ok now p l :
  pool_rep p l ->
  pruneExpired now p = Some (set_backends (unexpired_in now l).*1 p) /\
  pool_rep (set_backends (unexpired_in now l).*1 p) (unexpired_in now l).
Proof.
  intros (Hb & Ho & Hnd & Ha). unfold pruneExpired. rewrite Hb, active_backends_ok by done.
  split; [done|]. split; [done|]. split; [|split; [|done]].
  - apply Forall_forall. intros x [_ Hx]%list_elem_of_filter. by apply (proj1 (Forall_forall _ _) Ho).
  - eapply sublist_NoDup; [exact Hnd|]. apply fmap_sublist, sublist_filter.
Qed.

Lemma find_backend_none addr objs l i :
  Forall (fun x => objs !! x.1 = Some x.2) l -> addr ∉ addresses l -> find_backend addr objs l.*1 i = Some None.
Proof.
  intros Hl. revert i. induction Hl as [|[ptr b] l Hx Hl IH]; intros i Ha; [done|].
  cbn [fmap list_fmap find_backend fst] in *. rewrite Hx. unfold addresses in Ha. cbn in Ha.
  rewrite not_elem_of_cons in Ha. destruct Ha as [Hne Ha].
  rewrite bool_decide_false by (intros E; by apply Hne). by apply IH.
Qed.

Lemma find_backend_some addr objs l1 ptr b l2 i :
  Forall (fun x => objs !! x.1 = Some x.2) (l1 ++ (ptr, b) :: l2) -> addr ∉ addresses l1 -> address b = addr ->
  find_backend addr objs (l1 ++ (ptr, b) :: l2).*1 i = Some (Some (i + zlen l1, ptr)).
Proof.
  revert i. induction l1 as [|[ptr1 b1] l1 IH]; intros i Hl Ha Hb; cbn [app fmap list_fmap find_backend fst] in *;
    apply Forall_cons in Hl as [Hx Hl]; cbn [fst snd] in Hx; rewrite Hx.
  - rewrite bool_decide_true by done. do 3 f_equal. simpl. lia.
  - unfold addresses in Ha. cbn in Ha. rewrite not_elem_of_cons in Ha. destruct Ha as [Hne Ha].
    rewrite bool_decide_false by (intros E; by apply Hne). rewrite IH by done. do 3 f_equal. simpl. lia.
Qed.

(** A registered address has one place. *)
Lemma addresses_split addr l :
  addr ∈ addresses l -> exists l1 ptr b l2, l = l1 ++ (ptr, b) :: l2 /\ addr ∉ addresses l1 /\ address b = addr.
Proof.
  induction l as [|[ptr b] l IH]; unfold addresses; cbn; [intros H; by apply elem_of_nil in H|].
  intros Ha. destruct (decide (address b = addr)) as [E|E].
  { exists [], ptr, b, l. split_and!; [done|apply not_elem_of_nil|done]. }
  apply elem_of_cons in Ha as [?|Ha]; [congruence|]. destruct (IH Ha) as (l1 & q & b' & l2 & -> & Hn & Hb).
  exists ((ptr, b) :: l1), q, b', l2. split_and!; [done| |done]. cbn. rewrite not_elem_of_cons. split; [|done].
  intros E'. by apply E.
Qed.

(** One object of the pool changes, not its address. *)
Lemma set_object_rep p l1 ptr b l2 b' :
  pool_rep p (l1 ++ (ptr, b) :: l2) -> pool_rep (set_object ptr b' p) (l1 ++ (ptr, b') :: l2).
Proof.
  intros (Hb & Ho & Hnd & Ha). rewrite fmap_app in Hb, Hnd. cbn in Hb, Hnd.
  apply NoDup_app in Hnd as Hnd'. destruct Hnd' as (_ & Hd & Hnd2). apply NoDup_cons in Hnd2 as [Hn2 _].
  assert (Hn1 : ptr ∉ l1.*1) by (intros H1; apply (Hd ptr H1); by left).
  assert (Hother : forall x, x ∈ l1 \/ x ∈ l2 -> x.1 <> ptr).
  { intros x Hx E. destruct Hx as [Hx|Hx]; [apply Hn1|apply Hn2]; rewrite <-E; by apply (list_elem_of_fmap_2 fst). }
  split; [by rewrite fmap_app|]. split; [|split; [by rewrite fmap_app|]].
  - rewrite Forall_app, Forall_cons in Ho |- *. destruct Ho as (Ho1 & Hx & Ho2).
    split; [|split; [apply lookup_insert_eq|]].
    + apply Forall_forall. intros x Hx1. cbn [objects set_object].
      rewrite lookup_insert_ne by (intros E; apply (Hother x); auto).
      by apply (proj1 (Forall_forall _ _) Ho1).
    + apply Forall_forall. intros x Hx2. cbn [objects set_object].
      rewrite lookup_insert_ne by (intros E; apply (Hother x); auto).
      by apply (proj1 (Forall_forall _ _) Ho2).
  - intros q Hq. cbn [allocated set_object]. cbn [objects set_object] in Hq. apply Ha.
    destruct (decide (q = ptr)) as [->|Hne]; [|by rewrite lookup_insert_ne in Hq].
    rewrite Forall_app, Forall_cons in Ho. destruct Ho as (_ & Hx & _). by eexists.
Qed.

(** An object that is not in the pool changes. *)
Lemma set_object_other p l ptr b :
  pool_rep p l -> ptr ∉ l.*1 -> is_Some (objects p !! ptr) -> pool_rep (set_object ptr b p) l.
Proof.
  intros (Hb & Ho & Hnd & Ha) Hp Hs. split; [done|]. split; [|split; [done|]].
  - apply Forall_forall. intros x Hx. cbn [objects set_object]. rewrite lookup_insert_ne.
    + by apply (proj1 (Forall_forall _ _) Ho).
    + intros E. apply Hp. rewrite E. by apply (list_elem_of_fmap_2 fst).
  - intros q Hq. cbn [objects set_object] in Hq. apply Ha.
    destruct (decide (q = ptr)) as [->|Hne]; [done|]. by rewrite lookup_insert_ne in Hq.
Qed.

(** A new backend at the end. *)
Lemma append_rep p l b :
  pool_rep p l ->
  pool_rep (set_backends (backends p ++ [allocated p]) (new_object b p).2) (l ++ [(allocated p, b)]).
Proof.
  intros (Hb & Ho & Hnd & Ha).
  assert (Hfresh : forall x, x ∈ l -> x.1 <> allocated p).
  { intros x Hx E. pose proof (Ha x.1). rewrite (proj1 (Forall_forall _ _) Ho x Hx) in H.
    specialize (H ltac:(by eexists)). lia. }
  split; [by rewrite fmap_app, Hb|]. split; [|split].
  - apply Forall_app. split; [|constructor; [apply lookup_insert_eq|done]].
    apply Forall_forall. intros x Hx. cbn. rewrite lookup_insert_ne by (intros E; by apply (Hfresh x Hx)).
    by apply (proj1 (Forall_forall _ _) Ho).
  - rewrite fmap_app. apply NoDup_app. split; [done|]. split; [|apply NoDup_singleton].
    intros q Hq Hin. apply list_elem_of_singleton in Hin as ->. apply list_elem_of_fmap in Hq as (x & E & Hx).
    by apply (Hfresh x Hx).
  - intros q Hq. cbn in Hq |- *. destruct (decide (q = allocated p)) as [->|Hne]; [lia|].
    rewrite lookup_insert_ne in Hq by done. specialize (Ha q Hq). lia.
Qed.

Lemma prune_leases now p t :
  pool_ok p t -> exists p', pruneExpired now p = Some p' /\ pool_ok p' (current now t) /\ objects p' = objects p.
Proof.
  intros (l & Hr & Hnd & Hl & <-). destruct (prune_ok now p l Hr) as [E Hr']. eexists. split; [exact E|].
  split; [|done]. exists (unexpired_in now l). split; [done|]. split; [by apply addresses_unexpired|].
  split; [|by apply table_unexpired].
  assert (H : (length (unexpired_in now l) <= length l)%nat) by apply length_filter. lia.
Qed.

(** The objects that were known stay known. *)
Definition known (p p' : backendPool) : Prop := forall ptr, is_Some (objects p !! ptr) -> is_Some (objects p' !! ptr).

#[export] Instance known_preorder : PreOrder known.
Proof. split; [by intros p q|]. intros p1 p2 p3 H1 H2 q Hq. by apply H2, H1. Qed.

Lemma known_insert p p' ptr b : objects p' = <[ptr := b]> (objects p) -> known p p'.
Proof.
  intros E q Hq. rewrite E. destruct (decide (q = ptr)) as [->|Hne]; [by rewrite lookup_insert_eq|].
  by rewrite lookup_insert_ne.
Qed.

(** The lease of a registered address changes. *)
Lemma replace_leases p l1 ptr b l2 b' :
  pool_rep p (l1 ++ (ptr, b) :: l2) -> NoDup (addresses (l1 ++ (ptr, b) :: l2)) ->
  zlen (l1 ++ (ptr, b) :: l2) <= maxBackends -> address b' = address b ->
  pool_ok (set_object ptr b' p) (<[address b := expiresAt b']> (table (l1 ++ (ptr, b) :: l2))).
Proof.
  intros Hr Hnd Hl Ha. exists (l1 ++ (ptr, b') :: l2).
  assert (Hadr : addresses (l1 ++ (ptr, b') :: l2) = addresses (l1 ++ (ptr, b) :: l2)).
  { unfold addresses. rewrite !fmap_app. cbn. by rewrite Ha. }
  split; [by eapply set_object_rep|]. split; [by rewrite Hadr|].
  split; [rewrite length_app in *; simpl in *; lia|].
  apply map_eq. intros a. destruct (decide (a = address b)) as [->|Hne].
  - rewrite lookup_insert_eq. apply table_lookup; [by rewrite Hadr|]. exists (ptr, b').
    split; [rewrite elem_of_app, elem_of_cons; auto|]. by split.
  - rewrite lookup_insert_ne by done. apply option_eq. intros e.
    rewrite !table_lookup by (rewrite ?Hadr; done).
    split; intros (x & Hx & E1 & E2); exists x; rewrite elem_of_app, elem_of_cons in Hx |- *;
      (split; [|done]); destruct Hx as [?|[->|?]]; auto; destruct Hne; rewrite <-E1; by rewrite ?Ha.
Qed.

(** A new address is leased. *)
Lemma append_leases p l b :
  pool_rep p l -> NoDup (addresses l) -> zlen l < maxBackends -> address b ∉ addresses l ->
  pool_ok (set_backends (backends p ++ [allocated p]) (new_object b p).2) (<[address b := expiresAt b]> (table l)).
Proof.
  intros Hr Hnd Hl Hin. exists (l ++ [(allocated p, b)]). split; [by apply append_rep|].
  split; [|split; [rewrite length_app; simpl; lia|]].
  - unfold addresses. rewrite fmap_app. apply NoDup_app. split; [done|]. split; [|apply NoDup_singleton].
    intros a Ha Hx. apply list_elem_of_singleton in Hx as ->. done.
  - unfold table. rewrite fmap_app. cbn [fmap list_fmap]. rewrite list_to_map_snoc; [done|]. by rewrite table_keys.
Qed.

Lemma register_ok addr now p t :
  pool_ok p t ->
  let t1 := current now t in
  exists r p', register addr now p = Some (r, p') /\ known p p' /\
    if decide (is_Some (t1 !! addr) \/ Z.of_nat (size t1) < maxBackends)
    then r = None /\ pool_ok p' (<[addr := Some (now + backendLease)]> t1)
    else r = Some "backend limit reached"%string /\ pool_ok p' t1.
Proof.
  intros Hp t1. destruct (prune_leases now p t Hp) as (p1 & E & Hp1 & Hobj). fold t1 in Hp1.
  unfold register. rewrite E. destruct Hp1 as (l & Hr & Hnd & Hl & Ht). pose proof Hr as (Hb & Ho & _ & _).
  rewrite Hb. destruct (decide (addr ∈ addresses l)) as [Hin|Hin].
  - destruct (addresses_split addr l Hin) as (l1 & ptr & b & l2 & -> & Hn & Ha).
    rewrite (find_backend_some addr _ l1 ptr b l2) by done.
    assert (Hptr : objects p1 !! ptr = Some b).
    { apply (pool_rep_object p1 _ (ptr, b) Hr). rewrite elem_of_app, elem_of_cons. auto. }
    rewrite Hptr. eexists _, _. split; [done|].
    split; [by eapply known_insert; rewrite <-Hobj|].
    rewrite decide_True.
    + split; [done|]. rewrite <-Ht, <-Ha. by apply replace_leases.
    + left. rewrite <-Ht. destruct (table _ !! addr) eqn:E'; [by eexists|]. by apply table_None in E'.
  - rewrite find_backend_none by done.
    assert (Hnone : t1 !! addr = None) by (rewrite <-Ht; by apply table_None).
    assert (Hsize : zlen l = Z.of_nat (size t1)) by (rewrite <-Ht, table_size; done).
    rewrite length_fmap, Hsize. destruct (Z.leb_spec maxBackends (Z.of_nat (size t1))) as [Hfull|Hroom].
    + eexists _, _. split; [done|]. split; [intros q Hq; by rewrite Hobj|].
      rewrite decide_False; [|rewrite Hnone; intros [[? ?]|?]; [done|lia]].
      split; [done|]. by exists l.
    + eexists _, _. split; [done|]. split; [by eapply known_insert; rewrite <-Hobj|].
      rewrite decide_True by auto. split; [done|]. rewrite <-Ht.
      apply (append_leases p1 l (BackendState addr None (Some (now + backendLease)))); [done|done|lia|done].
Qed.

(** A place is given up. *)
Lemma table_delete l1 ptr b l2 :
  NoDup (addresses (l1 ++ (ptr, b) :: l2)) ->
  NoDup (addresses (l1 ++ l2)) /\ table (l1 ++ l2) = delete (address b) (table (l1 ++ (ptr, b) :: l2)).
Proof.
  intros Hnd. assert (Hnd' : NoDup (addresses (l1 ++ l2))).
  { eapply sublist_NoDup; [exact Hnd|]. apply fmap_sublist, sublist_app; [done|]. by apply sublist_cons. }
  split; [done|]. apply map_eq. intros a. apply option_eq. intros e.
  rewrite lookup_delete_Some, !table_lookup by done.
  unfold addresses in Hnd. rewrite fmap_app in Hnd. cbn in Hnd.
  apply NoDup_app in Hnd as (_ & Hdj & [Hn2 _]%NoDup_cons).
  assert (Hin : forall x (l : list (nat * backendState)), x ∈ l -> address x.2 ∈ ((fun x : nat * backendState => address x.2) <$> l)).
  { intros x l. apply (list_elem_of_fmap_2 (fun x => address x.2)). }
  split.
  - intros (x & Hx & <- & <-). split; [|by exists x; rewrite elem_of_app, elem_of_cons in *; tauto].
    intros E. apply elem_of_app in Hx as [Hx|Hx].
    + apply (Hdj _ (Hin _ _ Hx)). rewrite <-E. by left.
    + apply Hn2. rewrite E. by apply Hin.
  - intros (Hne & x & Hx & E1 & E2). exists x. split; [|done].
    rewrite elem_of_app, elem_of_cons in *. destruct Hx as [?|[->|?]]; auto. by destruct Hne.
Qed.

Lemma delete_rep p l1 x l2 : pool_rep p (l1 ++ x :: l2) -> pool_rep (set_backends (l1 ++ l2).*1 p) (l1 ++ l2).
Proof.
  intros (Hb & Ho & Hndp & Hal). split; [done|]. split; [|split; [|done]].
  - rewrite Forall_app, Forall_cons in Ho. rewrite Forall_app. tauto.
  - eapply sublist_NoDup; [exact Hndp|]. apply fmap_sublist, sublist_app; [done|]. by apply sublist_cons.
Qed.

Lemma remove_place (l1 : list (nat * backendState)) x l2 :
  take (Z.to_nat (0 + zlen l1)) (l1 ++ x :: l2).*1 ++ drop (Z.to_nat (0 + zlen l1 + 1)) (l1 ++ x :: l2).*1 = (l1 ++ l2).*1.
Proof.
  replace (Z.to_nat (0 + zlen l1)) with (length l1.*1) by (rewrite length_fmap; lia).
  replace (Z.to_nat (0 + zlen l1 + 1)) with (length l1.*1 + 1)%nat by (rewrite length_fmap; lia).
  by rewrite !fmap_app, take_app_length, drop_app_add.
Qed.

Lemma remove_ok addr p t :
  pool_ok p t ->
  exists p', remove addr p = Some (bool_decide (is_Some (t !! addr)), p') /\ known p p' /\ pool_ok p' (delete addr t).
Proof.
  intros (l & Hr & Hnd & Hl & Ht). pose proof Hr as (Hb & Ho & _). unfold remove. rewrite Hb.
  destruct (decide (addr ∈ addresses l)) as [Hin|Hin].
  - destruct (addresses_split addr l Hin) as (l1 & ptr & b & l2 & -> & Hn & Ha).
    rewrite (find_backend_some addr _ l1 ptr b l2) by done. rewrite bool_decide_true.
    2: { rewrite <-Ht. destruct (table _ !! addr) eqn:E'; [by eexists|]. by apply table_None in E'. }
    rewrite remove_place. eexists. split; [done|]. split; [by intros q Hq|]. exists (l1 ++ l2).
    destruct (table_delete l1 ptr b l2 Hnd) as [Hnd' Htd].
    split; [by eapply delete_rep|]. split; [done|]. split; [rewrite length_app in *; simpl in *; lia|].
    by rewrite Htd, Ht, Ha.
  - rewrite find_backend_none by done.
    assert (Hnone : t !! addr = None) by (rewrite <-Ht; by apply table_None).
    exists p. rewrite bool_decide_false by (rewrite Hnone; by intros []). split; [done|]. split; [by intros q Hq|].
    rewrite delete_id by done. by exists l.
Qed.

(** The times of failures are not part of the leases. *)
Lemma mark_ok p t ptr b b' :
  pool_ok p t -> objects p !! ptr = Some b -> address b' = address b -> expiresAt b' = expiresAt b ->
  pool_ok (set_object ptr b' p) t.
Proof.
  intros (l & Hr & Hnd & Hl & Ht) Hb Ha He. destruct (decide (ptr ∈ l.*1)) as [Hin|Hin].
  - apply list_elem_of_fmap in Hin as ([q b0] & E & Hx). cbn in E. subst q.
    pose proof (pool_rep_object _ _ _ Hr Hx) as Hb0. cbn in Hb0. simplify_eq.
    pose proof Hx as Hx'. apply list_elem_of_split in Hx' as (l1 & l2 & ->).
    pose proof (replace_leases p l1 ptr b l2 b' Hr Hnd Hl Ha) as H. rewrite insert_id in H; [done|].
    apply table_lookup; [done|]. by exists (ptr, b).
  - exists l. split; [|done]. apply set_object_other; [done|done|]. by eexists.
Qed.

Lemma addresses_of_ok objs l :
  Forall (fun x => objs !! x.1 = Some x.2) l -> addresses_of objs l.*1 = Some (addresses l).
Proof.
  induction 1 as [|[ptr b] l Hx Hl IH]; [done|]. cbn [fmap list_fmap addresses_of fst snd] in *. by rewrite Hx, IH.
Qed.

Lemma registry_ok rq now p t :
  pool_ok p t ->
  exists r p' t', registryHandler rq now p = Some (r, p') /\ registry_spec now rq t r t' /\ pool_ok p' t' /\ known p p'.
Proof.
  intros Hp. unfold registryHandler. destruct (decide (rq_path rq = "/backends"%string)) as [Hpath|Hpath].
  2: { rewrite bool_decide_false by done. eexists _, p, t. split; [done|]. split; [by apply spec_path|by split]. }
  rewrite bool_decide_true by done. cbn [negb].
  destruct (rq_method rq) eqn:Hm; [|destruct (request_address (rq_body rq)) as [a|] eqn:Ha..|].
  - destruct (prune_leases now p t Hp) as (p1 & E & Hp1 & Hobj). unfold snapshot. rewrite E.
    pose proof Hp1 as (l & (Hb & Ho & _) & Hnd & _ & Ht). rewrite Hb, addresses_of_ok by done.
    eexists _, p1, _. split; [done|]. split; [apply spec_list; [done..|]|split; [done|]].
    + intros a. rewrite <-Ht. destruct (table l !! a) eqn:E'.
      * split; [by eexists|]. intros _. apply dec_stable. intros Hn%table_None. congruence.
      * apply table_None in E'. split; [done|]. by intros [].
    + intros q. by rewrite Hobj.
  - destruct (register_ok a now p t Hp) as (r & p' & E & Hk & H). rewrite E.
    destruct (decide _) as [Hroom|Hfull]; destruct H as [-> Hp'].
    + eexists _, p', _. split; [done|]. split; [by eapply spec_register|by split].
    + eexists _, p', _. split; [done|]. split; [|by split]. eapply spec_full; try done.
      * destruct (current now t !! a) eqn:E'; [|done]. destruct Hfull. left. by eexists.
      * destruct (Z.le_gt_cases maxBackends (Z.of_nat (size (current now t)))); [done|]. destruct Hfull. by right.
  - eexists _, p, t. split; [done|]. split; [apply spec_invalid; auto|by split].
  - destruct (remove_ok a p t Hp) as (p' & E & Hk & H). rewrite E. eexists _, p', _. split; [done|]. split; [|by split].
    case_bool_decide as Hs; [by eapply spec_remove|].
    assert (Hnone : t !! a = None) by (destruct (t !! a); [destruct Hs; by eexists|done]).
    rewrite delete_id by done. by eapply spec_unknown.
  - eexists _, p, t. split; [done|]. split; [apply spec_invalid; auto|by split].
  - eexists _, p, t. split; [done|]. split; [by apply spec_method|by split].
Qed.

(** ** Histories *)

(** A goroutine has a backend from a snapshot only. *)
Definition op_known (op : pool_op) (p : backendPool) : Prop :=
  match op with
  | Available ptr | MarkFailure ptr | MarkSuccess ptr => is_Some (objects p !! ptr)
  | Registry _ | Snapshot => True
  end.

Lemma pool_apply_ok op now p t :
  pool_ok p t -> op_known op p ->
  exists r p' t', pool_apply op now p = Some (r, p') /\ pool_spec now op t r t' /\ pool_ok p' t' /\ known p p' /\
    (forall ptrs, r = Taken ptrs -> Forall (fun ptr => is_Some (objects p' !! ptr)) ptrs).
Proof.
  intros Hp Hop. destruct op as [rq| |ptr|ptr|ptr]; cbn [pool_apply op_known] in *.
  - destruct (registry_ok rq now p t Hp) as (r & p' & t' & E & Hs & Hp' & Hk). rewrite E.
    eexists _, p', t'. by split_and!.
  - destruct (prune_leases now p t Hp) as (p1 & E & Hp1 & Hobj). unfold snapshot. rewrite E.
    eexists _, p1, _. split; [done|]. pose proof Hp1 as (l & (Hb & Ho & _) & Hnd & _ & Ht).
    split; [split; [done|]|split; [done|split]].
    + rewrite Hb, <-Ht, table_size, length_fmap by done. done.
    + intros q. by rewrite Hobj.
    + intros ptrs [= <-]. rewrite Hb. apply Forall_fmap. eapply Forall_impl; [exact Ho|]. intros x Hx. exists x.2. exact Hx.
  - destruct Hop as [b Hb]. unfold available. rewrite Hb. by eexists _, p, t.
  - destruct Hop as [b Hb]. unfold markFailure. rewrite Hb. eexists _, _, t. split; [done|]. split; [done|].
    split; [by eapply mark_ok|]. split; [by eapply known_insert|done].
  - destruct Hop as [b Hb]. unfold markSuccess. rewrite Hb. eexists _, _, t. split; [done|]. split; [done|].
    split; [by eapply mark_ok|]. split; [by eapply known_insert|done].
Qed.

Lemma pool_apply_known op now p r p' : pool_apply op now p = Some (r, p') -> op_known op p.
Proof.
  destruct op as [rq| |ptr|ptr|ptr]; cbn [pool_apply op_known]; try done;
    unfold available, markFailure, markSuccess; destruct (objects p !! ptr); try done; by eexists.
Qed.

Lemma pool_run_ok p t h p' :
  pool_ok p t -> pool_run p h p' -> exists t', pool_explained t h t' /\ pool_ok p' t' /\ known p p' /\
    Forall (fun x => forall ptrs, x.2 = Taken ptrs -> Forall (fun ptr => is_Some (objects p' !! ptr)) ptrs) h.
Proof.
  intros Hp Hr. revert t Hp. induction Hr as [p|p now op r p1 h p2 Ha Hr IH]; intros t Hp.
  { exists t. split; [constructor|]. by split_and!. }
  destruct (pool_apply_ok op now p t Hp (pool_apply_known _ _ _ _ _ Ha)) as (r' & p1' & t1 & Ha' & Hs & Hp1 & Hk & Ht).
  rewrite Ha in Ha'. simplify_eq. destruct (IH t1 Hp1) as (t2 & He & Hp2 & Hk2 & Hf).
  exists t2. split; [by econstructor|]. split; [done|]. split; [by etrans|]. constructor; [|done].
  intros ptrs E. eapply Forall_impl; [by apply Ht|]. intros ptr Hptr. by apply Hk2.
Qed.

(** The leases of configured backends do not run out. *)
Definition static_leases (l : list (list byte)) : leases := list_to_map ((fun a => (a, None)) <$> l).

(** A pool of given addresses, none of which failed. *)
Lemma add_backends_rep l : forall p l0,
  pool_rep p l0 -> exists l1, pool_rep (add_backends l p) (l0 ++ l1) /\
    (fun x => (address x.2, expiresAt x.2)) <$> l1 = (fun a => (a, None)) <$> l.
Proof.
  induction l as [|a l IH]; intros p l0 Hr; [by exists []; rewrite app_nil_r|].
  pose proof (append_rep p l0 (BackendState a None None) Hr) as Hr'.
  destruct (IH _ _ Hr') as (l1 & H1 & H2). eexists (_ :: l1). rewrite <-app_assoc in H1. split; [exact H1|].
  cbn [fmap list_fmap]. by rewrite H2.
Qed.

Lemma add_backends_retry l : forall p,
  (forall ptr, objects p !! ptr ≫= retryAt = None) -> forall ptr, objects (add_backends l p) !! ptr ≫= retryAt = None.
Proof.
  induction l as [|a l IH]; intros p Hp; [exact Hp|]. apply IH. intros ptr. cbn [objects set_backends new_object snd].
  destruct (decide (allocated p = ptr)) as [->|Hne]; [by rewrite lookup_insert_eq|by rewrite lookup_insert_ne].
Qed.

Lemma newBackendPool_rep l : exists l1, pool_rep (newBackendPool l) l1 /\
  (fun x => (address x.2, expiresAt x.2)) <$> l1 = (fun a => (a, None)) <$> l.
Proof.
  destruct (add_backends_rep l (BackendPool ∅ [] 0) []) as (l1 & Hr & He); [|by exists l1].
  split; [done|]. split; [constructor|]. split; [constructor|]. intros ptr [b Hb]. done.
Qed.

Lemma newBackendPool_ok l :
  NoDup l -> zlen l <= maxBackends -> pool_ok (newBackendPool l) (static_leases l).
Proof.
  intros Hnd Hl. destruct (newBackendPool_rep l) as (l1 & Hr & He). exists l1. split; [exact Hr|].
  assert (Ha : addresses l1 = l).
  { rewrite <-table_keys, He, <-list_fmap_compose. apply list_fmap_id. }
  split; [by rewrite Ha|]. split; [|unfold table, static_leases; by rewrite He].
  rewrite <-Ha in Hl. unfold addresses in Hl. by rewrite length_fmap in Hl.
Qed.

(** ** Whatever the addresses *)

(** The pool keeps its shape even when two backends have the same address, as two
    configured ones can. *)

(** When a backend is to be tried again. *)
Definition retry_at (p : backendPool) (ptr : nat) : option Z := objects p !! ptr ≫= retryAt.

(** The time of a failure is kept by all but the marks. *)
Definition retry_after (op : pool_op) (now : Z) (p : backendPool) (ptr : nat) : option Z :=
  match op with
  | MarkFailure q => if decide (q = ptr) then Some (now + healthCooldown) else retry_at p ptr
  | MarkSuccess q => if decide (q = ptr) then None else retry_at p ptr
  | Registry _ | Snapshot | Available _ => retry_at p ptr
  end.

(** From [p] to [p'] the pool keeps its shape, its objects and the times of failures. *)
Definition kept (p p' : backendPool) : Prop :=
  (exists l', pool_rep p' l') /\ known p p' /\ forall ptr, retry_at p' ptr = retry_at p ptr.

(** Only the slice changed. *)
Lemma kept_objects p p' l : pool_rep p' l -> objects p' = objects p -> kept p p'.
Proof. intros Hr E. split; [by exists l|]. split; intros q; unfold retry_at; by rewrite E. Qed.

(** An object that a goroutine holds changes, in the pool or not. *)
Lemma set_object_kept p l ptr b :
  pool_rep p l -> is_Some (objects p !! ptr) ->
  (exists l', pool_rep (set_object ptr b p) l') /\ known p (set_object ptr b p) /\
  forall q, retry_at (set_object ptr b p) q = if decide (ptr = q) then retryAt b else retry_at p q.
Proof.
  intros Hr Hs. split; [|split; [by eapply known_insert|]].
  - destruct (decide (ptr ∈ l.*1)) as [Hin|Hin]; [|by exists l; apply set_object_other].
    apply list_elem_of_fmap in Hin as ([q b0] & -> & Hx). apply list_elem_of_split in Hx as (l1 & l2 & ->).
    eexists. by eapply set_object_rep.
  - intros q. unfold retry_at. cbn [objects set_object]. destruct (decide (ptr = q)) as [->|Hne].
    + by rewrite lookup_insert_eq.
    + by rewrite lookup_insert_ne.
Qed.

Lemma register_rep addr now p l : pool_rep p l -> exists r p', register addr now p = Some (r, p') /\ kept p p'.
Proof.
  intros Hr. destruct (prune_ok now p l Hr) as [E Hr1]. unfold register. rewrite E.
  set (l1 := unexpired_in now l) in *. set (p1 := set_backends l1.*1 p) in *.
  pose proof Hr1 as (Hb & Ho & _ & Hal). rewrite Hb. destruct (decide (addr ∈ addresses l1)) as [Hin|Hin].
  - destruct (addresses_split addr l1 Hin) as (la & ptr & b & lb & El & Hn & Ha). rewrite El in Ho, Hr1 |- *.
    rewrite (find_backend_some addr _ la ptr b lb) by done.
    assert (Hptr : objects p1 !! ptr = Some b).
    { apply (pool_rep_object p1 _ (ptr, b) Hr1). rewrite elem_of_app, elem_of_cons. auto. }
    rewrite Hptr. eexists _, _. split; [done|].
    destruct (set_object_kept p1 _ ptr (BackendState (address b) (retryAt b) (Some (now + backendLease))) Hr1 ltac:(by eexists))
      as (Hl & Hk & Hq). split; [exact Hl|]. split; [exact Hk|]. intros q. rewrite Hq.
    destruct (decide (ptr = q)) as [->|]; [|done]. unfold retry_at. change (objects p) with (objects p1). by rewrite Hptr.
  - rewrite find_backend_none by done. destruct (maxBackends <=? _).
    + eexists _, _. split; [done|]. by apply (kept_objects p p1 l1).
    + eexists _, _. split; [done|]. split; [|split; [by eapply known_insert|]].
      * eexists. exact (append_rep p1 l1 _ Hr1).
      * intros q. unfold retry_at. cbn [objects set_backends]. destruct (decide (allocated p = q)) as [<-|Hne].
        -- rewrite lookup_insert_eq. destruct (objects p !! allocated p) eqn:En; [|done].
           specialize (Hal (allocated p) ltac:(by eexists)). cbn in Hal. lia.
        -- by rewrite lookup_insert_ne.
Qed.

Lemma remove_rep addr p l : pool_rep p l -> exists r p', remove addr p = Some (r, p') /\ kept p p'.
Proof.
  intros Hr. pose proof Hr as (Hb & Ho & _). unfold remove. rewrite Hb.
  destruct (decide (addr ∈ addresses l)) as [Hin|Hin].
  - destruct (addresses_split addr l Hin) as (l1 & ptr & b & l2 & -> & Hn & Ha).
    rewrite (find_backend_some addr _ l1 ptr b l2), remove_place by done. eexists _, _. split; [done|].
    eapply kept_objects; [by eapply delete_rep|done].
  - rewrite find_backend_none by done. eexists _, _. split; [done|]. by apply (kept_objects p p l).
Qed.

Lemma registry_rep rq now p l :
  pool_rep p l -> exists r p', registryHandler rq now p = Some (r, p') /\ kept p p'.
Proof.
  intros Hr. unfold registryHandler. pose proof (kept_objects p p l Hr eq_refl) as Hk.
  destruct (negb _); [by eexists _, p|].
  destruct (rq_method rq); [|destruct (request_address (rq_body rq)) as [a|]; [|by eexists _, p]..|by eexists _, p].
  - destruct (prune_ok now p l Hr) as [E Hr1]. unfold snapshot. rewrite E. pose proof Hr1 as (Hb & Ho & _).
    rewrite Hb, addresses_of_ok by done. eexists _, _. split; [done|].
    by apply (kept_objects p _ (unexpired_in now l)).
  - destruct (register_rep a now p l Hr) as (r & p' & E & H). rewrite E. by eexists _, p'.
  - destruct (remove_rep a p l Hr) as (r & p' & E & H). rewrite E. by eexists _, p'.
Qed.

(** A call on a pool that has its shape: it does not panic. *)
Lemma pool_apply_rep op now p l :
  pool_rep p l -> op_known op p ->
  exists r p', pool_apply op now p = Some (r, p') /\ (exists l', pool_rep p' l') /\ known p p' /\
    (forall ptr, retry_at p' ptr = retry_after op now p ptr) /\
    (forall ptrs, r = Taken ptrs -> Forall (fun ptr => is_Some (objects p' !! ptr)) ptrs).
Proof.
  intros Hr Hop. destruct op as [rq| |ptr|ptr|ptr]; cbn [pool_apply op_known retry_after] in *.
  - destruct (registry_rep rq now p l Hr) as (r & p' & E & Hl & Hk & Hq). rewrite E. eexists _, p'. by split_and!.
  - destruct (prune_ok now p l Hr) as [E Hr1]. unfold snapshot. rewrite E. eexists _, _. split; [done|].
    destruct (kept_objects p _ _ Hr1 eq_refl) as (H1 & H2 & H3). split; [exact H1|]. split; [exact H2|].
    split; [exact H3|]. intros ptrs [= <-]. destruct Hr1 as (_ & Ho & _).
    apply Forall_fmap. eapply Forall_impl; [exact Ho|]. intros x Hx. exists x.2. exact Hx.
  - destruct Hop as [b Hb]. unfold available. rewrite Hb. eexists _, p. split; [done|]. split; [by eexists|]. by split_and!.
  - destruct Hop as [b Hb]. unfold markFailure. rewrite Hb. eexists _, _. split; [done|].
    destruct (set_object_kept p l ptr (BackendState (address b) (Some (now + healthCooldown)) (expiresAt b)) Hr ltac:(by eexists))
      as (H1 & H2 & H3). by split_and!.
  - destruct Hop as [b Hb]. unfold markSuccess. rewrite Hb. eexists _, _. split; [done|].
    destruct (set_object_kept p l ptr (BackendState (address b) None (expiresAt b)) Hr ltac:(by eexists))
      as (H1 & H2 & H3). by split_and!.
Qed.

(** What kind of result a call has. *)
Lemma pool_apply_kind op now p r p' :
  pool_apply op now p = Some (r, p') ->
  match op with
  | Registry _ => exists reply, r = Replied reply
  | Snapshot => exists ptrs, r = Taken ptrs
  | Available _ => exists b, r = Answered b
  | MarkFailure _ | MarkSuccess _ => r = Marked
  end.
Proof.
  destruct op as [rq| |ptr|ptr|ptr]; cbn [pool_apply].
  - destruct (registryHandler rq now p) as [[? ?]|]; [|done]. intros [= <- _]. by eexists.
  - destruct (snapshot now p) as [[? ?]|]; [|done]. intros [= <- _]. by eexists.
  - destruct (available ptr now p) as [[? ?]|]; [|done]. intros [= <- _]. by eexists.
  - destruct (markFailure ptr now p) as [[? ?]|]; [|done]. by intros [= <- _].
  - destruct (markSuccess ptr p) as [[? ?]|]; [|done]. by intros [= <- _].
Qed.

Lemma newBackendPool_retry l ptr : retry_at (newBackendPool l) ptr = None.
Proof. apply add_backends_retry. intros q. cbn [objects]. by rewrite lookup_empty. Qed.

(** ** Failures *)

(** When the last mark of a backend was a failure, its time. *)
Definition marked_by (ptr : nat) (t : option Z) (x : Z * pool_op * pool_result) : option Z :=
  match x.1.2 with
  | MarkFailure q => if decide (q = ptr) then Some x.1.1 else t
  | MarkSuccess q => if decide (q = ptr) then None else t
  | Registry _ | Snapshot | Available _ => t
  end.
Definition last_failure (ptr : nat) (h : history) : option Z := foldl (marked_by ptr) None h.

(** A history from a pool that has its shape: the shape, what is known, and the times
    of failures. *)
Lemma pool_run_rep p l h p' ptr t :
  pool_rep p l -> pool_run p h p' -> retry_at p ptr = (fun t => t + healthCooldown) <$> t ->
  (exists l', pool_rep p' l') /\ known p p' /\
  retry_at p' ptr = (fun t => t + healthCooldown) <$> foldl (marked_by ptr) t h.
Proof.
  intros Hr Hrun. revert l t Hr. induction Hrun as [p|p now op r p1 h p2 Ha Hrun IH]; intros l t Hr Ht.
  { split; [by exists l|]. by split. }
  destruct (pool_apply_rep op now p l Hr (pool_apply_known _ _ _ _ _ Ha)) as (r' & p1' & Ha' & [l1 Hr1] & Hk & Hq & _).
  rewrite Ha in Ha'. apply Some_inj in Ha'. injection Ha' as <- <-.
  destruct (IH l1 (marked_by ptr t (now, op, r)) Hr1) as (Hl & Hk2 & H); [|split; [exact Hl|split; [by etrans|exact H]]].
  rewrite Hq. destruct op as [rq| |q|q|q]; cbn [retry_after marked_by fst snd]; try exact Ht; by destruct (decide (q = ptr)).
Qed.

Lemma pool_history_rep l h p : pool_run (newBackendPool l) h p -> exists l', pool_rep p l'.
Proof.
  intros Hrun. destruct (newBackendPool_rep l) as (l0 & Hr & _).
  by destruct (pool_run_rep _ l0 h p 0%nat None Hr Hrun (newBackendPool_retry l _)).
Qed.

Lemma history_retry l h p ptr :
  pool_run (newBackendPool l) h p -> retry_at p ptr = (fun t => t + healthCooldown) <$> last_failure ptr h.
Proof.
  intros Hrun. destruct (newBackendPool_rep l) as (l0 & Hr & _).
  by destruct (pool_run_rep _ l0 h p ptr None Hr Hrun (newBackendPool_retry l ptr)) as (_ & _ & H).
Qed.
