(* ===== verification/Registration.v ===== *)
(** * The registration of the HTTP server with the load balancer

    update_registry, renew_registration and the address of serve in
    http-server/server.py; then what the registry of load-balancer/server.go makes of
    them: it takes the address as it is, and a lease that is renewed in time is
    kept. *)

From S2P Require Import Prelude CLib Effects GoLib PyLib BalancerPool.
Local Open Scope Z_scope.
Local Open Scope py_scope.

(** ** The program *)

(** In nanoseconds. *)
Definition REGISTRY_REFRESH : Z := 1000000000.
Definition REGISTRY_TIMEOUT : Z := 500000000.

Variant registrationE : Type -> Type :=
| Urlopen (url : pystr) (data : list byte) (verb : pystr) (timeout : Z) : registrationE (pyres unit)
| StopIsSet : registrationE bool
| StopWait (timeout : Z) : registrationE unit
| StopSet : registrationE unit
| Join : registrationE unit                    (** the end of the thread that renews *)
| PrintError : registrationE unit
(** What [serve] calls. *)
| Socket : registrationE (pyres unit)
| SetReuseAddr : registrationE (pyres unit)
| BindSocket (host : pystr) (port : Z) : registrationE (pyres unit)
| ListenSocket (backlog : Z) : registrationE (pyres unit)
| PrintServing (host : pystr) (port : Z) : registrationE (pyres unit)
| StartRenewal (registry_port : Z) (address : pystr) : registrationE (pyres unit)
| Accept : registrationE (pyres Z)
| StartConnection (connection : Z) : registrationE (pyres unit)
| CloseSocket : registrationE unit.

(** [socket.inet_pton(AF_INET, host)] succeeds on the texts that Go takes for IPv4. *)
Definition inet_pton (host : pystr) : bool :=
  match encode_ascii host with Some b => is_ipv4 b | None => false end.

(** The address that [serve] registers. *)
Definition advertised_address (host : pystr) (port : Z) : pyres pystr :=
  let advertised_host := if bool_decide (host = text "0.0.0.0") then text "127.0.0.1" else host in
  if inet_pton advertised_host then Value (advertised_host ++ text ":" ++ py_str port)
  else Raise ValueError "registry mode requires an IPv4 listen host".

Local Open Scope prog_scope.

Abbreviation rprog := (itree registrationE).

Section registration.
Context (registry_port : Z) (address : pystr).

Definition registry_url : pystr := text "http://127.0.0.1:" ++ py_str registry_port ++ text "/backends".

Definition update_registry (verb : pystr) : rprog (pyres unit) :=
  match encode_ascii address with
  | None => Ret (Raise ValueError "ordinal not in range")
  | Some data => call (Urlopen registry_url data verb REGISTRY_TIMEOUT)
  end.

(** One turn, with whether a failure was reported; an exception that is not an
    OSError, which a URLError is, ends the thread. *)
Definition renew_step (reported_failure : bool) : rprog (bool + option exc) :=
  let* stop := call StopIsSet in
  if stop : bool then Ret (inr None)
  else
    let* r := update_registry (text "PUT") in
    match r with
    | Value _ => call (StopWait REGISTRY_REFRESH) ;! Ret (inl false)
    | Raise OSError _ =>
        (if reported_failure then Ret tt else call PrintError) ;!
        call (StopWait REGISTRY_REFRESH) ;!
        Ret (inl true)
    | Raise class _ => Ret (inr (Some class))
    end.
Definition renew_registration : rprog (option exc) := ITree.iter renew_step false.

(** The [finally] clause of [serve]. *)
Definition deregister : rprog (option exc) :=
  call StopSet ;!
  call Join ;!
  let* r := update_registry (text "DELETE") in
  match r with
  | Value _ | Raise OSError _ => Ret None
  | Raise class _ => Ret (Some class)
  end.
End registration.

(** ** Its executions *)

(** What the next calls of urlopen return; then the server stops.  What was sent, and
    how many failures were reported. *)
Record rworld := RWorld {
  r_results : list (pyres unit);
  r_sent : list (pystr * list byte * pystr);
  r_reports : nat
}.

Definition registration_env : environment registrationE rworld := fun A e w =>
  match e in registrationE A return option (A * rworld) with
  | Urlopen url data verb _ =>
      match r_results w with
      | r :: rs => Some (r, RWorld rs (r_sent w ++ [(url, data, verb)]) (r_reports w))
      | [] => None
      end
  | StopIsSet => Some (match r_results w with [] => true | _ => false end, w)
  | PrintError => Some (tt, RWorld (r_results w) (r_sent w) (S (r_reports w)))
  | StopWait _ | StopSet | Join => Some (tt, w)
  | _ => None
  end.

(** A failure is reported if the call before it did not fail. *)
Fixpoint failures (reported : bool) (results : list (pyres unit)) : nat :=
  match results with
  | [] => 0
  | Value _ :: rs => failures false rs
  | Raise _ _ :: rs => (if reported then 0 else 1) + failures true rs
  end.

Lemma renew_evals registry_port address data results : forall reported sent reports,
  encode_ascii address = Some data ->
  Forall (fun r => match r with Value _ => True | Raise e _ => e = OSError end) results ->
  evals registration_env (ITree.iter (renew_step registry_port address) reported) (RWorld results sent reports) None
    (RWorld [] (sent ++ repeat (registry_url registry_port, data, text "PUT") (length results)) (reports + failures reported results)).
Proof.
  induction results as [|r results IH]; intros reported sent reports Hd Hr.
  - cbn [length repeat failures]. rewrite app_nil_r, Nat.add_0_r. eapply evals_iter_stop. unfold renew_step.
    eapply evals_call_bind; [reflexivity|]. apply evals_ret.
  - inversion Hr as [|? ? Hr1 Hrs]; subst.
    assert (Hput : forall {R} (k : pyres unit -> rprog R) x w', evals registration_env (k r)
      (RWorld results (sent ++ [(registry_url registry_port, data, text "PUT")]) reports) x w' ->
      evals registration_env (ITree.bind (update_registry registry_port address (text "PUT")) k) (RWorld (r :: results) sent reports) x w').
    { intros R k x w' H. unfold update_registry. rewrite Hd. by eapply evals_call_bind. }
    assert (Hstep : evals registration_env (renew_step registry_port address reported) (RWorld (r :: results) sent reports)
      (inl (match r with Value _ => false | Raise _ _ => true end))
      (RWorld results (sent ++ [(registry_url registry_port, data, text "PUT")])
         (reports + match r with Value _ => 0 | Raise _ _ => if reported then 0 else 1 end))).
    { unfold renew_step. eapply evals_call_bind; [reflexivity|]. cbn [r_results]. apply Hput.
      destruct r as [[]|e m].
      - rewrite Nat.add_0_r. eapply evals_call_bind; [reflexivity|]. apply evals_ret.
      - rewrite Hr1. destruct reported.
        + rewrite Nat.add_0_r. eapply evals_bind; [apply evals_ret|]. eapply evals_call_bind; [reflexivity|]. apply evals_ret.
        + eapply evals_bind; [by apply evals_call|]. eapply evals_call_bind; [reflexivity|].
          cbn [r_results r_sent r_reports]. rewrite Nat.add_1_r. apply evals_ret. }
    eapply evals_iter_next; [exact Hstep|].
    specialize (IH (match r with Value _ => false | Raise _ _ => true end)
      (sent ++ [(registry_url registry_port, data, text "PUT")])
      (reports + match r with Value _ => 0 | Raise _ _ => if reported then 0 else 1 end)%nat Hd Hrs).
    cbn [length repeat]. rewrite <-app_assoc in IH. cbn [app] in IH.
    replace (reports + failures reported (r :: results))%nat with
      (reports + match r with Value _ => 0 | Raise _ _ => if reported then 0 else 1 end +
       failures (match r with Value _ => false | Raise _ _ => true end) results)%nat; [exact IH|].
    destruct r as [[]|e m]; cbn [failures]; [lia|destruct reported; lia].
Qed.

(** ** The registry takes the address *)

Lemma split_join sep s : sep <> [] -> py_join sep (split sep s) = s.
Proof.
  intros Hsep. remember (length s) as n eqn:Hn. revert s Hn.
  induction n as [n IH] using lt_wf_ind. intros s ->. rewrite split_cut by done.
  destruct (cut sep s) as [[a b]|] eqn:E; [|done]. apply cut_Some in E.
  assert (Hb : (length b < length s)%nat).
  { rewrite E, !length_app. destruct sep; [done|]. cbn [length]. lia. }
  specialize (IH (length b) Hb b eq_refl). destruct (split sep b) as [|p ps] eqn:Es.
  - rewrite split_cut in Es by done. by destruct (cut sep b) as [[? ?]|].
  - change (py_join sep (a :: p :: ps)) with (a ++ sep ++ py_join sep (p :: ps)). by rewrite IH.
Qed.

Lemma octet_digits p : octet p = true -> p <> [] /\ Forall (fun b => isdigit b = true) p /\ zlen p <= 3.
Proof.
  unfold octet, digits_number. destruct (bool_decide (p <> []) && forallb isdigit p) eqn:E; [|done].
  apply andb_true_iff in E as [Hne%bool_decide_eq_true Hd]. rewrite !andb_true_iff, Z.leb_le. intros [[Hl _] _].
  split; [exact Hne|]. split; [|exact Hl]. apply Forall_forall. intros b Hb%list_elem_of_In. by apply (proj1 (forallb_forall _ _) Hd).
Qed.

(** An IPv4 address is short and starts with a digit, and has no colon. *)
Lemma ipv4_shape h :
  is_ipv4 h = true ->
  zlen h <= 15 /\ COLON ∉ h /\ exists d r, h = d :: r /\ isdigit d = true.
Proof.
  unfold is_ipv4. rewrite andb_true_iff, Z.eqb_eq. intros [Hl Ho].
  assert (Hdot : lit "." = [chr 46]) by (vm_compute; reflexivity).
  pose proof (split_join (lit ".") h) as Hj. rewrite Hdot in *. specialize (Hj ltac:(done)).
  destruct (split [chr 46] h) as [|p1 [|p2 [|p3 [|p4 [|]]]]]; cbn [length] in Hl; try lia.
  cbn [forallb] in Ho. rewrite !andb_true_iff in Ho. destruct Ho as (H1 & H2 & H3 & H4 & _).
  apply octet_digits in H1 as (Hne1 & Hd1 & Hl1), H2 as (_ & Hd2 & Hl2), H3 as (_ & Hd3 & Hl3), H4 as (_ & Hd4 & Hl4).
  cbn [py_join] in Hj. rewrite <-Hj.
  assert (Hall : Forall (fun b => isdigit b = true \/ b = chr 46) (p1 ++ [chr 46] ++ p2 ++ [chr 46] ++ p3 ++ [chr 46] ++ p4)).
  { repeat (apply Forall_app; split); try (by constructor; [right|]); eapply Forall_impl; try eassumption; auto. }
  split; [rewrite !length_app; cbn [length]; lia|]. split.
  - intros Hc. rewrite Forall_forall in Hall. destruct (Hall _ Hc) as [H|H]; by vm_compute in H.
  - destruct p1 as [|d r]; [done|]. inversion Hd1; subst. by eexists d, _.
Qed.

Lemma digit_range b : isdigit b = true -> 48 <= uchar b <= 57.
Proof. unfold isdigit. lia. Qed.

Lemma trim_left_digit d s : isdigit d = true -> trim_left (d :: s) = d :: s.
Proof.
  intros Hd%digit_range. cbn [trim_left]. assert (E1 : space1 d = false) by (unfold space1; lia). rewrite E1.
  destruct s as [|b s]; [done|]. assert (E2 : space2 d b = false) by (unfold space2; lia). rewrite E2.
  destruct s as [|c s]; [done|]. assert (E3 : space3 d b c = false) by (unfold space3; lia). by rewrite E3.
Qed.

Lemma trim_back_digit d s : isdigit d = true -> trim_back (d :: s) = d :: s.
Proof.
  intros Hd%digit_range. cbn [trim_back]. assert (E1 : space1 d = false) by (unfold space1; lia). rewrite E1.
  destruct s as [|b s]; [done|]. assert (E2 : space2 b d = false) by (unfold space2; lia). rewrite E2.
  destruct s as [|c s]; [done|]. assert (E3 : space3 c b d = false) by (unfold space3; lia). by rewrite E3.
Qed.

Lemma trim_space_digits d s e : isdigit d = true -> isdigit e = true -> trim_space (d :: s ++ [e]) = d :: s ++ [e].
Proof.
  intros Hd He. unfold trim_space. rewrite trim_left_digit by done.
  rewrite app_comm_cons, rev_app_distr. change (rev [e]) with [e]. cbn [app]. rewrite trim_back_digit by done.
  change (e :: rev (d :: s)) with ([e] ++ rev (d :: s)). rewrite rev_app_distr, rev_involutive. done.
Qed.

Lemma foldl_fold_left {A B} (f : A -> B -> A) l : forall a, foldl f a l = fold_left f l a.
Proof. induction l as [|b l IH]; intros a; [done|apply IH]. Qed.

Lemma atoi_decimal n : 0 <= n -> atoi (decimal n) = Some n.
Proof.
  intros Hn. destruct (decimal_spec n Hn) as (Hd & Hv & _ & Hne). unfold digits_value, digits_value_from in Hv.
  assert (E : digits_number (decimal n) = Some n).
  { unfold digits_number. rewrite bool_decide_true by done. assert (Hf : forallb isdigit (decimal n) = true).
    { apply forallb_forall. intros b Hb%list_elem_of_In. rewrite Forall_forall in Hd. by apply Hd. }
    rewrite Hf. cbn [andb]. by rewrite foldl_fold_left, Hv. }
  unfold atoi. destruct (decimal n) as [|d r]; [done|]. inversion Hd as [|? ? Hd1 _]; subst. apply digit_range in Hd1.
  rewrite !bool_decide_false; [exact E|..]; intros ->; rewrite uchar_chr in Hd1 by lia; lia.
Qed.

Lemma address_taken host port :
  is_ipv4 host = true -> 1 <= port <= 65535 ->
  request_address (Some (host ++ lit ":" ++ decimal port)) = Some (host ++ lit ":" ++ decimal port).
Proof.
  intros Hip Hport. destruct (ipv4_shape host Hip) as (Hl & Hc & d & r & Hh & Hd).
  destruct (decimal_spec port) as (Hpd & _ & Hpl & Hpne); [lia|]. specialize (Hpl 5 ltac:(lia) ltac:(lia)).
  assert (Hcolon : lit ":" = [COLON]) by (vm_compute; reflexivity).
  assert (Hcut : cut (lit ":") (host ++ lit ":" ++ decimal port) = Some (host, decimal port)).
  { rewrite Hcolon, cut_skip by done. by rewrite (cut_here [COLON]), app_nil_r. }
  assert (Htrim : trim_space (host ++ lit ":" ++ decimal port) = host ++ lit ":" ++ decimal port).
  { destruct (exists_last Hpne) as (ds & e & He). rewrite He in Hpd |- *. apply Forall_app in Hpd as [_ He'].
    inversion He' as [|? ? Hde _]. rewrite Hh, !app_assoc. cbn [app]. by rewrite trim_space_digits. }
  assert (Hlen : zlen (host ++ lit ":" ++ decimal port) <= maxAddressSize).
  { unfold maxAddressSize. rewrite Hcolon, !length_app. cbn [length]. lia. }
  unfold request_address. rewrite take_ge by lia. rewrite (proj2 (Z.ltb_ge _ _)) by done. rewrite Htrim.
  assert (Hb : backendAddress (host ++ lit ":" ++ decimal port) = Some (host ++ lit ":" ++ decimal port)).
  { unfold backendAddress. rewrite Hcut, !bool_decide_false by (done || by rewrite Hh). cbn [orb].
    rewrite atoi_decimal by lia. unfold hostPort. rewrite (proj2 (Z.ltb_ge port 1)), (proj2 (Z.ltb_ge 65535 port)) by lia.
    cbn [orb]. unfold join_host_port. by rewrite bool_decide_false. }
  rewrite Hb. unfold address_host. by rewrite Hcut, Hip.
Qed.

Lemma advertised_taken host port address :
  1 <= port <= 65535 -> advertised_address host port = Value address ->
  exists data, encode_ascii address = Some data /\ request_address (Some data) = Some data.
Proof.
  intros Hport. unfold advertised_address. cbn zeta. set (h := if bool_decide _ then _ else host). unfold inet_pton.
  destruct (encode_ascii h) as [b|] eqn:Eh; [|done]. destruct (is_ipv4 b) eqn:Hip; [|done]. intros Ha.
  assert (E : address = h ++ text ":" ++ py_str port) by congruence. rewrite E. clear E Ha.
  exists (b ++ lit ":" ++ decimal port). split; [|by apply address_taken].
  destruct (decimal_spec port) as (Hpd & _); [lia|].
  unfold encode_ascii in *. destruct (forallb _ h) eqn:Ef; [|done]. injection Eh as <-.
  assert (Hp : forallb (fun c => (0 <=? c) && (c <? 128)) (text ":" ++ py_str port) = true).
  { rewrite forallb_app. apply andb_true_iff. split; [vm_compute; reflexivity|]. apply forallb_forall.
    intros c Hc%list_elem_of_In. unfold py_str in Hc. apply list_elem_of_fmap in Hc as (x & -> & Hx).
    rewrite Forall_forall in Hpd. specialize (Hpd x Hx). apply digit_range in Hpd. lia. }
  rewrite (forallb_app _ h), Ef, Hp. cbn [andb]. rewrite !map_app. unfold text, py_str. rewrite !map_map.
  by rewrite !(map_ext (fun x => chr (uchar x)) (fun x => x)), !map_id by (intros x; apply uchar_inj, uchar_chr, uchar_range).
Qed.

(** ** A lease that is renewed in time is kept *)

(** The PUT and DELETE of an address. *)
Definition registers (a : list byte) (op : pool_op) : bool :=
  match op with
  | Registry (RegistryRequest path MethodPut body) => bool_decide (path = "/backends"%string) && bool_decide (request_address body = Some a)
  | _ => false
  end.
Definition removes (a : list byte) (op : pool_op) : bool :=
  match op with
  | Registry (RegistryRequest path MethodDelete body) => bool_decide (path = "/backends"%string) && bool_decide (request_address body = Some a)
  | _ => false
  end.

(** The address was registered at [last]; every call in the history comes before that
    lease is over, which each PUT renews, and none removes the address. *)
Fixpoint renewed (a : list byte) (last : Z) (h : history) : Prop :=
  match h with
  | [] => True
  | (now, op, _) :: h => now < last + backendLease /\ removes a op = false /\ renewed a (if registers a op then now else last) h
  end.

(** Listings hold the address, and a PUT of it succeeds. *)
Definition listed (a : list byte) (x : Z * pool_op * pool_result) : Prop :=
  (registers a x.1.2 = true -> x.2 = Replied (Status 204)) /\
  match x.2 with Replied (Listing l) => a ∈ l | _ => True end.

Lemma current_lookup now t a e : t !! a = Some (Some e) -> now < e -> current now t !! a = Some (Some e).
Proof.
  intros Ht Hn. unfold current. rewrite map_lookup_filter_Some. split; [exact Ht|]. cbn. by apply Z.ltb_lt.
Qed.

Lemma pool_spec_listed a last now op t r t' :
  t !! a = Some (Some (last + backendLease)) -> now < last + backendLease -> removes a op = false ->
  pool_spec now op t r t' ->
  listed a (now, op, r) /\ t' !! a = Some (Some ((if registers a op then now else last) + backendLease)).
Proof.
  intros Ht Hn Hrm Hs. pose proof (current_lookup now t a _ Ht Hn) as Hc. unfold listed. cbn [fst snd].
  destruct op as [rq| |ptr|ptr|ptr]; destruct r as [r|ptrs|b|]; try done; cbn [pool_spec registers] in *.
  2: { destruct Hs as [-> _]. done. }
  2-4: by subst.
  destruct rq as [path m body]. cbn [removes] in Hrm.
  inversion Hs as [rq ? Hp|rq ? l Hp Hm Hnd Hl|rq ? Hp Hm|rq ? Hp Hm Ha|rq ? a' Hp Hm Ha Hroom|rq ? a' Hp Hm Ha Hnone Hfull|rq ? a' Hp Hm Ha Hsome|rq ? a' Hp Hm Ha Hnone];
    subst; cbn [rq_path rq_method rq_body] in *.
  - rewrite bool_decide_false by done. by destruct m.
  - subst. split; [|exact Hc]. split; [done|]. apply Hl. by eexists.
  - by subst.
  - rewrite Ha. rewrite (bool_decide_false (None = Some a)), andb_false_r by done. by destruct m.
  - subst. rewrite bool_decide_true, Ha by done. cbn [andb]. case_bool_decide as E.
    + injection E as ->. split; [done|]. apply lookup_insert_eq.
    + split; [done|]. rewrite lookup_insert_ne; [exact Hc|]. intros ->. done.
  - subst. rewrite bool_decide_true, Ha by done. cbn [andb]. rewrite bool_decide_false; [by split|].
    intros [= ->]. rewrite Hc in Hnone. done.
  - subst. rewrite bool_decide_true, Ha in Hrm by done. cbn [andb] in Hrm. apply bool_decide_eq_false in Hrm.
    split; [done|]. rewrite lookup_delete_ne; [exact Ht|]. intros ->. done.
  - by subst.
Qed.

Lemma explained_listed a h : forall last t t',
  t !! a = Some (Some (last + backendLease)) -> renewed a last h -> pool_explained t h t' -> Forall (listed a) h.
Proof.
  induction h as [|[[now op] r] h IH]; intros last t t' Ht Hr He; [constructor|].
  destruct Hr as (Hn & Hrm & Hr). inversion He as [|? ? ? ? t1 ? ? Hs He']; subst.
  destruct (pool_spec_listed a last now op t r t1 Ht Hn Hrm Hs) as [Hl Ht1].
  constructor; [exact Hl|]. by eapply IH.
Qed.

Lemma registered_lease a last op t t1 :
  registers a op = true -> pool_spec last op t (Replied (Status 204)) t1 -> t1 !! a = Some (Some (last + backendLease)).
Proof.
  destruct op as [[path m body]| |ptr|ptr|ptr]; try done. cbn [registers pool_spec]. destruct m; try done.
  rewrite andb_true_iff, !bool_decide_eq_true. intros [Hp Hb] Hs.
  inversion Hs as [| | | |rq ? a' ? ? Ha|rq|rq ? a' ? Hm|rq]; subst; cbn [rq_body rq_method] in *; [|done].
  rewrite Hb in Ha. injection Ha as ->. apply lookup_insert_eq.
Qed.

Lemma run_split p h1 h2 p' : pool_run p (h1 ++ h2) p' -> exists p1, pool_run p h1 p1 /\ pool_run p1 h2 p'.
Proof.
  revert p. induction h1 as [|[[now op] r] h1 IH]; intros p H.
  - exists p. split; [constructor|exact H].
  - cbn [app] in H. inversion H as [|? ? ? ? p1 ? ? Ha Hr]; subst. destruct (IH p1 Hr) as (p2 & H1 & H2).
    exists p2. split; [by econstructor|exact H2].
Qed.

Lemma lease_kept l h0 last op h p a :
  NoDup l -> zlen l <= maxBackends -> pool_run (newBackendPool l) (h0 ++ (last, op, Replied (Status 204)) :: h) p ->
  registers a op = true -> renewed a last h -> Forall (listed a) h.
Proof.
  intros Hnd Hl Hrun Hop Hr. destruct (run_split _ _ _ _ Hrun) as (p1 & H0 & H1).
  destruct (pool_run_ok _ _ _ _ (newBackendPool_ok l Hnd Hl) H0) as (t & _ & Hp1 & _).
  destruct (pool_run_ok _ _ _ _ Hp1 H1) as (t' & He & _). inversion He as [|? ? ? ? t1 ? ? Hs He']; subst.
  eapply explained_listed; [by eapply registered_lease|exact Hr|exact He'].
Qed.

Lemma deregister_evals registry_port address data r :
  encode_ascii address = Some data -> match r with Value _ => True | Raise e _ => e = OSError end ->
  evals registration_env (deregister registry_port address) (RWorld [r] [] 0) None
    (RWorld [] [(registry_url registry_port, data, text "DELETE")] 0).
Proof.
  intros Hd Hr. unfold deregister, update_registry. rewrite Hd. repeat (eapply evals_call_bind; [reflexivity|]).
  destruct r as [[]|e m]; [|rewrite Hr]; apply evals_ret.
Qed.
