(* ===== verification/HttpServe.v ===== *)
(** * The process of the HTTP server

    [serve] of http-server/server.py with the thread that renews the registration:
    two programs that share the flag [stop], interleaved in any order, the first of
    which waits for the end of the second.  The threads of the connections, each of
    which runs [handle_connection] of [HttpServer], share nothing with these two. *)

From ITree Require Import ITreeFacts.
From S2P Require Import Prelude CLib Effects GoLib PyLib BalancerPool Registration.
From S2P Require HttpUrl.
Local Open Scope Z_scope.
Local Open Scope prog_scope.

(** ** The program *)

(** A call, and what follows unless it raises. *)
Definition attempt {A} (e : registrationE (pyres A)) (k : A -> rprog exc) : rprog exc :=
  let* r := call e in
  match r with Value a => k a | Raise class _ => Ret class end.

(** One turn of the loop that accepts; an exception ends it. *)
Definition accept_client (_ : unit) : rprog (unit + exc) :=
  let* r := call Accept in
  match r with
  | Raise class _ => Ret (inr class)
  | Value connection =>
      let* r := call (StartConnection connection) in
      match r with Raise class _ => Ret (inr class) | Value _ => Ret (inl tt) end
  end.

(** The block of the listening socket. *)
Definition serve_on (host : pystr) (port : Z) (registration : option (Z * pystr)) : rprog exc :=
  attempt SetReuseAddr (fun _ =>
  attempt (BindSocket host port) (fun _ =>
  attempt (ListenSocket 5) (fun _ =>
  attempt (PrintServing host port) (fun _ =>
  match registration with
  | None => ITree.iter accept_client tt
  | Some (registry_port, address) =>
      attempt (StartRenewal registry_port address) (fun _ =>
      let* class := ITree.iter accept_client tt in
      let* failed := deregister registry_port address in
      Ret (default class failed))
  end)))).

(** What is registered, and where. *)
Definition registration_of (host : pystr) (port : Z) (registry_port : option Z) : pyres (option (Z * pystr)) :=
  match registry_port with
  | None => Value None
  | Some registry_port =>
      match advertised_address host port with
      | Value address => Value (Some (registry_port, address))
      | Raise class message => Raise class message
      end
  end.

(** [serve] ends only by an exception. *)
Definition serve (host : pystr) (port : Z) (registry_port : option Z) : rprog exc :=
  match registration_of host port registry_port with
  | Raise class _ => Ret class
  | Value registration =>
      attempt Socket (fun _ =>
      let* class := serve_on host port registration in
      call CloseSocket ;!
      Ret class)
  end.

(** The type of the port arguments, with [int] of any text. *)
Definition port (unicode_ascii : Z -> Z) (value : pystr) : pyres Z :=
  match py_int_str unicode_ascii value with
  | None => Raise ValueError "invalid literal for int()"
  | Some value =>
      if negb ((1 <=? value) && (value <=? 65535)) then Raise ArgumentTypeError "port must be between 1 and 65535"
      else Value value
  end.

(** So [serve] gets a port in range, and every such port can be given. *)
Lemma port_range unicode_ascii value n : port unicode_ascii value = Value n -> 1 <= n <= 65535.
Proof.
  unfold port. destruct (py_int_str unicode_ascii value) as [v|]; [|done].
  destruct (negb _) eqn:E; [done|]. intros [= <-]. apply negb_false_iff, andb_true_iff in E as [E1%Z.leb_le E2%Z.leb_le]. lia.
Qed.

Lemma port_given unicode_ascii n : 1 <= n <= 65535 -> port unicode_ascii (py_str n) = Value n.
Proof.
  intros Hn. unfold port. rewrite HttpUrl.py_int_str_decimal by lia.
  by rewrite (proj2 (Z.leb_le 1 n)), (proj2 (Z.leb_le n 65535)) by lia.
Qed.

(** ** The two threads *)

Abbreviation sent_request := (pystr * list byte * pystr)%type.

(** The renewing thread is there once it was started; the requests to the registry,
    in the order in which they ended. *)
Record process := Process {
  main_thread : rprog exc;
  renewal : option (rprog (option exc));
  stop : bool;
  requests : list sent_request
}.

Definition returned {R} (t : rprog R) : Prop := exists r, observe t = RetF r.

(** What a call answers in a state of the flag, and what it changes. *)
Definition answers A (e : registrationE A) (stop : bool) : A -> Prop :=
  match e in registrationE A return A -> Prop with StopIsSet => fun b => b = stop | _ => fun _ => True end.
Definition flag_after A (e : registrationE A) (stop : bool) : bool :=
  match e with StopSet => true | _ => stop end.
Definition requests_after A (e : registrationE A) (l : list sent_request) : list sent_request :=
  match e with Urlopen url data verb _ => l ++ [(url, data, verb)] | _ => l end.

(** [join] returns when the thread has. *)
Definition can_return A (e : registrationE A) (renewal : option (rprog (option exc))) : Prop :=
  match e with Join => exists t, renewal = Some t /\ returned t | _ => True end.
Definition renewal_after A (e : registrationE A) : A -> option (rprog (option exc)) -> option (rprog (option exc)) :=
  match e in registrationE A return A -> option (rprog (option exc)) -> option (rprog (option exc)) with
  | StartRenewal registry_port address => fun r renewal =>
      match r with Value _ => Some (renew_registration registry_port address) | Raise _ _ => renewal end
  | _ => fun _ renewal => renewal
  end.

Inductive process_step : process -> process -> Prop :=
| main_tau t t' r b l : observe t = TauF t' -> process_step (Process t r b l) (Process t' r b l)
| main_call t r b l A (e : registrationE A) k a :
    observe t = VisF e k -> can_return A e r -> answers A e b a ->
    process_step (Process t r b l) (Process (k a) (renewal_after A e a r) (flag_after A e b) (requests_after A e l))
| renewal_tau t u u' b l : observe u = TauF u' -> process_step (Process t (Some u) b l) (Process t (Some u') b l)
| renewal_call t u b l A (e : registrationE A) k a :
    observe u = VisF e k -> answers A e b a ->
    process_step (Process t (Some u) b l) (Process t (Some (k a)) (flag_after A e b) (requests_after A e l)).

Definition process_init (host : pystr) (port : Z) (registry_port : option Z) : process :=
  Process (serve host port registry_port) None false [].

(** ** The renewing thread *)

(** Once the flag is set it returns within [n] steps, whatever its calls answer. *)
Fixpoint settles {R} (n : nat) (u : rprog R) : Prop :=
  match n with
  | O => False
  | S n =>
      match observe u with
      | RetF _ => True
      | TauF u' => settles n u'
      | VisF e k => forall a, answers _ e true a -> settles n (k a)
      end
  end.

(** A property of a program that all its steps keep, up to depth [n]. *)
Fixpoint always {R} (P : rprog R -> Prop) (n : nat) (u : rprog R) : Prop :=
  match n with
  | O => True
  | S n =>
      P u /\
      match observe u with
      | RetF _ => True
      | TauF u' => always P n u'
      | VisF e k => forall a, always P n (k a)
      end
  end.

Lemma settles_S {R} n (u : rprog R) :
  settles (S n) u =
  match observe u with
  | RetF _ => True
  | TauF u' => settles n u'
  | VisF e k => forall a, answers _ e true a -> settles n (k a)
  end.
Proof. done. Qed.

Lemma always_S {R} (P : rprog R -> Prop) n (u : rprog R) :
  always P (S n) u =
  (P u /\ match observe u with RetF _ => True | TauF u' => always P n u' | VisF e k => forall a, always P n (k a) end).
Proof. done. Qed.

Lemma settles_observe {R} n (t u : rprog R) : observe t = observe u -> settles n t -> settles n u.
Proof. destruct n; [done|]. rewrite !settles_S. by intros ->. Qed.

Lemma settles_up {R} n m (u : rprog R) : (n <= m)%nat -> settles n u -> settles m u.
Proof.
  revert m u. induction n as [|n IH]; intros [|m] u Hm; [done..|lia|]. rewrite !settles_S.
  destruct (observe u) as [r|u'|A e k]; [done|apply IH; lia|]. intros H a Ha. apply (IH m); [lia|]. by apply H.
Qed.

(** The first call of a program, and what follows it. *)
Definition calls {A R} (u : rprog R) (e : registrationE A) (k : A -> rprog R) : Prop :=
  exists k', observe u = VisF e k' /\ forall a, observe (k' a) = observe (k a).

Lemma calls_call {A R} (e : registrationE A) (k : A -> rprog R) : calls (ITree.bind (call e) k) e k.
Proof. eexists. split; [by rewrite observe_bind|]. intros a. cbn beta. by rewrite observe_bind. Qed.

Lemma observe_ret_bind {A R T} (r : A) (k : A -> rprog R) (h : R -> rprog T) :
  observe (ITree.bind (ITree.bind (Ret r) k) h) = observe (ITree.bind (k r) h).
Proof. rewrite (observe_bind (ITree.bind (Ret r) k)), (observe_bind (Ret r) k). symmetry. apply observe_bind. Qed.

Lemma calls_bind {A R T} (u : rprog R) (e : registrationE A) k (h : R -> rprog T) :
  calls u e k -> calls (ITree.bind u h) e (fun a => ITree.bind (k a) h).
Proof.
  intros (k' & Hu & Hk). eexists. split; [by rewrite observe_bind, Hu|]. intros a. cbn beta.
  rewrite !observe_bind. by rewrite Hk.
Qed.

Lemma settles_calls {A R} n (u : rprog R) (e : registrationE A) k :
  calls u e k -> (forall a, answers A e true a -> settles n (k a)) -> settles (S n) u.
Proof.
  intros (k' & Hu & Hk) H. rewrite settles_S, Hu. intros a Ha. eapply settles_observe; [symmetry; apply Hk|]. by apply H.
Qed.

Definition settled {R} (u : rprog R) : Prop := settles 6 u.

Lemma always_observe {R} n (t u : rprog R) : observe t = observe u -> always settled n t -> always settled n u.
Proof.
  destruct n; [done|]. rewrite !always_S. intros E [Hs H]. rewrite <-E. split; [|exact H]. by eapply settles_observe.
Qed.

Lemma always_calls {A R} n m (u : rprog R) (e : registrationE A) k :
  calls u e k -> (forall a, answers A e true a -> settles m (k a)) -> (m <= 5)%nat ->
  (forall a, always settled n (k a)) -> always settled (S n) u.
Proof.
  intros Hc Hs Hm H. rewrite always_S. split.
  - eapply settles_up; [|by eapply settles_calls]. lia.
  - destruct Hc as (k' & -> & Hk). intros a. eapply always_observe; [symmetry; apply Hk|]. apply H.
Qed.

Lemma always_down {R} (P : rprog R -> Prop) n m u : (n <= m)%nat -> always P m u -> always P n u.
Proof.
  revert m u. induction n as [|n IH]; intros [|m] u Hm; [done..|lia|]. rewrite !always_S. intros [Hp H]. split; [exact Hp|].
  destruct (observe u) as [r|u'|A e k]; [done|by apply (IH m); [lia|]|]. intros a. by apply (IH m); [lia|].
Qed.

Lemma always_returned {R} n (u : rprog R) r : observe u = RetF r -> always settled n u.
Proof. intros E. destruct n; [done|]. rewrite always_S, E. split; [|done]. unfold settled. by rewrite settles_S, E. Qed.

(** How far the main thread is with the registration. *)
Variant phase := Before | Renewing | Stopped | Joined | Withdrawn.

#[export] Instance phase_eq_dec : EqDecision phase.
Proof. solve_decision. Defined.

Section renewing.
Context (registry_port : Z) (address : pystr) (data : list byte) (Hdata : encode_ascii address = Some data).

Definition renewal_put : sent_request := (registry_url registry_port, data, text "PUT").
Definition withdrawal : sent_request := (registry_url registry_port, data, text "DELETE").

Abbreviation renewing := (fun reported : bool => ITree.iter (renew_step registry_port address) reported).

(** What follows a turn, and the wait at its end. *)
Definition after_turn (lr : bool + option exc) : rprog (option exc) :=
  match lr with inl reported => Tau (renewing reported) | inr r => Ret r end.
Definition waiting (reported : bool) : rprog (option exc) :=
  ITree.bind (call (StopWait REGISTRY_REFRESH) ;! Ret (inl reported)) after_turn.

Lemma renewing_settles reported : settles 2 (renewing reported).
Proof.
  eapply settles_observe; [symmetry; apply observe_iter|]. eapply settles_calls.
  - apply calls_bind. unfold renew_step. apply calls_call.
  - intros stop ->. by rewrite settles_S, observe_bind.
Qed.

Lemma waiting_settles reported : settles 4 (waiting reported).
Proof.
  eapply settles_calls; [apply calls_bind, calls_call|]. intros [] _. rewrite settles_S, observe_bind. cbn.
  apply renewing_settles.
Qed.

(** The rest of a turn after its request, and from it on. *)
Definition requested (reported : bool) (r : pyres unit) : rprog (bool + option exc) :=
  match r with
  | Value _ => call (StopWait REGISTRY_REFRESH) ;! Ret (inl false)
  | Raise OSError _ =>
      (if reported then Ret tt else call PrintError) ;! call (StopWait REGISTRY_REFRESH) ;! Ret (inl true)
  | Raise class _ => Ret (inr (Some class))
  end.

Lemma requested_settles reported r : settles 5 (ITree.bind (requested reported r) after_turn).
Proof.
  destruct r as [[]|class m]; cbn [requested].
  - eapply settles_up; [|apply waiting_settles]. lia.
  - destruct class; try by rewrite settles_S, observe_bind. destruct reported.
    + eapply (settles_up 4); [lia|]. eapply settles_observe; [|apply (waiting_settles true)].
      unfold waiting. by rewrite observe_ret_bind.
    + eapply settles_calls; [apply calls_bind, calls_call|]. intros [] _. apply waiting_settles.
Qed.

Lemma waiting_always n reported :
  (forall reported, always settled n (renewing reported)) -> always settled n (waiting reported).
Proof.
  intros H. destruct n as [|n]; [done|]. eapply (always_calls n 3); [apply calls_bind, calls_call| |lia|].
  - intros [] _. rewrite settles_S, observe_bind. cbn. apply renewing_settles.
  - intros []. destruct n as [|n]; [done|]. rewrite always_S, observe_bind. cbn [observe _observe after_turn]. split.
    + unfold settled. rewrite settles_S, observe_bind. cbn [observe _observe after_turn].
      eapply settles_up; [|apply renewing_settles]. lia.
    + eapply always_down; [|apply H]. lia.
Qed.

Lemma requested_always n reported r :
  (forall reported, always settled n (renewing reported)) -> always settled n (ITree.bind (requested reported r) after_turn).
Proof.
  intros H. destruct n as [|n]; [done|]. destruct r as [[]|class m]; cbn [requested]; [by apply waiting_always|].
  destruct class; try by (eapply always_returned; by rewrite observe_bind). destruct reported.
  - eapply always_observe; [|by apply (waiting_always (S n) true)]. unfold waiting. by rewrite observe_ret_bind.
  - eapply (always_calls n 4); [apply calls_bind, calls_call| |lia|].
    + intros [] _. apply waiting_settles.
    + intros []. apply waiting_always. intros reported. eapply always_down; [|apply H]. lia.
Qed.

Lemma renewing_always n : forall reported, always settled n (renewing reported).
Proof using Hdata.
  induction n as [|n IH]; intros reported; [done|].
  eapply always_observe; [symmetry; apply observe_iter|]. eapply (always_calls n 1).
  - apply calls_bind. unfold renew_step. apply calls_call.
  - intros stop ->. by rewrite settles_S, observe_bind.
  - lia.
  - intros [|]; [eapply always_returned; by rewrite observe_bind|].
    destruct n as [|n]; [done|]. unfold update_registry. rewrite Hdata.
    eapply (always_calls n 5); [apply calls_bind, calls_call| |lia|].
    + intros r _. apply (requested_settles reported r).
    + intros r. apply (requested_always n reported r). intros reported'. eapply always_down; [|apply IH]. lia.
Qed.

(** It sends nothing but PUTs, and leaves the flag and the other thread alone. *)
Definition renewal_allowed A (e : registrationE A) (_ : unit) : Prop :=
  match e with
  | Urlopen url d verb _ => (url, d, verb) = renewal_put
  | StopIsSet | StopWait _ | PrintError => True
  | _ => False
  end.
Definition renewal_step A (_ : registrationE A) (_ : unit) (_ : A) (_ : unit) : Prop := True.
#[local] Instance renewal_rules : EventSpec registrationE unit := machine_spec renewal_step renewal_allowed.

Definition renews (u : rprog (option exc)) : Prop := wp u (fun _ _ => True) tt.

Lemma wp_renewal {A R} (e : registrationE A) (k : A -> rprog R) Φ :
  renewal_allowed A e tt -> (forall a, wp (k a) Φ tt) -> wp (ITree.bind (call e) k) Φ tt.
Proof. intros Ha Hk. apply wp_machine; [exact Ha|]. intros a [] _. apply Hk. Qed.

Lemma renew_registration_renews : renews (renew_registration registry_port address).
Proof using Hdata.
  unfold renews, renew_registration. apply (wp_iter (fun _ _ => True)); [done|]. intros reported [] _.
  unfold renew_step. apply wp_renewal; [done|]. intros [|]; [by apply wp_ret|].
  apply wp_bind. unfold update_registry. rewrite Hdata. apply wp_call. split; [done|]. intros r [] _.
  assert (Hwait : forall reported, wp (call (StopWait REGISTRY_REFRESH) ;! Ret (inl reported))
    (fun (r : bool + option exc) (_ : unit) => match r with inl _ => True | inr _ => True end) tt).
  { intros reported'. apply wp_renewal; [done|]. intros []. by apply wp_ret. }
  destruct r as [[]|class m]; [apply Hwait|]. destruct class; try by apply wp_ret.
  apply wp_bind. destruct reported; [by apply wp_ret, Hwait|]. apply wp_call. split; [done|]. intros [] [] _. apply Hwait.
Qed.

(** ** The main thread *)

Definition phase_after A (e : registrationE A) : A -> phase -> phase :=
  match e in registrationE A return A -> phase -> phase with
  | StartRenewal _ _ => fun r ph => match r with Value _ => Renewing | Raise _ _ => ph end
  | StopSet => fun _ _ => Stopped
  | Join => fun _ _ => Joined
  | Urlopen _ _ _ _ => fun _ _ => Withdrawn
  | _ => fun _ ph => ph
  end.
Definition main_step A (e : registrationE A) (ph : phase) (a : A) (ph' : phase) : Prop := ph' = phase_after A e a ph.

Definition main_allowed A (e : registrationE A) (ph : phase) : Prop :=
  match e with
  | StartRenewal registry_port' address' => ph = Before /\ registry_port' = registry_port /\ address' = address
  | StopSet => ph = Renewing
  | Join => ph = Stopped
  | Urlopen url d verb _ => ph = Joined /\ (url, d, verb) = withdrawal
  | Accept | StartConnection _ => ph = Renewing
  | StopIsSet | StopWait _ | PrintError => False
  | _ => True
  end.
#[local] Instance main_rules : EventSpec registrationE phase := machine_spec main_step main_allowed.

Definition finished (_ : exc) (ph : phase) : Prop := ph = Before \/ ph = Withdrawn.

Lemma wp_main_thread {A R} (e : registrationE A) (k : A -> rprog R) Φ ph :
  main_allowed A e ph -> (forall a, wp (k a) Φ (phase_after A e a ph)) -> wp (ITree.bind (call e) k) Φ ph.
Proof. intros Ha Hk. apply wp_machine; [exact Ha|]. intros a ph' ->. apply Hk. Qed.

Lemma wp_attempt {A} (e : registrationE (pyres A)) k ph :
  main_allowed _ e ph -> (forall class m, finished class (phase_after _ e (Raise class m) ph)) ->
  (forall a, wp (k a) finished (phase_after _ e (Value a) ph)) -> wp (attempt e k) finished ph.
Proof. intros Ha Hr Hk. unfold attempt. apply wp_main_thread; [exact Ha|]. intros [a|class m]; [apply Hk|]. by apply wp_ret. Qed.

Lemma accepting_wp : wp (ITree.iter accept_client tt) (fun _ ph => ph = Renewing) Renewing.
Proof.
  apply (wp_iter (fun _ ph => ph = Renewing)); [done|]. intros [] ph ->. unfold accept_client.
  apply wp_main_thread; [done|]. intros [connection|class m]; [|by apply wp_ret].
  apply wp_main_thread; [done|]. intros [[]|class m]; by apply wp_ret.
Qed.

Lemma deregister_wp : wp (deregister registry_port address) (fun _ ph => ph = Withdrawn) Renewing.
Proof using Hdata.
  unfold deregister. apply wp_main_thread; [done|]. intros []. apply wp_main_thread; [done|]. intros [].
  apply wp_bind. unfold update_registry. rewrite Hdata. apply wp_call. split; [done|]. intros r ph ->. cbn [phase_after].
  destruct r as [[]|class m]; [by apply wp_ret|]. destruct class; by apply wp_ret.
Qed.

Lemma http_serve_wp host port :
  advertised_address host port = Value address -> wp (serve host port (Some registry_port)) finished Before.
Proof using Hdata.
  intros Ha. unfold serve, registration_of. rewrite Ha.
  apply wp_attempt; [done|by left|]. intros []. apply wp_bind. eapply wp_mono.
  { intros class ph H. apply wp_main_thread; [done|]. intros []. apply wp_ret. exact H. }
  unfold serve_on. do 4 (apply wp_attempt; [done|by left|]; intros []).
  apply wp_attempt; [done|by left|]. intros []. cbn [phase_after]. apply wp_bind.
  eapply wp_mono; [|apply accepting_wp]. intros class ph ->. apply wp_bind.
  eapply wp_mono; [|apply deregister_wp]. intros failed ph ->. apply wp_ret. by right.
Qed.

(** ** Both together *)

Definition past_join (ph : phase) : bool := match ph with Joined | Withdrawn => true | _ => false end.
Definition stopped (ph : phase) : bool := match ph with Stopped => true | _ => past_join ph end.

Record process_ok (ph : phase) (n : nat) (p : process) : Prop := {
  ok_main : wp (main_thread p) finished ph;
  ok_stop : stop p = stopped ph;
  ok_none : ph = Before -> renewal p = None /\ n = 0%nat;
  ok_renewal : ph <> Before -> exists u, renewal p = Some u /\ renews u /\ (forall m, always settled m u) /\
    (past_join ph = true -> returned u);
  ok_requests : requests p = repeat renewal_put n ++ (if decide (ph = Withdrawn) then [withdrawal] else [])
}.
Lemma process_init_ok host port :
  advertised_address host port = Value address -> process_ok Before 0 (process_init host port (Some registry_port)).
Proof using Hdata.
  intros Ha. split; try done. by apply http_serve_wp.
Qed.

(** The calls of the main thread that change what is shared are those of the phases. *)
Lemma main_call_ok ph n t b l r A (e : registrationE A) k a :
  process_ok ph n (Process t r b l) -> observe t = VisF e k -> can_return A e r -> answers A e b a ->
  exists n', process_ok (phase_after A e a ph) n'
    (Process (k a) (renewal_after A e a r) (flag_after A e b) (requests_after A e l)).
Proof using Hdata.
  intros [Hm Hb Hnone Hren Hl] Ht Hret Ha. cbn in Hm, Hb, Hnone, Hren, Hl.
  apply (wp_vis_inv _ _ _ _ _ Ht) in Hm as [Hal Hk]. specialize (Hk a _ eq_refl).
  destruct e; cbn [main_allowed] in Hal; try done; cbn [phase_after] in Hk |- *;
    cbn [renewal_after flag_after requests_after]; try (exists n; by split).
  - destruct Hal as [-> Hq]. exists n. rewrite decide_False in Hl by done. rewrite app_nil_r in Hl. split; cbn; try done.
    + intros _. destruct (Hren ltac:(done)) as (u & ? & ? & ? & Hu). exists u. split_and!; try done.
    + by rewrite Hl, Hq.
  - subst ph. exists n. split; cbn; try done. intros _. destruct (Hren ltac:(done)) as (u & ? & ? & ? & ?). exists u. by split_and!.
  - subst ph. exists n. split; cbn; try done. intros _. destruct (Hren ltac:(done)) as (u & -> & ? & ? & ?).
    destruct Hret as (u' & [= <-] & Hu). exists u. by split_and!.
  - destruct Hal as (-> & -> & ->). destruct (Hnone eq_refl) as [-> ->]. exists 0%nat.
    destruct a as [[]|class m]; [|by split]. split; cbn; try done. intros _.
    eexists. split; [reflexivity|]. split; [apply renew_registration_renews|]. split; [|done].
    intros m. by apply renewing_always.
Qed.

Lemma renewal_call_ok ph n t u b l A (e : registrationE A) k a :
  process_ok ph n (Process t (Some u) b l) -> observe u = VisF e k -> answers A e b a ->
  exists n', process_ok ph n' (Process t (Some (k a)) (flag_after A e b) (requests_after A e l)).
Proof.
  intros [Hm Hb Hnone Hren Hl] Hu Ha. cbn in Hm, Hb, Hnone, Hren, Hl.
  assert (Hph : ph <> Before) by (intros E; by destruct (Hnone E)).
  destruct (Hren Hph) as (u' & [= <-] & Hr & Hs & Hj).
  assert (Hpj : past_join ph = false).
  { destruct (past_join ph); [|done]. destruct (Hj eq_refl) as [r E]. by rewrite E in Hu. }
  apply (wp_vis_inv _ _ _ _ _ Hu) in Hr as [Hal Hk]. specialize (Hk a tt I).
  assert (Hs' : forall m, always settled m (k a)).
  { intros m. specialize (Hs (S m)). rewrite always_S, Hu in Hs. by destruct Hs. }
  assert (Hren' : ph <> Before -> exists u, Some (k a) = Some u /\ renews u /\ (forall m, always settled m u) /\
    (past_join ph = true -> returned u)).
  { intros _. exists (k a). split; [reflexivity|]. split; [exact Hk|]. split; [exact Hs'|]. by rewrite Hpj. }
  rewrite decide_False, app_nil_r in Hl by (intros ->; done).
  destruct e; cbn [renewal_allowed] in Hal; try done; cbn [flag_after requests_after];
    try (exists n; split; [exact Hm|exact Hb|done|exact Hren'|]; cbn; rewrite decide_False, app_nil_r by (intros ->; done); exact Hl).
  exists (S n). split; [exact Hm|exact Hb|done|exact Hren'|]. cbn [requests].
  rewrite decide_False, app_nil_r by (intros ->; done). by rewrite Hl, Hal, <-repeat_cons.
Qed.

Lemma process_step_ok ph n p p' : process_ok ph n p -> process_step p p' -> exists ph' n', process_ok ph' n' p'.
Proof using Hdata.
  intros Hp Hs. destruct Hs as [t t' r b l Ht|t r b l A e k a Ht Hret Ha|t u u' b l Hu|t u b l A e k a Hu Ha].
  - exists ph, n. destruct Hp as [Hm Hb Hnone Hren Hl]. split; try done. by eapply wp_tau_inv.
  - eexists. by eapply main_call_ok.
  - exists ph, n. destruct Hp as [Hm Hb Hnone Hren Hl]. cbn in *. split; try done.
    + intros E. by destruct (Hnone E).
    + intros Hph. cbn in *. destruct (Hren Hph) as (v & [= <-] & Hr & Hs & Hj). exists u'. split; [reflexivity|].
      split; [by eapply wp_tau_inv|]. split.
      * intros m. specialize (Hs (S m)). rewrite always_S, Hu in Hs. by destruct Hs.
      * intros E. destruct (Hj E) as [r Er]. by rewrite Er in Hu.
  - exists ph. by eapply renewal_call_ok.
Qed.

Lemma process_reachable host port p :
  advertised_address host port = Value address ->
  rtc process_step (process_init host port (Some registry_port)) p -> exists ph n, process_ok ph n p.
Proof using Hdata.
  intros Ha Hr. assert (H0 : exists ph n, process_ok ph n (process_init host port (Some registry_port))).
  { eexists _, _. by apply process_init_ok. }
  revert H0. induction Hr as [p|p p1 p2 Hs Hr IH]; [done|]. intros (ph & n & Hp). apply IH.
  by eapply process_step_ok.
Qed.
End renewing.

(** ** The registry after the withdrawal *)

(** An address that has no lease is not listed, until it registers. *)
Definition unlisted (a : list byte) (x : Z * pool_op * pool_result) : Prop :=
  match x.2 with Replied (Listing l) => a ∉ l | _ => True end.

Lemma current_None now t (a : list byte) : t !! a = None -> current now t !! a = None.
Proof. intros H. unfold current. apply map_lookup_filter_None. by left. Qed.

Lemma pool_spec_unlisted a now op t r t' :
  t !! a = None -> registers a op = false -> pool_spec now op t r t' -> unlisted a (now, op, r) /\ t' !! a = None.
Proof.
  intros Ht Hrg Hs. pose proof (current_None now t a Ht) as Hc. unfold unlisted. cbn [snd].
  destruct op as [rq| |ptr|ptr|ptr]; destruct r as [r|ptrs|b|]; try done; cbn [pool_spec] in *.
  2: { by destruct Hs as [-> _]. }
  2-4: by subst.
  destruct rq as [path m body].
  inversion Hs as [rq ? Hp|rq ? l Hp Hm Hnd Hl|rq ? Hp Hm|rq ? Hp Hm Ha|rq ? a' Hp Hm Ha Hroom|rq ? a' Hp Hm Ha Hnone Hfull|rq ? a' Hp Hm Ha Hsome|rq ? a' Hp Hm Ha Hnone];
    subst; cbn [rq_path rq_method rq_body registers] in *; subst; try done.
  - split; [|exact Hc]. rewrite Hl, Hc. by intros [].
  - split; [done|]. rewrite bool_decide_true, Ha in Hrg by done. cbn [andb] in Hrg. apply bool_decide_eq_false in Hrg.
    rewrite lookup_insert_ne; [exact Hc|]. intros ->. done.
  - split; [done|]. destruct (decide (a' = a)) as [->|Hne]; [apply lookup_delete_eq|by rewrite lookup_delete_ne].
Qed.

Lemma explained_unlisted a h : forall t t',
  t !! a = None -> Forall (fun x => registers a x.1.2 = false) h -> pool_explained t h t' -> Forall (unlisted a) h.
Proof.
  induction h as [|[[now op] r] h IH]; intros t t' Ht Hr He; [constructor|]. inversion Hr as [|? ? Hr1 Hr2]; subst.
  inversion He as [|? ? ? ? t1 ? ? Hs He']; subst. destruct (pool_spec_unlisted a now op t r t1 Ht Hr1 Hs) as [Hl Ht1].
  constructor; [exact Hl|]. by eapply IH.
Qed.

Lemma removed_lease a now op t r t1 : removes a op = true -> pool_spec now op t r t1 -> t1 !! a = None.
Proof.
  destruct op as [[path m body]| |ptr|ptr|ptr]; try done. cbn [removes pool_spec]. destruct m; try done.
  rewrite andb_true_iff, !bool_decide_eq_true. intros [Hp Hb] Hs. destruct r as [r| | |]; try done.
  inversion Hs as [rq ? Hq|rq ? ? ? Hm|rq ? ? Hm|rq ? ? ? Hn|rq ? a' ? Hm|rq ? a' ? Hm|rq ? a' ? ? Ha|rq ? a' ? ? Ha Hn]; subst;
    cbn [rq_body rq_method rq_path] in *; try done.
  - by rewrite Hb in Hn.
  - rewrite Hb in Ha. injection Ha as ->. apply lookup_delete_eq.
  - rewrite Hb in Ha. by injection Ha as ->.
Qed.

Lemma withdrawn_unlisted l h0 now op r h p a :
  NoDup l -> zlen l <= maxBackends -> pool_run (newBackendPool l) (h0 ++ (now, op, r) :: h) p ->
  removes a op = true -> Forall (fun x => registers a x.1.2 = false) h -> Forall (unlisted a) h.
Proof.
  intros Hnd Hl Hrun Hop Hr. destruct (run_split _ _ _ _ Hrun) as (p1 & H0 & H1).
  destruct (pool_run_ok _ _ _ _ (newBackendPool_ok l Hnd Hl) H0) as (t & _ & Hp1 & _).
  destruct (pool_run_ok _ _ _ _ Hp1 H1) as (t' & He & _). inversion He as [|? ? ? ? t1 ? ? Hs He']; subst.
  eapply explained_unlisted; [by eapply removed_lease|exact Hr|exact He'].
Qed.

(** ** Executions, which compute *)

(** Every call succeeds, or raises what it raises when the process is interrupted or
    the registry is away. *)
Definition call_result A (e : registrationE A) (stop good : bool) : A :=
  let result {B} (b : B) (class : exc) : pyres B := if good then Value b else Raise class "" in
  match e in registrationE A return A with
  | Urlopen _ _ _ _ => result tt OSError
  | StopIsSet => stop
  | StopWait _ | StopSet | Join | PrintError | CloseSocket => tt
  | Socket | SetReuseAddr | BindSocket _ _ | ListenSocket _ | PrintServing _ _ => result tt OSError
  | StartRenewal _ _ | StartConnection _ => result tt RuntimeError
  | Accept => result 7 KeyboardInterrupt
  end.

Lemma call_result_answers A (e : registrationE A) stop good : answers A e stop (call_result A e stop good).
Proof. by destruct e. Qed.

Definition has_returned {R} (t : rprog R) : bool := match observe t with RetF _ => true | _ => false end.

Definition may_return A (e : registrationE A) (renewal : option (rprog (option exc))) : bool :=
  match e with Join => match renewal with Some t => has_returned t | None => false end | _ => true end.

Lemma may_return_can A (e : registrationE A) r : may_return A e r = true -> can_return A e r.
Proof.
  destruct e; try done. cbn. destruct r as [t|]; [|done]. unfold has_returned. destruct (observe t) as [x|t'|B e k] eqn:E; [|done..].
  intros _. exists t. split; [done|]. by exists x.
Qed.

(** A step of the main thread or of the other one, and how its call ends. *)
Definition drive_step (choice : bool * bool) (p : process) : option process :=
  let '(main, good) := choice in
  let '(Process t r b l) := p in
  if main then
    match observe t with
    | RetF _ => None
    | TauF t' => Some (Process t' r b l)
    | VisF e k =>
        if may_return _ e r then
          let a := call_result _ e b good in
          Some (Process (k a) (renewal_after _ e a r) (flag_after _ e b) (requests_after _ e l))
        else None
    end
  else
    match r with
    | None => None
    | Some u =>
        match observe u with
        | RetF _ => None
        | TauF u' => Some (Process t (Some u') b l)
        | VisF e k => Some (Process t (Some (k (call_result _ e b good))) (flag_after _ e b) (requests_after _ e l))
        end
    end.

Fixpoint drive (choices : list (bool * bool)) (p : process) : option process :=
  match choices with
  | [] => Some p
  | c :: choices => match drive_step c p with Some p => drive choices p | None => None end
  end.

Lemma process_drive_reaches choices : forall p p', drive choices p = Some p' -> rtc process_step p p'.
Proof.
  induction choices as [|[main good] choices IH]; intros p p'; cbn [drive]; [by intros [= ->]|].
  destruct (drive_step (main, good) p) as [p1|] eqn:E; [|done]. intros H. eapply rtc_l; [|by apply IH]. clear IH H.
  destruct p as [t r b l]. cbn [drive_step] in E. destruct main.
  - destruct (observe t) as [x|t'|A e k] eqn:Et; [done|injection E as <-; by apply main_tau|].
    destruct (may_return A e r) eqn:Er; [|done]. injection E as <-.
    apply main_call; [exact Et|by apply may_return_can|apply call_result_answers].
  - destruct r as [u|]; [|done]. destruct (observe u) as [x|u'|A e k] eqn:Eu; [done|injection E as <-; by apply renewal_tau|].
    injection E as <-. apply renewal_call; [exact Eu|apply call_result_answers].
Qed.
