(* ===== verification/Balancer.v ===== *)
(** * The connections of load-balancer/server.go

    [handleConnection] and what it calls, as interaction trees: one event per call
    of the pool, of a connection or of the shared counter. *)

From S2P Require Import Prelude CLib Effects GoLib BalancerPool.
Local Open Scope Z_scope.
Local Open Scope prog_scope.

(** ** Events *)

Inductive conn := Client | Backend (b : Z).

(** What ends a read: the peer closed, or anything else. *)
Inductive read_error := EOF | ReadFailed.

Inductive lbE : Type -> Type :=
| SetDeadline (c : conn) : lbE unit
| ConnRead (c : conn) (len : Z) : lbE (list byte * option read_error)
| ConnWrite (c : conn) (data : list byte) : lbE (Z * bool)     (* bytes written, [err == nil] *)
| CloseWrite (c : conn) : lbE unit
| CloseConn (c : conn) : lbE unit
| Dial (addr : list byte) : lbE (option Z)
| Pool (op : pool_op) : lbE pool_result                        (* a method, at its time *)
| Address (ptr : nat) : lbE (list byte)                        (* [selected.address], never written *)
| SelectionAdd : lbE Z                                         (* [selection.Add(1)] *)
| Panic : lbE Empty_set.

#[export] Instance lbE_ub : HasUB lbE := Panic.
Abbreviation prog := (itree lbE).

Definition bufferSize : Z := 4096.
Definition maxRequestSize : Z := 64 * 1024.
Definition CRLF : list byte := lit "\r\n".
Definition header_end : list byte := lit "\r\n\r\n".

(** ** Requests *)

(** The loop of [readRequest], on what was read; then its result, [None] for an
    error. *)
Definition read_step (request : list byte) : prog (list byte + option (list byte)) :=
  let* ' (chunk, err) := call (ConnRead Client bufferSize) in
  let request := request ++ chunk in
  let headerEnd := if 0 <? zlen chunk then index_of header_end request else None in
  if (0 <? zlen chunk) && bool_decide (headerEnd = None) && (maxRequestSize <? zlen request)
  then Ret (inr None)
  else
    match err with
    | Some _ => Ret (inr None)
    | None =>
        match headerEnd with
        | None => Ret (inl request)
        | Some e =>
            if maxRequestSize <? e + 4 then Ret (inr None)
            else let? request := slice request 0 (e + 4) in Ret (inr (Some request))
        end
    end.
Definition readRequest : prog (option (list byte)) := ITree.iter read_step [].

Definition unsupportedBodyHeaders : list (list byte) := [lit "content-length"; lit "transfer-encoding"].

Definition header_key (line : list byte) : list byte :=
  let name := match cut (lit ":") line with Some (name, _) => name | None => line end in
  trim_space (to_lower name).
Definition hasUnsupportedBody (request : list byte) : bool :=
  let headers := match cut header_end request with Some (h, _) => h | None => request end in
  existsb (fun line => bool_decide (header_key line ∈ unsupportedBodyHeaders)) (tail (split CRLF headers)).

Definition error_response (status body : list byte) : list byte :=
  lit "HTTP/1.0 " ++ status ++ lit "\r\nContent-Length: " ++ decimal (zlen body) ++ lit "\r\nConnection: close\r\n\r\n" ++ body.
Definition sendError (status body : list byte) : prog unit :=
  call (ConnWrite Client (error_response status body)) ;! Ret tt.

Definition bad_request : prog unit := sendError (lit "400 Bad Request") (lit "Bad Request\n").
Definition bad_gateway : prog unit := sendError (lit "502 Bad Gateway") (lit "Bad Gateway\n").

(** ** One backend *)

(** The loop of [relay]: [*responseStarted], which a write to the client sets when
    it succeeds, however many bytes a failed one wrote; at the end, whether there was
    an error. *)
Definition relay_step (b : Z) (started : bool) : prog (bool + (bool * bool)) :=
  let* ' (data, err) := call (ConnRead (Backend b) bufferSize) in
  let finish started :=
    match err with
    | None => Ret (inl started)
    | Some EOF => Ret (inr (false, started))
    | Some ReadFailed => Ret (inr (true, started))
    end in
  if 0 <? zlen data then
    let* ' (_, ok) := call (ConnWrite Client data) in
    if negb ok then Ret (inr (true, started)) else finish true
  else finish started.

Definition relay (b : Z) (request : list byte) : prog (bool * bool) :=
  let* ' (_, ok) := call (ConnWrite (Backend b) request) in
  if negb ok then Ret (true, false)
  else
    call (CloseWrite (Backend b)) ;!
    ITree.iter (relay_step b) false.

Definition pool_snapshot : prog (list nat) :=
  let* r := call (Pool Snapshot) in
  match r with Taken l => Ret l | _ => undefined_behaviour end.
Definition pool_available (ptr : nat) : prog bool :=
  let* r := call (Pool (Available ptr)) in
  match r with Answered b => Ret b | _ => undefined_behaviour end.

(** One round of the loop over the backends: whether the client is done with. *)
Definition try_backend (request : list byte) (selected : nat) : prog bool :=
  let* usable := pool_available selected in
  if negb usable then Ret false
  else
    let* address := call (Address selected) in
    let* backend := call (Dial address) in
    let* ' (err, responseStarted) :=
      match backend with
      | None => Ret (true, false)
      | Some b =>
          call (SetDeadline (Backend b)) ;!
          let* r := relay b request in
          call (CloseConn (Backend b)) ;!
          Ret r
      end in
    if negb err then call (Pool (MarkSuccess selected)) ;! Ret true
    else if responseStarted : bool then Ret true
    else call (Pool (MarkFailure selected)) ;! Ret false.

(** From the round [offset] on, [n] rounds. *)
Fixpoint try_backends (request : list byte) (l : list nat) (initialIndex offset : Z) (n : nat) : prog unit :=
  match n with
  | O => bad_gateway
  | S n =>
      let? selected := index l (Z.rem (initialIndex + offset) (zlen l)) in
      let* finished := try_backend request selected in
      if finished : bool then Ret tt else try_backends request l initialIndex (offset + 1) n
  end.

(** [int(x)] of a uint64. *)
Definition int_of_uint64 (x : Z) : Z := if x <? 2 ^ 63 then x else x - 2 ^ 64.

Definition handleConnection : prog unit :=
  call (SetDeadline Client) ;!
  let* request := readRequest in
  match request with
  | None => bad_request
  | Some request =>
      if bool_decide (request = []) || bool_decide (cut header_end request = None) || hasUnsupportedBody request
      then bad_request
      else
        let* l := pool_snapshot in
        if bool_decide (l = []) then bad_gateway
        else
          let* n := call SelectionAdd in
          let initialIndex := Z.rem (int_of_uint64 ((n - 1) mod 2 ^ 64)) (zlen l) in
          try_backends request l initialIndex 0 (length l)
  end.

(** The goroutine of a client in [serve]. *)
Definition connection : prog unit := handleConnection ;! call (CloseConn Client).
