(* ===== verification/BalancerSafety.v ===== *)
(** * What a connection of the load balancer does, and when

    A monitor of one [handleConnection], whatever clients, backends, the network
    and other goroutines do.  The rules: backends are asked in rotation, each at
    most once; only an available one is contacted; the client gets a response or
    one error, never an error after response bytes that were written; a backend is
    marked failed only when its try failed and no write of its bytes succeeded. *)

From S2P Require Import Prelude CLib Effects GoLib BalancerPool Balancer.
Local Open Scope Z_scope.
Local Open Scope prog_scope.

(** ** The monitor *)

(** How far the try of a backend went. *)
Inductive stage := Asked | Dialed | Written.

Record monitor := Monitor {
  taken : list nat;        (** the snapshot *)
  rest : option (list nat); (** the backends still to be asked, once the turn is claimed *)
  turn : option nat;       (** the backend being tried *)
  at_stage : stage;
  conn_to : option Z;      (** the open connection to it *)
  unsent : list byte;      (** what it sent last and the client was not sent *)
  complete : bool;         (** it ended its response *)
  broken : bool;           (** its try failed: to connect, to write or to read, or to write to the client *)
  sent : bool;             (** a write of response bytes to the client succeeded *)
  over : bool;             (** the client was sent an error *)
  input : list byte        (** what the client sent *)
}.
Definition monitor_init : monitor := Monitor [] None None Asked None [] false false false false [].

(** The backends in the order of the [n]th request, counting from 0. *)
Definition rotation {A} (l : list A) (n : Z) : list A :=
  let k := Z.to_nat (n mod zlen l) in drop k l ++ take k l.

Definition track A (e : lbE A) : A -> monitor -> monitor :=
  match e in lbE A return A -> monitor -> monitor with
  | Pool Snapshot => fun r s =>
      match r with Taken l => Monitor l (rest s) (turn s) (at_stage s) (conn_to s) (unsent s) (complete s) (broken s) (sent s) (over s) (input s) | _ => s end
  | SelectionAdd => fun n s =>
      Monitor (taken s) (Some (rotation (taken s) (n - 1))) (turn s) (at_stage s) (conn_to s) (unsent s) (complete s) (broken s) (sent s) (over s) (input s)
  | Pool (Available ptr) => fun r s =>
      Monitor (taken s) (tail <$> rest s) (match r with Answered true => Some ptr | _ => None end)
        Asked (conn_to s) (unsent s) (complete s) false (sent s) (over s) (input s)
  | Pool (MarkFailure _) => fun _ s =>
      Monitor (taken s) (rest s) None (at_stage s) (conn_to s) (unsent s) (complete s) (broken s) (sent s) (over s) (input s)
  | Dial _ => fun r s =>
      Monitor (taken s) (rest s) (turn s) Dialed r [] false (match r with Some _ => broken s | None => true end) (sent s) (over s) (input s)
  | ConnRead (Backend _) _ => fun '(data, err) s =>
      Monitor (taken s) (rest s) (turn s) (at_stage s) (conn_to s) data (match err with Some EOF => true | _ => false end)
        (broken s || match err with Some ReadFailed => true | _ => false end) (sent s) (over s) (input s)
  | ConnWrite Client _ => fun '(_, ok) s =>
      match turn s with
      | Some _ => Monitor (taken s) (rest s) (turn s) (at_stage s) (conn_to s) [] (complete s && ok) (broken s || negb ok) (sent s || ok) (over s) (input s)
      | None => Monitor (taken s) (rest s) (turn s) (at_stage s) (conn_to s) (unsent s) (complete s) (broken s) (sent s) true (input s)
      end
  | ConnWrite (Backend _) _ => fun '(_, ok) s =>
      Monitor (taken s) (rest s) (turn s) Written (conn_to s) (unsent s) (complete s) (broken s || negb ok) (sent s) (over s) (input s)
  | ConnRead Client _ => fun '(data, _) s =>
      Monitor (taken s) (rest s) (turn s) (at_stage s) (conn_to s) (unsent s) (complete s) (broken s) (sent s) (over s) (input s ++ data)
  | CloseConn (Backend _) => fun _ s =>
      Monitor (taken s) (rest s) (turn s) (at_stage s) None (unsent s) (complete s) (broken s) (sent s) (over s) (input s)
  | _ => fun _ s => s
  end.

(** What the callees answer: a pool method its own result, a read at most the
    buffer; and there were fewer than 2^63 requests. *)
Definition answer_ok A (e : lbE A) : A -> Prop :=
  match e in lbE A return A -> Prop with
  | Pool Snapshot => fun r => exists l, r = Taken l
  | Pool (Available _) => fun r => exists b, r = Answered b
  | ConnRead _ len => fun '(data, _) => zlen data <= len
  | SelectionAdd => fun n => 0 < n <= 2 ^ 63
  | _ => fun _ => True
  end.

Definition mstep A (e : lbE A) (s : monitor) (a : A) (s' : monitor) : Prop :=
  answer_ok A e a /\ s' = track A e a s.

(** The request that is forwarded: what the client sent up to the first empty
    line, when it is small and announces no body. *)
Definition request_ok (data request : list byte) : Prop :=
  (exists h b, cut header_end data = Some (h, b) /\ request = h ++ header_end) /\
  zlen request <= maxRequestSize /\ hasUnsupportedBody request = false.

Definition error_400 : list byte := error_response (lit "400 Bad Request") (lit "Bad Request\n").
Definition error_502 : list byte := error_response (lit "502 Bad Gateway") (lit "Bad Gateway\n").

Definition in_order A (e : lbE A) (s : monitor) : Prop :=
  match e with
  | Pool (Registry _) | Panic => False
  | Pool Snapshot => taken s = [] /\ sent s = false /\ over s = false
  | SelectionAdd => taken s <> [] /\ rest s = None
  | Pool (Available ptr) => turn s = None /\ sent s = false /\ over s = false /\ exists l, rest s = Some (ptr :: l)
  | Address ptr => turn s = Some ptr
  | Dial _ => (exists ptr, turn s = Some ptr) /\ at_stage s = Asked /\ conn_to s = None /\ sent s = false
  | ConnWrite (Backend b) data => conn_to s = Some b /\ at_stage s = Dialed /\ request_ok (input s) data
  | CloseWrite (Backend b) | CloseConn (Backend b) | SetDeadline (Backend b) | ConnRead (Backend b) _ =>
      conn_to s = Some b
  | ConnWrite Client data =>
      over s = false /\
      ((exists b, conn_to s = Some b /\ data = unsent s /\ data <> []) \/
       (turn s = None /\ sent s = false /\
        ((data = error_400 /\ taken s = []) \/ (data = error_502 /\ (taken s = [] \/ rest s = Some [])))))
  | Pool (MarkSuccess ptr) => turn s = Some ptr /\ complete s = true /\ broken s = false
  | Pool (MarkFailure ptr) => turn s = Some ptr /\ broken s = true /\ sent s = false
  | CloseConn Client => conn_to s = None
  | CloseWrite Client => False
  | SetDeadline Client | ConnRead Client _ => True
  end.

#[export] Instance monitor_spec : EventSpec lbE monitor := machine_spec mstep in_order.

(** A call that keeps the monitor. *)
Lemma wp_step {A R} (e : lbE A) (k : A -> prog R) Φ s :
  in_order A e s -> (forall a, answer_ok A e a -> wp (k a) Φ (track A e a s)) ->
  wp (ITree.bind (call e) k) Φ s.
Proof. intros Ho Hk. apply wp_machine; [done|]. intros a s' [Ha ->]. by apply Hk. Qed.

(** ** The request *)

(** Only the input changes. *)
Definition reading (s : monitor) : Prop :=
  taken s = [] /\ rest s = None /\ turn s = None /\ conn_to s = None /\ sent s = false /\ over s = false.

Lemma read_request_wp :
  wp readRequest (fun r s' => reading s' /\ forall request, r = Some request ->
    (exists h b, cut header_end (input s') = Some (h, b) /\ request = h ++ header_end) /\
    zlen request <= maxRequestSize) monitor_init.
Proof.
  unfold readRequest. apply (wp_iter (fun request s' => reading s' /\ request = input s')); [by repeat split|].
  intros request s' [Hs ->].
  unfold read_step. apply wp_step; [done|]. intros [chunk err] _. cbn [track].
  assert (Hs' : reading (track _ (ConnRead Client bufferSize) (chunk, err) s')) by done. cbn [track] in Hs'.
  set (q := input s' ++ chunk) in *. destruct (_ && _ && _); [by apply wp_ret|].
  destruct err; [by apply wp_ret|].
  destruct (if 0 <? zlen chunk then index_of header_end q else None) as [e|] eqn:He; [|by apply wp_ret].
  destruct (Z.ltb_spec maxRequestSize (e + 4)) as [Hbig|Hsmall]; [by apply wp_ret|].
  destruct (0 <? zlen chunk); [|done]. unfold index_of in He. destruct (cut header_end q) as [[h b]|] eqn:Hc; [|done].
  injection He as <-. apply cut_Some in Hc as Hq.
  assert (Hsl : slice q 0 (zlen h + 4) = Some (h ++ header_end)).
  { rewrite Hq, app_assoc. apply slice_prefix. rewrite length_app. change (length header_end) with 4%nat. lia. }
  rewrite Hsl. apply wp_ret. split; [done|]. intros r [= <-]. split.
  - by exists h, b.
  - rewrite length_app. change (length header_end) with 4%nat. lia.
Qed.

(** ** One backend *)

(** What the tries of one backend leave as it is. *)
Definition same_try (s s' : monitor) : Prop :=
  taken s' = taken s /\ rest s' = rest s /\ turn s' = turn s /\ conn_to s' = conn_to s /\ over s' = over s /\
  input s' = input s.

Definition trying (ptr : nat) (b : Z) (s : monitor) : Prop :=
  turn s = Some ptr /\ conn_to s = Some b /\ over s = false.

Lemma same_try_trying ptr b s s' : same_try s s' -> trying ptr b s -> trying ptr b s'.
Proof. intros (_ & _ & Ht & Hc & Ho & _) (H1 & H2 & H3). unfold trying. by rewrite Ht, Hc, Ho. Qed.

(** How a try ended: it failed, or the response is complete. *)
Definition ended (err : bool) (s : monitor) : Prop :=
  broken s = err /\ (err = false -> complete s = true).

Lemma relay_step_wp ptr b started s0 s :
  same_try s0 s -> trying ptr b s0 -> sent s = started -> broken s = false ->
  wp (relay_step b started)
    (fun r s' => same_try s0 s' /\
      match r with
      | inl started' => sent s' = started' /\ broken s' = false
      | inr (err, started') => sent s' = started' /\ ended err s'
      end) s.
Proof.
  intros Hsame Htry Hst Hbr. pose proof (same_try_trying _ _ _ _ Hsame Htry) as (Hturn & Hconn & Hover).
  unfold relay_step. apply wp_step; [done|]. intros [data err] _. cbn [track].
  destruct (Z.ltb_spec 0 (zlen data)) as [Hd|Hd].
  - assert (Hne : data <> []) by (intros ->; simpl in Hd; lia).
    apply wp_step; [split; [done|]; left; by exists b|]. intros [n ok] _. cbn [track turn taken rest conn_to over complete broken sent].
    rewrite Hturn, Hbr. destruct ok; cbn [negb].
    + rewrite andb_true_r, orb_true_r. destruct err as [[]|]; apply wp_ret; cbn; by rewrite <-Hturn.
    + rewrite andb_false_r, orb_false_r, orb_true_r. apply wp_ret. cbn. by rewrite <-Hturn.
  - rewrite Hbr. destruct err as [[]|]; by apply wp_ret.
Qed.

Lemma relay_wp ptr b request s :
  trying ptr b s -> at_stage s = Dialed -> sent s = false -> broken s = false -> request_ok (input s) request ->
  wp (relay b request)
    (fun r s' => same_try s s' /\ sent s' = r.2 /\ ended r.1 s') s.
Proof.
  intros Htry Hstage Hs Hbr Hreq. unfold relay. pose proof Htry as (Hturn & Hconn & Hover).
  apply wp_step; [done|]. intros [n ok] _. destruct ok; cbn [negb track]; [|apply wp_ret; unfold ended; cbn; by rewrite Hbr].
  apply wp_step; [done|]. intros [] _. cbn [track].
  apply (wp_iter (fun started s' => same_try s s' /\ sent s' = started /\ broken s' = false)); [cbn; by rewrite Hbr|].
  intros started s' (Hsame & Hst & Hb). eapply wp_mono; [|by apply (relay_step_wp ptr)].
  intros [started'|[err started']] s1 [H1 H2]; [done|]. by destruct H2.
Qed.

(** Between two backends. *)
Definition choosing (t : list nat) (l : list nat) (request : list byte) (s : monitor) : Prop :=
  request_ok (input s) request /\ taken s = t /\ rest s = Some l /\ turn s = None /\ conn_to s = None /\ sent s = false /\ over s = false.

Lemma try_backend_wp request ptr t l s :
  choosing t (ptr :: l) request s ->
  wp (try_backend request ptr)
    (fun finished s' => if finished then conn_to s' = None else choosing t l request s') s.
Proof.
  intros (Hreq & Ht & Hrest & Hturn & Hconn & Hsent & Hover). unfold try_backend, pool_available.
  apply wp_bind. apply wp_step; [split_and!; try done; by exists l|]. intros r [usable ->].
  apply wp_ret. cbn [track]. rewrite Hrest. cbn [fmap option_fmap option_map tail].
  destruct usable; cbn [negb]; [|apply wp_ret; split; [exact Hreq|by repeat split]].
  apply wp_step; [done|]. intros addr _. cbn [track].
  apply wp_step; [split; [by exists ptr|by split_and!]|]. intros [b|] _; cbn [track].
  - apply wp_bind. apply wp_step; [done|]. intros [] _. cbn [track]. apply wp_bind.
    eapply wp_mono; [|by apply (relay_wp ptr b request)].
    intros [err started] s1 ((H1 & H2 & H3 & H4 & H5 & H6) & Hst & Hbr & Hc). cbn in H1, H2, H3, H4, H5, H6, Hst, Hbr, Hc.
    apply wp_step; [done|]. intros [] _. cbn [track]. apply wp_ret.
    destruct err; cbn [negb].
    + destruct started; [by apply wp_ret|].
      apply wp_step; [done|]. intros r _. apply wp_ret. unfold choosing. cbn. by rewrite H1, H2, H5, H6, Hst.
    + apply wp_step; [split; [done|split; [by apply Hc|done]]|]. intros r _. by apply wp_ret.
  - apply wp_bind. apply wp_ret. cbn [negb].
    apply wp_step; [done|]. intros r _. apply wp_ret. split; [exact Hreq|by repeat split].
Qed.

(** ** All of them, in rotation *)

Lemma rotation_lookup {A} (l : list A) n k :
  l <> [] -> 0 <= k < zlen l -> rotation l n !! Z.to_nat k = l !! Z.to_nat ((n + k) mod zlen l).
Proof.
  intros Hl Hk. unfold rotation. assert (Hlen : 0 < zlen l) by (destruct l; [done|simpl; lia]).
  pose proof (Z.mod_pos_bound n (zlen l) Hlen) as Hb. set (m := n mod zlen l) in *.
  assert (E : (n + k) mod zlen l = (m + k) mod zlen l) by (unfold m; by rewrite Zplus_mod_idemp_l).
  rewrite E. destruct (Z.lt_ge_cases (m + k) (zlen l)) as [Hlt|Hge].
  - rewrite Z.mod_small by lia. rewrite lookup_app_l by (rewrite length_drop; lia).
    rewrite lookup_drop. f_equal. lia.
  - replace ((m + k) mod zlen l) with (m + k - zlen l).
    + rewrite lookup_app_r by (rewrite length_drop; lia). rewrite length_drop, lookup_take_lt by lia. f_equal. lia.
    + apply Z.mod_unique with 1; lia.
Qed.

Lemma rotation_nil {A} n : rotation (@nil A) n = [].
Proof. unfold rotation. by rewrite drop_nil, take_nil. Qed.

Lemma rotation_length {A} (l : list A) n : length (rotation l n) = length l.
Proof. unfold rotation. rewrite length_app, length_drop, length_take. lia. Qed.

Lemma try_backends_wp request l i n : forall offset s,
  l <> [] -> 0 <= i < zlen l -> 0 <= offset -> offset + Z.of_nat n = zlen l ->
  choosing l (drop (Z.to_nat offset) (rotation l i)) request s ->
  wp (try_backends request l i offset n) (fun _ s' => conn_to s' = None) s.
Proof.
  induction n as [|n IH]; intros offset s Hl Hi Ho Hn Hs; cbn [try_backends].
  - rewrite drop_ge in Hs by (rewrite rotation_length; lia). destruct Hs as (_ & Ht & Hrest & Hturn & Hconn & Hsent & Hover).
    unfold bad_gateway, sendError. apply wp_step.
    + split; [exact Hover|]. right. split; [exact Hturn|]. split; [exact Hsent|]. right.
      split; [unfold error_502; reflexivity|]. right. exact Hrest.
    + intros [? ok] _. apply wp_ret. cbn [track]. rewrite Hturn. done.
  - rewrite Z.rem_mod_nonneg by lia.
    pose proof (rotation_lookup l i offset Hl ltac:(lia)) as Hlk.
    destruct (rotation l i !! Z.to_nat offset) as [ptr|] eqn:E.
    2: { apply lookup_ge_None in E. rewrite rotation_length in E. lia. }
    unfold index. rewrite assert_ub_true.
    2: { apply Z.leb_le. apply Z.mod_pos_bound. lia. }
    rewrite <-Hlk. rewrite (drop_S _ ptr) in Hs by done. apply wp_bind.
    eapply wp_mono; [|by eapply try_backend_wp]. intros [] s1 H1; [by apply wp_ret|].
    apply IH; [done|done|lia|lia|]. by replace (Z.to_nat (offset + 1)) with (S (Z.to_nat offset)) by lia.
Qed.

Lemma handleConnection_wp : wp handleConnection (fun _ s' => conn_to s' = None) monitor_init.
Proof.
  unfold handleConnection. apply wp_step; [done|]. intros [] _. cbn [track]. apply wp_bind.
  eapply wp_mono; [|apply read_request_wp]. intros request s [(Ht & Hrest & Hturn & Hconn & Hsent & Hover) Hr].
  assert (Hbad : wp bad_request (fun _ s' => conn_to s' = None) s).
  { unfold bad_request, sendError. apply wp_step; [|intros [? ok] _; apply wp_ret; cbn [track]; by rewrite Hturn].
    split; [exact Hover|]. right. split; [exact Hturn|]. split; [exact Hsent|].
    left. split; [unfold error_400; reflexivity|exact Ht]. }
  destruct request as [request|]; [|done]. destruct (Hr request eq_refl) as [Hh Hlen].
  destruct (_ || _) eqn:Hcase; [done|]. rewrite !orb_false_iff in Hcase. destruct Hcase as [_ Hbody].
  assert (Hreq : request_ok (input s) request) by done. unfold pool_snapshot. apply wp_bind.
  apply wp_step; [done|]. intros r [l ->]. apply wp_ret. cbn [track].
  case_bool_decide as Hl.
  - unfold bad_gateway, sendError. apply wp_step; [|intros [? ok] _; apply wp_ret; cbn [track turn]; by rewrite Hturn].
    split; [exact Hover|]. right. split; [exact Hturn|]. split; [exact Hsent|]. right.
    split; [unfold error_502; reflexivity|]. left. exact Hl.
  - apply wp_step; [done|]. intros n Hn. cbn [answer_ok] in Hn. cbn [track].
    assert (Hlen' : 0 < zlen l) by (destruct l; [done|simpl; lia]).
    rewrite Z.mod_small by lia. unfold int_of_uint64. rewrite (proj2 (Z.ltb_lt _ _)) by lia.
    rewrite Z.rem_mod_nonneg by lia. pose proof (Z.mod_pos_bound (n - 1) (zlen l) Hlen').
    assert (Hrot : rotation l (n - 1) = rotation l ((n - 1) mod zlen l)).
    { unfold rotation. by rewrite Z.mod_mod by lia. }
    apply try_backends_wp; [done|done|lia|lia|]. cbn [taken]. rewrite <-Hrot. split; [exact Hreq|by repeat split].
Qed.

Lemma connection_wp : wp connection (fun _ _ => True) monitor_init.
Proof.
  unfold connection. apply wp_bind. eapply wp_mono; [|apply handleConnection_wp].
  intros [] s Hs. apply wp_call. split; [exact Hs|]. done.
Qed.
