(* ===== verification/BalancerExec.v ===== *)
(** * Executions of the load balancer with one client

    A deterministic environment for one connection: the client sends given chunks
    and its writes succeed as a script says; backends refuse, reset or respond as
    a function of their address says; the clock stands still.  In it
    [handleConnection] terminates, and the client gets the response of the first
    backend in rotation that is available and responds. *)

From S2P Require Import Prelude CLib Effects GoLib BalancerPool Balancer BalancerSafety.
Local Open Scope Z_scope.
Local Open Scope prog_scope.

(** ** The environment *)

(** What a backend does with a connection. *)
Inductive behaviour :=
| Refuses
| Resets                                           (** fails while it is sent the request *)
| Responds (chunks : list (list byte)) (clean : bool).  (** and ends with EOF, or fails *)

Record world := World {
  w_pool : backendPool;
  w_selection : Z;
  w_rx : list (list byte);       (** what the client sends *)
  w_client : list (option Z);    (** the writes to the client: [Some n] fails after [n] bytes; then all succeed *)
  w_out : list byte;             (** what the client was sent *)
  w_at : list byte;              (** the address of the open connection *)
  w_peer : behaviour;            (** and what is left of it *)
  w_requests : list (list byte * list byte)  (** requests delivered, by address *)
}.

Section environment.
Context (now : Z) (net : list byte -> behaviour).

Definition set_pool (p : backendPool) (w : world) : world :=
  World p (w_selection w) (w_rx w) (w_client w) (w_out w) (w_at w) (w_peer w) (w_requests w).
Definition set_peer (addr : list byte) (b : behaviour) (w : world) : world :=
  World (w_pool w) (w_selection w) (w_rx w) (w_client w) (w_out w) addr b (w_requests w).
Definition set_rx (rx : list (list byte)) (w : world) : world :=
  World (w_pool w) (w_selection w) rx (w_client w) (w_out w) (w_at w) (w_peer w) (w_requests w).

Definition world_write (data : list byte) (w : world) : option ((Z * bool) * world) :=
  let written n := World (w_pool w) (w_selection w) (w_rx w) (tail (w_client w))
                     (w_out w ++ take (Z.to_nat n) data) (w_at w) (w_peer w) (w_requests w) in
  match w_client w with
  | Some n :: _ => let n := Z.min (Z.max 0 n) (zlen data) in Some ((n, false), written n)
  | _ => Some ((zlen data, true), written (zlen data))
  end.

Definition lb_env : environment lbE world := fun A e =>
  match e in lbE A return world -> option (A * world) with
  | SetDeadline _ | CloseWrite _ | CloseConn _ => fun w => Some (tt, w)
  | ConnRead Client len => fun w =>
      match w_rx w with
      | [] => Some (([], Some EOF), w)
      | c :: rx => Some ((take (Z.to_nat len) c, None),
                         set_rx (if zlen c <=? len then rx else drop (Z.to_nat len) c :: rx) w)
      end
  | ConnRead (Backend _) len => fun w =>
      match w_peer w with
      | Responds [] clean => Some (([], Some (if clean then EOF else ReadFailed)), w)
      | Responds (c :: cs) clean =>
          Some ((take (Z.to_nat len) c, None),
                set_peer (w_at w) (Responds (if zlen c <=? len then cs else drop (Z.to_nat len) c :: cs) clean) w)
      | _ => Some (([], Some ReadFailed), w)
      end
  | ConnWrite Client data => world_write data
  | ConnWrite (Backend b) data => fun w =>
      match w_peer w with
      | Responds _ _ =>
          Some ((zlen data, true), World (w_pool w) (w_selection w) (w_rx w) (w_client w) (w_out w) (w_at w) (w_peer w)
                        (w_requests w ++ [(w_at w, data)]))
      | _ => Some ((0, false), w)
      end
  | Dial addr => fun w =>
      match net addr with
      | Refuses => Some (None, w)
      | b => Some (Some 0, set_peer addr b w)
      end
  | Pool op => fun w =>
      match pool_apply op now (w_pool w) with Some (r, p) => Some (r, set_pool p w) | None => None end
  | Address ptr => fun w =>
      match objects (w_pool w) !! ptr with Some b => Some (address b, w) | None => None end
  | SelectionAdd => fun w =>
      let n := (w_selection w + 1) mod 2 ^ 64 in
      Some (n, World (w_pool w) n (w_rx w) (w_client w) (w_out w) (w_at w) (w_peer w) (w_requests w))
  | Panic => fun _ => None
  end.

Lemma world_write_all data w :
  w_client w = [] ->
  world_write data w = Some ((zlen data, true), World (w_pool w) (w_selection w) (w_rx w) [] (w_out w ++ data) (w_at w) (w_peer w) (w_requests w)).
Proof. intros Hcl. unfold world_write. rewrite Hcl, take_ge by lia. reflexivity. Qed.

(** ** The request *)

Definition chunk_ok (c : list byte) : Prop := c <> [] /\ zlen c <= bufferSize.

(** What the request is, however the input is cut. *)
Definition headers_of (data : list byte) : option (list byte) :=
  match cut header_end data with
  | Some (h, _) => if zlen h + 4 <=? maxRequestSize then Some (h ++ header_end) else None
  | None => None
  end.

Lemma read_step_evals request c rx w :
  w_rx w = c :: rx -> chunk_ok c ->
  let q := request ++ c in
  evals lb_env (read_step request) w
    (match cut header_end q with
     | Some (h, _) => inr (headers_of q)
     | None => if maxRequestSize <? zlen q then inr None else inl q
     end) (set_rx rx w).
Proof.
  intros Hrx [Hc Hl] q. unfold read_step.
  eapply evals_call_bind; [simpl; by rewrite Hrx, take_ge, (proj2 (Z.leb_le _ _)) by lia|].
  cbv beta iota zeta. fold q. assert (Hpos : (0 <? zlen c) = true) by (apply Z.ltb_lt; destruct c; [done|simpl; lia]).
  rewrite Hpos. unfold index_of, headers_of. destruct (cut header_end q) as [[h b]|] eqn:Hcut.
  - rewrite bool_decide_false by done. cbn [andb]. rewrite Z.leb_antisym.
    destruct (maxRequestSize <? zlen h + 4); [apply evals_ret|]. cbn [negb].
    assert (Hsl : slice q 0 (zlen h + 4) = Some (h ++ header_end)).
    { rewrite (cut_Some _ _ _ _ Hcut), app_assoc. apply slice_prefix. rewrite length_app.
      change (length header_end) with 4%nat. lia. }
    rewrite Hsl. apply evals_ret.
  - rewrite bool_decide_true by done. cbn [andb]. destruct (maxRequestSize <? zlen q); apply evals_ret.
Qed.

Lemma readRequest_evals chunks : forall request w,
  w_rx w = chunks -> Forall chunk_ok chunks -> cut header_end request = None ->
  exists rx, evals lb_env (ITree.iter read_step request) w (headers_of (request ++ mjoin chunks)) (set_rx rx w).
Proof.
  induction chunks as [|c chunks IH]; intros request w Hrx Hc Hreq.
  - exists []. rewrite app_nil_r. unfold headers_of. rewrite Hreq. apply evals_iter_stop. unfold read_step.
    eapply evals_call_bind; [simpl; by rewrite Hrx|]. simpl.
    replace (set_rx [] w) with w by (destruct w; simpl in *; by subst). apply evals_ret.
  - apply Forall_cons in Hc as [Hc Hcs]. pose proof (read_step_evals request c chunks w Hrx Hc) as Hstep.
    change (mjoin (c :: chunks)) with (c ++ mjoin chunks). rewrite app_assoc. cbv zeta in Hstep.
    set (q := request ++ c) in *. destruct (cut header_end q) as [[h b]|] eqn:Hcut.
    + exists chunks. unfold headers_of in Hstep |- *. rewrite (cut_app _ _ _ _ (mjoin chunks) Hcut).
      rewrite Hcut in Hstep. by apply evals_iter_stop.
    + destruct (Z.ltb_spec maxRequestSize (zlen q)) as [Hbig|Hsmall].
      * exists chunks. unfold headers_of. destruct (cut header_end (q ++ mjoin chunks)) as [[h b]|] eqn:E;
          [|by apply evals_iter_stop].
        pose proof (cut_late _ _ _ _ _ Hcut E) as Hlate. change (zlen header_end) with 4 in Hlate.
        rewrite (proj2 (Z.leb_gt _ _)) by lia. by apply evals_iter_stop.
      * destruct (IH q (set_rx chunks w) eq_refl Hcs Hcut) as (rx & He). exists rx.
        eapply evals_iter_next; [exact Hstep|exact He].
Qed.

(** ** One backend *)

Definition response_ok (b : behaviour) : Prop :=
  match b with Responds chunks _ => Forall chunk_ok chunks | _ => True end.

(** What the client was sent, and what is left of the response. *)
Definition relayed (w : world) (out : list byte) (b : behaviour) : world :=
  World (w_pool w) (w_selection w) (w_rx w) (w_client w) (w_out w ++ out) (w_at w) b (w_requests w).

Lemma relay_evals b clean chunks : forall started w,
  w_client w = [] -> w_peer w = Responds chunks clean -> Forall chunk_ok chunks ->
  evals lb_env (ITree.iter (relay_step b) started) w (negb clean, started || bool_decide (chunks <> []))
    (relayed w (mjoin chunks) (Responds [] clean)).
Proof.
  induction chunks as [|c chunks IH]; intros started w Hcl Hp Hc.
  - apply evals_iter_stop. unfold relay_step. eapply evals_call_bind; [simpl; by rewrite Hp|].
    cbv beta iota zeta. cbn [length Z.of_nat Z.ltb Z.compare]. rewrite bool_decide_false by by intros H.
    rewrite orb_false_r. unfold relayed. change (mjoin []) with (@nil byte). rewrite app_nil_r, <-Hp.
    destruct w. destruct clean; apply evals_ret.
  - apply Forall_cons in Hc as [[Hne Hl] Hcs].
    set (w1 := set_peer (w_at w) (Responds chunks clean) w).
    set (w2 := relayed w1 c (Responds chunks clean)).
    assert (Hrun : evals lb_env (relay_step b started) w (inl true) w2).
    { unfold relay_step. eapply evals_call_bind.
      { simpl. rewrite Hp, take_ge by lia. by rewrite (proj2 (Z.leb_le _ _)). }
      cbv beta iota zeta. rewrite (proj2 (Z.ltb_lt _ _)) by (destruct c; [done|simpl; lia]).
      eapply evals_call_bind; [exact (world_write_all c w1 Hcl)|].
      cbn [negb]. unfold w2, relayed, w1. cbn. rewrite Hcl. apply evals_ret. }
    eapply evals_iter_next; [exact Hrun|]. specialize (IH true w2 Hcl eq_refl Hcs).
    rewrite bool_decide_true by done. rewrite orb_true_r. rewrite orb_true_l in IH.
    replace (relayed w (mjoin (c :: chunks)) (Responds [] clean)) with (relayed w2 (mjoin chunks) (Responds [] clean)); [done|].
    unfold w2, relayed, w1. cbn. by rewrite <-app_assoc.
Qed.

Definition mark_failed (ptr : nat) (b : backendState) (p : backendPool) : backendPool :=
  set_object ptr (BackendState (address b) (Some (now + healthCooldown)) (expiresAt b)) p.
Definition mark_served (ptr : nat) (b : backendState) (p : backendPool) : backendPool :=
  set_object ptr (BackendState (address b) None (expiresAt b)) p.

(** A try of the backend [b]: whether the client is done with, and the world. *)
Definition after_try (request : list byte) (ptr : nat) (b : backendState) (w : world) : bool * world :=
  if usable now b then
    match net (address b) with
    | Refuses => (false, set_pool (mark_failed ptr b (w_pool w)) w)
    | Resets => (false, set_pool (mark_failed ptr b (w_pool w)) (set_peer (address b) Resets w))
    | Responds chunks clean =>
        let w1 := World (w_pool w) (w_selection w) (w_rx w) (w_client w) (w_out w ++ mjoin chunks) (address b)
                    (Responds [] clean) (w_requests w ++ [(address b, request)]) in
        if clean then (true, set_pool (mark_served ptr b (w_pool w)) w1)
        else if bool_decide (chunks <> []) then (true, w1)
        else (false, set_pool (mark_failed ptr b (w_pool w)) w1)
    end
  else (false, w).

Lemma pool_evals op w r p {R} (k : pool_result -> prog R) x w' :
  pool_apply op now (w_pool w) = Some (r, p) -> evals lb_env (k r) (set_pool p w) x w' ->
  evals lb_env (ITree.bind (call (Pool op)) k) w x w'.
Proof. intros Ha Hk. eapply evals_call_bind; [simpl; by rewrite Ha|exact Hk]. Qed.

Lemma set_pool_same w : set_pool (w_pool w) w = w.
Proof. by destruct w. Qed.

Lemma mark_failed_apply ptr b p :
  objects p !! ptr = Some b -> pool_apply (MarkFailure ptr) now p = Some (Marked, mark_failed ptr b p).
Proof. intros Hb. cbn [pool_apply]. unfold markFailure. by rewrite Hb. Qed.
Lemma mark_served_apply ptr b p :
  objects p !! ptr = Some b -> pool_apply (MarkSuccess ptr) now p = Some (Marked, mark_served ptr b p).
Proof. intros Hb. cbn [pool_apply]. unfold markSuccess. by rewrite Hb. Qed.

Lemma pool_available_evals ptr b w :
  objects (w_pool w) !! ptr = Some b -> evals lb_env (pool_available ptr) w (usable now b) w.
Proof.
  intros Hb. unfold pool_available. eapply pool_evals; [cbn [pool_apply]; unfold available; by rewrite Hb|].
  rewrite set_pool_same. apply evals_ret.
Qed.

Lemma try_evals request ptr b w :
  objects (w_pool w) !! ptr = Some b -> w_client w = [] -> response_ok (net (address b)) ->
  let '(finished, w') := after_try request ptr b w in
  evals lb_env (try_backend request ptr) w finished w'.
Proof.
  intros Hb Hcl Hnet. unfold after_try, try_backend.
  pose proof (pool_available_evals ptr b w Hb) as Hav.
  destruct (usable now b) eqn:Hu; [|eapply evals_bind; [exact Hav|]; apply evals_ret].
  destruct (net (address b)) as [| |chunks clean] eqn:Hn.
  - eapply evals_bind; [exact Hav|]. cbn [negb]. eapply evals_call_bind; [simpl; by rewrite Hb|]. eapply evals_call_bind; [simpl; by rewrite Hn|].
    cbv beta iota. eapply evals_bind; [apply evals_ret|]. cbn [negb].
    eapply pool_evals; [by apply mark_failed_apply|]. apply evals_ret.
  - eapply evals_bind; [exact Hav|]. cbn [negb].
    eapply evals_call_bind; [simpl; by rewrite Hb|]. eapply evals_call_bind; [simpl; by rewrite Hn|].
    cbv beta iota. eapply evals_bind.
    { eapply evals_call_bind; [reflexivity|]. eapply evals_bind.
      - unfold relay. eapply evals_call_bind; [reflexivity|]. cbn [negb]. apply evals_ret.
      - eapply evals_call_bind; [reflexivity|]. apply evals_ret. }
    cbn [negb]. eapply pool_evals; [by apply mark_failed_apply|]. apply evals_ret.
  - set (w1 := World (w_pool w) (w_selection w) (w_rx w) (w_client w) (w_out w ++ mjoin chunks) (address b)
                 (Responds [] clean) (w_requests w ++ [(address b, request)])).
    assert (Hrelay : forall {R} (k : bool * bool -> prog R) x w',
      evals lb_env (k (negb clean, bool_decide (chunks <> []))) w1 x w' ->
      evals lb_env (let* address := call (Address ptr) in
        let* backend := call (Dial address) in
        ITree.bind (match backend with
          | None => Ret (true, false)
          | Some b => call (SetDeadline (Backend b)) ;! let* r := relay b request in call (CloseConn (Backend b)) ;! Ret r
          end) k) w x w').
    { intros R k x w' Hk. eapply evals_call_bind; [simpl; by rewrite Hb|]. eapply evals_call_bind; [simpl; by rewrite Hn|].
      eapply evals_bind; [|exact Hk]. eapply evals_call_bind; [reflexivity|]. eapply evals_bind.
      - unfold relay. eapply evals_call_bind; [reflexivity|]. cbn [negb]. eapply evals_call_bind; [reflexivity|].
        eapply (relay_evals 0 clean chunks false); [done|reflexivity|done].
      - eapply evals_call_bind; [reflexivity|]. apply evals_ret. }
    destruct clean; [|case_bool_decide as Hne]; (eapply evals_bind; [exact Hav|]); apply Hrelay; cbn [negb].
    + eapply pool_evals; [by apply mark_served_apply|]. apply evals_ret.
    + apply evals_ret.
    + eapply pool_evals; [by apply mark_failed_apply|]. apply evals_ret.
Qed.
(** ** All of them *)

Lemma after_try_frame request ptr b w q :
  q <> ptr -> objects (w_pool (after_try request ptr b w).2) !! q = objects (w_pool w) !! q.
Proof.
  intros Hq. unfold after_try. destruct (usable now b); [|done].
  destruct (net (address b)) as [| |chunks clean]; [cbn; by rewrite lookup_insert_ne..|].
  destruct clean; [cbn; by rewrite lookup_insert_ne|]. case_bool_decide; [done|]. cbn. by rewrite lookup_insert_ne.
Qed.

Lemma after_try_client request ptr b w : w_client (after_try request ptr b w).2 = w_client w.
Proof.
  unfold after_try. destruct (usable now b); [|done].
  destruct (net (address b)) as [| |chunks clean]; [done..|]. destruct clean; [done|]. by case_bool_decide.
Qed.

Fixpoint after_tries (request : list byte) (l : list (nat * backendState)) (w : world) : world :=
  match l with
  | [] => relayed w error_502 (w_peer w)
  | (ptr, b) :: rest =>
      let '(finished, w') := after_try request ptr b w in
      if finished : bool then w' else after_tries request rest w'
  end.

(** The objects of the backends still to be tried. *)
Definition at_hand (w : world) (l : list (nat * backendState)) : Prop :=
  NoDup l.*1 /\ Forall (fun x => objects (w_pool w) !! x.1 = Some x.2 /\ response_ok (net (address x.2))) l.

Lemma at_hand_next request w ptr b l :
  at_hand w ((ptr, b) :: l) -> at_hand (after_try request ptr b w).2 l.
Proof.
  intros [[Hn Hnd]%NoDup_cons [_ Hl]%Forall_cons]. split; [done|]. apply Forall_forall. intros [q b'] Hx.
  pose proof (proj1 (Forall_forall _ _) Hl _ Hx) as [Ho Hr]. split; [|done]. cbn [fst snd] in *.
  rewrite after_try_frame; [done|]. intros ->. apply Hn. by apply (list_elem_of_fmap_2 fst l (ptr, b')).
Qed.

Lemma error_evals status body w :
  w_client w = [] -> evals lb_env (sendError status body) w tt (relayed w (error_response status body) (w_peer w)).
Proof.
  intros Hcl. unfold sendError. eapply evals_call_bind; [exact (world_write_all _ w Hcl)|].
  unfold relayed. rewrite Hcl. apply evals_ret.
Qed.

Lemma bad_request_evals w : w_client w = [] -> evals lb_env bad_request w tt (relayed w error_400 (w_peer w)).
Proof. unfold bad_request, error_400. apply error_evals. Qed.
Lemma bad_gateway_evals w : w_client w = [] -> evals lb_env bad_gateway w tt (relayed w error_502 (w_peer w)).
Proof. unfold bad_gateway, error_502. apply error_evals. Qed.

(** The loop, by what holds while backends are left: [P] before each round, [Q] when
    the client is done with. *)
Lemma try_backends_evals request l i (P : list (nat * backendState) -> world -> Prop) (Q : world -> Prop) n :
  (forall ptr b rest w, P ((ptr, b) :: rest) w ->
     exists finished w', evals lb_env (try_backend request ptr) w finished w' /\ if finished : bool then Q w' else P rest w') ->
  (forall w, P [] w -> exists w', evals lb_env bad_gateway w tt w' /\ Q w') ->
  l <> [] -> 0 <= i < zlen l ->
  forall offset order w, 0 <= offset -> offset + Z.of_nat n = zlen l ->
  order.*1 = drop (Z.to_nat offset) (rotation l i) -> P order w ->
  exists w', evals lb_env (try_backends request l i offset n) w tt w' /\ Q w'.
Proof.
  intros Hround Hend Hl Hi. induction n as [|n IH]; intros offset order w Ho Hn Hord HP; cbn [try_backends].
  - rewrite drop_ge in Hord by (rewrite rotation_length; lia). apply fmap_nil_inv in Hord as ->. by apply Hend.
  - rewrite Z.rem_mod_nonneg by lia. pose proof (rotation_lookup l i offset Hl ltac:(lia)) as Hlk.
    destruct (rotation l i !! Z.to_nat offset) as [q|] eqn:E.
    2: { apply lookup_ge_None in E. rewrite rotation_length in E. lia. }
    rewrite (drop_S _ q) in Hord by done. destruct order as [|[ptr b] order]; [done|]. cbn in Hord.
    injection Hord as -> Hord.
    unfold index. rewrite assert_ub_true by (apply Z.leb_le; apply Z.mod_pos_bound; lia).
    rewrite <-Hlk. destruct (Hround q b order w HP) as ([] & w1 & Htry & H1).
    + exists w1. split; [|exact H1]. eapply evals_bind; [exact Htry|]. apply evals_ret.
    + destruct (IH (offset + 1) order w1 ltac:(lia) ltac:(lia)) as (w' & He & HQ); [|exact H1|].
      * by replace (Z.to_nat (offset + 1)) with (S (Z.to_nat offset)) by lia.
      * exists w'. split; [|exact HQ]. eapply evals_bind; [exact Htry|exact He].
Qed.

(** ** What the client gets *)

(** The texts of the errors are not looked into. *)
#[local] Opaque error_502 error_400 error_response.

(** The response of a backend that is available and does not fail before the first
    byte. *)
Definition answer_of (b : backendState) : option (list (list byte)) :=
  if usable now b then
    match net (address b) with
    | Responds chunks clean => if clean || bool_decide (chunks <> []) then Some chunks else None
    | _ => None
    end
  else None.

(** The backends that are delivered the request. *)
Definition delivered (b : backendState) : list (list byte) :=
  if usable now b then match net (address b) with Responds _ _ => [address b] | _ => [] end else [].

Fixpoint contacted (l : list backendState) : list (list byte) :=
  match l with
  | [] => []
  | b :: rest => delivered b ++ match answer_of b with Some _ => [] | None => contacted rest end
  end.

(** The first backend that answers is contacted. *)
Lemma contacted_answers l chunks :
  head (omap answer_of l) = Some chunks -> exists b, b ∈ l /\ answer_of b = Some chunks /\ address b ∈ contacted l.
Proof.
  induction l as [|b l IH]; [done|]. cbn [omap list_omap contacted]. destruct (answer_of b) as [x|] eqn:E; cbn [head].
  - intros [= ->]. exists b. split; [left|]. split; [exact E|]. rewrite app_nil_r. revert E. unfold answer_of, delivered.
    destruct (usable now b); [|done]. destruct (net (address b)); [done..|]. intros _. by apply list_elem_of_singleton.
  - intros H. destruct (IH H) as (b' & Hb & Ha & Hc). exists b'. split; [by right|]. split; [exact Ha|].
    apply elem_of_app. by right.
Qed.

Lemma answers_head l b chunks : b ∈ l -> answer_of b = Some chunks -> exists chunks', head (omap answer_of l) = Some chunks'.
Proof.
  intros Hb Ha. induction l as [|b1 l IH]; [by apply elem_of_nil in Hb|]. cbn [omap list_omap].
  apply elem_of_cons in Hb as [<-|Hb]; [rewrite Ha; by eexists|].
  destruct (answer_of b1); [by eexists|by apply IH].
Qed.

Lemma answer_unexpired b chunks : answer_of b = Some chunks -> unexpired now b = true.
Proof. unfold answer_of, usable. by destruct (unexpired now b). Qed.

Lemma after_try_spec request ptr b w :
  let '(finished, w') := after_try request ptr b w in
  w_requests w' = w_requests w ++ ((fun a => (a, request)) <$> delivered b) /\
  match answer_of b with
  | Some chunks => finished = true /\ w_out w' = w_out w ++ mjoin chunks
  | None => finished = false /\ w_out w' = w_out w
  end.
Proof.
  unfold after_try, answer_of, delivered. destruct (usable now b); [|cbn; by rewrite app_nil_r].
  destruct (net (address b)) as [| |chunks clean]; [cbn; by rewrite app_nil_r..|].
  destruct clean; cbn [orb]; [done|]. case_bool_decide as Hne; [done|].
  rewrite Hne. cbn. by rewrite app_nil_r.
Qed.

Lemma after_tries_out request l : forall w,
  w_out (after_tries request l w) =
    w_out w ++ (match head (omap answer_of l.*2) with Some chunks => mjoin chunks | None => error_502 end) /\
  w_requests (after_tries request l w) = w_requests w ++ ((fun a => (a, request)) <$> contacted l.*2).
Proof.
  induction l as [|[ptr b] l IH]; intros w; cbn [after_tries].
  { split; [reflexivity|]. cbn [contacted fmap list_fmap]. by rewrite app_nil_r. }
  pose proof (after_try_spec request ptr b w) as H. destruct (after_try request ptr b w) as [finished w'].
  cbn [fmap list_fmap snd contacted omap list_omap]. destruct H as [Hreq H].
  destruct (answer_of b) as [chunks|]; destruct H as [-> Hout].
  - cbn [head]. rewrite app_nil_r. by split.
  - destruct (IH w') as [H1 H2]. rewrite H1, H2, Hout, Hreq, fmap_app, app_assoc. by split.
Qed.

(** A failure of a backend before the one that answers is recorded. *)
Lemma after_tries_frame request l : forall w q,
  q ∉ l.*1 -> objects (w_pool (after_tries request l w)) !! q = objects (w_pool w) !! q.
Proof.
  induction l as [|[ptr b] l IH]; intros w q Hq; [done|]. cbn [fmap list_fmap fst] in Hq.
  rewrite not_elem_of_cons in Hq. destruct Hq as [Hne Hq]. cbn [after_tries].
  pose proof (after_try_frame request ptr b w q Hne) as H. destruct (after_try request ptr b w) as [[] w'];
    cbn [snd] in H; [done|]. by rewrite IH.
Qed.

Lemma after_tries_marks request l1 ptr b l2 : forall w,
  NoDup (l1 ++ (ptr, b) :: l2).*1 -> omap answer_of l1.*2 = [] -> usable now b = true -> answer_of b = None ->
  exists b', objects (w_pool (after_tries request (l1 ++ (ptr, b) :: l2) w)) !! ptr = Some b' /\
    retryAt b' = Some (now + healthCooldown).
Proof.
  induction l1 as [|[q b1] l1 IH]; intros w Hnd Hno Hu Ha.
  - cbn [app after_tries]. apply NoDup_cons in Hnd as [Hn _].
    assert (H : exists w', after_try request ptr b w = (false, w') /\
      objects (w_pool w') !! ptr = Some (BackendState (address b) (Some (now + healthCooldown)) (expiresAt b))).
    { unfold after_try, answer_of in *. rewrite Hu in *. destruct (net (address b)) as [| |chunks clean].
      - eexists. split; [done|]. apply lookup_insert_eq.
      - eexists. split; [done|]. apply lookup_insert_eq.
      - destruct clean; [done|]. cbn [orb] in Ha. case_bool_decide; [done|]. eexists. split; [done|]. apply lookup_insert_eq. }
    destruct H as (w' & -> & Hw'). eexists. split; [by rewrite after_tries_frame, Hw'|]. done.
  - cbn [app fmap list_fmap fst] in Hnd. apply NoDup_cons in Hnd as [_ Hnd].
    cbn [fmap list_fmap snd omap list_omap] in Hno. destruct (answer_of b1) as [x|] eqn:E; [done|].
    cbn [app after_tries].
    assert (Hf : (after_try request q b1 w).1 = false).
    { unfold after_try, answer_of in *. destruct (usable now b1); [|done].
      destruct (net (address b1)) as [| |chunks []]; [done..|]. cbn [orb] in E. by case_bool_decide. }
    destruct (after_try request q b1 w) as [f w']. cbn [fst] in Hf. subst f. by apply IH.
Qed.

(** ** A connection *)

Definition request_of (data : list byte) : option (list byte) :=
  match headers_of data with
  | Some request => if hasUnsupportedBody request then None else Some request
  | None => None
  end.

Lemma headers_of_cut data request : headers_of data = Some request -> request <> [] /\ cut header_end request <> None.
Proof.
  unfold headers_of. destruct (cut header_end data) as [[h b]|] eqn:E; [|done]. destruct (_ <=? _); [|done].
  intros [= <-]. rewrite (cut_again _ _ _ _ E). split; [|done]. intros H. by apply app_nil in H as [_ H].
Qed.

Lemma rotation_fmap {A B} (f : A -> B) l n : rotation (f <$> l) n = f <$> rotation l n.
Proof. unfold rotation. by rewrite length_fmap, fmap_app, fmap_drop, fmap_take. Qed.

Lemma rotation_perm {A} (l : list A) n : rotation l n ≡ₚ l.
Proof. unfold rotation. by rewrite Permutation_app_comm, take_drop. Qed.

(** The world after the snapshot, and after the turn was claimed. *)
Definition snapped (l : list (nat * backendState)) (w : world) : world :=
  set_pool (set_backends (unexpired_in now l).*1 (w_pool w)) w.
Definition claimed (w : world) : world :=
  World (w_pool w) (w_selection w + 1) (w_rx w) (w_client w) (w_out w) (w_at w) (w_peer w) (w_requests w).

Lemma snapshot_evals l w : 
  pool_rep (w_pool w) l -> evals lb_env pool_snapshot w (unexpired_in now l).*1 (snapped l w).
Proof.
  intros Hr. destruct (prune_ok now _ _ Hr) as [E _]. unfold pool_snapshot.
  eapply pool_evals; [cbn [pool_apply]; unfold snapshot; by rewrite E|]. apply evals_ret.
Qed.

(** The world after the connection. *)
Definition served (input : list byte) (l : list (nat * backendState)) (w : world) : world :=
  match request_of input with
  | None => relayed w error_400 (w_peer w)
  | Some request =>
      let candidates := unexpired_in now l in
      if bool_decide (candidates = []) then relayed (snapped l w) error_502 (w_peer w)
      else after_tries request (rotation candidates (w_selection w)) (claimed (snapped l w))
  end.

(** A connection up to its first backend: when there is a request and backends, what
    the loop over them does. *)
Lemma handleConnection_tries request l w (Q : list (list byte) -> world -> Prop) :
  pool_rep (w_pool w) l -> Forall chunk_ok (w_rx w) -> 0 <= w_selection w < 2 ^ 63 - 1 ->
  request_of (mjoin (w_rx w)) = Some request ->
  let c := unexpired_in now l in
  (forall rx, if decide (c = []) then exists w', evals lb_env bad_gateway (snapped l (set_rx rx w)) tt w' /\ Q rx w'
    else exists w', evals lb_env (try_backends request c.*1 (w_selection w mod zlen c.*1) 0 (length c.*1))
           (claimed (snapped l (set_rx rx w))) tt w' /\ Q rx w') ->
  exists rx w', evals lb_env handleConnection w tt w' /\ Q rx w'.
Proof.
  intros Hr Hrx Hsel Hreq c Htries.
  destruct (readRequest_evals (w_rx w) [] w eq_refl Hrx eq_refl) as [rx Hread]. exists rx. specialize (Htries rx).
  set (w1 := set_rx rx w) in *. cbn [app] in Hread. unfold request_of in Hreq.
  destruct (headers_of (mjoin (w_rx w))) as [request'|] eqn:Hh; [|done].
  destruct (hasUnsupportedBody request') eqn:Hb; [done|]. apply Some_inj in Hreq as ->.
  destruct (headers_of_cut _ _ Hh) as [Hne Hcut].
  assert (Hstart : forall w', evals lb_env
      (if bool_decide (c.*1 = []) then bad_gateway
       else let* n := call SelectionAdd in
         let initialIndex := Z.rem (int_of_uint64 ((n - 1) mod 2 ^ 64)) (zlen c.*1) in
         try_backends request c.*1 initialIndex 0 (length c.*1)) (snapped l w1) tt w' -> evals lb_env handleConnection w tt w').
  { intros w' He. unfold handleConnection. eapply evals_call_bind; [reflexivity|]. eapply evals_bind; [exact Hread|].
    cbv beta iota. rewrite !bool_decide_false by done. rewrite Hb. cbn [orb]. eapply evals_bind; [by apply (snapshot_evals l w1)|exact He]. }
  destruct (decide (c = [])) as [Hc|Hc]; destruct Htries as (w' & He & HQ); exists w'; (split; [|exact HQ]); apply Hstart.
  - by rewrite bool_decide_true by (by rewrite Hc).
  - assert (Hc1 : c.*1 <> []) by by intros ?%fmap_nil_inv.
    rewrite bool_decide_false by done. eapply evals_call_bind; [reflexivity|]. cbn [w_selection snapped set_pool w1 set_rx].
    assert (Hlen : 0 < zlen c.*1) by (destruct c.*1; [done|simpl; lia]).
    rewrite (Z.mod_small (w_selection w + 1)) by lia. rewrite (Z.mod_small (_ - 1)) by lia.
    unfold int_of_uint64. rewrite (proj2 (Z.ltb_lt _ _)) by lia. replace (w_selection w + 1 - 1) with (w_selection w) by lia.
    by rewrite Z.rem_mod_nonneg by lia.
Qed.

(** The backends of a snapshot, in the order of their tries. *)
Lemma order_at_hand l w rx :
  pool_rep (w_pool w) l -> (forall a, response_ok (net a)) ->
  at_hand (claimed (snapped l (set_rx rx w))) (rotation (unexpired_in now l) (w_selection w)).
Proof.
  intros Hr Hnet. destruct (prune_ok now _ _ Hr) as [_ (_ & Ho & Hnd & _)]. split.
  - rewrite <-rotation_fmap. by rewrite rotation_perm.
  - rewrite rotation_perm. eapply Forall_impl; [exact Ho|]. intros x Hx. by split.
Qed.

Lemma order_ptrs (c : list (nat * backendState)) n :
  (rotation c n).*1 = drop (Z.to_nat 0) (rotation c.*1 (n mod zlen c.*1)).
Proof.
  change (Z.to_nat 0) with 0%nat. rewrite drop_0, <-rotation_fmap. unfold rotation. destruct c as [|x c]; [cbn [fmap list_fmap]; by rewrite !drop_nil, !take_nil|].
  by rewrite Z.mod_mod by (cbn [fmap list_fmap length]; lia).
Qed.

Lemma handleConnection_evals l w :
  pool_rep (w_pool w) l -> w_client w = [] -> Forall chunk_ok (w_rx w) -> (forall a, response_ok (net a)) ->
  0 <= w_selection w < 2 ^ 63 - 1 ->
  exists rx, evals lb_env handleConnection w tt (served (mjoin (w_rx w)) l (set_rx rx w)).
Proof.
  intros Hr Hcl Hrx Hnet Hsel. destruct (request_of (mjoin (w_rx w))) as [request|] eqn:Hreq.
  - destruct (handleConnection_tries request l w (fun rx w' => w' = served (mjoin (w_rx w)) l (set_rx rx w)) Hr Hrx Hsel Hreq)
      as (rx & w' & He & ->); [|by exists rx]. intros rx. unfold served. rewrite Hreq. cbv zeta. case_decide as Hc.
    + eexists. split; [|rewrite bool_decide_true by done; reflexivity]. apply (bad_gateway_evals (snapped l (set_rx rx w))). exact Hcl.
    + rewrite bool_decide_false by done. set (c := unexpired_in now l) in *.
      assert (Hc1 : c.*1 <> []) by by intros ?%fmap_nil_inv.
      assert (Hlen : 0 < zlen c.*1) by (destruct c.*1; [done|simpl; lia]).
      apply (try_backends_evals request c.*1 (w_selection w mod zlen c.*1)
        (fun order w1 => at_hand w1 order /\ w_client w1 = [] /\
           after_tries request order w1 = after_tries request (rotation c (w_selection w)) (claimed (snapped l (set_rx rx w))))
        (fun w' => w' = after_tries request (rotation c (w_selection w)) (claimed (snapped l (set_rx rx w))))
        (length c.*1)) with (rotation c (w_selection w)).
      * intros ptr b rest w1 (Hw & Hcl1 & Ht). pose proof Hw as [_ [[Hb Hro] _]%Forall_cons]. cbn [fst snd] in Hb, Hro.
        pose proof (try_evals request ptr b w1 Hb Hcl1 Hro) as Htry. cbn [after_tries] in Ht.
        pose proof (at_hand_next request w1 ptr b rest Hw) as Hw'. pose proof (after_try_client request ptr b w1) as Hcl'.
        destruct (after_try request ptr b w1) as [finished w2]. exists finished, w2. split; [exact Htry|].
        cbn [snd] in Hw', Hcl'. destruct finished; [exact Ht|]. by rewrite Hcl'.
      * intros w1 (_ & Hcl1 & Ht). eexists. split; [by apply bad_gateway_evals|exact Ht].
      * exact Hc1.
      * by apply Z.mod_pos_bound.
      * lia.
      * lia.
      * apply order_ptrs.
      * split; [by apply order_at_hand|by split].
  - destruct (readRequest_evals (w_rx w) [] w eq_refl Hrx eq_refl) as [rx Hread]. exists rx. cbn [app] in Hread.
    unfold served. rewrite Hreq. unfold request_of in Hreq. unfold handleConnection.
    eapply evals_call_bind; [reflexivity|]. eapply evals_bind; [exact Hread|].
    destruct (headers_of (mjoin (w_rx w))) as [request|] eqn:Hh; [|by apply bad_request_evals].
    destruct (headers_of_cut _ _ Hh) as [Hne Hcut]. rewrite !bool_decide_false by done. cbn [orb].
    destruct (hasUnsupportedBody request); [by apply bad_request_evals|done].
Qed.
(** ** A client that cannot be written to *)

(** The next writes to the client fail, more than [n] of them. *)
Definition client_gone (n : nat) (w : world) : Prop := Forall is_Some (w_client w) /\ (n < length (w_client w))%nat.

Lemma world_write_fails data n w :
  client_gone n w ->
  exists k w', world_write data w = Some ((k, false), w') /\
    w_pool w' = w_pool w /\ w_client w' = tail (w_client w) /\ w_requests w' = w_requests w /\ w_at w' = w_at w.
Proof.
  intros [Hf Hn]. unfold world_write. destruct (w_client w) as [|[k|] script]; [simpl in Hn; lia| |].
  - by eexists _, _.
  - apply Forall_cons in Hf as [[? ?] _]. done.
Qed.

Lemma relay_fails n b request w c cs clean :
  client_gone n w -> w_peer w = Responds (c :: cs) clean -> chunk_ok c ->
  exists w', evals lb_env (relay b request) w (true, false) w' /\
    w_pool w' = w_pool w /\ w_client w' = tail (w_client w) /\ w_requests w' = w_requests w ++ [(w_at w, request)].
Proof.
  intros Hg Hp [Hne Hl].
  set (w1 := World (w_pool w) (w_selection w) (w_rx w) (w_client w) (w_out w) (w_at w) (w_peer w)
               (w_requests w ++ [(w_at w, request)])).
  set (w2 := set_peer (w_at w) (Responds cs clean) w1).
  destruct (world_write_fails c n w2 Hg) as (k & w' & Hw & H1 & H2 & H3 & _). exists w'. split; [|by split_and!].
  unfold relay. eapply evals_call_bind; [simpl; rewrite Hp; reflexivity|]. cbn [negb]. rewrite <-Hp.
  eapply evals_call_bind; [reflexivity|]. apply evals_iter_stop. unfold relay_step.
  eapply evals_call_bind.
  { simpl. rewrite Hp, take_ge by lia. by rewrite (proj2 (Z.leb_le _ _)). }
  cbv beta iota zeta. rewrite (proj2 (Z.ltb_lt _ _)) by (destruct c; [done|simpl; lia]).
  eapply evals_call_bind; [exact Hw|]. apply evals_ret.
Qed.

Lemma try_skips request ptr b w :
  objects (w_pool w) !! ptr = Some b -> usable now b = false -> evals lb_env (try_backend request ptr) w false w.
Proof.
  intros Hb Hu. unfold try_backend. eapply evals_bind; [by eapply pool_available_evals|]. rewrite Hu. apply evals_ret.
Qed.

(** A backend that responds is marked failed all the same. *)
Lemma try_fails n request ptr b w c cs clean :
  objects (w_pool w) !! ptr = Some b -> client_gone n w -> usable now b = true ->
  net (address b) = Responds (c :: cs) clean -> chunk_ok c ->
  exists w', evals lb_env (try_backend request ptr) w false w' /\
    w_pool w' = mark_failed ptr b (w_pool w) /\ w_client w' = tail (w_client w) /\
    w_requests w' = w_requests w ++ [(address b, request)].
Proof.
  intros Hb Hg Hu Hn Hc.
  destruct (relay_fails n 0 request (set_peer (address b) (Responds (c :: cs) clean) w) c cs clean Hg eq_refl Hc)
    as (w1 & He & H1 & H2 & H3).
  exists (set_pool (mark_failed ptr b (w_pool w)) w1). split; [|by split_and!].
  unfold try_backend. eapply evals_bind; [by eapply pool_available_evals|]. rewrite Hu. cbn [negb].
  eapply evals_call_bind; [simpl; by rewrite Hb|]. eapply evals_call_bind; [simpl; by rewrite Hn|].
  cbv beta iota. eapply evals_bind.
  { eapply evals_call_bind; [reflexivity|]. eapply evals_bind; [exact He|]. eapply evals_call_bind; [reflexivity|]. apply evals_ret. }
  cbn [negb]. eapply pool_evals; [apply mark_failed_apply; by rewrite H1|]. rewrite H1. apply evals_ret.
Qed.

(** Those that a snapshot gives and that are available. *)
Definition usable_in (l : list (nat * backendState)) : list (nat * backendState) :=
  filter (fun x => usable now x.2 = true) l.

(** What was done with the first backends: each was delivered the request, and each
    is marked as failed. *)
Definition blamed (request : list byte) (requests : list (list byte * list byte)) (tried : list (nat * backendState)) (w : world) : Prop :=
  w_requests w = requests ++ ((fun x => (address x.2, request)) <$> usable_in tried) /\
  Forall (fun x => retry_at (w_pool w) x.1 = Some (now + healthCooldown)) (usable_in tried).

Lemma mark_failed_retry ptr b p q :
  retry_at p q = Some (now + healthCooldown) \/ q = ptr ->
  retry_at (mark_failed ptr b p) q = Some (now + healthCooldown).
Proof.
  intros Hq. unfold retry_at, mark_failed. cbn [objects set_object]. destruct (decide (ptr = q)) as [->|Hne].
  - by rewrite lookup_insert_eq.
  - rewrite lookup_insert_ne by done. by destruct Hq as [?|E].
Qed.

Lemma at_hand_marked w w' ptr b rest :
  at_hand w ((ptr, b) :: rest) -> w_pool w' = mark_failed ptr b (w_pool w) -> at_hand w' rest.
Proof.
  intros [[Hn Hnd]%NoDup_cons [_ Hl]%Forall_cons] Hp. split; [exact Hnd|]. apply Forall_forall. intros x Hx.
  destruct (proj1 (Forall_forall _ _) Hl x Hx) as [Hb Hr]. split; [|exact Hr]. rewrite Hp. cbn [objects mark_failed set_object].
  rewrite lookup_insert_ne; [exact Hb|]. intros ->. apply Hn. by apply (list_elem_of_fmap_2 fst rest x).
Qed.

(** One round: nothing changes the outcome of the others. *)
Lemma blamed_round request requests tried ptr b rest w :
  (usable now b = true -> exists c cs clean, net (address b) = Responds (c :: cs) clean) ->
  at_hand w ((ptr, b) :: rest) -> client_gone (length ((ptr, b) :: rest)) w -> blamed request requests tried w ->
  exists w', evals lb_env (try_backend request ptr) w false w' /\
    at_hand w' rest /\ client_gone (length rest) w' /\ blamed request requests (tried ++ [(ptr, b)]) w'.
Proof.
  intros Hans Hw Hg [Hreq Hm]. pose proof Hw as [[_ Hnd]%NoDup_cons [[Hb Hro] Hl]%Forall_cons]. cbn [fst snd] in Hb, Hro.
  unfold blamed, usable_in. rewrite filter_app. destruct (usable now b) eqn:Hu.
  - rewrite filter_cons_True by exact Hu. destruct (Hans eq_refl) as (c & cs & clean & Hn).
    rewrite Hn in Hro. apply Forall_cons in Hro as [Hc _].
    destruct (try_fails _ request ptr b w c cs clean Hb Hg Hu Hn Hc) as (w' & He & Hp & Hcl & Hr).
    exists w'. split; [exact He|]. split; [by eapply at_hand_marked|]. split.
    { destruct Hg as [Hf Hlen]. unfold client_gone. rewrite Hcl.
      destruct (w_client w) as [|x script]; [simpl in Hlen; lia|]. apply Forall_cons in Hf as [_ Hf]. simpl in *. split; [done|lia]. }
    split; [by rewrite Hr, Hreq, fmap_app, app_assoc|]. apply Forall_app. rewrite Hp. split.
    + eapply Forall_impl; [exact Hm|]. intros x Hx. apply mark_failed_retry. by left.
    + constructor; [|constructor]. apply mark_failed_retry. by right.
  - rewrite filter_cons_False by (cbn; congruence). exists w. split; [by eapply try_skips|]. split; [by split|].
    split; [|by rewrite app_nil_r]. destruct Hg as [Hf Hlen]. split; [exact Hf|]. simpl in Hlen |- *. lia.
Qed.

Lemma error_fails status body w n :
  client_gone n w ->
  exists w', evals lb_env (sendError status body) w tt w' /\ w_pool w' = w_pool w /\ w_requests w' = w_requests w.
Proof.
  intros Hg. destruct (world_write_fails (error_response status body) n w Hg) as (k & w' & Hw & H1 & _ & H3 & _). exists w'.
  split; [|by split]. unfold sendError. eapply evals_call_bind; [exact Hw|]. apply evals_ret.
Qed.

Lemma bad_gateway_fails w n :
  client_gone n w -> exists w', evals lb_env bad_gateway w tt w' /\ w_pool w' = w_pool w /\ w_requests w' = w_requests w.
Proof. unfold bad_gateway. apply error_fails. Qed.

Lemma handleConnection_blames request l w :
  pool_rep (w_pool w) l -> Forall chunk_ok (w_rx w) -> (forall a, response_ok (net a)) ->
  0 <= w_selection w < 2 ^ 63 - 1 -> request_of (mjoin (w_rx w)) = Some request -> client_gone (length l) w ->
  Forall (fun x => usable now x.2 = true -> exists c cs clean, net (address x.2) = Responds (c :: cs) clean) l ->
  exists w', evals lb_env handleConnection w tt w' /\
    blamed request (w_requests w) (rotation (unexpired_in now l) (w_selection w)) w'.
Proof.
  intros Hr Hrx Hnet Hsel Hreq Hg Hans. set (c := unexpired_in now l).
  assert (Hcl : (length c <= length l)%nat) by apply length_filter.
  assert (Hc : forall x, x ∈ c -> usable now x.2 = true -> exists c cs clean, net (address x.2) = Responds (c :: cs) clean).
  { intros x [_ Hx]%list_elem_of_filter. by apply (proj1 (Forall_forall _ _) Hans). }
  set (order := rotation c (w_selection w)).
  destruct (handleConnection_tries request l w (fun _ w' => blamed request (w_requests w) order w') Hr Hrx Hsel Hreq)
    as (rx & w' & He & H); [|by exists w'].
  intros rx. fold c. case_decide as Hn.
  - destruct (bad_gateway_fails (snapped l (set_rx rx w)) (length l) Hg) as (w' & He & Hp & Hq). exists w'. split; [exact He|].
    unfold order. rewrite Hn, rotation_nil. split; [by rewrite Hq, app_nil_r|constructor].
  - assert (Hlen : 0 < zlen c.*1) by (destruct c; [done|simpl; lia]).
    apply (try_backends_evals request c.*1 (w_selection w mod zlen c.*1)
      (fun rest w1 => exists tried, order = tried ++ rest /\ at_hand w1 rest /\ client_gone (length rest) w1 /\
         blamed request (w_requests w) tried w1)
      (blamed request (w_requests w) order) (length c.*1)) with order; [| |by intros ?%fmap_nil_inv|by apply Z.mod_pos_bound|lia|lia|apply order_ptrs|].
    + intros ptr b rest w1 (tried & Ho & Hw & Hg1 & Hb).
      destruct (blamed_round request (w_requests w) tried ptr b rest w1) as (w2 & He & H1 & H2 & H3); [|exact Hw|exact Hg1|exact Hb|].
      { apply (Hc (ptr, b)). rewrite <-(rotation_perm c (w_selection w)). fold order. rewrite Ho.
        apply elem_of_app. right. by left. }
      exists false, w2. split; [exact He|]. exists (tried ++ [(ptr, b)]). rewrite <-app_assoc. by split_and!.
    + intros w1 (tried & Ho & _ & Hg1 & Hb). destruct (bad_gateway_fails w1 _ Hg1) as (w2 & He & Hp & Hq).
      exists w2. split; [exact He|]. rewrite Ho, app_nil_r. unfold blamed. by rewrite Hp, Hq.
    + exists []. split; [done|]. split; [by apply order_at_hand|]. split.
      * destruct Hg as [Hf Hg]. split; [exact Hf|]. unfold order. rewrite rotation_length. simpl. simpl in Hg. lia.
      * split; [by rewrite app_nil_r|constructor].
Qed.
End environment.
