(* ===== verification/GoProcess.v ===== *)
(** * The processes of the load balancer and of the reverse proxy

    What main and serve of load-balancer/server.go and reverse-proxy/server.go call,
    and the loop that they share. *)

From S2P Require Import Prelude CLib Effects GoLib.
Local Open Scope Z_scope.
Local Open Scope prog_scope.

(** [None] is an error; [Fatal] prints one and exits with status 2. *)
Variant processE : Type -> Type :=
| Listen (address : list byte) : processE (option Z)
| CloseListener (listener : Z) : processE unit
| NewPool (addresses : list (list byte)) : processE unit    (* [pool := newBackendPool(addresses)] *)
| GoRegistry (listener : Z) : processE unit                 (* the goroutine of the registry *)
| PrintServing : processE unit
| Accept (listener : Z) : processE (option Z)
| GoConnection (client : Z) : processE unit                 (* the goroutine of a client *)
| Fatal : processE Empty_set.

Abbreviation process := (itree processE).

(** [fatal] does not return. *)
Definition fatal {A} : process A := let* e := call Fatal in match e : Empty_set with end.

(** One turn of the loop of [serve]. *)
Definition accept_turn (listener : Z) (_ : unit) : process (unit + unit) :=
  let* client := call (Accept listener) in
  match client with
  | None => Ret (inl tt)
  | Some c => call (GoConnection c) ;! Ret (inl tt)
  end.
Definition accept_loop (listener : Z) : process unit := ITree.iter (accept_turn listener) tt.
