(* ===== verification/BalancerMain.v ===== *)
(** * The process of the load balancer

    main and serve of load-balancer/server.go; then the whole process: main, the
    registry and a goroutine per client, interleaved in any order on the shared pool
    and the shared counter. *)

From ITree Require Import ITreeFacts.
From S2P Require Import Prelude CLib Effects GoLib BalancerPool Balancer BalancerSafety GoProcess.
Local Open Scope Z_scope.
Local Open Scope prog_scope.

(** ** The program *)

Definition backendCount : Z := 2.

Fixpoint backend_addresses (backends : list (list byte)) : option (list (list byte)) :=
  match backends with
  | [] => Some []
  | backend :: backends =>
      match backendAddress backend, backend_addresses backends with
      | Some address, Some addresses => Some (address :: addresses)
      | _, _ => None
      end
  end.

(** What [main] makes of its flags: where to listen and the backends; [None] is fatal. *)
Definition settings (listenHost : list byte) (listenPort registryPort : Z) (backends : list (list byte))
  : option (list byte * list (list byte)) :=
  match hostPort listenHost listenPort with
  | None => None
  | Some listenAddress =>
      if (registryPort =? 0) && negb (zlen backends =? backendCount) then None
      else if negb (registryPort =? 0) && negb (zlen backends =? 0) then None
      else if (registryPort <? 0) || (65535 <? registryPort) then None
      else
        match backend_addresses backends with
        | None => None
        | Some addresses => Some (listenAddress, addresses)
        end
  end.

Definition registry_address (registryPort : Z) : list byte := join_host_port (lit "127.0.0.1") (decimal registryPort).

(** It returns only with an error. *)
Definition serve (listenAddress : list byte) (backendAddresses : list (list byte)) (registryPort : Z) : process unit :=
  let* listener := call (Listen listenAddress) in
  match listener with
  | None => Ret tt
  | Some listener =>
      call (NewPool backendAddresses) ;!
      let* ready :=
        if registryPort =? 0 then Ret true
        else
          let* registry := call (Listen (registry_address registryPort)) in
          match registry with
          | None => Ret false
          | Some registry => call (GoRegistry registry) ;! Ret true
          end in
      if negb ready then call (CloseListener listener)
      else call PrintServing ;! accept_loop listener
  end.

Definition main (listenHost : list byte) (listenPort registryPort : Z) (backends : list (list byte)) : process unit :=
  match settings listenHost listenPort registryPort backends with
  | None => fatal
  | Some (listenAddress, backendAddresses) => serve listenAddress backendAddresses registryPort ;! fatal
  end.

(** ** What main does, in order *)

(** What main has done. *)
Record progress := Progress {
  listener : option Z;
  pooled : bool;             (** the pool was made *)
  registry : option Z;       (** the listener of the registry *)
  announced : bool;          (** the registry has its goroutine *)
  accepting : bool;          (** clients are served *)
  pending : option Z         (** a client that was accepted and has no goroutine yet *)
}.
Definition started : progress := Progress None false None false false None.

Definition main_after A (e : processE A) : A -> progress -> progress :=
  match e in processE A return A -> progress -> progress with
  | Listen _ => fun l p =>
      if pooled p then Progress (listener p) true l (announced p) (accepting p) (pending p)
      else Progress l false (registry p) (announced p) (accepting p) (pending p)
  | NewPool _ => fun _ p => Progress (listener p) true (registry p) (announced p) (accepting p) (pending p)
  | GoRegistry _ => fun _ p => Progress (listener p) (pooled p) (registry p) true (accepting p) (pending p)
  | Accept _ => fun c p => Progress (listener p) (pooled p) (registry p) (announced p) true c
  | GoConnection _ => fun _ p => Progress (listener p) (pooled p) (registry p) (announced p) (accepting p) None
  | CloseListener _ => fun _ p => Progress None (pooled p) (registry p) (announced p) (accepting p) (pending p)
  | PrintServing | Fatal => fun _ p => p
  end.
Definition main_step A (e : processE A) (p : progress) (a : A) (p' : progress) : Prop := p' = main_after A e a p.

Section process.
Context (listenAddress : list byte) (backendAddresses : list (list byte)) (registryPort : Z).

(** It listens first, then for the registry if there is one; clients are accepted when
    all that is there, and every client has its goroutine before the next is accepted;
    it exits only before that. *)
Definition main_allowed A (e : processE A) (p : progress) : Prop :=
  match e with
  | Listen address =>
      (p = started /\ address = listenAddress) \/
      (is_Some (listener p) /\ pooled p = true /\ registry p = None /\ registryPort <> 0 /\ address = registry_address registryPort)
  | NewPool addresses => is_Some (listener p) /\ pooled p = false /\ addresses = backendAddresses
  | GoRegistry l => registry p = Some l /\ announced p = false
  | PrintServing => pooled p = true
  | Accept l => listener p = Some l /\ pooled p = true /\ (announced p = negb (registryPort =? 0)) /\ pending p = None
  | GoConnection c => pending p = Some c
  | CloseListener l => listener p = Some l /\ accepting p = false /\ announced p = false
  | Fatal => accepting p = false /\ announced p = false
  end.
#[export] Instance main_rules : EventSpec processE progress := machine_spec main_step main_allowed.

Lemma wp_balancer_main {A R} (e : processE A) (k : A -> process R) Φ p :
  main_allowed A e p -> (forall a, wp (k a) Φ (main_after A e a p)) -> wp (ITree.bind (call e) k) Φ p.
Proof. intros Ha Hk. apply wp_machine; [exact Ha|]. intros a p' ->. apply Hk. Qed.

Lemma fatal_wp {A} (Φ : A -> progress -> Prop) p : accepting p = false -> announced p = false -> wp fatal Φ p.
Proof. intros Ha Hn. unfold fatal. apply wp_balancer_main; [done|]. intros []. Qed.

Lemma accept_loop_wp l (Φ : unit -> progress -> Prop) p :
  listener p = Some l -> pooled p = true -> announced p = negb (registryPort =? 0) -> pending p = None ->
  wp (accept_loop l) Φ p.
Proof.
  intros Hl Hp Hr Hc. unfold accept_loop.
  apply (wp_iter (fun _ p => listener p = Some l /\ pooled p = true /\ announced p = negb (registryPort =? 0) /\ pending p = None));
    [done|]. clear p Hl Hp Hr Hc. intros [] p (Hl & Hp & Hr & Hc). unfold accept_turn.
  apply wp_balancer_main; [done|]. intros [c|]; [|by apply wp_ret].
  apply wp_balancer_main; [done|]. intros []. by apply wp_ret.
Qed.

Lemma serve_wp : wp (serve listenAddress backendAddresses registryPort) (fun _ p => accepting p = false /\ announced p = false) started.
Proof.
  unfold serve. apply wp_balancer_main; [by left|]. intros [l|]; [|by apply wp_ret].
  apply wp_balancer_main; [split; [by exists l|done]|]. intros []. cbn [main_after listener pooled registry announced accepting pending started].
  apply wp_bind. destruct (Z.eqb_spec registryPort 0) as [H0|H0].
  - apply wp_ret. cbn [negb]. apply wp_balancer_main; [done|]. intros []. apply accept_loop_wp; try done. by rewrite H0.
  - apply wp_balancer_main; [right; split; [by exists l|done]|]. intros [r|]; cbn [main_after listener pooled registry announced accepting pending].
    + apply wp_balancer_main; [done|]. intros []. apply wp_ret. cbn [negb main_after listener pooled registry announced accepting pending].
      apply wp_balancer_main; [done|]. intros []. apply accept_loop_wp; try done. by rewrite (proj2 (Z.eqb_neq _ _)).
    + apply wp_ret. cbn [negb]. apply wp_call. split; [done|]. by intros [] p ->.
Qed.
End process.

(** ** The whole process *)

(** The goroutines of the clients, each with what is known of it. *)
Record balancer := BalancerProcess {
  main_go : process unit;
  main_done : progress;
  pool : option backendPool;
  past : history;            (** the calls of the pool, in the order of its mutex *)
  claims : Z;                (** how often the counter was incremented *)
  goroutines : list (prog unit * BalancerSafety.monitor)
}.

(** A call of a goroutine at a time, on the shared pool and counter. *)
Definition shared_call A (e : lbE A) (now : Z) (p : backendPool) (n : Z) : A -> backendPool -> Z -> history -> Prop :=
  match e in lbE A return A -> backendPool -> Z -> history -> Prop with
  | Pool op => fun r p' n' h => pool_apply op now p = Some (r, p') /\ n' = n /\ h = [(now, op, r)]
  | SelectionAdd => fun a p' n' h => a = (n + 1) mod 2 ^ 64 /\ p' = p /\ n' = n + 1 /\ h = []
  | Address ptr => fun a p' n' h => (exists b, objects p !! ptr = Some b /\ a = address b) /\ p' = p /\ n' = n /\ h = []
  | ConnRead _ len => fun r p' n' h => zlen r.1 <= len /\ p' = p /\ n' = n /\ h = []
  | _ => fun _ p' n' h => p' = p /\ n' = n /\ h = []
  end.

Definition new_pool A (e : processE A) (p : option backendPool) : option backendPool :=
  match e with NewPool addresses => Some (newBackendPool addresses) | _ => p end.
Definition spawned A (e : processE A) : list (prog unit * BalancerSafety.monitor) :=
  match e with GoConnection _ => [(connection, monitor_init)] | _ => [] end.

Inductive balancer_step : balancer -> balancer -> Prop :=
| step_main_tau t t' d p h n gs :
    observe t = TauF t' -> balancer_step (BalancerProcess t d p h n gs) (BalancerProcess t' d p h n gs)
| step_main t d p h n gs A (e : processE A) k a :
    observe t = VisF e k ->
    balancer_step (BalancerProcess t d p h n gs)
      (BalancerProcess (k a) (main_after A e a d) (new_pool A e p) h n (gs ++ spawned A e))
| step_registry t d p p' h n gs rq now r :
    announced d = true -> pool_apply (Registry rq) now p = Some (r, p') ->
    balancer_step (BalancerProcess t d (Some p) h n gs)
      (BalancerProcess t d (Some p') (h ++ [(now, Registry rq, r)]) n gs)
| step_goroutine_tau t d p h n gs1 u u' m gs2 :
    observe u = TauF u' ->
    balancer_step (BalancerProcess t d p h n (gs1 ++ (u, m) :: gs2)) (BalancerProcess t d p h n (gs1 ++ (u', m) :: gs2))
| step_goroutine t d p p' h h' n n' gs1 u m gs2 A (e : lbE A) k a now :
    observe u = VisF e k -> shared_call A e now p n a p' n' h' ->
    balancer_step (BalancerProcess t d (Some p) h n (gs1 ++ (u, m) :: gs2))
      (BalancerProcess t d (Some p') (h ++ h') n' (gs1 ++ (k a, track A e a m) :: gs2)).

Definition balancer_init (t : process unit) : balancer := BalancerProcess t started None [] 0 [].

(** A call can be made: it does not panic at any time. *)
Definition enabled A (e : lbE A) (p : backendPool) : Prop :=
  match e with
  | Pool op => forall now, exists r p', pool_apply op now p = Some (r, p')
  | Address ptr => is_Some (objects p !! ptr)
  | Panic => False
  | _ => True
  end.

(** What a goroutine holds is in the pool's memory. *)
Definition held (p : backendPool) (m : BalancerSafety.monitor) : Prop :=
  Forall (fun ptr => is_Some (objects p !! ptr)) (taken m) /\
  (forall l, rest m = Some l -> Forall (fun ptr => is_Some (objects p !! ptr)) l) /\
  (forall ptr, turn m = Some ptr -> is_Some (objects p !! ptr)).

Lemma held_known p p' m : known p p' -> held p m -> held p' m.
Proof.
  intros Hk (Ht & Hr & Hu). split; [|split].
  - eapply Forall_impl; [exact Ht|]. intros ptr. apply Hk.
  - intros l Hl. eapply Forall_impl; [by apply Hr|]. intros ptr. apply Hk.
  - intros ptr Hp. by apply Hk, Hu.
Qed.

Lemma Forall_rotation (P : nat -> Prop) l n : Forall P l -> Forall P (rotation l n).
Proof. intros H. unfold rotation. apply Forall_app. split; [by apply Forall_drop|by apply Forall_take]. Qed.

(** A goroutine's call on the pool: the answer is of the right kind, and what it holds
    stays in memory. *)
Lemma pool_call_ok p h l op now r p' :
  pool_run (newBackendPool l) h p -> pool_apply op now p = Some (r, p') ->
  known p p' /\ (forall ptrs, r = Taken ptrs -> Forall (fun ptr => is_Some (objects p' !! ptr)) ptrs) /\
  answer_ok _ (Pool op) r.
Proof.
  intros Hrun Ha. destruct (pool_history_rep l h p Hrun) as [l1 Hr].
  destruct (pool_apply_rep op now p l1 Hr (pool_apply_known _ _ _ _ _ Ha)) as (r' & p1 & Ha' & _ & Hk & _ & Ht).
  rewrite Ha in Ha'. apply Some_inj in Ha'. injection Ha' as <- <-. split; [exact Hk|]. split; [exact Ht|].
  pose proof (pool_apply_kind op now p r p' Ha) as H. by destruct op.
Qed.

Lemma pool_run_snoc p h p1 h' p2 : pool_run p h p1 -> pool_run p1 h' p2 -> pool_run p (h ++ h') p2.
Proof. intros H1 H2. induction H1 as [p|p now op r p1 h p3 Ha Hr IH]; [done|]. cbn [app]. econstructor; [exact Ha|by apply IH]. Qed.

Lemma known_refl p : known p p.
Proof. intros ptr. done. Qed.

Section calls.
Context (l : list (list byte)).

Lemma pool_op_held op now p h r p' m :
  pool_run (newBackendPool l) h p -> pool_apply op now p = Some (r, p') ->
  in_order _ (Pool op) m -> held p m -> held p' (track _ (Pool op) r m).
Proof.
  intros Hrun Ha Ho Hh. destruct (pool_call_ok p h l op now r p' Hrun Ha) as (Hk & Htk & Hans).
  destruct (held_known p p' m Hk Hh) as (Ht & Hr & Hu). destruct op as [rq| |ptr|ptr|ptr]; cbn [in_order track answer_ok] in *.
  - done.
  - destruct Hans as [ptrs ->]. split; [by apply Htk|]. by split.
  - destruct Ho as (_ & _ & _ & rest' & Hrest). split; [exact Ht|]. cbn [rest turn]. rewrite Hrest in *.
    specialize (Hr _ eq_refl). apply Forall_cons in Hr as [Hptr Hrest']. split; [by intros ? [= <-]|].
    intros q. destruct r as [| |[]|]; by intros [= <-].
  - by split_and!.
  - by split_and!.
Qed.

Lemma shared_call_ok A (e : lbE A) now p n a p' n' h h' m :
  pool_run (newBackendPool l) h p -> 0 <= n < 2 ^ 63 -> in_order A e m -> held p m -> shared_call A e now p n a p' n' h' ->
  answer_ok A e a /\ held p' (track A e a m) /\ known p p' /\ pool_run (newBackendPool l) (h ++ h') p' /\ n <= n'.
Proof.
  intros Hrun Hn Ho Hh Hs. pose proof Hh as (Ht & Hr & Hu).
  assert (Hsame : answer_ok A e a -> held p (track A e a m) -> p' = p -> n <= n' -> h' = [] ->
    answer_ok A e a /\ held p' (track A e a m) /\ known p p' /\ pool_run (newBackendPool l) (h ++ h') p' /\ n <= n').
  { intros H1 H2 -> H3 ->. rewrite app_nil_r. by split_and!. }
  destruct e as [c|c len|c data|c|c|addr|op|ptr| |]; cbn [shared_call] in Hs.
  - destruct Hs as (-> & -> & ->). apply Hsame; [done|by destruct c|done|lia|done].
  - destruct Hs as (Hlen & -> & -> & ->). destruct a as [data err]. apply Hsame; [exact Hlen|by destruct c|done|lia|done].
  - destruct Hs as (-> & -> & ->). destruct a as [k ok]. apply Hsame; [done| |done|lia|done]. destruct c; [|exact Hh]. cbn [track].
    destruct (turn m) as [ptr|] eqn:E; (split; [exact Ht|]; split; [exact Hr|]; cbn [turn]; rewrite ?E; exact Hu).
  - destruct Hs as (-> & -> & ->). apply Hsame; [done|by destruct c|done|lia|done].
  - destruct Hs as (-> & -> & ->). apply Hsame; [done|by destruct c|done|lia|done].
  - destruct Hs as (-> & -> & ->). apply Hsame; [done|done|done|lia|done].
  - destruct Hs as (Ha & -> & ->). destruct (pool_call_ok p h l op now a p' Hrun Ha) as (Hk & _ & Hans).
    split; [exact Hans|]. split; [by eapply pool_op_held|]. split; [exact Hk|]. split; [|lia].
    eapply pool_run_snoc; [exact Hrun|]. econstructor; [exact Ha|constructor].
  - destruct Hs as (_ & -> & -> & ->). apply Hsame; [done|done|done|lia|done].
  - destruct Hs as (-> & -> & -> & ->). rewrite Z.mod_small in * by lia. apply Hsame; [cbn [answer_ok]; lia| |done|lia|done].
    split; [exact Ht|]. cbn [track rest turn]. split; [|exact Hu]. intros x [= <-]. by apply Forall_rotation.
  - done.
Qed.

(** In order and with all it holds in memory, a goroutine can go on. *)
Lemma in_order_enabled A (e : lbE A) p h m :
  pool_run (newBackendPool l) h p -> in_order A e m -> held p m -> enabled A e p.
Proof.
  intros Hrun Ho (Ht & Hr & Hu). destruct (pool_history_rep l h p Hrun) as [l1 Hp].
  destruct e as [c|c len|c data|c|c|addr|op|ptr| |]; cbn [enabled]; try done; [|by apply Hu].
  intros now. assert (Hk : op_known op p).
  { destruct op as [rq| |ptr|ptr|ptr]; cbn [in_order op_known] in *; try done; [|by apply Hu; destruct Ho..].
    destruct Ho as (_ & _ & _ & rest' & Hrest). specialize (Hr _ Hrest). by apply Forall_cons in Hr as [? _]. }
  destruct (pool_apply_rep op now p l1 Hp Hk) as (r & p' & E & _). by exists r, p'.
Qed.
End calls.

(** ** The invariant *)

Section balancer.
Context (listenAddress : list byte) (backendAddresses : list (list byte)) (registryPort : Z).

#[local] Existing Instance monitor_spec.
#[local] Instance rules : EventSpec processE progress := main_rules listenAddress backendAddresses registryPort.

Definition exits (_ : unit) (_ : progress) : Prop := True.

Definition progress_ok (d : progress) : Prop :=
  (is_Some (pending d) -> accepting d = true) /\
  (accepting d = true -> pooled d = true /\ announced d = negb (registryPort =? 0)) /\
  (is_Some (registry d) -> registryPort <> 0 /\ pooled d = true) /\
  (announced d = true -> registryPort <> 0 /\ pooled d = true).

Lemma progress_step A (e : processE A) a d :
  main_allowed listenAddress backendAddresses registryPort A e d -> progress_ok d -> progress_ok (main_after A e a d).
Proof.
  intros Ha (H1 & H2 & H3 & H4). destruct d as [l pd r an ac pn]. unfold progress_ok.
  destruct e as [addr|l'|addrs|l'| |l'|c|]; cbn in *.
  - destruct Ha as [[E _]|(_ & -> & -> & H0 & _)].
    + unfold started in E. injection E as -> -> -> -> -> ->. cbn. split_and!; [by intros []|done|by intros []|done].
    + cbn. by split_and!.
  - by split_and!.
  - destruct Ha as (_ & -> & _). split_and!; [exact H1|intros E; by destruct (H2 E)|intros E; by destruct (H3 E)|intros E; by destruct (H4 E)].
  - destruct Ha as (-> & ->). destruct (H3 ltac:(by eexists)) as [H0 ->]. split_and!; [exact H1| |done|done].
    intros E. split; [done|]. by rewrite (proj2 (Z.eqb_neq _ _)).
  - by split_and!.
  - destruct Ha as (_ & -> & -> & _). by split_and!.
  - split_and!; [by intros []|exact H2|exact H3|exact H4].
  - destruct a.
Qed.

Definition goroutine_ok (p : backendPool) (g : prog unit * BalancerSafety.monitor) : Prop :=
  wp g.1 (fun _ _ => True) g.2 /\ held p g.2.

Definition pool_state (d : progress) (p : option backendPool) (h : history) (gs : list (prog unit * BalancerSafety.monitor)) : Prop :=
  match p with
  | None => pooled d = false /\ h = [] /\ gs = []
  | Some p =>
      pooled d = true /\ pool_run (newBackendPool backendAddresses) h p /\
      Forall (goroutine_ok p) gs
  end.

Record balancer_ok (s : balancer) : Prop := {
  ok_main : wp (main_go s) exits (main_done s);
  ok_progress : progress_ok (main_done s);
  ok_pool : pool_state (main_done s) (pool s) (past s) (goroutines s);
  ok_claims : 0 <= claims s;
  ok_clients : goroutines s <> [] -> accepting (main_done s) = true
}.

(** A call of main that makes neither the pool nor a goroutine. *)
Lemma pool_state_main A (e : processE A) a d p h gs :
  main_allowed listenAddress backendAddresses registryPort A e d -> progress_ok d -> pool_state d p h gs ->
  pool_state (main_after A e a d) (new_pool A e p) h (gs ++ spawned A e).
Proof.
  intros Ha (H1 & H2 & _) Hp. destruct e as [addr|l|addrs|l| |l|c|]; cbn [main_allowed main_after new_pool spawned] in *;
    rewrite ?app_nil_r; try exact Hp.
  - destruct (pooled d) eqn:E; destruct p; cbn [pool_state pooled] in *; destruct Hp as (Hpd & ?); rewrite E in Hpd; by split.
  - destruct Ha as (_ & Hpd & ->). destruct p as [p|]; [by destruct Hp as [E _]; rewrite E in Hpd|].
    destruct Hp as (_ & -> & ->). split; [done|]. split; constructor.
  - destruct p as [p|].
    + destruct Hp as (Hpd & Hrun & Hgs). split; [exact Hpd|]. split; [exact Hrun|]. apply Forall_app. split; [exact Hgs|].
      constructor; [|constructor]. split; [exact connection_wp|]. by split_and!.
    + destruct Hp as (Hpd & _). destruct (H2 (H1 ltac:(rewrite Ha; by eexists))) as [E _]. by rewrite E in Hpd.
Qed.

Lemma main_step_ok t d p h n gs A (e : processE A) k a :
  balancer_ok (BalancerProcess t d p h n gs) -> observe t = VisF e k ->
  balancer_ok (BalancerProcess (k a) (main_after A e a d) (new_pool A e p) h n (gs ++ spawned A e)).
Proof.
  intros [Hm Hd Hp Hn Hc] Ht. cbn in Hm, Hd, Hp, Hn, Hc.
  apply (wp_vis_inv _ _ _ _ _ Ht) in Hm as [Ha Hk]. specialize (Hk a _ eq_refl).
  split; [exact Hk|by apply progress_step|by apply pool_state_main|exact Hn|].
  cbn [goroutines main_done]. destruct Hd as (H1 & _).
  destruct e as [addr|l|addrs|l| |l|c|]; cbn [main_allowed main_after spawned] in *; rewrite ?app_nil_r; try exact Hc; try done.
  - destruct (pooled d); exact Hc.
  - intros _. apply H1. rewrite Ha. by eexists.
Qed.

Lemma registry_step_ok t d p p' h n gs rq now r :
  balancer_ok (BalancerProcess t d (Some p) h n gs) -> pool_apply (Registry rq) now p = Some (r, p') ->
  balancer_ok (BalancerProcess t d (Some p') (h ++ [(now, Registry rq, r)]) n gs).
Proof.
  intros [Hm Hd (Hpd & Hrun & Hgs) Hn Hc] Ha. cbn in Hm, Hd, Hpd, Hrun, Hgs, Hn, Hc. split; try done. cbn.
  split; [exact Hpd|]. split.
  - eapply pool_run_snoc; [exact Hrun|]. econstructor; [exact Ha|constructor].
  - destruct (pool_call_ok p h backendAddresses _ now r p' Hrun Ha) as (Hk & _).
    eapply Forall_impl; [exact Hgs|]. intros g [Hw Hh]. split; [exact Hw|]. by eapply held_known.
Qed.

Lemma goroutine_step_ok t d p p' h h' n n' gs1 u m gs2 A (e : lbE A) k a now :
  balancer_ok (BalancerProcess t d (Some p) h n (gs1 ++ (u, m) :: gs2)) -> n < 2 ^ 63 ->
  observe u = VisF e k -> shared_call A e now p n a p' n' h' ->
  balancer_ok (BalancerProcess t d (Some p') (h ++ h') n' (gs1 ++ (k a, track A e a m) :: gs2)).
Proof.
  intros [Hm Hd (Hpd & Hrun & Hgs) Hn Hc] Hlt Hu Hs. cbn in Hm, Hd, Hpd, Hrun, Hgs, Hn, Hc.
  apply Forall_app in Hgs as [Hg1 [[Hw Hh] Hg2]%Forall_cons]. cbn [fst snd] in Hw, Hh.
  apply (wp_vis_inv _ _ _ _ _ Hu) in Hw as [Ho Hk].
  destruct (shared_call_ok backendAddresses A e now p n a p' n' h h' m Hrun ltac:(done) Ho Hh Hs)
    as (Hans & Hh' & Hkn & Hrun' & Hn').
  assert (Hothers : forall gs, Forall (goroutine_ok p) gs -> Forall (goroutine_ok p') gs).
  { intros gs Hg. eapply Forall_impl; [exact Hg|]. intros g [Hw' Hh'']. split; [exact Hw'|]. by eapply held_known. }
  split; try done; cbn.
  - split; [exact Hpd|]. split; [exact Hrun'|]. apply Forall_app. split; [by apply Hothers|]. constructor; [|by apply Hothers].
    split; [|exact Hh']. by apply Hk.
  - lia.
  - intros _. apply Hc. by destruct gs1.
Qed.

Lemma balancer_step_ok s s' : balancer_ok s -> balancer_step s s' -> claims s < 2 ^ 63 -> balancer_ok s'.
Proof.
  intros Hs Hst Hn. destruct Hst as [t t' d p h n gs Ht|t d p h n gs A e k a Ht|t d p p' h n gs rq now r Han Ha|t d p h n gs1 u u' m gs2 Hu|t d p p' h h' n n' gs1 u m gs2 A e k a now Hu Hc].
  - destruct Hs as [Hm Hd Hp Hc Hg]. split; try done. by eapply wp_tau_inv.
  - by apply main_step_ok with t.
  - by eapply registry_step_ok.
  - destruct Hs as [Hm Hd Hp Hc Hg]. cbn in Hp, Hg. split; try done; cbn.
    + destruct p as [p|]; [|by destruct Hp as (_ & _ & E); destruct gs1]. destruct Hp as (Hpd & Hrun & Hgs).
      split; [exact Hpd|]. split; [exact Hrun|]. apply Forall_app in Hgs as [H1 [[Hw Hh] H2]%Forall_cons].
      apply Forall_app. split; [exact H1|]. constructor; [|exact H2]. split; [|exact Hh]. by eapply wp_tau_inv.
    + intros _. apply Hg. by destruct gs1.
  - by eapply goroutine_step_ok.
Qed.

Lemma claims_step s s' : balancer_step s s' -> claims s <= claims s'.
Proof.
  destruct 1 as [| | | |t d p p' h h' n n' gs1 u m gs2 A e k a now Hu Hc]; cbn; try lia.
  destruct e; cbn [shared_call] in Hc; try (destruct Hc as (_ & -> & _); lia); try (destruct Hc as (_ & _ & -> & _); lia).
Qed.

Lemma balancer_reaches s s' :
  balancer_ok s -> rtc balancer_step s s' -> claims s' < 2 ^ 63 -> balancer_ok s'.
Proof.
  intros Hs Hr. revert Hs. induction Hr as [s|s s1 s' Hst Hr IH]; [done|]. intros Hs Hn. apply IH; [|exact Hn].
  apply (balancer_step_ok s); [exact Hs|exact Hst|].
  assert (Hle : forall a b, rtc balancer_step a b -> claims a <= claims b).
  { intros a b H. induction H as [a|a b c Hab Hbc IH']; [lia|]. pose proof (claims_step a b Hab). lia. }
  pose proof (claims_step s s1 Hst). pose proof (Hle s1 s' Hr). lia.
Qed.
End balancer.

(** ** The flags *)

Lemma backend_addresses_length l addresses : backend_addresses l = Some addresses -> length addresses = length l.
Proof.
  revert addresses. induction l as [|b l IH]; intros addresses; cbn [backend_addresses]; [by intros [= <-]|].
  destruct (backendAddress b); [|done]. destruct (backend_addresses l) as [rest|]; [|done].
  intros [= <-]. cbn [length]. by rewrite (IH rest).
Qed.

(** Two backends, or a registry that starts empty. *)
Lemma settings_backends listenHost listenPort registryPort backends listenAddress addresses :
  settings listenHost listenPort registryPort backends = Some (listenAddress, addresses) ->
  0 <= registryPort <= 65535 /\ zlen addresses = (if registryPort =? 0 then backendCount else 0).
Proof.
  unfold settings. destruct (hostPort listenHost listenPort) as [a|]; [|done].
  destruct (Z.eqb_spec registryPort 0) as [->|H0]; cbn [andb negb].
  - destruct (Z.eqb_spec (zlen backends) backendCount) as [Hb|Hb]; cbn [negb andb]; [|done].
    destruct (backend_addresses backends) as [l|] eqn:E; [|done]. intros [= _ <-].
    rewrite (backend_addresses_length _ _ E). by split.
  - destruct (Z.eqb_spec (zlen backends) 0) as [Hb|Hb]; cbn [negb]; [|done].
    destruct (_ || _) eqn:Hr; [done|]. apply orb_false_iff in Hr as [H1%Z.ltb_ge H2%Z.ltb_ge].
    destruct (backend_addresses backends) as [l|] eqn:E; [|done]. intros [= _ <-].
    rewrite (backend_addresses_length _ _ E). by split.
Qed.

Lemma main_fatal listenHost listenPort registryPort backends :
  settings listenHost listenPort registryPort backends = None ->
  exists k, observe (main listenHost listenPort registryPort backends) = VisF Fatal k.
Proof. intros E. unfold main. rewrite E. eexists. unfold fatal. rewrite observe_bind. reflexivity. Qed.

Lemma main_init_ok listenHost listenPort registryPort backends listenAddress addresses :
  settings listenHost listenPort registryPort backends = Some (listenAddress, addresses) ->
  balancer_ok listenAddress addresses registryPort (balancer_init (main listenHost listenPort registryPort backends)).
Proof.
  intros E. split; try done; cbn.
  - unfold main. rewrite E. apply wp_bind. eapply wp_mono; [|apply serve_wp]. intros [] d [Ha Hn]. by apply fatal_wp.
  - split_and!; try done; by intros [].
Qed.

(** ** Executions, which compute *)

(** What listening or accepting gives. *)
Definition main_answer A (e : processE A) (a : option Z) : option A :=
  match e in processE A return option A with
  | Listen _ | Accept _ => Some a
  | CloseListener _ | NewPool _ | GoRegistry _ | PrintServing | GoConnection _ => Some tt
  | Fatal => None
  end.

(** A step of main, or a request to the registry. *)
Variant choice := Main (a : option Z) | Request (now : Z) (rq : registry_request).

Definition drive_step (c : choice) (s : balancer) : option balancer :=
  let '(BalancerProcess t d p h n gs) := s in
  match c with
  | Main a =>
      match observe t with
      | RetF _ => None
      | TauF t' => Some (BalancerProcess t' d p h n gs)
      | VisF e k =>
          match main_answer _ e a with
          | Some a => Some (BalancerProcess (k a) (main_after _ e a d) (new_pool _ e p) h n (gs ++ spawned _ e))
          | None => None
          end
      end
  | Request now rq =>
      match announced d, p with
      | true, Some p =>
          match pool_apply (Registry rq) now p with
          | Some (r, p') => Some (BalancerProcess t d (Some p') (h ++ [(now, Registry rq, r)]) n gs)
          | None => None
          end
      | _, _ => None
      end
  end.

Fixpoint drive (choices : list choice) (s : balancer) : option balancer :=
  match choices with
  | [] => Some s
  | c :: choices => match drive_step c s with Some s => drive choices s | None => None end
  end.

Lemma drive_reaches choices : forall s s', drive choices s = Some s' -> rtc balancer_step s s'.
Proof.
  induction choices as [|c choices IH]; intros s s'; cbn [drive]; [by intros [= ->]|].
  destruct (drive_step c s) as [s1|] eqn:E; [|done]. intros H. eapply rtc_l; [|by apply IH]. clear IH H.
  destruct s as [t d p h n gs]. cbn [drive_step] in E. destruct c as [a|now rq].
  - destruct (observe t) as [x|t'|A e k] eqn:Et; [done|injection E as <-; by apply step_main_tau|].
    destruct (main_answer A e a) as [b|]; [|done]. injection E as <-. by apply step_main.
  - destruct (announced d) eqn:Ed; [|done]. destruct p as [p|]; [|done].
    destruct (pool_apply (Registry rq) now p) as [[r p']|] eqn:Ea; [|done]. injection E as <-. by apply step_registry.
Qed.

(** The goroutines of the clients did not run yet. *)
Lemma drive_fresh choices : forall s s',
  drive choices s = Some s' -> Forall (eq (connection, monitor_init)) (goroutines s) ->
  Forall (eq (connection, monitor_init)) (goroutines s').
Proof.
  induction choices as [|c choices IH]; intros s s'; cbn [drive]; [by intros [= ->]|].
  destruct (drive_step c s) as [s1|] eqn:E; [|done]. intros H Hs. apply (IH s1); [exact H|]. clear IH H.
  destruct s as [t d p h n gs]. cbn [drive_step goroutines] in *. destruct c as [a|now rq].
  - destruct (observe t) as [x|t'|A e k]; [done|injection E as <-; exact Hs|].
    destruct (main_answer A e a) as [b|]; [|done]. injection E as <-. cbn [goroutines]. apply Forall_app. split; [exact Hs|].
    destruct e; cbn [spawned]; by repeat constructor.
  - destruct (announced d); [|done]. destruct p as [p|]; [|done].
    destruct (pool_apply (Registry rq) now p) as [[r p']|]; [|done]. by injection E as <-.
Qed.
