(* ===== verification/BalancerTheorems.v ===== *)
(** * What holds of the load balancer

    The properties of load-balancer/server.go, each with a run or an input where
    its hypotheses hold. *)

From S2P Require Import Prelude CLib Effects GoLib PyLib BalancerPool Registration HttpServe Balancer BalancerSafety BalancerExec.
From S2P Require GoProcess BalancerMain.
Local Open Scope Z_scope.
Local Open Scope prog_scope.

(** ** The registry *)

(** The backends a call is about were in a snapshot. *)
Definition op_taken (op : pool_op) (h : history) : Prop :=
  match op with
  | Available ptr | MarkFailure ptr | MarkSuccess ptr => exists now l, (now, Snapshot, Taken l) ∈ h /\ ptr ∈ l
  | Registry _ | Snapshot => True
  end.

(** C27: the registry implements its contract.  In every history of calls on the pool,
    in any order and at any times, every request to the registry is answered as the
    table of leases says, a snapshot holds as many backends as there are leases that
    did not run out, there are never more than 32 backends, and no call panics. *)
Theorem registry_refines l h p :
  NoDup l -> zlen l <= maxBackends -> pool_run (newBackendPool l) h p ->
  exists t, pool_explained (static_leases l) h t /\ pool_ok p t /\ zlen (backends p) <= maxBackends /\
    (forall op now, op_taken op h -> exists r p', pool_apply op now p = Some (r, p')).
Proof.
  intros Hnd Hl Hr. destruct (pool_run_ok _ _ _ _ (newBackendPool_ok l Hnd Hl) Hr) as (t & He & Hp & _ & Hf).
  exists t. split; [exact He|]. split; [exact Hp|]. split.
  - destruct Hp as (l' & (Hb & _) & _ & Hlen & _). by rewrite Hb, length_fmap.
  - intros op now Hop. assert (Hk : op_known op p).
    { destruct op as [rq| |ptr|ptr|ptr]; try done; destruct Hop as (now' & l' & Hin & Hptr);
        pose proof (proj1 (Forall_forall _ _) Hf _ Hin l' eq_refl) as H;
        exact (proj1 (Forall_forall _ _) H ptr Hptr). }
    destruct (pool_apply_ok op now p t Hp Hk) as (r & p' & t' & E & _). by exists r, p'.
Qed.

(** A backend registers, is listed, and is gone after its lease. *)
Definition put_request : registry_request := RegistryRequest "/backends" MethodPut (Some (lit "10.0.0.1:80\n")).
Definition get_request : registry_request := RegistryRequest "/backends" MethodGet (Some []).
Definition registry_demo : list (Z * pool_op) :=
  [(5, Registry put_request); (6, Registry get_request); (3000000005, Registry get_request)].

Fixpoint apply_all (ops : list (Z * pool_op)) (p : backendPool) : option (history * backendPool) :=
  match ops with
  | [] => Some ([], p)
  | (now, op) :: rest =>
      match pool_apply op now p with
      | Some (r, p) =>
          match apply_all rest p with Some (h, p) => Some ((now, op, r) :: h, p) | None => None end
      | None => None
      end
  end.

Lemma apply_all_run ops p h p' : apply_all ops p = Some (h, p') -> pool_run p h p'.
Proof.
  revert p h. induction ops as [|[now op] ops IH]; intros p h; cbn [apply_all].
  - intros [= <- <-]. constructor.
  - destruct (pool_apply op now p) as [[r p1]|] eqn:E; [|done].
    destruct (apply_all ops p1) as [[h1 p2]|] eqn:E1; [|done]. intros [= <- <-]. econstructor; [exact E|]. by apply IH.
Qed.

Definition registry_demo_results : list pool_result :=
  [Replied (Status 204); Replied (Listing [lit "10.0.0.1:80"]); Replied (Listing [])].

Lemma registry_refines_witness :
  exists h p, pool_run (newBackendPool []) h p /\ snd <$> h = registry_demo_results /\
    exists t, pool_explained (static_leases []) h t /\ pool_ok p t /\ zlen (backends p) <= maxBackends /\
      (forall op now, op_taken op h -> exists r p', pool_apply op now p = Some (r, p')).
Proof.
  assert (E : snd <$> (default ([], newBackendPool []) (apply_all registry_demo (newBackendPool []))).1 = registry_demo_results)
    by (vm_compute; reflexivity).
  assert (Hs : is_Some (apply_all registry_demo (newBackendPool []))) by (vm_compute; by eexists).
  destruct (apply_all registry_demo (newBackendPool [])) as [[h p]|] eqn:Eh; [|by destruct Hs].
  exists h, p. pose proof (apply_all_run _ _ _ _ Eh) as Hrun. split; [exact Hrun|]. split; [exact E|].
  exact (registry_refines [] h p (NoDup_nil_2) ltac:(vm_compute; congruence) Hrun).
Defined.

(** C32: a backend that failed is left alone for one second, and then tried again.
    After every history of calls by any goroutines, at any times and whatever the
    addresses, a backend that a goroutine holds is available exactly when its lease has
    not run out and the last mark of it, if there is one, is a success or a failure at
    least one second ago: registrations, removals and snapshots change nothing about
    that, and a later success of another connection ends the second early. *)
Theorem failure_cooldown l h p ptr now :
  pool_run (newBackendPool l) h p -> is_Some (objects p !! ptr) ->
  exists b, objects p !! ptr = Some b /\
    available ptr now p =
      Some (unexpired now b && match last_failure ptr h with Some t => t + healthCooldown <=? now | None => true end, p).
Proof.
  intros Hrun [b Hb]. exists b. split; [exact Hb|]. pose proof (history_retry l h p ptr Hrun) as Hr.
  unfold retry_at in Hr. rewrite Hb in Hr. cbn in Hr. unfold available, usable. rewrite Hb, Hr.
  destruct (last_failure ptr h); cbn; [by rewrite Z.leb_antisym|done].
Qed.

Definition cooldown_backends : list (list byte) := [lit "10.0.0.1:80"; lit "10.0.0.2:80"].

(** The second backend fails; the first fails and then serves. *)
Definition cooldown_calls : list (Z * pool_op) :=
  [(7, MarkFailure 1); (8, Snapshot); (9, MarkFailure 0); (10, MarkSuccess 0)].

Lemma failure_cooldown_witness :
  exists h p, pool_run (newBackendPool cooldown_backends) h p /\
    last_failure 1 h = Some 7 /\ last_failure 0 h = None /\
    available 1 500000000 p = Some (false, p) /\ available 1 1000000007 p = Some (true, p) /\
    available 0 500000000 p = Some (true, p).
Proof.
  assert (E : fst <$> apply_all cooldown_calls (newBackendPool cooldown_backends) =
    Some [(7, MarkFailure 1, Marked); (8, Snapshot, Taken [0; 1]%nat); (9, MarkFailure 0, Marked); (10, MarkSuccess 0, Marked)])
    by (vm_compute; reflexivity).
  assert (Eo : (fun hp => (expiresAt <$> objects hp.2 !! 0%nat, expiresAt <$> objects hp.2 !! 1%nat)) <$>
    apply_all cooldown_calls (newBackendPool cooldown_backends) = Some (Some None, Some None)) by (vm_compute; reflexivity).
  destruct (apply_all _ (newBackendPool cooldown_backends)) as [[h p]|] eqn:Eh; [|discriminate E].
  apply Some_inj in E. cbn [fst] in E. apply Some_inj in Eo. cbn [snd] in Eo. apply pair_eq in Eo as [E0 E1].
  pose proof (apply_all_run _ _ _ _ Eh) as Hrun. exists h, p. split; [exact Hrun|].
  assert (H7 : last_failure 1 h = Some 7) by (rewrite E; reflexivity).
  assert (H0 : last_failure 0 h = None) by (rewrite E; reflexivity).
  destruct (objects p !! 0%nat) as [b0|] eqn:Hb0; [|discriminate E0].
  destruct (objects p !! 1%nat) as [b1|] eqn:Hb1; [|discriminate E1].
  apply Some_inj in E0, E1.
  destruct (failure_cooldown cooldown_backends h p 1 500000000 Hrun ltac:(by exists b1)) as (x & Hx & A1).
  destruct (failure_cooldown cooldown_backends h p 1 1000000007 Hrun ltac:(by exists b1)) as (y & Hy & A2).
  destruct (failure_cooldown cooldown_backends h p 0 500000000 Hrun ltac:(by exists b0)) as (z & Hz & A3).
  rewrite Hb1 in Hx, Hy. rewrite Hb0 in Hz. apply Some_inj in Hx, Hy, Hz. subst x y z.
  rewrite H7 in A1, A2. rewrite H0 in A3. unfold unexpired in A1, A2, A3. rewrite E1 in A1, A2. rewrite E0 in A3. by split_and!.
Defined.

(** ** One connection *)

(** The texts of the errors are not looked into. *)
#[local] Opaque error_502 error_400 error_response.



(** C31: a connection terminates, and the client gets the response of the first
    backend, in the rotation that its turn gives, that is available and responds,
    or 502 when there is none; what is not a request of at most 64 KiB without a
    body gets 400 and reaches no backend.  How the input was cut does not matter.
    The backends that were delivered the request are those up to the one that
    answers, once each; one that failed before it is marked. *)
Theorem connection_serves now net w l :
  pool_rep (w_pool w) l -> w_client w = [] -> Forall chunk_ok (w_rx w) -> (forall a, response_ok (net a)) ->
  0 <= w_selection w < 2 ^ 63 - 1 ->
  exists w', evals (lb_env now net) handleConnection w tt w' /\
    match request_of (mjoin (w_rx w)) with
    | None => w_out w' = w_out w ++ error_400 /\ w_requests w' = w_requests w /\ w_pool w' = w_pool w
    | Some request =>
        let order := rotation (unexpired_in now l) (w_selection w) in
        w_out w' = w_out w ++
          (match head (omap (answer_of now net) order.*2) with Some chunks => mjoin chunks | None => error_502 end) /\
        w_requests w' = w_requests w ++ ((fun a => (a, request)) <$> contacted now net order.*2) /\
        (forall l1 ptr b l2, order = l1 ++ (ptr, b) :: l2 -> omap (answer_of now net) l1.*2 = [] ->
           usable now b = true -> answer_of now net b = None ->
           exists b', objects (w_pool w') !! ptr = Some b' /\ retryAt b' = Some (now + healthCooldown))
    end.
Proof.
  intros Hr Hcl Hrx Hnet Hsel.
  destruct (handleConnection_evals now net l w Hr Hcl Hrx Hnet Hsel) as [rx He]. eexists. split; [exact He|].
  unfold served. destruct (request_of (mjoin (w_rx w))) as [request|]; [|by split_and!].
  cbv zeta. destruct (decide (unexpired_in now l = [])) as [Hc|Hc].
  - rewrite bool_decide_true, Hc, rotation_nil by done. split; [reflexivity|]. split; [by rewrite app_nil_r|].
    intros l1 ptr b l2 E. by destruct l1.
  - rewrite bool_decide_false by done.
    destruct (after_tries_out now net request (rotation (unexpired_in now l) (w_selection w))
      (claimed (snapped now l (set_rx rx w)))) as [H1 H2].
    split; [exact H1|]. split; [exact H2|]. intros l1 ptr b l2 E Hno Hu Ha.
    change (w_selection (set_rx rx w)) with (w_selection w). rewrite E. apply after_tries_marks; [|done..].
    rewrite <-E. rewrite rotation_perm. by destruct (prune_ok now _ _ Hr) as [_ (_ & _ & Hnd & _)].
Qed.

(** Two backends, of which the first refuses connections. *)
Definition demo_pool : backendPool := newBackendPool cooldown_backends.
Definition demo_objects : list (nat * backendState) :=
  [(0%nat, BackendState (lit "10.0.0.1:80") None None); (1%nat, BackendState (lit "10.0.0.2:80") None None)].
Definition demo_net (addr : list byte) : behaviour :=
  if bool_decide (addr = lit "10.0.0.1:80") then Refuses else Responds [lit "HTTP/1.0 200 OK\r\n"; lit "\r\nhi"] true.
Definition demo_world : world :=
  World demo_pool 4 [lit "GET / HTTP/1.0\r"; lit "\n\r\nrest"] [] [] [] Refuses [].

Lemma demo_rep : pool_rep demo_pool demo_objects.
Proof.
  split; [by vm_compute|]. split; [repeat constructor; by vm_compute|]. split.
  - apply (bool_decide_eq_true_1 (NoDup [0; 1]%nat)). reflexivity.
  - intros ptr Hp. change (allocated demo_pool) with 2%nat. destruct ptr as [|[|ptr]]; [lia..|].
    exfalso. revert Hp. unfold demo_pool, newBackendPool, cooldown_backends. cbn.
    rewrite !lookup_insert_ne by lia. rewrite lookup_empty. by intros [].
Qed.

Lemma connection_serves_witness :
  exists w', evals (lb_env 10 demo_net) handleConnection demo_world tt w' /\
    w_out w' = lit "HTTP/1.0 200 OK\r\n\r\nhi" /\ w_requests w' = [(lit "10.0.0.2:80", lit "GET / HTTP/1.0\r\n\r\n")].
Proof.
  destruct (connection_serves 10 demo_net demo_world demo_objects demo_rep eq_refl) as (w' & He & H).
  - repeat constructor; try done; vm_compute; congruence.
  - intros a. unfold demo_net. case_bool_decide; [done|]. repeat constructor; try done; vm_compute; congruence.
  - vm_compute. split; congruence.
  - assert (Er : request_of (mjoin (w_rx demo_world)) = Some (lit "GET / HTTP/1.0\r\n\r\n")) by (vm_compute; reflexivity).
    rewrite Er in H. destruct H as (Hout & Hreq & _). exists w'. split; [exact He|]. rewrite Hout, Hreq.
    split; vm_compute; reflexivity.
Defined.

(** C33: what a client that is gone costs the others.  When every write to the client
    fails, whether or not part of it arrives, a connection goes through all backends
    that are available, in rotation: each is sent the request, and each is marked as
    failed for a second although it responds. *)
Theorem client_failure_blamed now net w l request :
  pool_rep (w_pool w) l -> Forall chunk_ok (w_rx w) -> (forall a, response_ok (net a)) ->
  0 <= w_selection w < 2 ^ 63 - 1 -> request_of (mjoin (w_rx w)) = Some request -> client_gone (length l) w ->
  Forall (fun x => usable now x.2 = true -> exists c cs clean, net (address x.2) = Responds (c :: cs) clean) l ->
  let tried := usable_in now (rotation (unexpired_in now l) (w_selection w)) in
  exists w', evals (lb_env now net) handleConnection w tt w' /\
    w_requests w' = w_requests w ++ ((fun x => (address x.2, request)) <$> tried) /\
    Forall (fun x => retry_at (w_pool w') x.1 = Some (now + healthCooldown)) tried.
Proof. exact (handleConnection_blames now net request l w). Qed.

(** Both backends respond, and the client takes three bytes of the second response. *)
Definition gone_net (_ : list byte) : behaviour := Responds [lit "HTTP/1.0 200 OK\r\n\r\nhi"] true.
Definition gone_world : world :=
  World demo_pool 4 [lit "GET / HTTP/1.0\r\n\r\n"] [Some 0; Some 3; Some 0] [] [] Refuses [].

Lemma client_failure_blamed_witness :
  exists w', evals (lb_env 10 gone_net) handleConnection gone_world tt w' /\
    w_requests w' = [(lit "10.0.0.1:80", lit "GET / HTTP/1.0\r\n\r\n"); (lit "10.0.0.2:80", lit "GET / HTTP/1.0\r\n\r\n")] /\
    retry_at (w_pool w') 0 = Some (10 + healthCooldown) /\ retry_at (w_pool w') 1 = Some (10 + healthCooldown).
Proof.
  destruct (client_failure_blamed 10 gone_net gone_world demo_objects (lit "GET / HTTP/1.0\r\n\r\n") demo_rep) as (w' & He & Hq & Hm).
  - repeat constructor; try done; vm_compute; congruence.
  - intros a. repeat constructor; try done; vm_compute; congruence.
  - vm_compute. split; congruence.
  - vm_compute. reflexivity.
  - split; [by repeat constructor|]. vm_compute. lia.
  - repeat constructor; by eexists _, _, _.
  - assert (Et : usable_in 10 (rotation (unexpired_in 10 demo_objects) (w_selection gone_world)) = demo_objects)
      by (vm_compute; reflexivity).
    rewrite Et in Hq, Hm. apply Forall_cons in Hm as [H0 [H1 _]%Forall_cons]. exists w'. split; [exact He|]. split; [rewrite Hq; vm_compute; reflexivity|]. split; [exact H0|exact H1].
Defined.

(** ** The HTTP server registers *)

(** C28: a server that renews its registration in time stays registered.  For every
    host and port that serve of server.py accepts in registry mode, the thread that
    renews sends one PUT of the address per turn, whatever comes back, reports a
    failure once until a call succeeds, and ends when the server stops; then one
    DELETE is sent.  The registry takes that address as it is: in every history in
    which a PUT of it succeeded and no call comes 3 seconds after the last PUT of it
    nor removes it, every listing holds the address, and every PUT of it succeeds,
    however many others register. *)
Theorem registration_kept host port address registry_port results r :
  1 <= port <= 65535 -> advertised_address host port = Value address ->
  Forall (fun r => match r with Value _ => True | Raise e _ => e = OSError end) (r :: results) ->
  exists data,
    encode_ascii address = Some data /\
    evals registration_env (renew_registration registry_port address) (RWorld results [] 0) None
      (RWorld [] (repeat (registry_url registry_port, data, text "PUT") (length results)) (failures false results)) /\
    evals registration_env (deregister registry_port address) (RWorld [r] [] 0) None
      (RWorld [] [(registry_url registry_port, data, text "DELETE")] 0) /\
    (forall l h0 last h p,
      NoDup l -> zlen l <= maxBackends ->
      pool_run (newBackendPool l)
        (h0 ++ (last, Registry (RegistryRequest "/backends" MethodPut (Some data)), Replied (Status 204)) :: h) p ->
      renewed data last h -> Forall (listed data) h).
Proof.
  intros Hport Ha [Hr Hrs]%Forall_cons. destruct (advertised_taken host port address Hport Ha) as (data & Hd & Htaken).
  exists data. split; [exact Hd|]. split; [exact (renew_evals registry_port address data results false [] 0 Hd Hrs)|].
  split; [by apply deregister_evals|]. intros l h0 last h p Hnd Hl Hrun Hren. eapply lease_kept; [exact Hnd|exact Hl|exact Hrun| |exact Hren].
  cbn [registers]. by rewrite !bool_decide_true.
Qed.

(** The second call fails; another server registers in between. *)
Definition demo_data : list byte := lit "127.0.0.1:8088".
Definition demo_put : pool_op := Registry (RegistryRequest "/backends" MethodPut (Some demo_data)).
Definition renewal_demo : list (Z * pool_op) :=
  [(1000000000, demo_put); (1500000000, Registry put_request); (2000000000, demo_put); (4500000000, Registry get_request)].
Definition renewal_history : history :=
  [(1500000000, Registry put_request, Replied (Status 204)); (2000000000, demo_put, Replied (Status 204));
   (4500000000, Registry get_request, Replied (Listing [demo_data]))].

Lemma registration_kept_witness :
  evals registration_env (renew_registration 9000 (text "127.0.0.1:8088"))
    (RWorld [Value tt; Raise OSError "timed out"; Value tt] [] 0) None
    (RWorld [] (repeat (registry_url 9000, demo_data, text "PUT") 3) 1) /\
  Forall (listed demo_data) renewal_history.
Proof.
  assert (E : advertised_address (text "0.0.0.0") 8088 = Value (text "127.0.0.1:8088")) by (vm_compute; reflexivity).
  assert (Hc : encode_ascii (text "127.0.0.1:8088") = Some demo_data) by (vm_compute; reflexivity).
  destruct (registration_kept (text "0.0.0.0") 8088 _ 9000 [Value tt; Raise OSError "timed out"; Value tt] (Value tt)
    ltac:(lia) E ltac:(by repeat constructor)) as (data & Hd & He & _ & Hk).
  rewrite Hc in Hd. apply Some_inj in Hd. rewrite <-Hd in He, Hk. split; [exact He|].
  destruct (apply_all renewal_demo (newBackendPool [])) as [[h p]|] eqn:Eh; [|by vm_compute in Eh].
  assert (Eh' : h = (1000000000, demo_put, Replied (Status 204)) :: renewal_history).
  { assert (Ef : fst <$> apply_all renewal_demo (newBackendPool []) = Some ((1000000000, demo_put, Replied (Status 204)) :: renewal_history))
      by (vm_compute; reflexivity). rewrite Eh in Ef. by apply Some_inj in Ef. }
  rewrite Eh' in Eh. apply (Hk [] [] 1000000000 renewal_history p); [constructor|done|by eapply apply_all_run|].
  assert (Hr : registers demo_data (Registry put_request) = false /\ registers demo_data demo_put = true) by (split; vm_compute; reflexivity).
  destruct Hr as [Hr1 Hr2]. cbn [renewed renewal_history]. rewrite Hr1, Hr2. unfold backendLease. repeat split; lia.
Defined.

(** C29: a server that stops leaves the registry for good.  However serve of server.py and
    the thread that renews its registration are interleaved, and however their calls
    end: the registry is sent PUTs of the address, and after the last of them at most one
    DELETE, which is there when serve ended with the registration begun; once the server
    stops, the thread that renews ends within six of its steps, so that the wait for it
    ends; and the registry, when it was asked to remove the address, whatever it answers,
    does not list it again unless someone registers it again. *)
Theorem registration_withdrawn host port address registry_port p :
  1 <= port <= 65535 -> advertised_address host port = Value address ->
  rtc process_step (process_init host port (Some registry_port)) p ->
  exists data n withdrawn,
    encode_ascii address = Some data /\
    requests p = repeat (renewal_put registry_port data) n ++ (if withdrawn : bool then [withdrawal registry_port data] else []) /\
    (returned (main_thread p) -> renewal p <> None -> withdrawn = true) /\
    (withdrawn = true -> exists u, renewal p = Some u /\ returned u) /\
    (stop p = true -> exists u, renewal p = Some u /\ settled u) /\
    (forall l h0 now r h p,
      NoDup l -> zlen l <= maxBackends ->
      pool_run (newBackendPool l)
        (h0 ++ (now, Registry (RegistryRequest "/backends" MethodDelete (Some data)), r) :: h) p ->
      Forall (fun x => registers data x.1.2 = false) h -> Forall (unlisted data) h).
Proof.
  intros Hport Ha Hr. destruct (advertised_taken host port address Hport Ha) as (data & Hd & Htaken).
  destruct (process_reachable registry_port address data Hd host port p Ha Hr) as (ph & n & [Hm Hb Hnone Hren Hl]).
  assert (Hst : forall b, stopped ph = b -> b = true -> ph <> Before) by (intros b <-; by destruct ph).
  exists data, n, (bool_decide (ph = Withdrawn)). split; [exact Hd|]. split; [|split; [|split; [|split]]].
  - rewrite Hl. by destruct ph.
  - intros [class Hret] Hn. apply (wp_ret_inv _ _ _ _ Hret) in Hm as [->| ->]; [|done]. by destruct (Hnone eq_refl).
  - intros E%bool_decide_eq_true. destruct (Hren ltac:(by rewrite E)) as (u & Hu & _ & _ & Hj). exists u. split; [exact Hu|].
    apply Hj. by rewrite E.
  - intros E. rewrite Hb in E. destruct (Hren (Hst _ eq_refl E)) as (u & Hu & _ & Hs & _). exists u. split; [exact Hu|].
    by destruct (Hs 1%nat).
  - intros l h0 now r h q Hnd Hlen Hrun Hh. eapply withdrawn_unlisted; [exact Hnd|exact Hlen|exact Hrun| |exact Hh].
    cbn [removes]. by rewrite !bool_decide_true.
Qed.

(** Six calls begin to serve, the registration is renewed, a client comes, an interrupt,
    the renewing thread ends, and the registration is withdrawn. *)
Definition shutdown : list (bool * bool) :=
  repeat (true, true) 6 ++ repeat (false, true) 2 ++ repeat (true, true) 3 ++ [(true, false)] ++ repeat (true, true) 1 ++
  repeat (false, true) 3 ++ repeat (true, true) 3.

Lemma registration_withdrawn_witness :
  exists p, rtc process_step (process_init (text "0.0.0.0") 8088 (Some 9000)) p /\ returned (main_thread p) /\
    requests p = [renewal_put 9000 demo_data; withdrawal 9000 demo_data].
Proof.
  set (p0 := process_init (text "0.0.0.0") 8088 (Some 9000)).
  assert (Es : (fun p => (has_returned (main_thread p), length (requests p), match renewal p with Some _ => true | None => false end)) <$>
    (drive shutdown p0) = Some (true, 2%nat, true)) by (vm_compute; reflexivity).
  destruct (drive shutdown p0) as [p|] eqn:Ed; [|done]. injection Es as Hr Hn Hs.
  pose proof (process_drive_reaches _ _ _ Ed) as Hreach.
  destruct (registration_withdrawn (text "0.0.0.0") 8088 (text "127.0.0.1:8088") 9000 p) as (data & n & b & Hd & Hq & Hw & _).
  - lia.
  - vm_compute. reflexivity.
  - exact Hreach.
  - assert (Hret : returned (main_thread p)).
    { unfold has_returned in Hr. destruct (observe (main_thread p)) as [x|t|A e k] eqn:E; [by exists x|done..]. }
    assert (Hc : encode_ascii (text "127.0.0.1:8088") = Some demo_data) by (vm_compute; reflexivity).
    rewrite Hc in Hd. apply Some_inj in Hd. subst data.
    rewrite (Hw Hret) in Hq by (intros E; by rewrite E in Hs).
    exists p. split; [exact Hreach|]. split; [exact Hret|]. rewrite Hq in Hn |- *.
    rewrite length_app, repeat_length in Hn. cbn [length] in Hn. by replace n with 1%nat by lia.
Defined.

(** ** The process *)

(** C9: the process of the load balancer, for all flags, two equal backends included.  It exits at once, or it has two
    backends and no registry, or a registry and a pool that starts empty.  In every
    interleaving of main, the registry and the goroutines of the clients, on the
    shared pool and the shared counter, whatever the network does: main listens,
    and then gives every client it accepts a goroutine before it accepts the next, and
    exits only before that; the calls of the pool are a history of the pool that was
    made from the flags; and every goroutine keeps the rules of a connection and can
    go on: no call of the pool panics and no backend is missing, while fewer than 2^63
    requests were made. *)
Theorem balancer_process listenHost listenPort registryPort backends :
  match BalancerMain.settings listenHost listenPort registryPort backends with
  | None => exists k, observe (BalancerMain.main listenHost listenPort registryPort backends) = VisF GoProcess.Fatal k
  | Some (listenAddress, addresses) =>
      0 <= registryPort <= 65535 /\ zlen addresses = (if registryPort =? 0 then 2 else 0) /\
      forall s,
        rtc BalancerMain.balancer_step (BalancerMain.balancer_init (BalancerMain.main listenHost listenPort registryPort backends)) s ->
        BalancerMain.claims s < 2 ^ 63 ->
        (forall A e k, observe (BalancerMain.main_go s) = VisF e k ->
           BalancerMain.main_allowed listenAddress addresses registryPort A e (BalancerMain.main_done s)) /\
        (forall p, BalancerMain.pool s = Some p ->
           pool_run (newBackendPool addresses) (BalancerMain.past s) p /\
           forall u m A e k, (u, m) ∈ BalancerMain.goroutines s -> observe u = VisF e k ->
             in_order A e m /\ BalancerMain.enabled A e p) /\
        (BalancerMain.goroutines s <> [] ->
           is_Some (BalancerMain.pool s) /\ BalancerMain.accepting (BalancerMain.main_done s) = true)
  end.
Proof.
  destruct (BalancerMain.settings _ _ _ _) as [[listenAddress addresses]|] eqn:E; [|by apply BalancerMain.main_fatal].
  destruct (BalancerMain.settings_backends _ _ _ _ _ _ E) as [Hport Hlen]. split; [exact Hport|]. split; [exact Hlen|].
  intros s Hr Hn.
  destruct (BalancerMain.balancer_reaches _ _ _ _ _ (BalancerMain.main_init_ok _ _ _ _ _ _ E) Hr Hn)
    as [Hm Hd Hp Hc Hg]. split; [|split].
  - intros A e k He. by apply (wp_vis_inv _ _ _ _ _ He) in Hm as [Ha _].
  - intros p Ep. rewrite Ep in Hp. destruct Hp as (_ & Hrun & Hgs). split; [exact Hrun|]. intros u m A e k Hin He.
    rewrite Forall_forall in Hgs. destruct (Hgs _ Hin) as [Hw Hh]. apply (wp_vis_inv _ _ _ _ _ He) in Hw as [Ho _].
    split; [exact Ho|]. by eapply (BalancerMain.in_order_enabled addresses).
  - intros Hne. split; [|by apply Hg]. destruct (BalancerMain.pool s); [by eexists|]. by destruct Hp as (_ & _ & ?).
Qed.

(** A registry on port 8001, a backend that registers, and a client. *)
Definition demo_main : GoProcess.process unit := BalancerMain.main (lit "127.0.0.1") 8000 8001 [].

Definition demo_choices : list BalancerMain.choice :=
  [BalancerMain.Main (Some 3); BalancerMain.Main None; BalancerMain.Main (Some 4); BalancerMain.Main None;
   BalancerMain.Request 5 put_request; BalancerMain.Main None; BalancerMain.Main None; BalancerMain.Main None;
   BalancerMain.Main (Some 5); BalancerMain.Main None].

Definition demo_end : option BalancerMain.balancer := BalancerMain.drive demo_choices (BalancerMain.balancer_init demo_main).

Lemma demo_process :
  exists s p, demo_end = Some s /\ BalancerMain.claims s = 0 /\ BalancerMain.pool s = Some p /\
    BalancerMain.goroutines s = [(connection, monitor_init)].
Proof.
  assert (H : match demo_end with
    | Some s => BalancerMain.claims s = 0 /\ (match BalancerMain.pool s with Some _ => true | None => false end) = true /\
        length (BalancerMain.goroutines s) = 1%nat
    | None => False
    end) by (unfold demo_end; vm_compute; by split_and!).
  destruct demo_end as [s|] eqn:Ed; [|done]. destruct H as (Hn & Hp & Hg).
  destruct (BalancerMain.pool s) as [p|] eqn:E; [|done].
  pose proof (BalancerMain.drive_fresh _ _ _ Ed (List.Forall_nil _)) as Hf.
  destruct (BalancerMain.goroutines s) as [|g [|]] eqn:Eg; [done| |done]. inversion Hf as [|? ? Hg1 _]. rewrite <-Hg1 in Eg.
  by exists s, p.
Qed.

Lemma balancer_process_witness :
  exists s p A (e : lbE A) k,
    rtc BalancerMain.balancer_step (BalancerMain.balancer_init demo_main) s /\
    pool_run (newBackendPool []) (BalancerMain.past s) p /\
    BalancerMain.goroutines s = [(connection, monitor_init)] /\ observe connection = VisF e k /\ in_order A e monitor_init.
Proof.
  destruct demo_process as (s & p & Hs & Hn & Hp & Hg). pose proof (BalancerMain.drive_reaches _ _ _ Hs) as Hr.
  assert (Hv : match observe connection with VisF _ _ => true | _ => false end = true) by (vm_compute; reflexivity).
  destruct (observe connection) as [x|t|A e k] eqn:Ho; [discriminate..|].
  pose proof (balancer_process (lit "127.0.0.1") 8000 8001 []) as H.
  assert (E : BalancerMain.settings (lit "127.0.0.1") 8000 8001 [] = Some (lit "127.0.0.1:8000", [])) by (vm_compute; reflexivity).
  rewrite E in H. destruct H as (_ & _ & H). destruct (H s Hr ltac:(rewrite Hn; lia)) as (_ & Hpool & _).
  destruct (Hpool p Hp) as [Hrun Hgo]. exists s, p, A, e, k. split; [exact Hr|]. split; [exact Hrun|]. split; [exact Hg|].
  split; [reflexivity|]. apply (Hgo connection monitor_init A e k); [rewrite Hg; by apply list_elem_of_singleton|exact Ho].
Defined.
