(* ===== verification/Runtime.v ===== *)
(** * The functions of container-runtime/runtime.c

    The whole program, as interaction trees over the system calls it makes:
    [run_container] is what the cloned child runs as PID 1 of the container and
    [main] what the launcher runs; [supervise] is shared.  Paths and arguments are
    the bytes of their strings. *)

From S2P Require Import Prelude CLib Effects.
Local Open Scope Z_scope.
Local Open Scope prog_scope.

(** ** Numbers of the Linux interface *)

Definition RUNTIME_ERROR : Z := 125.
Definition STACK_SIZE : Z := 1024 * 1024.

Definition ENOENT : Z := 2.
Definition ESRCH : Z := 3.
Definition EINTR : Z := 4.
Definition EIO : Z := 5.
Definition EACCES : Z := 13.
Definition EINVAL : Z := 22.
Definition ESTALE : Z := 116.

Definition SIGHUP : Z := 1.
Definition SIGINT : Z := 2.
Definition SIGQUIT : Z := 3.
Definition SIGKILL : Z := 9.
Definition SIGPIPE : Z := 13.
Definition SIGTERM : Z := 15.
Definition SIGCHLD : Z := 17.

(** [static const int forwarded_signals[]] and, once [main] has filled it,
    [static sigset_t wait_signals]. *)
Definition forwarded_signals : list Z := [SIGINT; SIGTERM; SIGHUP; SIGQUIT].
Definition wait_signals : list Z := SIGCHLD :: forwarded_signals.

Inductive open_flag := O_RDONLY | O_WRONLY | O_PATH | O_DIRECTORY | O_NOFOLLOW | O_CLOEXEC.
Inductive mount_flag := MS_REC | MS_PRIVATE | MS_BIND | MS_NOSUID | MS_NODEV | MS_NOEXEC.
Inductive clone_flag := CLONE_NEWUSER | CLONE_NEWNS | CLONE_NEWPID.
Inductive disposition := SIG_DFL | SIG_IGN | SIG_HANDLER.  (** the handler does nothing *)

#[export] Instance open_flag_eq_decision : EqDecision open_flag.
Proof. solve_decision. Defined.
#[export] Instance mount_flag_eq_decision : EqDecision mount_flag.
Proof. solve_decision. Defined.
#[export] Instance disposition_eq_decision : EqDecision disposition.
Proof. solve_decision. Defined.

(** [st_dev] and [st_ino]. *)
Definition inode : Type := Z * Z.

(** [struct container] *)
Record container := Container {
  root_fd : Z;
  root_path : list byte;
  parent_fd : Z;
  ready_r : Z;              (** [ready[0]] *)
  ready_w : Z;              (** [ready[1]] *)
  command : list (list byte)
}.

(** ** System calls *)

Variant sysE : Type -> Type :=
| Waitpid (pid : Z) (nohang : bool) : sysE (sysres (Z * Z))     (** the pid, 0 for none, and the status *)
| Sigwaitinfo (set : list Z) : sysE (sysres Z)
| Kill (pid sig : Z) : sysE (sysres unit)
| CapbsetRead (cap : Z) : sysE (sysres Z)
| CapbsetDrop (cap : Z) : sysE (sysres unit)
| Capset (pid : Z) (data : list (Z * Z * Z)) : sysE (sysres unit)
| SetNoNewPrivs (on : Z) : sysE (sysres unit)
| SetPdeathsig (sig : Z) : sysE (sysres unit)
| Perror (errno : option Z) (what : string) : sysE unit         (** None: an errno of no call *)
| Exit (code : Z) : sysE Empty_set
| Close (fd : Z) : sysE unit
| Poll (fd timeout : Z) : sysE (sysres Z)                       (** POLLIN *)
| Read (fd len : Z) : sysE (sysres (list byte))
| Write (fd : Z) (data : list byte) : sysE (sysres Z)
| Setsid : sysE (sysres Z)
| Mount (source : option (list byte)) (target : list byte) (fstype : option (list byte))
    (flags : list mount_flag) : sysE (sysres unit)
| Open (path : list byte) (flags : list open_flag) : sysE (sysres Z)
| Openat (dir : Z) (path : list byte) (flags : list open_flag) : sysE (sysres Z)
| Fstat (fd : Z) : sysE (sysres inode)
| Stat (path : list byte) : sysE (sysres inode)
| Fchdir (fd : Z) : sysE (sysres unit)
| Chdir (path : list byte) : sysE (sysres unit)
| PivotRoot (new_root put_old : list byte) : sysE (sysres unit)
| Umount2 (path : list byte) (detach : bool) : sysE (sysres unit)
| CloseRange (first last : Z) : sysE (sysres unit)
| Fork : sysE (sysres Z)
| Setpgid (pid pgid : Z) : sysE (sysres unit)
| Sigaction (sig : Z) (d : disposition) : sysE (sysres unit)
| Sigprocmask (block : bool) (set : list Z) : sysE (sysres unit)
| Execv (path : list byte) (argv : list (list byte)) : sysE Z   (** returns only its errno *)
| FcntlGetfd (fd : Z) : sysE (sysres Z)
| Getuid : sysE Z
| Geteuid : sysE Z
| Getgid : sysE Z
| Getegid : sysE Z
| Getpid : sysE Z
| Realpath (path : list byte) : sysE (sysres (list byte))
| PidfdOpen (pid : Z) : sysE (sysres Z)
| Pipe2 (flags : list open_flag) : sysE (sysres (Z * Z))
| Malloc (size : Z) : sysE (option Z)
| FreeStack (p : Z) : sysE unit
| FreePath (p : list byte) : sysE unit
| Clone (flags : list clone_flag) (arg : container) : sysE (sysres Z)
| Print (to_stderr : bool) (text : list byte) : sysE unit
| Undefined : sysE Empty_set.

#[export] Instance sysE_ub : HasUB sysE := Undefined.

Abbreviation sysprog := (itree sysE).

(** [_exit(code)] *)
Definition exit {A} (code : Z) : sysprog A :=
  Vis (Exit code) (fun e : Empty_set => match e with end).

Definition fail {A} (errno : Z) (operation : string) : sysprog A :=
  call (Perror (Some errno) operation) ;! exit RUNTIME_ERROR.
Arguments fail {A} errno operation%_string.

(** [if (call < 0) fail(operation);] *)
Definition or_fail {A} (e : sysE (sysres A)) (operation : string) : sysprog A :=
  let* r := call e in
  match r with
  | Ok a => Ret a
  | Err errno => fail errno operation
  end.
Arguments or_fail {A} e operation%_string.

(** ** Waiting *)

(** The macros of <sys/wait.h>. *)
Definition WTERMSIG (status : Z) : Z := Z.land status 0x7f.
Definition WIFEXITED (status : Z) : bool := WTERMSIG status =? 0.
Definition WEXITSTATUS (status : Z) : Z := Z.shiftr (Z.land status 0xff00) 8.

Definition exit_status (status : Z) : Z :=
  if WIFEXITED status then WEXITSTATUS status else 128 + WTERMSIG status.

(** The inner loop of [supervise]: the status of [child], or the last return of
    [waitpid] that reaped nothing. *)
Definition reap_step (child : Z) : sysprog (unit + (Z + option Z)) :=
  let* r := call (Waitpid (-1) true) in
  match r with
  | Ok (reaped, status) =>
      if 0 <? reaped then
        if reaped =? child then Ret (inr (inl (exit_status status))) else Ret (inl tt)
      else Ret (inr (inr None))
  | Err errno => Ret (inr (inr (Some errno)))
  end.

Definition reap (child : Z) : sysprog (Z + option Z) := ITree.iter (fun _ => reap_step child) tt.

(** The body of the outer loop of [supervise]. *)
Definition supervise_step (child : Z) (process_group : bool) : sysprog (unit + Z) :=
  let* reaped := reap child in
  match reaped with
  | inl code => Ret (inr code)
  | inr errno =>
      if match errno with Some e => negb (e =? EINTR) | None => false end
      then fail (default 0 errno) "waitpid" else
      let* received := call (Sigwaitinfo wait_signals) in
      match received with
      | Err e => if e =? EINTR then Ret (inl tt) else fail e "sigwaitinfo"
      | Ok received =>
          if negb (received =? SIGCHLD) then
            let* k := call (Kill (if process_group then - child else child) received) in
            match k with
            | Err e => if negb (e =? ESRCH) then fail e "forward signal" else Ret (inl tt)
            | Ok _ => Ret (inl tt)
            end
          else Ret (inl tt)
      end
  end.

Definition supervise (child : Z) (process_group : bool) : sysprog Z :=
  ITree.iter (fun _ => supervise_step child process_group) tt.

(** ** Privileges *)

(** [capability++] on an [int]. *)
Definition int_succ (n : Z) : ub Z := if n <? INT_MAX then Some (n + 1) else None.

Definition bounding_step (capability : Z) : sysprog (Z + unit) :=
  let* r := call (CapbsetRead capability) in
  match r with
  | Err e => if e =? EINVAL then Ret (inr tt) else fail e "read capability bounding set"
  | Ok _ =>
      or_fail (CapbsetDrop capability) "drop capability bounding set" ;!
      let? next := int_succ capability in
      Ret (inl next)
  end.

Definition drop_capabilities : sysprog unit :=
  ITree.iter bounding_step 0 ;!
  or_fail (Capset 0 [(0, 0, 0); (0, 0, 0)]) "drop process privileges" ;!
  or_fail (SetNoNewPrivs 1) "drop process privileges".

(** ** The container's PID 1 *)

Definition SLASH : list byte := lit "/".
Definition DOT : list byte := lit ".".

(** The loop over [forwarded_signals], with one disposition. *)
Fixpoint set_signals (sigs : list Z) (d : disposition) (operation : string) : sysprog unit :=
  match sigs with
  | [] => Ret tt
  | s :: sigs' => or_fail (Sigaction s d) operation ;! set_signals sigs' d operation
  end.
Arguments set_signals sigs d operation%_string.

(** The branch of the forked command. *)
Definition exec_command (c : container) : sysprog Z :=
  or_fail (Setpgid 0 0) "set command process group" ;!
  set_signals forwarded_signals SIG_DFL "reset signal handler" ;!
  or_fail (Sigaction SIGPIPE SIG_DFL) "reset command signals" ;!
  or_fail (Sigprocmask false wait_signals) "reset command signals" ;!
  match command c with
  | [] => undefined_behaviour
  | path :: _ =>
      let* errno := call (Execv path (command c)) in
      let code := if errno =? ENOENT then 127 else 126 in
      call (Perror (Some errno) "exec command") ;!
      exit code
  end.

(** Waiting for the launcher. *)
Definition await_ready (c : container) : sysprog unit :=
  call (Close (ready_w c)) ;!
  or_fail (SetPdeathsig SIGKILL) "set parent death signal" ;!
  let* parent := call (Poll (parent_fd c) 0) in
  match parent with
  | Ok 0 =>
      call (Close (parent_fd c)) ;!
      let* ready := call (Read (ready_r c) 1) in
      match ready with
      | Ok [x31] => call (Close (ready_r c))
      | _ => exit RUNTIME_ERROR
      end
  | _ => exit RUNTIME_ERROR
  end.

(** From the new session to the detached old root. *)
Definition enter_root (c : container) : sysprog unit :=
  or_fail Setsid "setsid" ;!
  or_fail (Mount None SLASH None [MS_REC; MS_PRIVATE]) "make mounts private" ;!
  let* root := or_fail (Open (root_path c) [O_RDONLY; O_DIRECTORY; O_NOFOLLOW; O_CLOEXEC]) "reopen rootfs" in
  let* current := or_fail (Fstat root) "reopen rootfs" in
  let* expected := or_fail (Fstat (root_fd c)) "reopen rootfs" in
  if negb (fst current =? fst expected) || negb (snd current =? snd expected) then
    fail ESTALE "rootfs changed during startup"
  else
    or_fail (Fchdir root) "bind rootfs" ;!
    or_fail (Mount (Some DOT) DOT None [MS_BIND]) "bind rootfs" ;!
    or_fail (Chdir (root_path c)) "enter rootfs mount" ;!
    let* current := or_fail (Stat DOT) "stat rootfs mount" in
    if negb (fst current =? fst expected) || negb (snd current =? snd expected) then
      fail ESTALE "rootfs changed before pivot"
    else
      or_fail (Mount (Some (lit "proc")) (lit "proc") (Some (lit "proc")) [MS_NOSUID; MS_NODEV; MS_NOEXEC])
        "mount container proc" ;!
      or_fail (PivotRoot DOT DOT) "pivot rootfs" ;!
      or_fail (Umount2 DOT true) "detach old root" ;!
      or_fail (Chdir SLASH) "detach old root".

Definition run_container (c : container) : sysprog Z :=
  await_ready c ;!
  enter_root c ;!
  or_fail (CloseRange 3 (2 ^ 32 - 1)) "close inherited descriptors" ;!
  drop_capabilities ;!
  let* command := or_fail Fork "fork command" in
  if command =? 0 then exec_command c
  else
    let* r := call (Setpgid command command) in
    match r with
    | Err e => if negb (e =? EACCES) then fail e "set command process group" else supervise command true
    | Ok _ => supervise command true
    end.

(** ** The launcher *)

(** The buffer [snprintf] fills, as a string. *)
Definition format64 (fmt : string) (args : list fmt_arg) : ub buf :=
  (let? ' (_, b) := vsnprintf 64 (lit fmt) args in Some b)%ub.
Arguments format64 fmt%_string args%_list.

Definition write_map (child : Z) (name : string) (value : buf) : sysprog (sysres unit) :=
  let? path := format64 "/proc/%ld/%s" [ALong child; AStr (literal name)] in
  let? path := cstring path in
  let* fd := call (Open path [O_WRONLY; O_CLOEXEC]) in
  match fd with
  | Err e => Ret (Err e)
  | Ok fd =>
      let? value := cstring value in
      let length := zlen value in
      let* written := call (Write fd value) in
      let saved_errno := match written with Err e => e | Ok _ => EIO end in
      call (Close fd) ;!
      if match written with Ok n => n =? length | Err _ => false end then Ret (Ok tt)
      else Ret (Err saved_errno)
  end.
Arguments write_map child name%_string value.

(** The loop over the standard descriptors. *)
Fixpoint check_descriptors (fds : list Z) : sysprog unit :=
  match fds with
  | [] => Ret tt
  | fd :: fds' => or_fail (FcntlGetfd fd) "standard descriptor must be open" ;! check_descriptors fds'
  end.

(** [while (waitpid(child, NULL, 0) < 0 && errno == EINTR) {}] *)
Definition wait_child (child : Z) : sysprog unit :=
  ITree.iter (fun _ =>
    let* r := call (Waitpid child false) in
    match r with
    | Err e => if e =? EINTR then Ret (inl tt) else Ret (inr tt)
    | Ok _ => Ret (inr tt)
    end) tt.

(** [a() < 0 || b() < 0], the errno of the first that fails. *)
Definition or_else (a b : sysprog (sysres unit)) : sysprog (sysres unit) :=
  let* r := a in
  match r with Err e => Ret (Err e) | Ok _ => b end.

(** Mapping the user of the container and telling the child: None when it is
    done, otherwise the errno [perror] shows. *)
Definition map_user (child : Z) (uid_map gid_map : buf) (ready : Z) : sysprog (option (option Z)) :=
  let* r := or_else (write_map child "setgroups" (literal "deny"))
             (or_else (write_map child "uid_map" uid_map) (write_map child "gid_map" gid_map)) in
  match r with
  | Err e => Ret (Some (Some e))
  | Ok _ =>
      let* w := call (Write ready (lit "1")) in
      match w with
      | Ok 1 => Ret None
      | Ok _ => Ret (Some None)
      | Err e => Ret (Some (Some e))
      end
  end.

(** From [clone] on, in the parent. *)
Definition launch (c : container) (stack : Z) : sysprog Z :=
  let* child := or_fail (Clone [CLONE_NEWUSER; CLONE_NEWNS; CLONE_NEWPID] c)
                 "create user, mount, and PID namespaces" in
  call (Close (ready_r c)) ;!
  call (Close (parent_fd c)) ;!
  call (Close (root_fd c)) ;!
  let* uid := call Getuid in
  let? uid_map := format64 "0 %lu 1\n" [ALong uid] in
  let* gid := call Getgid in
  let? gid_map := format64 "0 %lu 1\n" [ALong gid] in
  let* failed := map_user child uid_map gid_map (ready_w c) in
  match failed with
  | Some errno =>
      call (Perror errno "map container user") ;!
      call (Kill child SIGKILL) ;!
      wait_child child ;!
      call (Close (ready_w c)) ;!
      call (FreeStack stack) ;!
      call (FreePath (root_path c)) ;!
      Ret RUNTIME_ERROR
  | None =>
      call (Close (ready_w c)) ;!
      let* result := supervise child false in
      call (FreeStack stack) ;!
      call (FreePath (root_path c)) ;!
      Ret result
  end.

(** The signal state of the launcher, inherited by the child. *)
Definition setup_signals : sysprog unit :=
  or_fail (Sigprocmask true wait_signals) "block supervisor signals" ;!
  set_signals forwarded_signals SIG_HANDLER "set signal handler" ;!
  or_fail (Sigaction SIGCHLD SIG_DFL) "reset SIGCHLD" ;!
  or_fail (Sigaction SIGPIPE SIG_IGN) "ignore SIGPIPE".

Definition usage_text (argv0 : list byte) : list byte :=
  lit "Usage: " ++ argv0 ++ lit " ROOTFS /COMMAND [ARG ...]\n".

(** [getuid() == 0 || getuid() != geteuid() || getgid() != getegid()] *)
Definition privileged : sysprog bool :=
  let* uid := call Getuid in
  if uid =? 0 then Ret true else
  let* uid := call Getuid in
  let* euid := call Geteuid in
  if negb (uid =? euid) then Ret true else
  let* gid := call Getgid in
  let* egid := call Getegid in
  Ret (negb (gid =? egid)).

(** From the descriptors of the startup on. *)
Definition start (path : list byte) (root : Z) (cmd : list (list byte)) : sysprog Z :=
  setup_signals ;!
  let* self := call Getpid in
  let* parent := or_fail (PidfdOpen self) "create startup descriptors" in
  let* ' (r, w) := or_fail (Pipe2 [O_CLOEXEC]) "create startup descriptors" in
  let* stack := call (Malloc STACK_SIZE) in
  match stack with
  | None => fail 12 "allocate child stack"   (* ENOMEM *)
  | Some stack => launch (Container root path parent r w cmd) stack
  end.

Definition open_rootfs (arg : list byte) : sysprog (option (list byte * Z)) :=
  let* path := or_fail (Realpath arg) "resolve rootfs" in
  let* root := or_fail (Open path [O_RDONLY; O_DIRECTORY; O_CLOEXEC]) "open rootfs" in
  let* rootfs := or_fail (Fstat root) "stat rootfs" in
  let* host_root := or_fail (Stat SLASH) "stat rootfs" in
  if (fst rootfs =? fst host_root) && (snd rootfs =? snd host_root) then
    call (Print true (lit "rootfs must be a prepared directory other than /\n")) ;!
    Ret None
  else
    let* proc := or_fail (Openat root (lit "proc") [O_PATH; O_DIRECTORY; O_NOFOLLOW; O_CLOEXEC])
                  "rootfs needs a real proc directory" in
    call (Close proc) ;!
    Ret (Some (path, root)).

Definition main (argv : list (list byte)) : sysprog Z :=
  match argv with
  | [] => undefined_behaviour
  | argv0 :: args =>
      if bool_decide (args = [lit "--help"]) then call (Print false (usage_text argv0)) ;! Ret 0
      else
        match args with
        | rootfs :: (x2f :: _) :: _ =>
            let* priv := privileged in
            if priv : bool then
              call (Print true (lit "run as an unprivileged user without setuid or setgid\n")) ;!
              Ret RUNTIME_ERROR
            else
              check_descriptors [0; 1; 2] ;!
              let* opened := open_rootfs rootfs in
              match opened with
              | None => Ret RUNTIME_ERROR
              | Some (path, root) => start path root (tail args)
              end
        | _ => call (Print true (usage_text argv0)) ;! Ret RUNTIME_ERROR
        end
  end.
