(* ===== verification/RuntimeMonitor.v ===== *)
(** * What the runtime may do, and when

    A monitor of the system calls of one process of the runtime: the facts its
    successful calls established, whatever the kernel answers, and which calls
    are in order in a state of knowledge.  Nothing is assumed of the kernel beyond
    the two facts of [answer_ok].  The rules say: no namespace is changed before
    the launcher gave the go-ahead, no mount before propagation is off, the root
    is pivoted into the directory the launcher opened and no other, and the
    command is executed only by a process without the old root, without inherited
    descriptors, without capabilities and without a way to regain them. *)

From S2P Require Import Prelude CLib Effects Runtime.
Local Open Scope Z_scope.
Local Open Scope prog_scope.

(** ** States of knowledge *)

Inductive fact :=
| RootFd (fd : Z)                        (** the directory the launcher opened *)
| ParentFd (fd : Z)                      (** a pidfd of the launcher *)
| ReadyRead (fd : Z)                     (** the ends of the startup pipe *)
| ReadyWrite (fd : Z)
| ParentDeathSignal                      (** a dead parent kills the process *)
| ParentAlive                            (** seen after that *)
| Released                               (** the go-ahead was read *)
| NewSession
| PrivateMounts
| Identity (fd : Z) (i : inode)
| OpenFd (fd : Z)
| HostRoot (i : inode)                   (** "/", for the launcher *)
| Args (args : list (list byte))         (** the command line, after the program's name *)
| Command (argv : list (list byte))      (** what to execute *)
| Bound (i : inode)                      (** the directory is bound over itself *)
| Root (i : inode)                       (** the root directory *)
| OldRootGone
| AtRoot                                 (** the working directory is the root *)
| NoDescriptors                          (** only 0, 1 and 2 are open *)
| Dropped (cap : Z)                      (** not in the bounding set *)
| NoCapability (cap : Z)                 (** there is no such capability *)
| NoCapabilities                         (** permitted, effective, inheritable *)
| NoNewPrivileges
| OwnGroup
| Disposition (sig : Z) (d : disposition)
| Blocked (set : list Z)
| Unblocked (set : list Z)
| ExecFailed (errno : Z)
| IsUid (uid : Z)
| IsGid (gid : Z)
| IsEuid (uid : Z)
| IsEgid (gid : Z)
| Opened (fd : Z) (path : list byte)
| Wrote (path data : list byte)
| ToldReady
| Killed (pid : Z).

#[export] Instance fact_eq_decision : EqDecision fact.
Proof. solve_decision. Defined.

(** What [supervise] knows of its child. *)
Record supervision := Supervision {
  su_child : Z;
  su_target : Z;             (** where signals are forwarded to *)
  su_status : option Z;      (** of the child, once it is reaped *)
  su_signal : option Z;      (** received and not forwarded *)
  su_drained : bool          (** no child is known to wait to be reaped *)
}.

Record monitor := Monitor {
  facts : list fact;
  cwd : option inode;        (** the working directory, when it was looked at *)
  sup : supervision
}.

Definition learn (f : fact) (s : monitor) : monitor := Monitor (f :: facts s) (cwd s) (sup s).
Definition move (d : option inode) (s : monitor) : monitor := Monitor (facts s) d (sup s).
Definition watch (u : supervision) (s : monitor) : monitor := Monitor (facts s) (cwd s) u.

(** ** What a call and its answer establish *)

Definition learn_if {A} (r : sysres A) (f : fact) (s : monitor) : monitor :=
  match r with Ok _ => learn f s | Err _ => s end.

(** What is known of a descriptor. *)
Fixpoint identity_of (fs : list fact) (fd : Z) : option inode :=
  match fs with
  | [] => None
  | Identity fd' i :: fs' => if fd' =? fd then Some i else identity_of fs' fd
  | _ :: fs' => identity_of fs' fd
  end.

Fixpoint path_of (fs : list fact) (fd : Z) : option (list byte) :=
  match fs with
  | [] => None
  | Opened fd' p :: fs' => if fd' =? fd then Some p else path_of fs' fd
  | _ :: fs' => path_of fs' fd
  end.

(** A closed descriptor is no longer known. *)
Definition about (fd : Z) (f : fact) : bool :=
  match f with
  | RootFd fd' | ParentFd fd' | ReadyRead fd' | ReadyWrite fd' | Identity fd' _ | Opened fd' _
  | OpenFd fd' => fd' =? fd
  | _ => false
  end.
Definition forget (fd : Z) (s : monitor) : monitor :=
  Monitor (List.filter (fun f => negb (about fd f)) (facts s)) (cwd s) (sup s).

(** [waitpid(-1, ..., WNOHANG)]: a reaped child, or nothing left to reap. *)
Definition reaped (r : sysres (Z * Z)) (u : supervision) : supervision :=
  match r with
  | Ok (pid, status) =>
      if 0 <? pid then
        if pid =? su_child u then Supervision (su_child u) (su_target u) (Some status) (su_signal u) false
        else Supervision (su_child u) (su_target u) (su_status u) (su_signal u) false
      else Supervision (su_child u) (su_target u) (su_status u) (su_signal u) true
  | Err _ => Supervision (su_child u) (su_target u) (su_status u) (su_signal u) true
  end.

(** [sigwaitinfo]: a signal, which is to be forwarded unless it is SIGCHLD; what
    happened meanwhile is not known. *)
Definition signalled (r : sysres Z) (u : supervision) : supervision :=
  match r with
  | Ok s => Supervision (su_child u) (su_target u) (su_status u) (if s =? SIGCHLD then None else Some s) false
  | Err _ => Supervision (su_child u) (su_target u) (su_status u) (su_signal u) false
  end.

Definition forwarded (u : supervision) : supervision :=
  Supervision (su_child u) (su_target u) (su_status u) None (su_drained u).

Definition track A (e : sysE A) : A -> monitor -> monitor :=
  match e in sysE A return A -> monitor -> monitor with
  | Waitpid pid nohang => fun r s => if nohang then watch (reaped r (sup s)) s else s
  | Sigwaitinfo _ => fun r s => watch (signalled r (sup s)) s
  | Kill pid sig => fun _ s => learn (Killed pid) (watch (forwarded (sup s)) s)
  | CapbsetRead cap => fun r s =>
      match r with Err e => if e =? EINVAL then learn (NoCapability cap) s else s | Ok _ => s end
  | CapbsetDrop cap => fun r => learn_if r (Dropped cap)
  | Capset pid data => fun r =>
      if bool_decide (pid = 0 /\ data = [(0, 0, 0); (0, 0, 0)]) then learn_if r NoCapabilities else id
  | SetNoNewPrivs on => fun r => if on =? 1 then learn_if r NoNewPrivileges else id
  | SetPdeathsig sig => fun r => if sig =? SIGKILL then learn_if r ParentDeathSignal else id
  | Poll fd _ => fun r s =>
      match r with
      | Ok 0 => if decide (ParentDeathSignal ∈ facts s /\ ParentFd fd ∈ facts s) then learn ParentAlive s else s
      | _ => s
      end
  | Read fd _ => fun r s =>
      match r with
      | Ok [x31] => if decide (ReadyRead fd ∈ facts s) then learn Released s else s
      | _ => s
      end
  | Close fd => fun _ => forget fd
  | Write fd data => fun r s =>
      match path_of (facts s) fd with
      | Some path => match r with Ok n => if n =? zlen data then learn (Wrote path data) s else s | Err _ => s end
      | None => match r with Ok n => if n =? zlen data then learn ToldReady s else s | Err _ => s end
      end
  | Setsid => fun r => learn_if r NewSession
  | Mount src target _ flags => fun r s =>
      if bool_decide (flags = [MS_REC; MS_PRIVATE] /\ target = SLASH) then learn_if r PrivateMounts s
      else if bool_decide (flags = [MS_BIND] /\ src = Some DOT /\ target = DOT) then
        match cwd s with Some i => learn_if r (Bound i) s | None => s end
      else s
  | Open path _ => fun r s => match r with Ok fd => learn (Opened fd path) s | Err _ => s end
  | Openat _ path _ => fun r s => match r with Ok fd => learn (Opened fd path) s | Err _ => s end
  | Fstat fd => fun r s => match r with Ok i => learn (Identity fd i) s | Err _ => s end
  | Stat path => fun r s =>
      match r with
      | Ok i => if bool_decide (path = DOT) then move (Some i) s
                else if bool_decide (path = SLASH) then learn (HostRoot i) s else s
      | Err _ => s
      end
  | Fchdir fd => fun r s => match r with Ok _ => move (identity_of (facts s) fd) s | Err _ => s end
  | Chdir path => fun r s =>
      match r with
      | Ok _ => if bool_decide (path = SLASH) then learn AtRoot (move None s) else move None s
      | Err _ => s
      end
  | PivotRoot _ _ => fun r s =>
      match cwd s with Some i => learn_if r (Root i) s | None => s end
  | Umount2 path detach => fun r s =>
      if bool_decide (path = DOT /\ detach = true) then learn_if r OldRootGone s else s
  | CloseRange first last => fun r s =>
      if (first =? 3) && (last =? 2 ^ 32 - 1) then learn_if r NoDescriptors s else s
  | Fork => fun r s =>
      match r with Ok pid => if 0 <? pid then watch (Supervision pid (- pid) None None false) s else s | Err _ => s end
  | Clone _ _ => fun r s =>
      match r with Ok pid => watch (Supervision pid pid None None false) s | Err _ => s end
  | Setpgid pid pgid => fun r s => if (pid =? 0) && (pgid =? 0) then learn_if r OwnGroup s else s
  | Sigaction sig d => fun r => learn_if r (Disposition sig d)
  | Sigprocmask block set => fun r => learn_if r (if block then Blocked set else Unblocked set)
  | Execv _ _ => fun errno => learn (ExecFailed errno)
  | FcntlGetfd fd => fun r => learn_if r (OpenFd fd)
  | Getuid => fun u => learn (IsUid u)
  | Geteuid => fun u => learn (IsEuid u)
  | Getgid => fun g => learn (IsGid g)
  | Getegid => fun g => learn (IsEgid g)
  | PidfdOpen _ => fun r s => match r with Ok fd => learn (ParentFd fd) s | Err _ => s end
  | Pipe2 _ => fun r s => match r with Ok (r, w) => learn (ReadyRead r) (learn (ReadyWrite w) s) | Err _ => s end
  | _ => fun _ s => s
  end.

(** The documented behaviour the rules rely on: capability sets have 64 bits, so
    there is no capability above 63; a new descriptor is not one in use; [fork] and
    [clone] return process ids; user and group ids have 32 bits. *)
Definition fresh (fd : Z) (s : monitor) : Prop := forall f, f ∈ facts s -> about fd f = false.

Definition answer_ok A (e : sysE A) : A -> monitor -> Prop :=
  match e in sysE A return A -> monitor -> Prop with
  | CapbsetRead cap => fun r _ => match r with Ok _ => cap <= 63 | Err _ => True end
  | Open _ _ | Openat _ _ _ | PidfdOpen _ => fun r s =>
      match r with Ok fd => 0 <= fd /\ fresh fd s | Err _ => True end
  | Pipe2 _ => fun r s =>
      match r with Ok (r, w) => 0 <= r /\ 0 <= w /\ fresh r s /\ fresh w s /\ r <> w | Err _ => True end
  | Getuid | Geteuid | Getgid | Getegid => fun id _ => 0 <= id < 2 ^ 32
  | Fork => fun r _ => match r with Ok pid => 0 <= pid | Err _ => True end
  | Clone _ _ => fun r _ => match r with Ok pid => 0 < pid <= INT_MAX | Err _ => True end
  | _ => fun _ _ => True
  end.

Definition mstep A (e : sysE A) (s : monitor) (a : A) (s' : monitor) : Prop :=
  answer_ok A e a s /\ s' = track A e a s.

(** ** Which calls are in order *)

(** The bounding set is empty. *)
Definition bounding_empty (s : monitor) : Prop :=
  exists n, NoCapability n ∈ facts s /\ forall cap, 0 <= cap < n -> Dropped cap ∈ facts s.

(** The working directory, when it is known, is the launcher's directory. *)
Definition at_rootfs (s : monitor) : Prop :=
  exists fd i, RootFd fd ∈ facts s /\ Identity fd i ∈ facts s /\ cwd s = Some i.

(** The launcher's go-ahead, to a process that dies with the launcher. *)
Definition released (s : monitor) : Prop :=
  ParentDeathSignal ∈ facts s /\ ParentAlive ∈ facts s /\ Released ∈ facts s.

(** The process can reach nothing but its root, and nothing of it is inherited. *)
Definition confined (s : monitor) : Prop :=
  (exists fd i, RootFd fd ∈ facts s /\ Identity fd i ∈ facts s /\ Root i ∈ facts s) /\
  PrivateMounts ∈ facts s /\ OldRootGone ∈ facts s /\ AtRoot ∈ facts s /\ NoDescriptors ∈ facts s /\
  NewSession ∈ facts s /\ bounding_empty s /\ NoCapabilities ∈ facts s /\ NoNewPrivileges ∈ facts s.

(** The three maps of the child, and when each may be written: the kernel lets an
    ordinary user write a group map only once setgroups is denied. *)
Definition proc_file (pid : Z) (name : string) : list byte :=
  lit "/proc/" ++ decimal pid ++ lit "/" ++ lit name.
Definition map_text (id : Z) : list byte := lit "0 " ++ decimal id ++ lit " 1\n".

Definition denied (s : monitor) : Prop :=
  Wrote (proc_file (su_child (sup s)) "setgroups") (lit "deny") ∈ facts s.
Definition map_write (path data : list byte) (s : monitor) : Prop :=
  (path = proc_file (su_child (sup s)) "setgroups" /\ data = lit "deny") \/
  (denied s /\ path = proc_file (su_child (sup s)) "uid_map" /\ exists uid, IsUid uid ∈ facts s /\ data = map_text uid) \/
  (denied s /\ path = proc_file (su_child (sup s)) "gid_map" /\ exists gid, IsGid gid ∈ facts s /\ data = map_text gid).

Definition mapped (s : monitor) : Prop :=
  denied s /\
  (exists uid, IsUid uid ∈ facts s /\ Wrote (proc_file (su_child (sup s)) "uid_map") (map_text uid) ∈ facts s) /\
  (exists gid, IsGid gid ∈ facts s /\ Wrote (proc_file (su_child (sup s)) "gid_map") (map_text gid) ∈ facts s).

(** The launcher is an ordinary user, with its signals blocked and handled. *)
Definition ordinary_user (s : monitor) : Prop :=
  (exists uid, uid <> 0 /\ IsUid uid ∈ facts s) /\
  (exists uid, IsUid uid ∈ facts s /\ IsEuid uid ∈ facts s) /\
  (exists gid, IsGid gid ∈ facts s /\ IsEgid gid ∈ facts s).
Definition signals_blocked (s : monitor) : Prop :=
  Blocked wait_signals ∈ facts s /\ (forall sig, sig ∈ forwarded_signals -> Disposition sig SIG_HANDLER ∈ facts s).

(** What the launcher hands to its child: the directory it opened, which is not its
    own root, its pidfd and the pipe, all different and none of them a standard
    descriptor, and a command. *)
Definition descriptors (c : container) : list Z := [root_fd c; parent_fd c; ready_r c; ready_w c].
Definition container_ok (c : container) : Prop :=
  NoDup (descriptors c) /\ Forall (fun fd => 3 <= fd) (descriptors c) /\ command c <> [].
Definition handed_over (c : container) (s : monitor) : Prop :=
  Opened (root_fd c) (root_path c) ∈ facts s /\ ParentFd (parent_fd c) ∈ facts s /\
  ReadyRead (ready_r c) ∈ facts s /\ ReadyWrite (ready_w c) ∈ facts s /\
  exists i j, Identity (root_fd c) i ∈ facts s /\ HostRoot j ∈ facts s /\ i <> j.

(** No signal is held back, no child is left waiting, the child is not reaped. *)
Definition watching (s : monitor) : Prop :=
  su_signal (sup s) = None /\ su_status (sup s) = None.

Definition in_order A (e : sysE A) (s : monitor) : Prop :=
  match e with
  | Waitpid pid nohang => if nohang then watching s else Killed pid ∈ facts s
  | Sigwaitinfo set => set = wait_signals /\ watching s /\ su_drained (sup s) = true
  | Kill pid sig =>
      su_status (sup s) = None /\
      ((su_signal (sup s) = Some sig /\ pid = su_target (sup s)) \/
       (sig = SIGKILL /\ pid = su_child (sup s) /\ ToldReady ∉ facts s))
  | Setsid => released s
  | Mount _ _ _ flags => released s /\ (PrivateMounts ∈ facts s \/ flags = [MS_REC; MS_PRIVATE])
  | Fchdir _ | Chdir _ => released s /\ PrivateMounts ∈ facts s
  | PivotRoot a b => released s /\ at_rootfs s /\ PrivateMounts ∈ facts s /\ a = DOT /\ b = DOT /\
      (exists i, Bound i ∈ facts s /\ cwd s = Some i)
  | Umount2 _ _ => released s /\ exists i, Root i ∈ facts s
  | CloseRange _ _ => OldRootGone ∈ facts s
  | Capset _ _ => bounding_empty s
  | Fork => released s /\ confined s /\ su_child (sup s) = 0
  | Pipe2 _ => forall argv, Command argv ∉ facts s   (* only the launcher makes the startup pipe *)
  | Execv path argv => Command argv ∈ facts s /\ head argv = Some path /\ released s /\ confined s /\
      OwnGroup ∈ facts s /\ Unblocked wait_signals ∈ facts s /\
      (forall sig, sig ∈ SIGPIPE :: forwarded_signals -> Disposition sig SIG_DFL ∈ facts s)
  | Write fd data =>
      match path_of (facts s) fd with
      | Some path => map_write path data s
      | None => mapped s /\ ReadyWrite fd ∈ facts s /\ data = lit "1"
      end
  | Clone flags c => su_child (sup s) = 0 /\ container_ok c /\ handed_over c s /\ ordinary_user s /\ signals_blocked s /\
      flags = [CLONE_NEWUSER; CLONE_NEWNS; CLONE_NEWPID] /\
      exists args, Args args ∈ facts s /\ command c = tail args
  | Exit code =>
      code = RUNTIME_ERROR \/
      exists errno, ExecFailed errno ∈ facts s /\ code = (if errno =? ENOENT then 127 else 126)
  | Undefined => False
  | _ => True
  end.

#[export] Instance monitor_spec : EventSpec sysE monitor := machine_spec mstep in_order.
