(* ===== verification/RuntimeSafety.v ===== *)
(** * The runtime keeps the rules

    Both processes of the runtime follow the rules of [RuntimeMonitor], whatever
    the kernel answers, and what they return is the status of the process they
    wait for. *)

From S2P Require Import Prelude CLib Effects Runtime RuntimeMonitor.
Local Open Scope Z_scope.
Local Open Scope prog_scope.

(** ** Rules of inference *)

Lemma wp_exit {A} code (Φ : A -> monitor -> Prop) s :
  in_order _ (Exit code) s -> wp (exit code) Φ s.
Proof. intros H. apply wp_vis. split; [done|]. intros []. Qed.

(** A failure ends the process, whatever was known. *)
Lemma wp_fail {A} errno op (Φ : A -> monitor -> Prop) s : wp (fail errno op) Φ s.
Proof.
  apply wp_machine; [done|]. intros [] s' [_ ->]. apply wp_exit. by left.
Qed.

Lemma wp_sys {A R} (e : sysE A) (k : A -> sysprog R) Φ s :
  in_order _ e s -> (forall a, answer_ok _ e a s -> wp (k a) Φ (track _ e a s)) ->
  wp (ITree.bind (call e) k) Φ s.
Proof. intros Hi Hk. apply wp_machine; [done|]. intros a s' [Ha ->]. by apply Hk. Qed.

Lemma wp_or_fail {A R} (e : sysE (sysres A)) op (k : A -> sysprog R) Φ s :
  in_order _ e s -> (forall a, answer_ok _ e (Ok a) s -> wp (k a) Φ (track _ e (Ok a) s)) ->
  wp (ITree.bind (or_fail e op) k) Φ s.
Proof.
  intros Hi Hk. apply wp_bind, wp_sys; [done|]. intros [a|errno] Ha.
  - apply wp_ret. by apply Hk.
  - apply wp_fail.
Qed.

Lemma wp_or_fail_last {A} (e : sysE (sysres A)) op (Φ : A -> monitor -> Prop) s :
  in_order _ e s -> (forall a, answer_ok _ e (Ok a) s -> Φ a (track _ e (Ok a) s)) ->
  wp (or_fail e op) Φ s.
Proof.
  intros Hi Hk. apply wp_sys; [done|]. intros [a|errno] Ha; [apply wp_ret; by apply Hk|apply wp_fail].
Qed.

(** ** Waiting *)

(** [supervise] watches [child], and has not reaped it. *)
Definition watches (child target : Z) (s : monitor) : Prop :=
  watching s /\ su_child (sup s) = child /\ su_target (sup s) = target.

(** It returns the exit status of [child], as its parent is told it. *)
Definition supervised (child : Z) (c : Z) (s : monitor) : Prop :=
  exists st, su_child (sup s) = child /\ su_status (sup s) = Some st /\ c = exit_status st.

Lemma wp_reap child target s :
  watches child target s ->
  wp (reap child) (fun r s' =>
    match r with
    | inl c => supervised child c s'
    | inr _ => watches child target s' /\ su_drained (sup s') = true
    end) s.
Proof.
  intros H. apply (wp_iter (fun _ => watches child target)); [done|]. clear s H.
  intros _ s ([Hsig Hst] & Hc & Ht). apply wp_sys; [by split|]. intros r _. cbn [track].
  destruct r as [[pid status]|e]; simpl.
  - destruct (Z.ltb_spec 0 pid).
    + rewrite Hc. destruct (Z.eqb_spec pid child); apply wp_ret.
      * by exists status.
      * by repeat split.
    + apply wp_ret. by repeat split.
  - apply wp_ret. by repeat split.
Qed.

Lemma wp_supervise child pg target s :
  target = (if pg : bool then - child else child) -> watches child target s ->
  wp (supervise child pg) (supervised child) s.
Proof.
  intros -> H. apply (wp_iter (fun _ => watches child (if pg then - child else child))); [done|]. clear s H.
  intros _ s H. apply wp_bind. eapply wp_mono, wp_reap, H. intros [c|errno] s'.
  - intros Hs. by apply wp_ret.
  - intros [([Hsig Hst] & Hc & Ht) Hdr].
    destruct (match errno with Some e => negb (e =? EINTR) | None => false end); [apply wp_fail|].
    apply wp_sys; [by repeat split|]. intros [sig|e] _; cbn [track].
    + simpl. destruct (Z.eqb_spec sig SIGCHLD); simpl.
      * apply wp_ret. by repeat split.
      * apply wp_sys.
        { split; [done|]. left. simpl. by rewrite Ht. }
        intros [[]|e] _; cbn [track]; [apply wp_ret; by repeat split|].
        destruct (negb (e =? ESRCH)); [apply wp_fail|]. apply wp_ret. by repeat split.
    + destruct (e =? EINTR); [|apply wp_fail]. apply wp_ret. by repeat split.
Qed.

(** ** Privileges *)

(** More is known, nothing else changed. *)
Definition extends (s s' : monitor) : Prop :=
  (forall f, f ∈ facts s -> f ∈ facts s') /\ cwd s' = cwd s /\ sup s' = sup s.

Lemma extends_refl s : extends s s.
Proof. by repeat split. Qed.

Lemma extends_learn s s' f : extends s s' -> extends s (learn f s').
Proof. intros (H & Hc & Hs). repeat split; [|done|done]. intros g Hg. right. by apply H. Qed.

Lemma learn_in f s : f ∈ facts (learn f s).
Proof. by left. Qed.

Lemma learn_keep f g s : f ∈ facts s -> f ∈ facts (learn g s).
Proof. by right. Qed.

Lemma wp_drop_capabilities s :
  wp drop_capabilities (fun _ s' => extends s s' /\ bounding_empty s' /\
    NoCapabilities ∈ facts s' /\ NoNewPrivileges ∈ facts s') s.
Proof.
  apply wp_bind.
  apply (wp_iter (fun n s' => extends s s' /\ 0 <= n <= 64 /\ forall cap, 0 <= cap < n -> Dropped cap ∈ facts s')).
  { split; [apply extends_refl|]. split; [lia|]. intros; lia. }
  intros n s1 (He & Hn & Hd). apply wp_sys; [done|]. intros [v|e] Hv; cbn [track answer_ok] in *.
  - apply wp_or_fail; [done|]. intros [] _. cbn [track learn_if].
    unfold int_succ. rewrite (proj2 (Z.ltb_lt _ _)) by (unfold INT_MAX; lia). apply wp_ret.
    split; [by apply extends_learn|]. split; [lia|]. intros cap Hcap.
    destruct (decide (cap = n)) as [->|]; [apply learn_in|]. apply learn_keep, Hd. lia.
  - destruct (Z.eqb_spec e EINVAL); [|apply wp_fail]. apply wp_ret.
    assert (Hb : bounding_empty (learn (NoCapability n) s1)).
    { exists n. split; [apply learn_in|]. intros cap Hcap. by apply learn_keep, Hd. }
    apply wp_or_fail; [done|]. intros [] _. cbn [track]. rewrite bool_decide_true by done. cbn [learn_if].
    apply wp_or_fail_last; [done|]. intros [] _. cbn [track]. change (1 =? 1) with true. cbn [learn_if].
    split_and!.
    + by do 3 apply extends_learn.
    + destruct Hb as (m & Hm & Hall). exists m. split; [by do 2 apply learn_keep|].
      intros cap Hcap. do 2 apply learn_keep. by apply Hall.
    + apply learn_keep, learn_in.
    + apply learn_in.
Qed.

Lemma forget_keep fd f s : f ∈ facts s -> about fd f = false -> f ∈ facts (forget fd s).
Proof.
  intros H Hf. apply list_elem_of_In, filter_In. split; [by apply list_elem_of_In|]. by rewrite Hf.
Qed.

(** ** What stays known *)

(** A fact that is about no descriptor. *)
Definition lasting (f : fact) : Prop := forall fd, about fd f = false.

Lemma learn_if_keep {A} (r : sysres A) f g s : f ∈ facts s -> f ∈ facts (learn_if r g s).
Proof. destruct r; [by right|done]. Qed.

Lemma track_keep A (e : sysE A) a s f : lasting f -> f ∈ facts s -> f ∈ facts (track A e a s).
Proof.
  intros Hf H. destruct e; cbn [track];
    repeat match goal with
      | |- context [match ?x with _ => _ end] => destruct x
      end;
    first [done | by apply learn_if_keep | by right | by do 2 right | by apply forget_keep].
Qed.

Lemma wp_keep {R} (t : sysprog R) Φ s f :
  lasting f -> f ∈ facts s -> wp t Φ s -> wp t (fun r s' => f ∈ facts s' /\ Φ r s') s.
Proof.
  intros Hf H Ht n. specialize (Ht n). revert t s H Ht.
  induction n as [|n IH]; intros t s H Ht; [done|]. rewrite wpn_S in *.
  destruct (observe t) as [r|t'|A e k]; [done|by apply IH|].
  destruct Ht as [Ha Hk]. split; [done|]. intros a s' Hs. apply IH; [|by apply Hk].
  destruct Hs as [_ ->]. by apply track_keep.
Qed.

Lemma runs_keep {R} (t u : sysprog R) s tr s' f :
  lasting f -> f ∈ facts s -> runs mstep t s tr u s' -> f ∈ facts s'.
Proof. intros Hf H Hr. induction Hr as [| |A t e k a s s1 tr u s' Ht [_ ->] Hr IH]; auto using track_keep. Qed.

(** ** The container's PID 1 *)

(** What the cloned child knows: the descriptors it inherits. *)
Definition container_start (c : container) : monitor :=
  Monitor [RootFd (root_fd c); ParentFd (parent_fd c); ReadyRead (ready_r c); ReadyWrite (ready_w c); Command (command c)]
    None (Supervision 0 0 None None false).

(** Membership in the facts a sequence of calls established. *)
Ltac known := cbn [facts learn learn_if move watch]; repeat first [assumption | left; reflexivity | right].

Lemma wp_await_ready c :
  container_ok c ->
  wp (await_ready c) (fun _ s => released s /\ RootFd (root_fd c) ∈ facts s /\ su_child (sup s) = 0) (container_start c).
Proof.
  intros [Hnd _]. unfold descriptors in Hnd. rewrite !NoDup_cons, !not_elem_of_cons in Hnd. destruct Hnd as ((H1 & H2 & H3 & _) & (H4 & H5 & _) & (H6 & _) & _).
  apply wp_sys; [done|]. intros [] _. cbn [track].
  set (s1 := forget (ready_w c) (container_start c)).
  assert (Hs1 : forall f, f ∈ [RootFd (root_fd c); ParentFd (parent_fd c); ReadyRead (ready_r c)] -> f ∈ facts s1).
  { intros f Hf. apply forget_keep; [set_solver|]. rewrite !elem_of_cons in Hf.
    destruct Hf as [->|[->|[->|Hf]]]; [by apply Z.eqb_neq..|by apply not_elem_of_nil in Hf]. }
  apply wp_or_fail; [done|]. intros [] _. cbn [track]. change (SIGKILL =? SIGKILL) with true. cbn [learn_if].
  apply wp_sys; [done|]. intros r _. cbn [track].
  destruct r as [[|p|p]|e]; try (apply wp_exit; by left).
  rewrite decide_True by (split; [apply learn_in|apply learn_keep, Hs1; set_solver]).
  apply wp_sys; [done|]. intros [] _. cbn [track].
  set (s2 := forget (parent_fd c) _).
  assert (Hs2 : forall f, f ∈ [RootFd (root_fd c); ReadyRead (ready_r c); ParentDeathSignal; ParentAlive] -> f ∈ facts s2).
  { intros f Hf. rewrite !elem_of_cons in Hf.
    destruct Hf as [->|[->|[->|[->|Hf]]]]; [..|by apply not_elem_of_nil in Hf];
      (apply forget_keep; [|by first [reflexivity|apply Z.eqb_neq; congruence]]).
    - do 2 apply learn_keep. apply Hs1. set_solver.
    - do 2 apply learn_keep. apply Hs1. set_solver.
    - apply learn_keep, learn_in.
    - apply learn_in. }
  apply wp_sys; [done|]. intros r _. cbn [track].
  destruct r as [l|e]; [|apply wp_exit; by left].
  destruct (decide (l = [x31])) as [->|Hl].
  - rewrite decide_True by (apply Hs2; set_solver). apply wp_call. split; [done|].
    intros [] s' [_ ->]. cbn [track].
    split; [split_and!|split; [|done]]; (apply forget_keep; [|by first [reflexivity|apply Z.eqb_neq]]).
    + apply learn_keep, Hs2. set_solver.
    + apply learn_keep, Hs2. set_solver.
    + apply learn_in.
    + apply learn_keep, Hs2. set_solver.
  - destruct l as [|b [|b' l]]; [apply wp_exit; by left| |].
    + destruct b; first [done | apply wp_exit; by left].
    + destruct b; apply wp_exit; by left.
Qed.

(** Inside the new root. *)
Definition entered (c : container) (s : monitor) : Prop :=
  released s /\ su_child (sup s) = 0 /\
  RootFd (root_fd c) ∈ facts s /\ (exists i, Identity (root_fd c) i ∈ facts s /\ Root i ∈ facts s) /\
  PrivateMounts ∈ facts s /\ OldRootGone ∈ facts s /\ AtRoot ∈ facts s /\ NewSession ∈ facts s.

Lemma released_learn f s : released s -> released (learn f s).
Proof. intros (H1 & H2 & H3). repeat split; by apply learn_keep. Qed.

Lemma released_move d s : released s -> released (move d s).
Proof. done. Qed.

#[local] Hint Resolve released_learn released_move learn_in learn_keep : cmodel.

Lemma inode_eqb (i j : inode) :
  negb (fst i =? fst j) || negb (snd i =? snd j) = false -> i = j.
Proof.
  destruct i as [a b], j as [c d]; simpl. rewrite orb_false_iff, !negb_false_iff, !Z.eqb_eq. by intros [-> ->].
Qed.

Lemma wp_enter_root c s :
  released s -> RootFd (root_fd c) ∈ facts s -> su_child (sup s) = 0 ->
  wp (enter_root c) (fun _ => entered c) s.
Proof.
  intros Hr Hroot Hsu. unfold enter_root.
  apply wp_or_fail; [done|]. intros sid _. cbn [track learn_if].
  apply wp_or_fail; [split; [auto 20 with cmodel|by right]|]. intros [] _. cbn [track].
  rewrite bool_decide_true by done. cbn [learn_if]. set (s1 := learn PrivateMounts _).
  apply wp_or_fail; [done|]. intros root [_ Hnew]. cbn [track].
  assert (Hne : root_fd c <> root).
  { specialize (Hnew (RootFd (root_fd c))). simpl in Hnew. rewrite Z.eqb_neq in Hnew.
    apply Hnew. by do 2 right. }
  apply wp_or_fail; [done|]. intros current _. cbn [track].
  apply wp_or_fail; [done|]. intros expected _. cbn [track].
  destruct (negb _ || negb _) eqn:E1; [apply wp_fail|]. apply inode_eqb in E1 as ->.
  assert (H1 : released s1) by (unfold s1; auto 20 with cmodel).
  assert (Hpriv : PrivateMounts ∈ facts s1) by apply learn_in.
  assert (Hsu1 : su_child (sup s1) = 0) by done.
  assert (Hsess : NewSession ∈ facts s1) by (apply learn_keep, learn_in).
  assert (Hroot1 : RootFd (root_fd c) ∈ facts s1) by by do 2 apply learn_keep.
  clearbody s1.
  apply wp_or_fail; [split; [auto 20 with cmodel|known]|]. intros [] _. cbn [track facts learn identity_of].
  rewrite (proj2 (Z.eqb_neq _ _)) by done. rewrite Z.eqb_refl.
  apply wp_or_fail; [split; [auto 20 with cmodel|left; known]|]. intros [] _. cbn [track].
  rewrite bool_decide_false by (by intros [? _]). rewrite bool_decide_true by done. cbn [cwd move learn_if].
  apply wp_or_fail; [split; [auto 20 with cmodel|known]|]. intros [] _. cbn [track].
  assert (Hpath : forall s', released s' -> su_child (sup s') = 0 -> PrivateMounts ∈ facts s' -> NewSession ∈ facts s' ->
    RootFd (root_fd c) ∈ facts s' -> Identity (root_fd c) expected ∈ facts s' -> Bound expected ∈ facts s' ->
    wp (let* current := or_fail (Stat DOT) "stat rootfs mount" in
        if negb (fst current =? fst expected) || negb (snd current =? snd expected) then
          fail ESTALE "rootfs changed before pivot"
        else
          or_fail (Mount (Some (lit "proc")) (lit "proc") (Some (lit "proc")) [MS_NOSUID; MS_NODEV; MS_NOEXEC])
            "mount container proc" ;!
          or_fail (PivotRoot DOT DOT) "pivot rootfs" ;!
          or_fail (Umount2 DOT true) "detach old root" ;!
          or_fail (Chdir SLASH) "detach old root") (fun _ => entered c) s').
  { clear. intros s Hr Hsu Hp Hs Hroot Hid Hb.
    apply wp_or_fail; [done|]. intros current _. cbn [track]. rewrite bool_decide_true by done.
    destruct (negb _ || negb _) eqn:E; [apply wp_fail|]. apply inode_eqb in E as ->.
    apply wp_or_fail; [split; [auto 20 with cmodel|by left]|]. intros [] _. cbn [track].
    rewrite !bool_decide_false by (by intros [? _]).
    apply wp_or_fail.
    { split_and!; [auto 20 with cmodel|by exists (root_fd c), expected|done|done|done|by exists expected]. }
    intros [] _. cbn [track cwd move learn_if].
    apply wp_or_fail; [split; [auto 20 with cmodel|exists expected; apply learn_in]|]. intros [] _. cbn [track].
    rewrite bool_decide_true by done. cbn [learn_if].
    apply wp_or_fail_last; [split; [auto 20 with cmodel|known]|]. intros [] _. cbn [track].
    rewrite bool_decide_true by done.
    split; [auto 20 with cmodel|]. split; [done|].
    split_and!; try (known; done). exists expected. split; known. }
  destruct (bool_decide _).
  - apply Hpath; [auto 20 with cmodel|done|known..].
  - apply Hpath; [auto 20 with cmodel|done|known..].
Qed.

(** ** The command *)

Lemma wp_set_signals sigs d op s :
  wp (set_signals sigs d op)
    (fun _ s' => extends s s' /\ (forall sig, sig ∈ sigs -> Disposition sig d ∈ facts s') /\
       (forall f, f ∈ facts s' -> f ∈ facts s \/ exists sig, f = Disposition sig d)) s.
Proof.
  revert s. induction sigs as [|sig sigs IH]; intros s.
  - apply wp_ret. split; [apply extends_refl|].
    split; [|by left]. intros sig Hs. by apply not_elem_of_nil in Hs.
  - apply wp_or_fail; [done|]. intros [] _. cbn [track learn_if].
    eapply wp_mono, IH. intros _ s' ((He & Hc & Hsup) & Hd & Ht). split_and!.
    + repeat split; [|done|done]. intros f Hf. apply He. by right.
    + intros x [->|Hx]%elem_of_cons; [apply He, learn_in|by apply Hd].
    + intros f Hf. apply Ht in Hf as [Hf|?]; [|by right]. cbn [facts learn] in Hf.
      apply elem_of_cons in Hf as [->|Hf]; [right; by exists sig|by left].
Qed.

Lemma confined_extends s s' : confined s -> (forall f, f ∈ facts s -> f ∈ facts s') -> confined s'.
Proof.
  intros ((fd & i & H1 & H2 & H3) & H4 & H5 & H6 & H7 & H8 & (n & H9 & H10) & H11 & H12) He.
  split_and!; auto.
  - exists fd, i. auto.
  - exists n. auto.
Qed.

Lemma wp_exec_command c s Φ :
  released s -> confined s -> Command (command c) ∈ facts s -> command c <> [] -> wp (exec_command c) Φ s.
Proof.
  intros Hr Hc Hcom Hcmd. unfold exec_command.
  apply wp_or_fail; [done|]. intros [] _. cbn [track]. change ((0 =? 0) && (0 =? 0)) with true. cbn [learn_if].
  apply wp_bind. eapply wp_mono, wp_set_signals. intros _ s1 ((He & _ & _) & Hd & _).
  apply wp_or_fail; [done|]. intros [] _. cbn [track learn_if].
  apply wp_or_fail; [done|]. intros [] _. cbn [track learn_if].
  destruct (command c) as [|path args]; [done|].
  apply wp_sys.
  { split_and!.
    - do 2 apply learn_keep. by apply He, learn_keep.
    - done.
    - destruct Hr as (H1 & H2 & H3). split_and!; do 2 apply learn_keep; by apply He, learn_keep.
    - eapply confined_extends; [exact Hc|]. intros f Hf. do 2 right. apply He. by right.
    - do 2 apply learn_keep. apply He, learn_in.
    - apply learn_in.
    - intros sig [->|Hs]%elem_of_cons; [apply learn_keep, learn_in|].
      do 2 apply learn_keep. by apply Hd. }
  intros errno _. cbn [track]. apply wp_sys; [done|]. intros [] _. cbn [track].
  apply wp_exit. right. exists errno. split; [apply learn_in|done].
Qed.

(** The container's init keeps the rules, and returns the status of its command. *)
Lemma wp_run_container c :
  container_ok c ->
  wp (run_container c) (fun code s => exists pid, supervised pid code s) (container_start c).
Proof.
  intros Hok. apply wp_bind.
  eapply wp_mono; [|eapply (wp_keep _ _ _ (Command (command c))), (wp_await_ready c Hok); [done|]].
  2: { do 4 right. left. }
  intros _ s (Hcom & Hr & Hroot & Hsu). apply wp_bind.
  eapply wp_mono; [|eapply (wp_keep _ _ _ (Command (command c))), wp_enter_root; done].
  intros _ s1 (Hcom1 & Hr1 & Hsu1 & H1 & (i & H2 & H3) & H4 & H5 & H6 & H7).
  apply wp_or_fail; [done|]. intros [] _. cbn [track].
  change ((3 =? 3) && (2 ^ 32 - 1 =? 2 ^ 32 - 1)) with true. cbn [learn_if].
  apply wp_bind. eapply wp_mono, wp_drop_capabilities. intros _ s2 ((He & _ & Hsup) & Hb & Hn & Hp).
  assert (Hconf : confined s2).
  { split_and!; [exists (root_fd c), i; split_and!|..]; try done; apply He; known. }
  assert (Hr2 : released s2).
  { destruct Hr1 as (? & ? & ?). split_and!; by apply He, learn_keep. }
  assert (Hsu2 : su_child (sup s2) = 0) by by rewrite Hsup.
  apply wp_or_fail; [done|]. intros pid Hpid. cbn [track answer_ok] in *.
  destruct (Z.eqb_spec pid 0) as [->|Hne].
  - apply wp_exec_command; [done|done| |apply Hok]. apply He. by right.
  - rewrite (proj2 (Z.ltb_lt _ _)) by lia. apply wp_sys; [done|].
    assert (Hwatch : forall s', watches pid (- pid) s' ->
      wp (supervise pid true) (fun code s => exists pid, supervised pid code s) s').
    { intros s' Hw. eapply wp_mono, (wp_supervise pid true (- pid)); [|done|done]. intros code s3 H. by exists pid. }
    intros [[]|e] _; cbn [track].
    + apply Hwatch. destruct ((pid =? 0) && (pid =? 0)); by repeat split.
    + destruct (negb (e =? EACCES)); [apply wp_fail|]. apply Hwatch.
      destruct ((pid =? 0) && (pid =? 0)); by repeat split.
Qed.

(** ** What facts stand for *)

(** The call whose success a fact records. *)
Definition evidence (f : fact) (ev : event sysE) : Prop :=
  match f with
  | RootFd _ | Args _ | Command _ => False
  | ParentFd fd => exists pid, ev = Ev (PidfdOpen pid) (Ok fd)
  | ReadyRead fd => exists flags w, ev = Ev (Pipe2 flags) (Ok (fd, w))
  | ReadyWrite fd => exists flags r, ev = Ev (Pipe2 flags) (Ok (r, fd))
  | ParentDeathSignal => ev = Ev (SetPdeathsig SIGKILL) (Ok tt)
  | ParentAlive => exists fd timeout, ev = Ev (Poll fd timeout) (Ok 0)
  | Released => exists fd len, ev = Ev (Read fd len) (Ok [x31])
  | NewSession => exists sid, ev = Ev Setsid (Ok sid)
  | PrivateMounts => exists src fs, ev = Ev (Mount src SLASH fs [MS_REC; MS_PRIVATE]) (Ok tt)
  | Identity fd i => ev = Ev (Fstat fd) (Ok i)
  | OpenFd fd => exists flags, ev = Ev (FcntlGetfd fd) (Ok flags)
  | HostRoot i => ev = Ev (Stat SLASH) (Ok i)
  | Bound _ => exists fs, ev = Ev (Mount (Some DOT) DOT fs [MS_BIND]) (Ok tt)
  | Root _ => exists a b, ev = Ev (PivotRoot a b) (Ok tt)
  | OldRootGone => ev = Ev (Umount2 DOT true) (Ok tt)
  | AtRoot => ev = Ev (Chdir SLASH) (Ok tt)
  | NoDescriptors => ev = Ev (CloseRange 3 (2 ^ 32 - 1)) (Ok tt)
  | Dropped cap => ev = Ev (CapbsetDrop cap) (Ok tt)
  | NoCapability cap => ev = Ev (CapbsetRead cap) (Err EINVAL)
  | NoCapabilities => ev = Ev (Capset 0 [(0, 0, 0); (0, 0, 0)]) (Ok tt)
  | NoNewPrivileges => ev = Ev (SetNoNewPrivs 1) (Ok tt)
  | OwnGroup => ev = Ev (Setpgid 0 0) (Ok tt)
  | Disposition sig d => ev = Ev (Sigaction sig d) (Ok tt)
  | Blocked set => ev = Ev (Sigprocmask true set) (Ok tt)
  | Unblocked set => ev = Ev (Sigprocmask false set) (Ok tt)
  | ExecFailed errno => exists path argv, ev = Ev (Execv path argv) errno
  | IsUid uid => ev = Ev Getuid uid
  | IsGid gid => ev = Ev Getgid gid
  | IsEuid uid => ev = Ev Geteuid uid
  | IsEgid gid => ev = Ev Getegid gid
  | Opened fd path => exists flags, ev = Ev (Open path flags) (Ok fd) \/ exists dir, ev = Ev (Openat dir path flags) (Ok fd)
  | Wrote _ data => exists fd, ev = Ev (Write fd data) (Ok (zlen data))
  | ToldReady => exists fd data, ev = Ev (Write fd data) (Ok (zlen data))
  | Killed pid => exists sig r, ev = Ev (Kill pid sig) r
  end.

Lemma learn_if_inv {A} (r : sysres A) g s f :
  f ∈ facts (learn_if r g s) -> f ∈ facts s \/ (f = g /\ exists a, r = Ok a).
Proof.
  destruct r as [a|e]; [|by left]. cbn [learn_if learn facts]. intros [->|H]%elem_of_cons; [right|by left].
  split; [done|by exists a].
Qed.

Lemma track_evidence A (e : sysE A) a s f :
  f ∈ facts (track A e a s) -> f ∈ facts s \/ evidence f (Ev e a).
Proof.
  destruct e; cbn [track]; intros H; try (by left);
    repeat first
      [ match type of H with
        | context [if bool_decide ?b then _ else _] => case_bool_decide
        | context [if decide ?b then _ else _] => destruct (decide b)
        | context [if ?x =? ?y then _ else _] => destruct (Z.eqb_spec x y)
        | context [if (?x =? ?y) && (?v =? ?w) then _ else _] =>
            destruct (Z.eqb_spec x y), (Z.eqb_spec v w); cbn [andb] in H
        | context [match ?x with _ => _ end] => destruct x eqn:?
        | _ ∈ facts (learn_if _ _ _) => apply learn_if_inv in H as [H|[-> [[] ->]]]
        | _ ∈ facts (learn_if _ _ _) => apply learn_if_inv in H as [H|[-> [? ->]]]
        | _ ∈ facts (forget _ _) => left; revert H; unfold forget; cbn [facts];
            rewrite !list_elem_of_In, filter_In; by intros [? _]
        | _ ∈ facts (learn _ _) => cbn [facts learn] in H
        | _ ∈ _ :: _ => apply elem_of_cons in H as [->|H]
        | _ ∈ facts (move _ _) => cbn [facts move] in H
        | _ ∈ facts (watch _ _) => cbn [facts watch] in H
        end
      | progress (simplify_eq; unpack) ];
    try (by left); right; cbn [evidence];
    repeat match goal with u : unit |- _ => destruct u end; try (by eauto 6).
Qed.

(** Whatever is known was known before or is recorded by the run. *)
Lemma runs_evidence {R} (t u : sysprog R) s tr s' f :
  runs mstep t s tr u s' -> f ∈ facts s' -> f ∈ facts s \/ Exists (evidence f) tr.
Proof.
  intros Hr. induction Hr as [t s|t t' s tr u s' Ht Hr IH|A t e k a s s1 tr u s' Ht [_ ->] Hr IH]; intros Hf.
  - by left.
  - by apply IH.
  - destruct (IH Hf) as [H|H]; [|right; by right].
    apply track_evidence in H as [H|H]; [by left|right; by left].
Qed.

(** What is given at the start stays as it was. *)
Lemma runs_given {R} (t u : sysprog R) s tr s' f :
  (forall ev, ~ evidence f ev) -> runs mstep t s tr u s' -> f ∈ facts s' -> f ∈ facts s.
Proof.
  intros Hf Hr H. destruct (runs_evidence _ _ _ _ _ _ Hr H) as [|He]; [done|].
  apply Exists_exists in He as (ev & _ & He). by apply Hf in He.
Qed.

(** A reaped status was reported by [waitpid] for the child. *)
Lemma track_reaped A (e : sysE A) a s st :
  su_status (sup (track A e a s)) = Some st ->
  (su_status (sup s) = Some st /\ su_child (sup (track A e a s)) = su_child (sup s)) \/
  (su_child (sup (track A e a s)) = su_child (sup s) /\ 0 < su_child (sup s) /\
   exists pid, Ev e a = Ev (Waitpid pid true) (Ok (su_child (sup s), st))).
Proof.
  destruct e; cbn [track]; unfold reaped, signalled, forwarded; intros H; try (by left); revert H;
    repeat first
      [ match goal with
        | |- context [sup (learn_if ?r _ _)] => destruct r; cbn [learn_if]
        | |- context [match ?x with _ => _ end] => destruct x eqn:?
        end
      | progress cbn [sup learn watch move forget signalled reaped forwarded su_status su_child] ];
    intros; simplify_eq; try (by left).
  right. rewrite <-(proj1 (Z.eqb_eq _ _) ltac:(done)). split; [done|]. split; [by apply Z.ltb_lt|]. by eexists.
Qed.

Lemma runs_reaped {R} (t u : sysprog R) s tr s' st :
  runs mstep t s tr u s' -> su_status (sup s') = Some st ->
  (su_status (sup s) = Some st /\ su_child (sup s') = su_child (sup s)) \/
  exists pid, Ev (Waitpid pid true) (Ok (su_child (sup s'), st)) ∈ tr.
Proof.
  intros Hr. induction Hr as [t s|t t' s tr u s' Ht Hr IH|A t e k a s s1 tr u s' Ht [_ ->] Hr IH]; intros Hst.
  - by left.
  - by apply IH.
  - destruct (IH Hst) as [[H E]|[pid H]]; [|right; exists pid; by right].
    apply track_reaped in H as [[H E']|(E' & _ & pid & H)]; [left; by rewrite E|right; exists pid].
    rewrite H, E, E'. left.
Qed.

(** What the init knows of its start, and what it learned. *)
Lemma container_start_facts c f :
  f ∈ facts (container_start c) ->
  f = RootFd (root_fd c) \/ f = ParentFd (parent_fd c) \/ f = ReadyRead (ready_r c) \/
  f = ReadyWrite (ready_w c) \/ f = Command (command c).
Proof. cbn [facts container_start]. rewrite !elem_of_cons, elem_of_nil. tauto. Qed.

Lemma container_command c (u : sysprog Z) tr s argv :
  runs mstep (run_container c) (container_start c) tr u s -> Command argv ∈ facts s -> argv = command c.
Proof.
  intros Hr H. apply (runs_given _ _ _ _ _ (Command argv)) in Hr; [|by intros ev []|done].
  apply container_start_facts in Hr. by destruct Hr as [?|[?|[?|[?|[= ->]]]]].
Qed.

Lemma container_root c (u : sysprog Z) tr s fd :
  runs mstep (run_container c) (container_start c) tr u s -> RootFd fd ∈ facts s -> fd = root_fd c.
Proof.
  intros Hr H. apply (runs_given _ _ _ _ _ (RootFd fd)) in Hr; [|by intros ev []|done].
  apply container_start_facts in Hr. by destruct Hr as [[= ->]|[?|[?|[?|?]]]].
Qed.
