(* ===== verification/RuntimeLauncher.v ===== *)
(** * The launcher keeps the rules

    [main] clones the child only as an ordinary user with its signals blocked,
    tells it to go on only when its three maps are written, with the texts meant,
    kills and waits for it when they cannot be, and returns its status. *)

From S2P Require Import Prelude CLib Effects Runtime RuntimeMonitor RuntimeSafety.
Local Open Scope Z_scope.
Local Open Scope prog_scope.

(** ** The texts *)

Lemma format64_ok fmt args text :
  expand (lit fmt) args = Some text -> NUL ∉ text -> zlen text < 64 ->
  exists b, format64 fmt args = Some b /\ is_cstr b text.
Proof.
  intros He Hn Hl. unfold format64, vsnprintf. rewrite He. eexists. split; [done|].
  rewrite take_ge by lia. by apply is_cstr_intro.
Qed.

Lemma no_nul s : forallb (fun c => negb (bool_decide (c = NUL))) s = true -> NUL ∉ s.
Proof.
  intros Hf Hn. rewrite forallb_forall in Hf. apply list_elem_of_In, Hf in Hn.
  by rewrite bool_decide_true in Hn.
Qed.

Lemma decimal_no_nul n : 0 <= n -> NUL ∉ decimal n.
Proof.
  intros Hn H. destruct (decimal_spec n Hn) as (Hd & _).
  by apply (proj1 (Forall_forall _ _) Hd) in H.
Qed.

Lemma decimal_short n : 0 <= n < 2 ^ 32 -> zlen (decimal n) <= 10.
Proof. intros Hn. destruct (decimal_spec n) as (_ & _ & H & _); [lia|]. apply H; lia. Qed.

(** The text of a map of one user or group. *)
Lemma map_text_format id :
  0 <= id < 2 ^ 32 -> exists b, format64 "0 %lu 1\n" [ALong id] = Some b /\ is_cstr b (map_text id).
Proof.
  intros Hid. apply format64_ok.
  - unfold map_text. cbn -[decimal]. done.
  - unfold map_text. rewrite !elem_of_app. pose proof (decimal_no_nul id ltac:(lia)).
    pose proof (no_nul (lit "0 ") eq_refl). pose proof (no_nul (lit " 1\n") eq_refl). tauto.
  - unfold map_text. pose proof (decimal_short id Hid). rewrite !length_app. simpl. lia.
Qed.

(** A path under /proc/<pid>, for a name short enough. *)
Lemma proc_file_format pid name :
  0 < pid <= INT_MAX -> NUL ∉ lit name -> zlen (lit name) <= 32 ->
  exists b, format64 "/proc/%ld/%s" [ALong pid; AStr (literal name)] = Some b /\ is_cstr b (proc_file pid name).
Proof.
  intros Hp Hn Hl. apply format64_ok.
  - assert (Hc : cstring (literal name) = Some (lit name)) by by apply cstring_cstr, is_cstr_intro.
    unfold proc_file. revert Hc. generalize (literal name) (lit name). intros p s Hc.
    cbn -[decimal cstring]. rewrite Hc. by rewrite app_nil_r.
  - unfold proc_file. rewrite !elem_of_app. pose proof (decimal_no_nul pid ltac:(lia)).
    pose proof (no_nul (lit "/proc/") eq_refl). pose proof (no_nul (lit "/") eq_refl). tauto.
  - unfold proc_file. assert (zlen (decimal pid) <= 10).
    { apply decimal_short. unfold INT_MAX in *. lia. }
    rewrite !length_app. simpl in *. lia.
Qed.

(** ** Descriptors that come and go *)

(** More is known, as far as the supervision of the child goes. *)
Definition grows (s s' : monitor) : Prop :=
  (forall f, f ∈ facts s -> f ∈ facts s') /\ sup s' = sup s.

Lemma grows_refl s : grows s s.
Proof. by split. Qed.
Lemma grows_trans s1 s2 s3 : grows s1 s2 -> grows s2 s3 -> grows s1 s3.
Proof. intros [H1 E1] [H2 E2]. split; [auto|congruence]. Qed.
Lemma grows_learn s f : grows s (learn f s).
Proof. split; [by right|done]. Qed.

Lemma path_of_forget fd x s :
  path_of (facts (forget fd s)) x = if fd =? x then None else path_of (facts s) x.
Proof.
  unfold forget. cbn [facts]. induction (facts s) as [|f fs IH]; [by destruct (fd =? x)|].
  destruct f; cbn [List.filter about negb path_of]; try exact IH;
    match goal with |- context [negb (?a =? fd)] => rename a into b end;
    try (destruct (b =? fd); exact IH).
  destruct (Z.eqb_spec b fd) as [->|Hne]; cbn [negb path_of]; rewrite IH.
  - by destruct (fd =? x).
  - destruct (Z.eqb_spec b x) as [->|]; [|done]. by rewrite (proj2 (Z.eqb_neq _ _)).
Qed.

Lemma path_of_fresh fd s : fresh fd s -> path_of (facts s) fd = None.
Proof.
  unfold fresh. induction (facts s) as [|f fs IH]; intros H; [done|].
  assert (Hf : about fd f = false) by (apply H; by left).
  assert (IH' : path_of fs fd = None) by (apply IH; intros g Hg; apply H; by right).
  destruct f; cbn [path_of] in *; try done. cbn [about] in Hf. by rewrite Hf.
Qed.

Lemma forget_subset fd s f : f ∈ facts (forget fd s) -> f ∈ facts s.
Proof. intros H%list_elem_of_In. apply filter_In in H as [H _]. by apply list_elem_of_In. Qed.

Lemma denied_grows s s' : grows s s' -> denied s -> denied s'.
Proof. intros [H E]. unfold denied. rewrite E. apply H. Qed.

Lemma map_write_grows p d s s' : grows s s' -> map_write p d s -> map_write p d s'.
Proof.
  intros Hg [[-> ->]|[(Hd & -> & id & Hi & ->)|(Hd & -> & id & Hi & ->)]]; rewrite <-(proj2 Hg).
  - by left.
  - right; left. split; [by eapply denied_grows|]. split; [done|]. exists id. split; [by apply Hg|done].
  - right; right. split; [by eapply denied_grows|]. split; [done|]. exists id. split; [by apply Hg|done].
Qed.

(** ** The maps *)

(** The child is waiting: nothing was told it, and [w] is the pipe to it. *)
Definition waiting (child w : Z) (s : monitor) : Prop :=
  0 < child <= INT_MAX /\ watches child child s /\ ToldReady ∉ facts s /\
  ReadyWrite w ∈ facts s /\ path_of (facts s) w = None.

Lemma wp_write_map child w name value text s :
  waiting child w s -> NUL ∉ lit name -> zlen (lit name) <= 32 -> is_cstr value text ->
  map_write (proc_file child name) text s ->
  wp (write_map child name value) (fun r s' =>
    waiting child w s' /\ grows s s' /\
    (r = Ok tt -> Wrote (proc_file child name) text ∈ facts s')) s.
Proof.
  intros Hw Hn Hl Hv Hm. pose proof Hw as (Hpid & Hwat & Htold & Hready & Hpath). unfold write_map.
  destruct (proc_file_format child name Hpid Hn Hl) as (b & -> & Hb).
  rewrite (cstring_cstr _ _ Hb), (cstring_cstr _ _ Hv).
  apply wp_sys; [done|]. intros [fd|e] Hnew; cbn [track answer_ok] in *.
  2: { apply wp_ret. split; [done|]. split; [apply grows_refl|done]. }
  destruct Hnew as [_ Hnew].
  assert (Hfd : fd <> w).
  { specialize (Hnew _ Hready). cbn [about] in Hnew. apply Z.eqb_neq in Hnew. congruence. }
  apply wp_sys.
  { cbn [in_order facts learn path_of]. rewrite Z.eqb_refl.
    eapply map_write_grows; [apply grows_learn|done]. }
  intros written _. cbn [track facts learn path_of]. rewrite Z.eqb_refl.
  match goal with |- wp _ _ ?m => remember m as s1 eqn:Es1 end.
  assert (Hs1 : s1 = learn (Opened fd (proc_file child name)) s \/
    (written = Ok (zlen text) /\ s1 = learn (Wrote (proc_file child name) text) (learn (Opened fd (proc_file child name)) s))).
  { subst s1. destruct written as [n|]; [|by left].
    destruct (Z.eqb_spec n (zlen text)) as [E|]; [right; by rewrite E|by left]. }
  assert (Hno : (match written with Ok n => n =? zlen text | Err _ => false end) = true -> written = Ok (zlen text)).
  { destruct written as [n|]; [|done]. by intros ->%Z.eqb_eq. }
  apply wp_sys; [done|]. intros [] _. cbn [track].
  assert (Hgrow : forall f, f ∈ facts s -> f ∈ facts (forget fd s1)).
  { intros f Hf. apply forget_keep; [|by apply Hnew].
    destruct Hs1 as [->|[_ ->]]; [by right|by do 2 right]. }
  assert (Hsup : sup (forget fd s1) = sup s) by by destruct Hs1 as [->|[_ ->]].
  assert (Hwait : waiting child w (forget fd s1)).
  { split_and!; try (destruct Hpid; done).
    - destruct Hwat as ((? & ?) & ? & ?). by repeat split; rewrite ?Hsup.
    - intros Ht%forget_subset. destruct Hs1 as [->|[_ ->]]; cbn [facts learn] in Ht;
        rewrite !elem_of_cons in Ht; naive_solver.
    - by apply Hgrow.
    - rewrite path_of_forget, (proj2 (Z.eqb_neq _ _)) by done.
      destruct Hs1 as [->|[_ ->]]; cbn [facts learn path_of]; by rewrite (proj2 (Z.eqb_neq _ _)). }
  destruct (match written with Ok n => n =? zlen text | Err _ => false end) eqn:E; apply wp_ret.
  - split; [done|]. split; [by split|]. intros _. specialize (Hno eq_refl).
    destruct Hs1 as [Hs|[_ Hs]]; [|rewrite Hs; apply forget_keep; [apply learn_in|done]].
    exfalso. rewrite Hno, Z.eqb_refl, Hs in Es1.
    apply (f_equal (fun m => length (facts m))) in Es1. simpl in Es1. lia.
  - split; [done|]. split; [by split|done].
Qed.

(** Some errno, or the child was told to go on with its maps written. *)
Lemma wp_map_user child w uid gid ub gb s :
  waiting child w s -> is_cstr ub (map_text uid) -> is_cstr gb (map_text gid) ->
  IsUid uid ∈ facts s -> IsGid gid ∈ facts s ->
  wp (map_user child ub gb w) (fun r s' =>
    match r with
    | None => watches child child s'
    | Some _ => waiting child w s'
    end) s.
Proof.
  intros Hw Hu Hg Hiu Hig. unfold map_user, or_else.
  assert (Hc : forall s', waiting child w s' -> su_child (sup s') = child) by by intros s' (_ & (_ & ? & _) & _).
  do 2 apply wp_bind.
  eapply wp_mono; [|eapply (wp_write_map child w "setgroups" _ (lit "deny") s); [done| |done| |]].
  2: { by apply no_nul. }
  2: { apply is_cstr_intro. by apply no_nul. }
  2: { left. by rewrite Hc. }
  intros [[]|e] s1 (H1 & G1 & W1); [|by do 2 apply wp_ret].
  assert (D1 : denied s1) by (unfold denied; rewrite Hc by done; by apply W1).
  apply wp_bind. eapply wp_mono; [|eapply (wp_write_map child w "uid_map" ub); [done| |done|done|]].
  2: { by apply no_nul. }
  2: { right; left. split; [done|]. split; [by rewrite Hc|]. exists uid. split; [by apply G1|done]. }
  intros [[]|e] s2 (H2 & G2 & W2); [|by do 2 apply wp_ret].
  assert (D2 : denied s2) by by eapply denied_grows.
  assert (I2 : IsUid uid ∈ facts s2 /\ IsGid gid ∈ facts s2) by by split; apply G2, G1.
  eapply wp_mono; [|eapply (wp_write_map child w "gid_map" gb); [done| |done|done|]].
  2: { by apply no_nul. }
  2: { right; right. split; [done|]. split; [by rewrite Hc|]. exists gid. split; [apply I2|done]. }
  intros [[]|e] s3 (H3 & G3 & W3); [|by apply wp_ret].
  assert (D3 : denied s3) by by eapply denied_grows.
  pose proof H3 as (Hpid & Hwat & Htold & Hready & Hpath).
  apply wp_sys.
  { cbn [in_order]. rewrite Hpath. split; [|done]. split; [done|]. rewrite (Hc s3 H3).
    split; [exists uid|exists gid]; (split; [apply G3, I2|]); [by apply G3, W2|by apply W3]. }
  intros r _. cbn [track]. rewrite Hpath. destruct r as [n|e]; [|by apply wp_ret].
  change (zlen (lit "1")) with 1. destruct (Z.eqb_spec n 1) as [->|Hn].
  - by apply wp_ret.
  - destruct n as [|[p|p|]|p]; try done; by apply wp_ret.
Qed.

(** ** From [clone] to the status *)

Lemma wp_quiet {A R} (e : sysE A) (k : A -> sysprog R) Φ s :
  (forall a, track A e a s = s) -> in_order A e s -> (forall a, wp (k a) Φ s) ->
  wp (ITree.bind (call e) k) Φ s.
Proof. intros Ht Hi Hk. apply wp_sys; [done|]. intros a _. by rewrite Ht. Qed.

Lemma forget_other fd s f : f ∈ facts s -> about fd f = false -> f ∈ facts (forget fd s).
Proof. apply forget_keep. Qed.

Lemma waiting_forget child w fd s : waiting child w s -> fd <> w -> waiting child w (forget fd s).
Proof.
  intros (H1 & H2 & H3 & H4 & H5) Hne. split_and!; try (destruct H1; done).
  - intros H%forget_subset. done.
  - apply forget_keep; [done|]. cbn [about]. apply Z.eqb_neq. congruence.
  - rewrite path_of_forget. by destruct (fd =? w).
Qed.

Lemma waiting_learn child w f s :
  waiting child w s -> f <> ToldReady -> (forall p, f <> Opened w p) -> waiting child w (learn f s).
Proof.
  intros (H1 & H2 & H3 & H4 & H5) Hne Ho. split_and!; try (destruct H1; done).
  - cbn [facts learn]. rewrite elem_of_cons. intros [E|E]; [congruence|done].
  - by right.
  - cbn [facts learn]. destruct f; cbn [path_of]; try done.
    destruct (Z.eqb_spec fd w) as [->|]; [|done]. by destruct (Ho path).
Qed.

(** The status the launcher returns. *)
Definition launched (code : Z) (s : monitor) : Prop :=
  (code = RUNTIME_ERROR /\ su_status (sup s) = None) \/ exists child, supervised child code s.

Lemma wp_wait_child child Φ s :
  Killed child ∈ facts s -> Φ tt s -> wp (wait_child child) Φ s.
Proof.
  intros Hk HΦ. apply (wp_iter (fun _ s' => s' = s)); [done|]. intros _ s' ->.
  apply wp_sys; [done|]. intros [[pid st]|e] _; cbn [track]; [by apply wp_ret|].
  by destruct (e =? EINTR); apply wp_ret.
Qed.

Lemma wp_launch c stack s :
  (exists args, Args args ∈ facts s /\ command c = tail args) -> su_child (sup s) = 0 -> container_ok c -> handed_over c s -> ordinary_user s -> signals_blocked s -> ToldReady ∉ facts s -> path_of (facts s) (ready_w c) = None ->
  ReadyWrite (ready_w c) ∈ facts s -> ready_w c ∉ [ready_r c; parent_fd c; root_fd c] ->
  wp (launch c stack) launched s.
Proof.
  intros Hargs H0 Hok Hh Hu Hs Ht Hp Hw Hne. rewrite !not_elem_of_cons in Hne. destruct Hne as (N1 & N2 & N3 & _).
  apply wp_or_fail; [done|]. intros child Hpid. cbn [track answer_ok] in *.
  clear H0 Hargs.
  assert (H0 : waiting child (ready_w c) (watch (Supervision child child None None false) s)) by done.
  revert H0. generalize (watch (Supervision child child None None false) s). clear s Hh Hu Hs Ht Hp Hw. intros s H0.
  apply wp_sys; [done|]. intros [] _. cbn [track].
  assert (H1 : waiting child (ready_w c) (forget (ready_r c) s)) by (apply waiting_forget; [done|congruence]).
  apply wp_sys; [done|]. intros [] _. cbn [track].
  apply (waiting_forget _ _ (parent_fd c)) in H1; [|congruence].
  apply wp_sys; [done|]. intros [] _. cbn [track].
  apply (waiting_forget _ _ (root_fd c)) in H1; [|congruence].
  apply wp_sys; [done|]. intros uid Huid. cbn [track answer_ok] in *.
  apply (waiting_learn _ _ (IsUid uid)) in H1; [|done|done].
  destruct (map_text_format uid Huid) as (ub & -> & Hub).
  apply wp_sys; [done|]. intros gid Hgid. cbn [track answer_ok] in *.
  apply (waiting_learn _ _ (IsGid gid)) in H1; [|done|done].
  destruct (map_text_format gid Hgid) as (gb & -> & Hgb).
  apply wp_bind. eapply wp_mono; [|eapply (wp_map_user child (ready_w c) uid gid ub gb); [done|done|done| |]].
  2: { apply learn_keep, learn_in. }
  2: { apply learn_in. }
  intros [errno|] s'.
  - intros (_ & ((_ & Hst) & Hsc & _) & Ht & _ & _).
    apply wp_sys; [done|]. intros [] _. cbn [track].
    apply wp_sys; [split; [done|by right]|]. intros r _. cbn [track].
    apply wp_bind, wp_wait_child; [apply learn_in|].
    apply wp_sys; [done|]. intros [] _. cbn [track].
    apply wp_sys; [done|]. intros [] _. cbn [track].
    apply wp_sys; [done|]. intros [] _. cbn [track].
    apply wp_ret. by left.
  - intros Hwat. apply wp_sys; [done|]. intros [] _. cbn [track].
    apply wp_bind. eapply wp_mono; [|by eapply (wp_supervise child false child)].
    intros code s2 Hc.
    apply wp_sys; [done|]. intros [] _. cbn [track].
    apply wp_sys; [done|]. intros [] _. cbn [track].
    apply wp_ret. right. by exists child.
Qed.

(** ** The checks before *)

(** The launcher has no child yet, and is no container's init. *)
Definition startup (f : fact) : Prop := f = ToldReady \/ exists argv, f = Command argv.
Definition unstarted (s : monitor) : Prop :=
  su_child (sup s) = 0 /\ su_status (sup s) = None /\ forall f, startup f -> f ∉ facts s.

(** What is known stays known, and that does not change. *)
Definition quiet (s s' : monitor) : Prop :=
  (forall f, f ∈ facts s -> f ∈ facts s') /\ sup s' = sup s /\
  (forall f, startup f -> f ∈ facts s' -> f ∈ facts s).

Lemma quiet_unstarted s s' : quiet s s' -> unstarted s -> unstarted s'.
Proof.
  intros (_ & Hs & Hf) (H1 & H2 & H3). split; [by rewrite Hs|]. split; [by rewrite Hs|].
  intros f Hst H. by apply (H3 f), Hf.
Qed.

Lemma quiet_refl s : quiet s s.
Proof. by split. Qed.
Lemma quiet_learn s s' f : quiet s s' -> ~ startup f -> quiet s (learn f s').
Proof.
  intros (H1 & H2 & H3) Hf. split; [intros g Hg; right; auto|]. split; [done|].
  intros g Hg [->|E]%elem_of_cons; [done|auto].
Qed.
Lemma quiet_forget s s' fd :
  quiet s s' -> (forall f, f ∈ facts s -> about fd f = false) -> quiet s (forget fd s').
Proof.
  intros (H1 & H2 & H3) Hf. split; [intros g Hg; apply forget_keep; auto|]. split; [done|].
  intros g Hg H%forget_subset. auto.
Qed.
(** No fact of the startup. *)
Ltac not_startup := by intros [?|[? ?]].
Ltac quiet_learns := repeat (apply quiet_learn; [|not_startup]); try apply quiet_refl.

Lemma quiet_trans s1 s2 s3 : quiet s1 s2 -> quiet s2 s3 -> quiet s1 s3.
Proof. intros (H1 & H2 & H3) (K1 & K2 & K3). split; [auto|]. split; [congruence|auto]. Qed.


Lemma wp_setup_signals s :
  wp setup_signals (fun _ s' => quiet s s' /\ signals_blocked s') s.
Proof.
  apply wp_or_fail; [done|]. intros [] _. cbn [track learn_if].
  apply wp_bind. eapply wp_mono, wp_set_signals. intros _ s1 ((He & Hc & Hs) & Hd & Ht).
  apply wp_or_fail; [done|]. intros [] _. cbn [track learn_if].
  apply wp_or_fail_last; [done|]. intros [] _. cbn [track learn_if].
  split; [|split].
  - quiet_learns. split; [intros f Hf; apply He; by right|]. split; [done|].
    intros f Hst Hf. apply Ht in Hf as [Hf|[sig ->]]; [|by destruct Hst as [?|[? ?]]].
    cbn [facts learn] in Hf. apply elem_of_cons in Hf as [->|Hf]; [by destruct Hst as [?|[? ?]]|done].
  - do 2 right. apply He, learn_in.
  - intros sig Hsig. do 2 right. by apply Hd.
Qed.

Lemma quiet_ordinary s s' : quiet s s' -> ordinary_user s -> ordinary_user s'.
Proof.
  intros (He & _) ((u & H1 & H2) & (u' & H3 & H4) & (g & H5 & H6)). split_and!.
  - exists u. auto.
  - exists u'. auto.
  - exists g. auto.
Qed.

(** Closing a descriptor forgets only that. *)
Lemma ordinary_forget fd s : ordinary_user s -> ordinary_user (forget fd s).
Proof.
  intros ((u & H1 & H2) & (u' & H3 & H4) & (g & H5 & H6)). split_and!.
  - exists u. split; [done|]. by apply forget_keep.
  - exists u'. split; by apply forget_keep.
  - exists g. split; by apply forget_keep.
Qed.

(** The standard descriptors are open, so a new one is none of them. *)
Definition std_open (s : monitor) : Prop := forall fd, fd ∈ [0; 1; 2] -> OpenFd fd ∈ facts s.

Lemma fresh_std fd s : std_open s -> 0 <= fd -> fresh fd s -> 3 <= fd.
Proof.
  intros Hs H0 Hf.
  assert (H : forall x, x ∈ [0; 1; 2] -> x <> fd).
  { intros x Hx. specialize (Hf _ (Hs x Hx)). by apply Z.eqb_neq in Hf. }
  pose proof (H 0 ltac:(set_solver)). pose proof (H 1 ltac:(set_solver)). pose proof (H 2 ltac:(set_solver)). lia.
Qed.

(** The directory the launcher opened, which is not its own root. *)
Definition rootfs_open (path : list byte) (root : Z) (s : monitor) : Prop :=
  std_open s /\ 3 <= root /\
  Opened root path ∈ facts s /\ exists i j, Identity root i ∈ facts s /\ HostRoot j ∈ facts s /\ i <> j.

Lemma wp_start path root args s :
  Args args ∈ facts s -> tail args <> [] -> ordinary_user s -> unstarted s -> rootfs_open path root s ->
  wp (start path root (tail args)) launched s.
Proof.
  intros Hargs Hcmd Hu Ht (Hstd & Hroot & Ho & i & j & Hi & Hj & Hij). apply wp_bind. eapply wp_mono, wp_setup_signals. intros _ s1 [Hq Hb].
  assert (Hu1 : ordinary_user s1) by by eapply quiet_ordinary.
  pose proof (quiet_unstarted _ _ Hq Ht) as (Hsu & _ & Hst).
  apply wp_quiet; [done|done|]. intros self.
  apply wp_or_fail; [done|]. intros parent [Hpar0 Hpar]. cbn [track answer_ok] in *.
  apply wp_or_fail.
  { intros argv. cbn [facts learn]. rewrite elem_of_cons. intros [?|H]; [done|].
    apply (Hst (Command argv)); [right; by exists argv|done]. }
  intros [r w] (Hr0 & Hw0 & Hr & Hw & Hrw). cbn [track answer_ok] in *.
  apply wp_quiet; [done|done|]. intros [stack|]; [|apply wp_fail].
  assert (Hne1 : parent <> w).
  { specialize (Hw (ParentFd parent) (learn_in _ _)). by apply Z.eqb_neq in Hw. }
  assert (Hne3 : parent <> r).
  { specialize (Hr (ParentFd parent) (learn_in _ _)). by apply Z.eqb_neq in Hr. }
  assert (Hne : forall fd s', fresh fd s' -> (forall f, f ∈ facts s -> f ∈ facts s') -> root <> fd).
  { intros fd s' Hf Hs. specialize (Hf (Opened root path) (Hs _ Ho)). by apply Z.eqb_neq in Hf. }
  assert (Hk : forall f, f ∈ facts s -> f ∈ facts (learn (ParentFd parent) s1)).
  { intros f Hf. by apply learn_keep, Hq. }
  pose proof (Hne _ _ Hpar (proj1 Hq)) as Hne4.
  pose proof (Hne _ _ Hw Hk) as Hne2. pose proof (Hne _ _ Hr Hk) as Hne5. clear Hne.
  apply wp_launch; cbn [ready_w ready_r parent_fd root_fd]; [exists args; split; [do 3 right; by apply Hq|done]|done|..].
  - assert (Hstd1 : std_open (learn (ParentFd parent) s1)) by (intros fd Hfd; by apply Hk, Hstd).
    split; [|split; [|done]]; unfold descriptors; cbn [root_fd parent_fd ready_r ready_w].
    2: { repeat constructor; [done|..]; (eapply fresh_std; [|done|done]); [|done|done].
         intros fd Hfd. by apply Hq, Hstd. }
    rewrite !NoDup_cons, !not_elem_of_cons. split_and!; try done; first [apply not_elem_of_nil|apply NoDup_nil_2].
  - unfold handed_over. cbn [ready_w ready_r parent_fd root_fd root_path].
    split_and!; [do 2 right; by apply Hk|right; right; left|left|right; left|].
    exists i, j. split_and!; [do 2 right; by apply Hk..|done].
  - eapply quiet_ordinary; [|exact Hu1]. quiet_learns.
  - destruct Hb as [Hb1 Hb2]. split; [by do 3 right|]. intros sig Hs. do 3 right. by apply Hb2.
  - cbn [facts learn]. rewrite !elem_of_cons. intros [?|[?|[?|H]]]; [done..|].
    apply (Hst ToldReady); [by left|done].
  - cbn [facts learn path_of]. by apply path_of_fresh in Hw.
  - right. left.
  - rewrite !not_elem_of_cons. split_and!; [congruence..|apply not_elem_of_nil].
Qed.

Lemma wp_check_descriptors fds s :
  wp (check_descriptors fds) (fun _ s' => quiet s s' /\ forall fd, fd ∈ fds -> OpenFd fd ∈ facts s') s.
Proof.
  revert s. induction fds as [|fd fds IH]; intros s.
  - apply wp_ret. split; [apply quiet_refl|]. intros fd H. by apply not_elem_of_nil in H.
  - apply wp_or_fail; [done|]. intros a _. cbn [track learn_if].
    eapply wp_mono, IH. intros _ s' [Hq H]. split.
    + eapply quiet_trans, Hq. quiet_learns.
    + intros x [->|Hx]%elem_of_cons; [apply Hq, learn_in|by apply H].
Qed.

Lemma wp_open_rootfs arg s :
  std_open s ->
  wp (open_rootfs arg) (fun r s' =>
    quiet s s' /\ match r with Some (path, root) => rootfs_open path root s' | None => True end) s.
Proof.
  intros Hstd. apply wp_or_fail; [done|]. intros path _. cbn [track].
  apply wp_or_fail; [done|]. intros root [Hr0 Hr]. cbn [track].
  apply wp_or_fail; [done|]. intros rootfs _. cbn [track].
  apply wp_or_fail; [done|]. intros host _. cbn [track].
  rewrite bool_decide_false by done. rewrite bool_decide_true by done.
  destruct ((_ =? _) && _) eqn:E.
  { apply wp_quiet; [done|done|]. intros _. apply wp_ret. split; [quiet_learns|done]. }
  apply wp_or_fail; [done|]. intros proc [Hp0 Hproc]. cbn [track answer_ok] in *.
  apply wp_sys; [done|]. intros [] _. cbn [track]. apply wp_ret. split.
  - apply quiet_forget; [quiet_learns|]. intros f Hf. apply Hproc. by do 3 right.
  - assert (Hne : (root =? proc) = false) by (apply (Hproc (Opened root path)); do 2 right; left).
    split_and!.
    + intros fd Hfd. apply forget_keep; [do 4 right; by apply Hstd|]. apply Hproc. do 3 right. by apply Hstd.
    + by eapply fresh_std.
    + apply forget_keep; [do 3 right; left|done].
    + exists rootfs, host. split_and!.
      * apply forget_keep; [do 2 right; left|done].
      * apply forget_keep; [right; left|done].
      * intros ->. by rewrite !Z.eqb_refl in E.
Qed.

Lemma wp_privileged s :
  wp privileged (fun p s' => quiet s s' /\ (p = false -> ordinary_user s')) s.
Proof.
  apply wp_sys; [done|]. intros uid1 _. cbn [track].
  destruct (Z.eqb_spec uid1 0) as [->|H0].
  { apply wp_ret. split; [quiet_learns|done]. }
  apply wp_sys; [done|]. intros uid2 _. cbn [track].
  apply wp_sys; [done|]. intros euid _. cbn [track].
  destruct (Z.eqb_spec uid2 euid) as [->|Hne]; cbn [negb].
  2: { apply wp_ret. split; [quiet_learns|done]. }
  apply wp_sys; [done|]. intros gid _. cbn [track].
  apply wp_sys; [done|]. intros egid _. cbn [track].
  apply wp_ret. split; [quiet_learns|].
  rewrite negb_false_iff, Z.eqb_eq. intros ->. split_and!.
  - exists uid1. split; [done|]. do 4 right. left.
  - exists euid. split; [do 3 right; left|do 2 right; left].
  - exists egid. split; [right; left|left].
Qed.

(** What the launcher knows when it starts. *)
Definition launcher_start (args : list (list byte)) : monitor := Monitor [Args args] None (Supervision 0 0 None None false).

(** What [main] returns: the status of the container's init, 125, or 0 for its
    help. *)
Definition main_result (args : list (list byte)) (code : Z) (s : monitor) : Prop :=
  launched code s \/ (code = 0 /\ args = [lit "--help"] /\ su_status (sup s) = None).

(** The launcher keeps the rules. *)
Lemma wp_main argv0 args :
  wp (main (argv0 :: args)) (main_result args) (launcher_start args).
Proof.
  unfold main. case_bool_decide as Hhelp.
  { apply wp_quiet; [done|done|]. intros _. apply wp_ret. by right. }
  assert (Hfail : forall text s, su_status (sup s) = None ->
    wp (call (Print true text) ;! Ret RUNTIME_ERROR) (main_result args) s).
  { intros text s Hs. apply wp_quiet; [done|done|]. intros _. apply wp_ret. left. by left. }
  destruct args as [|rootfs [|[|b p] rest]]; [by apply Hfail..|].
  destruct (decide (b = x2f)) as [->|Hb]; [|destruct b; by first [done|apply Hfail]].
  assert (Hun : unstarted (launcher_start (rootfs :: (x2f :: p) :: rest))).
  { split; [done|]. split; [done|]. intros f Hf ->%list_elem_of_singleton. by destruct Hf as [?|[? ?]]. }
  apply wp_bind. eapply wp_mono, (wp_privileged (launcher_start _)).
  intros [] s1 [Hq1 Hu]; apply (quiet_unstarted _ _ Hq1) in Hun; [apply Hfail, Hun|].
  apply wp_bind. eapply wp_mono, wp_check_descriptors. intros _ s2 [Hq2 Hstd].
  apply (quiet_unstarted _ _ Hq2) in Hun.
  apply wp_bind. eapply wp_mono, wp_open_rootfs; [|done]. intros r s3 [Hq3 H3].
  apply (quiet_unstarted _ _ Hq3) in Hun. destruct r as [[path root]|].
  - eapply wp_mono; [|apply (wp_start _ _ (rootfs :: (x2f :: p) :: rest)); [|done| |done|done]]; [by left|apply Hq3, Hq2, Hq1; left|].
    eapply quiet_ordinary, quiet_ordinary, Hu; done.
  - apply wp_ret. left. left. split; [done|apply Hun].
Qed.
