(* ===== verification/RuntimeExec.v ===== *)
(** * Executions of the runtime's loops

    The statuses of [waitpid], and a deterministic environment in which
    [supervise] and [drop_capabilities] compute: children exit and signals arrive
    in a given order.  There they terminate, with the results of the references
    [supervision_of] and [capabilities_of]. *)

From S2P Require Import Prelude CLib Effects Runtime.
Local Open Scope Z_scope.
Local Open Scope prog_scope.

(** ** Wait statuses *)

(** How a process ended, and the status the kernel reports for it. *)
Inductive ending :=
| Exited (code : Z)                       (** the low 8 bits of the exit code *)
| Signaled (sig : Z) (core : bool).

Definition ending_ok (x : ending) : Prop :=
  match x with
  | Exited code => 0 <= code < 256
  | Signaled sig _ => 1 <= sig <= 64
  end.

Definition status_of (x : ending) : Z :=
  match x with
  | Exited code => Z.shiftl code 8
  | Signaled sig core => Z.lor sig (if core then 0x80 else 0)
  end.

(** What a shell shows for it. *)
Definition shell_code (x : ending) : Z :=
  match x with Exited code => code | Signaled sig _ => 128 + sig end.

Lemma exit_status_exited code : 0 <= code < 256 -> exit_status (status_of (Exited code)) = code.
Proof.
  intros H. unfold exit_status, WIFEXITED, WEXITSTATUS, WTERMSIG, status_of.
  assert (E1 : Z.land (Z.shiftl code 8) 0x7f = 0).
  { change 0x7f with (Z.ones 7). rewrite Z.land_ones, Z.shiftl_mul_pow2 by lia.
    change (2 ^ 8) with (2 * 2 ^ 7). rewrite Z.mul_assoc. by apply Z.mod_mul. }
  rewrite E1. simpl. change 0xff00 with (Z.shiftl 0xff 8). rewrite <-Z.shiftl_land, Z.shiftr_shiftl_l by lia.
  rewrite Z.sub_diag, Z.shiftl_0_r. change 0xff with (Z.ones 8). rewrite Z.land_ones by lia.
  by apply Z.mod_small.
Qed.

Lemma exit_status_signaled sig core :
  1 <= sig <= 64 -> exit_status (status_of (Signaled sig core)) = 128 + sig.
Proof.
  intros H. unfold exit_status, WIFEXITED, WTERMSIG, status_of.
  assert (E : Z.land (Z.lor sig (if core then 0x80 else 0)) 0x7f = sig).
  { rewrite Z.land_lor_distr_l. change 0x7f with (Z.ones 7).
    rewrite (Z.land_ones sig), Z.mod_small by lia.
    destruct core; [change (Z.land 128 (Z.ones 7)) with 0|change (Z.land 0 (Z.ones 7)) with 0];
      apply Z.lor_0_r. }
  rewrite E. by rewrite (proj2 (Z.eqb_neq sig 0)) by lia.
Qed.

Lemma exit_status_of x : ending_ok x -> exit_status (status_of x) = shell_code x.
Proof. destruct x; [apply exit_status_exited|apply exit_status_signaled]. Qed.

(** ** An environment for one process *)

Record world := World {
  w_zombies : list (Z * Z);                  (** ended, not reaped: pid and status *)
  w_signals : list (Z * list (Z * Z));       (** signals to come, with what ended before each *)
  w_kills : list (Z * Z);                    (** signals sent *)
  w_last_cap : Z;
  w_dropped : list Z;
  w_nocaps : bool;
  w_nnp : bool
}.

Definition set_wait (zs : list (Z * Z)) (sigs : list (Z * list (Z * Z))) (kills : list (Z * Z)) (w : world) : world :=
  World zs sigs kills (w_last_cap w) (w_dropped w) (w_nocaps w) (w_nnp w).
Definition set_caps (dropped : list Z) (nocaps nnp : bool) (w : world) : world :=
  World (w_zombies w) (w_signals w) (w_kills w) (w_last_cap w) dropped nocaps nnp.

Definition proc_env : environment sysE world := fun A e =>
  match e in sysE A return world -> option (A * world) with
  | Waitpid _ _ => fun w =>
      match w_zombies w with
      | [] => Some (Ok (0, 0), w)
      | z :: zs => Some (Ok z, set_wait zs (w_signals w) (w_kills w) w)
      end
  | Sigwaitinfo _ => fun w =>
      match w_signals w with
      | [] => None                           (* waits for ever *)
      | (s, zs) :: sigs => Some (Ok s, set_wait (w_zombies w ++ zs) sigs (w_kills w) w)
      end
  | Kill pid sig => fun w => Some (Ok tt, set_wait (w_zombies w) (w_signals w) (w_kills w ++ [(pid, sig)]) w)
  | CapbsetRead cap => fun w =>
      Some (if cap <=? w_last_cap w then Ok (if decide (cap ∈ w_dropped w) then 0 else 1) else Err EINVAL, w)
  | CapbsetDrop cap => fun w => Some (Ok tt, set_caps (w_dropped w ++ [cap]) (w_nocaps w) (w_nnp w) w)
  | Capset _ _ => fun w => Some (Ok tt, set_caps (w_dropped w) true (w_nnp w) w)
  | SetNoNewPrivs _ => fun w => Some (Ok tt, set_caps (w_dropped w) (w_nocaps w) true w)
  | _ => fun _ => None
  end.

(** ** [supervise] *)

Fixpoint find_status (child : Z) (zs : list (Z * Z)) : option Z :=
  match zs with
  | [] => None
  | (pid, st) :: zs' => if pid =? child then Some st else find_status child zs'
  end.

(** The code of the child and the signals forwarded until it ended, when it ends. *)
Fixpoint supervision_of (child target : Z) (zs : list (Z * Z)) (sigs : list (Z * list (Z * Z)))
  : option (Z * list (Z * Z)) :=
  match find_status child zs with
  | Some st => Some (exit_status st, [])
  | None =>
      match sigs with
      | [] => None
      | (s, zs') :: sigs' =>
          match supervision_of child target zs' sigs' with
          | Some (code, kills) => Some (code, if s =? SIGCHLD then kills else (target, s) :: kills)
          | None => None
          end
      end
  end.

Definition pids_ok (zs : list (Z * Z)) : Prop := Forall (fun z => 0 < fst z) zs.

Lemma reap_evals child zs : forall w,
  w_zombies w = zs -> pids_ok zs ->
  match find_status child zs with
  | Some st => exists zs', evals proc_env (reap child) w (inl (exit_status st)) (set_wait zs' (w_signals w) (w_kills w) w)
  | None => evals proc_env (reap child) w (inr None) (set_wait [] (w_signals w) (w_kills w) w)
  end.
Proof.
  induction zs as [|[pid st] zs IH]; intros w Hw Hp; cbn [find_status].
  - apply evals_iter_stop. eapply evals_call_bind; [simpl; by rewrite Hw|]. simpl.
    destruct w; simpl in *; subst. apply evals_ret.
  - apply Forall_cons in Hp as [Hpid Hp]. simpl in Hpid.
    assert (Hcall : proc_env _ (Waitpid (-1) true) w = Some (Ok (pid, st), set_wait zs (w_signals w) (w_kills w) w))
      by by simpl; rewrite Hw.
    destruct (Z.eqb_spec pid child) as [->|Hne].
    + exists zs. apply evals_iter_stop. eapply evals_call_bind; [exact Hcall|]. cbv beta iota.
      rewrite (proj2 (Z.ltb_lt _ _)) by done. rewrite Z.eqb_refl. apply evals_ret.
    + specialize (IH (set_wait zs (w_signals w) (w_kills w) w) eq_refl Hp).
      assert (Hstep : evals proc_env (reap_step child) w (inl tt) (set_wait zs (w_signals w) (w_kills w) w)).
      { eapply evals_call_bind; [exact Hcall|]. cbv beta iota. rewrite (proj2 (Z.ltb_lt _ _)) by done.
        rewrite (proj2 (Z.eqb_neq _ _)) by done. apply evals_ret. }
      destruct (find_status child zs) as [st'|].
      * destruct IH as [zs' IH]. exists zs'. by eapply evals_iter_next.
      * by eapply evals_iter_next.
Qed.

(** [supervise] returns when the child ends, having forwarded every signal that
    came before. *)
Lemma supervise_evals child pg sigs : forall w code kills,
  w_signals w = sigs -> pids_ok (w_zombies w) -> Forall (fun x => pids_ok (snd x)) sigs ->
  supervision_of child (if pg : bool then - child else child) (w_zombies w) sigs = Some (code, kills) ->
  exists zs' sigs', evals proc_env (supervise child pg) w code (set_wait zs' sigs' (w_kills w ++ kills) w).
Proof.
  induction sigs as [|[s zs1] sigs IH]; intros w code kills Hw Hz Hs Hsp; cbn [supervision_of] in Hsp;
    pose proof (reap_evals child _ w eq_refl Hz) as Hreap;
    (destruct (find_status child (w_zombies w)) as [st|];
     [injection Hsp as <- <-; destruct Hreap as [zs' Hreap]; exists zs', (w_signals w);
      apply evals_iter_stop; eapply evals_bind; [exact Hreap|]; rewrite app_nil_r; apply evals_ret|]).
  - done.
  - apply Forall_cons in Hs as [Hs1 Hs]. simpl in Hs1.
    destruct (supervision_of child _ zs1 sigs) as [[code' kills']|] eqn:E; [|done].
    injection Hsp as <- <-.
    assert (Hwait : proc_env _ (Sigwaitinfo wait_signals) (set_wait [] (w_signals w) (w_kills w) w) =
      Some (Ok s, set_wait zs1 sigs (w_kills w) w)) by by simpl; rewrite Hw.
    destruct (Z.eqb_spec s SIGCHLD) as [->|Hne].
    + destruct (IH (set_wait zs1 sigs (w_kills w) w) code' kills' eq_refl Hs1 Hs E) as (zs' & sigs' & Hloop).
      exists zs', sigs'. eapply evals_iter_next; [|exact Hloop].
      eapply evals_bind; [exact Hreap|]. cbv beta iota. eapply evals_call_bind; [exact Hwait|].
      cbv beta iota. rewrite Z.eqb_refl. apply evals_ret.
    + destruct (IH (set_wait zs1 sigs (w_kills w ++ [(if pg then - child else child, s)]) w) code' kills' eq_refl Hs1 Hs E)
        as (zs' & sigs' & Hloop).
      exists zs', sigs'.
      replace (w_kills w ++ (if pg then - child else child, s) :: kills')
        with ((w_kills w ++ [(if pg then - child else child, s)]) ++ kills') by by rewrite <-app_assoc.
      eapply evals_iter_next; [|exact Hloop].
      eapply evals_bind; [exact Hreap|]. cbv beta iota. eapply evals_call_bind; [exact Hwait|].
      cbv beta iota. rewrite (proj2 (Z.eqb_neq _ _)) by done. cbn [negb].
      eapply evals_call_bind; [reflexivity|]. apply evals_ret.
Qed.

(** ** [drop_capabilities] *)

(** Every capability there is, in order. *)
Definition capabilities_of (last : Z) : list Z := map Z.of_nat (seq 0 (Z.to_nat (last + 1))).

Lemma bounding_evals last k : forall w n,
  w_last_cap w = last -> 0 <= n <= last + 1 -> last < INT_MAX -> (Z.to_nat (last + 1 - n) = k)%nat ->
  evals proc_env (ITree.iter bounding_step n) w tt
    (set_caps (w_dropped w ++ map Z.of_nat (seq (Z.to_nat n) k)) (w_nocaps w) (w_nnp w) w).
Proof.
  induction k as [|k IH]; intros w n Hw Hn Hmax Hk.
  - assert (n = last + 1) as -> by lia. apply evals_iter_stop. rewrite app_nil_r.
    eapply evals_call_bind; [simpl; rewrite Hw, (proj2 (Z.leb_gt _ _)) by lia; reflexivity|].
    simpl. destruct w; apply evals_ret.
  - eapply evals_iter_next.
    + eapply evals_call_bind; [simpl; rewrite Hw, (proj2 (Z.leb_le _ _)) by lia; reflexivity|].
      cbv beta iota. eapply evals_bind; [eapply evals_call_bind; [reflexivity|apply evals_ret]|].
      unfold int_succ. rewrite (proj2 (Z.ltb_lt _ _)) by lia. apply evals_ret.
    + cbn [seq map]. replace (S (Z.to_nat n)) with (Z.to_nat (n + 1)) by lia.
      rewrite Z2Nat.id by lia.
      replace (w_dropped w ++ n :: map Z.of_nat (seq (Z.to_nat (n + 1)) k))
        with ((w_dropped w ++ [n]) ++ map Z.of_nat (seq (Z.to_nat (n + 1)) k)) by by rewrite <-app_assoc.
      apply (IH (set_caps (w_dropped w ++ [n]) (w_nocaps w) (w_nnp w) w)); [done|lia|done|lia].
Qed.

(** It drops every capability the kernel knows, and returns. *)
Lemma drop_capabilities_evals w :
  -1 <= w_last_cap w < INT_MAX ->
  evals proc_env drop_capabilities w tt
    (set_caps (w_dropped w ++ capabilities_of (w_last_cap w)) true true w).
Proof.
  intros Hl. eapply evals_bind.
  - by apply (bounding_evals (w_last_cap w) (Z.to_nat (w_last_cap w + 1)) w 0); [|lia|lia|lia].
  - eapply evals_bind; [eapply evals_call_bind; [reflexivity|apply evals_ret]|].
    eapply evals_call_bind; [reflexivity|]. apply evals_ret.
Qed.
