(* ===== verification/RuntimeDrive.v ===== *)
(** * Evaluating the runtime against its monitor

    A kernel that grants everything: with it the processes of the runtime can be
    run up to a call of interest.  What it computes are runs in the sense of
    [runs] ([drive_runs]). *)

From S2P Require Import Prelude CLib Effects Runtime RuntimeMonitor.
Local Open Scope Z_scope.

(** Descriptors are numbered upwards; [0] is the answer of [fork] in the child. *)
Definition next_fd (s : monitor) : Z :=
  1 + foldr (fun f n =>
        match f with
        | OpenFd x | RootFd x | ParentFd x | ReadyRead x | ReadyWrite x | Identity x _ | Opened x _ => Z.max x n
        | _ => n
        end) 2 (facts s).
Definition fresh_b (fd : Z) (s : monitor) : bool := (0 <=? fd) && forallb (fun f => negb (about fd f)) (facts s).

Definition if_fresh {A} (fd : Z) (s : monitor) (a : A) : option A := if fresh_b fd s then Some a else None.

Section drive.
(** What [fork] returns, the status the child ends with, and the last
    capability. *)
Context (forked status last_cap : Z).

Definition grant A (e : sysE A) (s : monitor) : option A :=
  match e in sysE A return option A with
  | Waitpid _ _ =>   (* the child ends when it is sent a signal *)
      Some (Ok (if existsb (fun f => match f with Killed _ => true | _ => false end) (facts s)
                then (su_child (sup s), status) else (0, 0)))
  | Sigwaitinfo _ => Some (Ok SIGTERM)
  | Kill _ _ => Some (Ok tt)
  | CapbsetRead cap =>
      if cap <=? last_cap then (if cap <=? 63 then Some (Ok 1) else None) else Some (Err EINVAL)
  | CapbsetDrop _ => Some (Ok tt)
  | Capset _ _ => Some (Ok tt)
  | SetNoNewPrivs _ => Some (Ok tt)
  | SetPdeathsig _ => Some (Ok tt)
  | Perror _ _ => Some tt
  | Exit _ => None
  | Close _ => Some tt
  | Poll _ _ => Some (Ok 0)
  | Read _ _ => Some (Ok (lit "1"))
  | Write _ data => Some (Ok (zlen data))
  | Setsid => Some (Ok 1)
  | Mount _ _ _ _ => Some (Ok tt)
  | Open _ _ => let fd := next_fd s in if_fresh fd s (Ok fd)
  | Openat _ _ _ => let fd := next_fd s in if_fresh fd s (Ok fd)
  | Fstat _ => Some (Ok (1, 42))
  | Stat path => Some (Ok (1, if bool_decide (path = SLASH) then 2 else 42))
  | Fchdir _ => Some (Ok tt)
  | Chdir _ => Some (Ok tt)
  | PivotRoot _ _ => Some (Ok tt)
  | Umount2 _ _ => Some (Ok tt)
  | CloseRange _ _ => Some (Ok tt)
  | Fork => if 0 <=? forked then Some (Ok forked) else None
  | Setpgid _ _ => Some (Ok tt)
  | Sigaction _ _ => Some (Ok tt)
  | Sigprocmask _ _ => Some (Ok tt)
  | Execv _ _ => Some ENOENT
  | FcntlGetfd _ => Some (Ok 0)
  | Getuid => Some 1000
  | Geteuid => Some 1000
  | Getgid => Some 1000
  | Getegid => Some 1000
  | Getpid => Some 100
  | Realpath path => Some (Ok path)
  | PidfdOpen _ => let fd := next_fd s in if_fresh fd s (Ok fd)
  | Pipe2 _ =>
      let r := next_fd s in let w := r + 1 in
      if fresh_b w s then if_fresh r s (Ok (r, w)) else None
  | Malloc _ => Some (Some 4096)
  | FreeStack _ => Some tt
  | FreePath _ => Some tt
  | Clone _ _ => Some (Ok 77)
  | Print _ _ => Some tt
  | Undefined => None
  end.

(** Run until the call [stop] asks for, or until the program returns. *)
Fixpoint drive {R} (stop : forall A, sysE A -> bool) (fuel : nat) (t : sysprog R) (s : monitor)
  : option (sysprog R * monitor) :=
  match observe t with
  | RetF _ => Some (t, s)
  | TauF t' => match fuel with O => None | S fuel' => drive stop fuel' t' s end
  | VisF e k =>
      if stop _ e then Some (t, s)
      else
        match fuel, grant _ e s with
        | S fuel', Some a => drive stop fuel' (k a) (track _ e a s)
        | _, _ => None
        end
  end.

Lemma fresh_b_spec fd s : fresh_b fd s = true -> 0 <= fd /\ fresh fd s.
Proof.
  unfold fresh_b, fresh. rewrite andb_true_iff, Z.leb_le, forallb_forall. intros [H0 H]. split; [done|].
  intros f Hf. by apply negb_true_iff, H, list_elem_of_In.
Qed.

Lemma grant_ok A (e : sysE A) s a : grant A e s = Some a -> answer_ok A e a s.
Proof.
  destruct e; cbn [grant answer_ok]; intros H; try done; unfold if_fresh in H;
    repeat match type of H with context [if ?b then _ else _] => destruct b eqn:? end;
    simplify_eq; try done;
    rewrite ?Z.leb_le in *;
    repeat match goal with H : fresh_b _ _ = true |- _ => apply fresh_b_spec in H as [? ?] end;
    try done; try (split_and!; first [done|lia]).
Qed.

Lemma drive_runs {R} stop fuel : forall (t : sysprog R) s u s',
  drive stop fuel t s = Some (u, s') -> exists tr, runs mstep t s tr u s'.
Proof.
  induction fuel as [|fuel IH]; intros t s u s'; cbn [drive]; destruct (observe t) as [r|t'|A e k] eqn:Ho;
    try (intros [= <- <-]; by exists []; constructor); try done.
  - destruct (stop A e); [|done]. intros [= <- <-]. exists []. constructor.
  - intros H. apply IH in H as [tr H]. exists tr. by eapply runs_tau.
  - destruct (stop A e); [intros [= <- <-]; exists []; constructor|].
    destruct (grant A e s) as [a|] eqn:Ha; [|done].
    intros H. apply IH in H as [tr H]. exists (Ev e a :: tr).
    eapply runs_vis; [done| |done]. split; [by apply grant_ok|done].
Qed.
(** The program was driven to a call that [stop] asks for, or to its end. *)
Definition drives {R} (stop : forall A, sysE A -> bool) (fuel : nat) (t : sysprog R) (s : monitor) : bool :=
  match drive stop fuel t s with
  | Some (u, _) => match observe u with VisF e _ => stop _ e | _ => false end
  | None => false
  end.

Lemma drives_call {R} stop fuel (t : sysprog R) s :
  drives stop fuel t s = true ->
  exists tr u s' A (e : sysE A) k, runs mstep t s tr u s' /\ observe u = VisF e k /\ stop A e = true.
Proof.
  unfold drives. destruct (drive stop fuel t s) as [[u s']|] eqn:E; [|done].
  apply drive_runs in E as [tr Hr]. destruct (observe u) as [r|u'|A e k] eqn:Ho; [done..|].
  intros H. by exists tr, u, s', A, e, k.
Qed.

Definition finishes {R} (ok : R -> monitor -> bool) (fuel : nat) (t : sysprog R) (s : monitor) : bool :=
  match drive (fun _ _ => false) fuel t s with
  | Some (u, s') => match observe u with RetF r => ok r s' | _ => false end
  | None => false
  end.

Lemma finishes_runs {R} ok fuel (t : sysprog R) s :
  finishes ok fuel t s = true -> exists tr u s' r, runs mstep t s tr u s' /\ observe u = RetF r /\ ok r s' = true.
Proof.
  unfold finishes. destruct (drive _ fuel t s) as [[u s']|] eqn:E; [|done].
  apply drive_runs in E as [tr Hr]. destruct (observe u) as [r|u'|A e k] eqn:Ho; [|done..].
  intros H. by exists tr, u, s', r.
Qed.
End drive.
