(* ===== verification/RuntimeSystem.v ===== *)
(** * The three processes of a container

    The launcher, the container's init it clones and the command the init forks,
    with what connects them: the startup pipe and the statuses of [waitpid].  Each
    process runs its part of [Runtime] against its own monitor; the processes are
    interleaved in any order, and any of them may be killed at any time.  What each
    promises is put together: the command runs only when the launcher has written
    the user maps, and the launcher returns the command's status. *)

From S2P Require Import Prelude CLib Effects Runtime RuntimeMonitor RuntimeSafety RuntimeLauncher RuntimeExec.
Local Open Scope Z_scope.
Local Open Scope prog_scope.

(** ** Processes *)

(** How a process ended. *)
Inductive outcome :=
| Returned (code : Z)                 (** from the function it runs *)
| ExitedWith (code : Z)               (** by [_exit] *)
| KilledBy (sig : Z) (core : bool)
| Ran (x : ending).                   (** after it executed another program *)

Inductive proc :=
| Unborn
| Running (t : sysprog Z) (s : monitor)
| Executing (path : list byte) (argv : list (list byte)) (s : monitor)
| Ended (o : outcome) (s : monitor).

(** The status the kernel keeps for the parent: exit codes have 8 bits. *)
Definition ending_of (o : outcome) : ending :=
  match o with
  | Returned code | ExitedWith code => Exited (code mod 256)
  | KilledBy sig core => Signaled sig core
  | Ran x => x
  end.

Definition outcome_ok (o : outcome) : Prop := ending_ok (ending_of o).

Definition knows (p : proc) : option monitor :=
  match p with Unborn => None | Running _ s | Executing _ _ s | Ended _ s => Some s end.

(** Steps of one process that are no calls: a system call that does not return
    is one of them. *)
Inductive local : proc -> proc -> Prop :=
| local_tau t t' s : observe t = TauF t' -> local (Running t s) (Running t' s)
| local_return t code s : observe t = RetF code -> local (Running t s) (Ended (Returned code) s)
| local_exit t code k s :
    observe t = VisF (Exit code) k -> local (Running t s) (Ended (ExitedWith code) s)
| local_exec t path argv k s :
    observe t = VisF (Execv path argv) k -> local (Running t s) (Executing path argv s)
| local_killed t s sig core : 1 <= sig <= 64 -> local (Running t s) (Ended (KilledBy sig core) s)
| local_ran path argv s x : ending_ok x -> local (Executing path argv s) (Ended (Ran x) s).

(** A status of the known child is the status of the process. *)
Definition waits_for (child : proc) (s : monitor) (ev : event sysE) : Prop :=
  match ev with
  | Ev e a =>
      (match e in sysE A return A -> Prop with
       | Waitpid _ true => fun r =>
           match r with
           | Ok (pid, st) =>
               0 < pid -> pid = su_child (sup s) -> exists o sc, child = Ended o sc /\ st = status_of (ending_of o)
           | Err _ => True
           end
       | _ => fun _ => True
       end) a
  end.

(** ** The startup pipe *)

(** The bytes a call of the launcher puts into the pipe: a descriptor is its write
    end unless a file was opened at its number. *)
Definition sent_to (c : option container) (s : monitor) (ev : event sysE) : list byte :=
  match c, ev with
  | Some c, Ev e a =>
      (match e in sysE A return A -> list byte with
       | Write fd data => fun r =>
           match r with
           | Ok n => if (fd =? ready_w c) && bool_decide (path_of (facts s) fd = None) then take (Z.to_nat n) data else []
           | Err _ => []
           end
       | _ => fun _ => []
       end) a
  | None, _ => []
  end.

(** The bytes a call of the init takes out of the pipe, at its read end. *)
Definition taken_by (c : option container) (s : monitor) (ev : event sysE) : list byte :=
  match c, ev with
  | Some c, Ev e a =>
      (match e in sysE A return A -> list byte with
       | Read fd _ => fun r =>
           match r with
           | Ok bs => if (fd =? ready_r c) && bool_decide (ReadyRead fd ∈ facts s) then bs else []
           | Err _ => []
           end
       | _ => fun _ => []
       end) a
  | None, _ => []
  end.

(** ** Steps of the system *)

Record system := System {
  sy_launcher : proc;
  sy_init : proc;
  sy_command : proc;
  sy_container : option container;   (** the argument of [clone], copied *)
  sy_pipe : list byte                (** written and not read *)
}.

(** Calls that start a process when they succeed. *)
Definition spawns (ev : event sysE) : bool :=
  match ev with
  | Ev e a =>
      (match e in sysE A return A -> bool with
       | Clone _ _ => fun r => match r with Ok _ => true | Err _ => false end
       | Fork => fun r => match r with Ok _ => true | Err _ => false end
       | _ => fun _ => false
       end) a
  end.

Inductive sstep : system -> system -> Prop :=
| step_launcher_local l l' i m c p :
    local l l' -> sstep (System l i m c p) (System l' i m c p)
| step_init_local l i i' m c p :
    local i i' -> sstep (System l i m c p) (System l i' m c p)
| step_command_local l i m m' c p :
    local m m' -> sstep (System l i m c p) (System l i m' c p)
| step_launcher A t s (e : sysE A) k a s' i m c p :
    observe t = VisF e k -> mstep A e s a s' -> spawns (Ev e a) = false -> waits_for i s (Ev e a) ->
    sstep (System (Running t s) i m c p)
      (System (Running (k a) s') i m c (p ++ sent_to c s (Ev e a)))
| step_clone t s flags arg k pid s' m c p :
    observe t = VisF (Clone flags arg) k -> mstep _ (Clone flags arg) s (Ok pid) s' ->
    sstep (System (Running t s) Unborn m c p)
      (System (Running (k (Ok pid)) s') (Running (run_container arg) (container_start arg)) m (Some arg) [])
| step_init A t s (e : sysE A) k a s' l m c p p' :
    observe t = VisF e k -> mstep A e s a s' -> spawns (Ev e a) = false -> waits_for m s (Ev e a) ->
    p = taken_by c s (Ev e a) ++ p' ->
    sstep (System l (Running t s) m c p) (System l (Running (k a) s') m c p')
| step_fork t s k pid s' s0 l c p :
    observe t = VisF Fork k -> 0 < pid -> mstep _ Fork s (Ok pid) s' -> mstep _ Fork s (Ok 0) s0 ->
    sstep (System l (Running t s) Unborn c p)
      (System l (Running (k (Ok pid)) s') (Running (k (Ok 0)) s0) c p)
| step_command A t s (e : sysE A) k a s' l i c p :
    observe t = VisF e k -> mstep A e s a s' -> spawns (Ev e a) = false ->
    sstep (System l i (Running t s) c p) (System l i (Running (k a) s') c p).

Definition system_init (argv0 : list byte) (args : list (list byte)) : system :=
  System (Running (main (argv0 :: args)) (launcher_start args)) Unborn Unborn None [].

Definition reachable (argv0 : list byte) (args : list (list byte)) (y : system) : Prop :=
  rtc sstep (system_init argv0 args) y.

(** ** What each process promises *)

Definition init_result (code : Z) (s : monitor) : Prop := exists pid, supervised pid code s.

(** A process keeps the rules, and ends with what it promises. *)
Definition promises (Φ : Z -> monitor -> Prop) (p : proc) : Prop :=
  match p with
  | Unborn => True
  | Running t s => wp t Φ s
  | Executing path argv s => in_order _ (Execv path argv) s
  | Ended o s => outcome_ok o /\ match o with Returned code => Φ code s | _ => True end
  end.

Lemma ending_ok_exit code : ending_ok (Exited (code mod 256)).
Proof. apply Z.mod_pos_bound. lia. Qed.

Lemma local_promises Φ p p' : local p p' -> promises Φ p -> promises Φ p'.
Proof.
  intros H. destruct H as [t t' s H|t code s H|t code k s H|t path argv k s H|t s sig core H|path argv s x H];
    cbn [promises]; intros Hp.
  - by eapply wp_tau_inv.
  - split; [apply ending_ok_exit|]. by eapply wp_ret_inv.
  - split; [apply ending_ok_exit|done].
  - by apply (wp_vis_inv _ _ _ _ _ H) in Hp as [Hp _].
  - by split.
  - by split.
Qed.

Lemma call_promises Φ A t s (e : sysE A) k a s' :
  observe t = VisF e k -> mstep A e s a s' -> promises Φ (Running t s) ->
  in_order A e s /\ promises Φ (Running (k a) s').
Proof.
  intros Ho Hs Hp. apply (wp_vis_inv _ _ _ _ _ Ho) in Hp as [Ha Hk]. split; [done|]. by apply Hk.
Qed.

Lemma local_knows p p' : local p p' -> knows p' = knows p.
Proof. by intros []. Qed.

(** ** What a call leaves alone *)

Lemma track_child A (e : sysE A) a s :
  spawns (Ev e a) = false -> su_child (sup (track A e a s)) = su_child (sup s).
Proof.
  destruct e; cbn [track spawns]; unfold reaped, signalled, forwarded; intros Hs; try done;
    repeat match goal with
      | |- context [sup (learn_if ?r _ _)] => destruct r; cbn [learn_if]
      | |- context [match ?x with _ => _ end] => destruct x eqn:?; try done
      end; done.
Qed.

Lemma mapped_track A (e : sysE A) a s :
  spawns (Ev e a) = false -> mapped s -> mapped (track A e a s).
Proof.
  intros Hs (Hd & (uid & Hu1 & Hu2) & (gid & Hg1 & Hg2)). unfold mapped, denied in *.
  rewrite !(track_child _ _ _ _ Hs). split; [by apply track_keep|].
  split; [exists uid|exists gid]; (split; by apply track_keep).
Qed.

Definition is_pipe (ev : event sysE) : bool :=
  match ev with Ev e _ => match e with Pipe2 _ => true | _ => false end end.
Definition is_read (ev : event sysE) : bool :=
  match ev with Ev e _ => match e with Read _ _ => true | _ => false end end.

(** No process but the launcher makes a pipe. *)
Lemma track_ready A (e : sysE A) a s fd argv :
  in_order A e s -> Command argv ∈ facts s -> ReadyRead fd ∈ facts (track A e a s) -> ReadyRead fd ∈ facts s.
Proof.
  intros Ho Hc H. apply track_evidence in H as [H|(flags & w & E)]; [done|].
  apply (f_equal is_pipe) in E.
  destruct e; try done. by apply Ho in Hc.
Qed.

(** What is read from the startup pipe releases the init. *)
Lemma track_released A (e : sysE A) a s c :
  (forall fd, ReadyRead fd ∈ facts s -> fd = ready_r c) ->
  Released ∈ facts (track A e a s) -> Released ∈ facts s \/ taken_by (Some c) s (Ev e a) <> [].
Proof.
  intros Hr H. pose proof H as H0. apply track_evidence in H0 as [?|(fd & len & E)]; [by left|].
  apply (f_equal is_read) in E. destruct e; try done. cbn [track taken_by] in *. clear E.
  destruct a as [[|b [|b' l]]|err]; try (by left); destruct b; try (by left).
  destruct (decide (ReadyRead fd0 ∈ facts s)) as [Hin|]; [|by left].
  right. rewrite (Hr _ Hin), Z.eqb_refl, bool_decide_true; [done|]. by rewrite <-(Hr _ Hin).
Qed.

(** ** The invariant of the system *)

(** The status a parent holds is the status of its child. *)
Definition holds_status (parent child : proc) : Prop :=
  forall s st, knows parent = Some s -> su_status (sup s) = Some st ->
    exists o sc, child = Ended o sc /\ st = status_of (ending_of o).

Definition launcher_mapped (p : proc) : Prop :=
  exists s, knows p = Some s /\ mapped s.

(** What the init has from the launcher. *)
Definition born_from (args : list (list byte)) (c : option container) (p : proc) : Prop :=
  match p with
  | Unborn => True
  | _ => exists arg, c = Some arg /\ container_ok arg /\ command arg = tail args /\
      forall s, knows p = Some s ->
        (forall fd, ReadyRead fd ∈ facts s -> fd = ready_r arg) /\ Command (command arg) ∈ facts s /\
        (forall argv, Command argv ∈ facts s -> argv = command arg)
  end.

Record sinv (args : list (list byte)) (y : system) : Prop := SInv {
  sinv_launcher : promises (main_result args) (sy_launcher y);
  sinv_init : promises init_result (sy_init y);
  sinv_command : promises init_result (sy_command y);
  sinv_born : born_from args (sy_container y) (sy_init y);
  sinv_args : born_from args (sy_container y) (sy_command y);
  sinv_lstatus : holds_status (sy_launcher y) (sy_init y);
  sinv_istatus : holds_status (sy_init y) (sy_command y);
  sinv_pipe : sy_pipe y <> [] -> launcher_mapped (sy_launcher y);
  sinv_released : forall s, knows (sy_init y) = Some s -> Released ∈ facts s -> launcher_mapped (sy_launcher y);
  sinv_mapped : sy_command y <> Unborn -> launcher_mapped (sy_launcher y);
  sinv_order : sy_init y = Unborn -> sy_command y = Unborn;
  sinv_line : forall s argv, knows (sy_launcher y) = Some s -> Args argv ∈ facts s -> argv = args
}.

(** ** It is kept: steps of one process *)

Lemma local_unborn p p' : local p p' -> p <> Unborn.
Proof. by intros []. Qed.

Lemma local_not_ended p p' o s : local p p' -> p <> Ended o s.
Proof. by intros []. Qed.

Lemma holds_local_parent p p' child : local p p' -> holds_status p child -> holds_status p' child.
Proof. intros Hl H s st. rewrite (local_knows _ _ Hl). apply H. Qed.

Lemma holds_child parent p p' :
  (forall o s, p = Ended o s -> p' = p) -> holds_status parent p -> holds_status parent p'.
Proof.
  intros Hp H s st Hs Hst. destruct (H s st Hs Hst) as (o & sc & E & ->). exists o, sc. split; [|done].
  rewrite (Hp _ _ E). done.
Qed.

Lemma holds_local_child parent p p' : local p p' -> holds_status parent p -> holds_status parent p'.
Proof. intros Hl. apply holds_child. intros o s ->. by destruct (local_not_ended _ _ o s Hl). Qed.

Lemma mapped_local p p' : local p p' -> launcher_mapped p -> launcher_mapped p'.
Proof. intros Hl (s & Hs & Hm). exists s. by rewrite (local_knows _ _ Hl). Qed.

Lemma born_local args c p p' : local p p' -> born_from args c p -> born_from args c p'.
Proof.
  intros Hl Hb. pose proof (local_knows _ _ Hl) as Hk.
  destruct Hl; exact Hb.
Qed.

(** ** It is kept: calls *)

Lemma call_holds A t s (e : sysE A) k a s' child :
  mstep A e s a s' -> waits_for child s (Ev e a) ->
  holds_status (Running t s) child -> holds_status (Running (k a) s') child.
Proof.
  intros [_ ->] Hw H s1 st [= <-] Hst.
  apply track_reaped in Hst as [[Hst _]|(_ & Hpos & pid & E)]; [by apply (H s)|].
  rewrite E in Hw. by apply Hw.
Qed.

Lemma call_mapped A t s (e : sysE A) k a s' :
  mstep A e s a s' -> spawns (Ev e a) = false ->
  launcher_mapped (Running t s) -> launcher_mapped (Running (k a) s').
Proof.
  intros [_ ->] Hs (s1 & [= <-] & Hm). eexists. split; [done|]. by apply mapped_track.
Qed.

(** What the launcher puts into the pipe says that the maps are written. *)
Lemma sent_mapped A t s (e : sysE A) k a s' c :
  observe t = VisF e k -> mstep A e s a s' -> spawns (Ev e a) = false -> in_order A e s ->
  sent_to c s (Ev e a) <> [] -> launcher_mapped (Running (k a) s').
Proof.
  intros Ho [_ ->] Hs Hi Hp. destruct c as [c|]; [|done].
  assert (Hm : mapped s).
  { destruct e; try done. cbn [sent_to in_order] in *. destruct a as [n|]; [|done].
    case_bool_decide as Hpath; [|by rewrite andb_false_r in Hp]. rewrite Hpath in Hi. apply Hi. }
  eexists. split; [done|]. by apply mapped_track.
Qed.

Lemma call_born args c A t s (e : sysE A) k a s' :
  mstep A e s a s' -> in_order A e s ->
  born_from args c (Running t s) -> born_from args c (Running (k a) s').
Proof.
  intros [_ ->] Hi (arg & Hc & Hok & Hargs & Hk). exists arg. split_and!; [done..|].
  intros s1 [= <-]. destruct (Hk s eq_refl) as (Hr & Hcom & Hall). split_and!.
  - intros fd Hf. apply Hr. by eapply track_ready.
  - by apply track_keep.
  - intros argv H. apply Hall. apply track_evidence in H as [H|[]]. done.
Qed.

Lemma released_call A s (e : sysE A) a s' c args t :
  mstep A e s a s' -> born_from args c (Running t s) ->
  Released ∈ facts s' -> Released ∈ facts s \/ taken_by c s (Ev e a) <> [].
Proof.
  intros [_ ->] (arg & -> & _ & _ & Hk). destruct (Hk s eq_refl) as (Hr & _).
  by apply track_released.
Qed.

(** ** It is kept: every step *)

Lemma waits_running child (p : proc) : (forall o s, child <> Ended o s) -> holds_status p child -> forall s st,
  knows p = Some s -> su_status (sup s) <> Some st.
Proof. intros Hc H s st Hs Hst. destruct (H s st Hs Hst) as (o & sc & -> & _). by destruct (Hc o sc). Qed.

Lemma holds_running parent t t' s s' :
  holds_status parent (Running t s) -> holds_status parent (Running t' s').
Proof. intros H. apply holds_child with (Running t s); [|done]. intros o s1 [=]. Qed.

Lemma holds_unborn parent p : holds_status parent Unborn -> holds_status parent p.
Proof. apply holds_child. intros o s [=]. Qed.

(** The launcher's command line stays what it was. *)
Lemma call_line args A t s (e : sysE A) k a s' :
  mstep A e s a s' ->
  (forall s1 argv, knows (Running t s) = Some s1 -> Args argv ∈ facts s1 -> argv = args) ->
  forall s1 argv, knows (Running (k a) s') = Some s1 -> Args argv ∈ facts s1 -> argv = args.
Proof.
  intros [_ ->] H s1 argv [= <-] Hin. apply track_evidence in Hin as [Hin|[]]. by eapply H.
Qed.

Lemma sinv_local args y y' p p' :
  sinv args y -> local p p' ->
  (y = System p (sy_init y) (sy_command y) (sy_container y) (sy_pipe y) /\
   y' = System p' (sy_init y) (sy_command y) (sy_container y) (sy_pipe y)) \/
  (y = System (sy_launcher y) p (sy_command y) (sy_container y) (sy_pipe y) /\
   y' = System (sy_launcher y) p' (sy_command y) (sy_container y) (sy_pipe y)) \/
  (y = System (sy_launcher y) (sy_init y) p (sy_container y) (sy_pipe y) /\
   y' = System (sy_launcher y) (sy_init y) p' (sy_container y) (sy_pipe y)) ->
  sinv args y'.
Proof.
  destruct y as [l i m c q]. cbn [sy_launcher sy_init sy_command sy_container sy_pipe].
  intros [H1 H2 H3 H4 H5 H6 H7 H8 H9 H10 H11 H12] Hl Hy.
  cbn [sy_launcher sy_init sy_command sy_container sy_pipe] in *.
  pose proof (local_unborn _ _ Hl) as Hb.
  destruct Hy as [[Hy ->]|[[Hy ->]|[Hy ->]]]; injection Hy as ->; constructor;
    cbn [sy_launcher sy_init sy_command sy_container sy_pipe]; rewrite ?(local_knows _ _ Hl);
    eauto using local_promises, holds_local_parent, holds_local_child, mapped_local, born_local.
  - intros E. by destruct Hl.
  - intros Hi. by apply H11 in Hi.
Qed.

Lemma sinv_launcher_call args A t s (e : sysE A) k a s' i m c p :
  observe t = VisF e k -> mstep A e s a s' -> spawns (Ev e a) = false -> waits_for i s (Ev e a) ->
  sinv args (System (Running t s) i m c p) ->
  sinv args (System (Running (k a) s') i m c (p ++ sent_to c s (Ev e a))).
Proof.
  intros Ho Hm Hsp Hw [H1 H2 H3 H4 H5 H6 H7 H8 H9 H10 H11 H12].
  cbn [sy_launcher sy_init sy_command sy_container sy_pipe] in *.
  destruct (call_promises _ _ _ _ _ _ _ _ Ho Hm H1) as [Hi Hp].
  constructor; cbn [sy_launcher sy_init sy_command sy_container sy_pipe]; eauto using call_holds, call_mapped.
  - intros Hne. destruct p as [|b p]; [by eapply sent_mapped|by eapply call_mapped, H8].
  - by eapply call_line.
Qed.

Lemma sinv_clone args t s flags arg k pid s' m c p :
  observe t = VisF (Clone flags arg) k -> mstep _ (Clone flags arg) s (Ok pid) s' ->
  sinv args (System (Running t s) Unborn m c p) ->
  sinv args (System (Running (k (Ok pid)) s') (Running (run_container arg) (container_start arg)) m (Some arg) []).
Proof.
  intros Ho Hm [H1 H2 H3 H4 H5 H6 H7 H8 H9 H10 H11 H12].
  cbn [sy_launcher sy_init sy_command sy_container sy_pipe] in *. rewrite (H11 eq_refl) in *.
  destruct (call_promises _ _ _ _ _ _ _ _ Ho Hm H1) as [(_ & Hok & _ & _ & _ & _ & argv & Ha & Hcmd) Hp].
  assert (argv = args) as -> by by eapply H12.
  constructor; cbn [sy_launcher sy_init sy_command sy_container sy_pipe]; try done.
  - by apply wp_run_container.
  - exists arg. split_and!; [done..|]. intros s1 [= <-]. split_and!.
    + intros fd H%container_start_facts. by destruct H as [?|[?|[[= ->]|[?|?]]]].
    + do 4 right. left.
    + intros argv H%container_start_facts. by destruct H as [?|[?|[?|[?|[= ->]]]]].
  - intros s1 st [= <-]. by destruct Hm as [_ ->].
  - intros s1 st [= <-]. done.
  - intros s1 [= <-] H%container_start_facts. by destruct H as [?|[?|[?|[?|?]]]].
  - by eapply call_line.
Qed.

Lemma sinv_init_call args A t s (e : sysE A) k a s' l m c p p' :
  observe t = VisF e k -> mstep A e s a s' -> spawns (Ev e a) = false -> waits_for m s (Ev e a) ->
  p = taken_by c s (Ev e a) ++ p' ->
  sinv args (System l (Running t s) m c p) -> sinv args (System l (Running (k a) s') m c p').
Proof.
  intros Ho Hm Hsp Hw -> [H1 H2 H3 H4 H5 H6 H7 H8 H9 H10 H11 H12].
  cbn [sy_launcher sy_init sy_command sy_container sy_pipe] in *.
  destruct (call_promises _ _ _ _ _ _ _ _ Ho Hm H2) as [Hi Hp].
  constructor; cbn [sy_launcher sy_init sy_command sy_container sy_pipe];
    eauto using call_holds, call_born, holds_running; try done.
  - intros Hne. apply H8. by intros [_ ?]%app_nil.
  - intros s1 [= <-] Hrel. destruct (released_call _ _ _ _ _ _ _ _ Hm H4 Hrel) as [H|H]; [by eapply H9|].
    apply H8. by intros [? _]%app_nil.
Qed.

Lemma sinv_fork args t s k pid s' s0 l c p :
  observe t = VisF Fork k -> 0 < pid -> mstep _ Fork s (Ok pid) s' -> mstep _ Fork s (Ok 0) s0 ->
  sinv args (System l (Running t s) Unborn c p) ->
  sinv args (System l (Running (k (Ok pid)) s') (Running (k (Ok 0)) s0) c p).
Proof.
  intros Ho Hpid Hm Hm0 [H1 H2 H3 H4 H5 H6 H7 H8 H9 H10 H11 H12].
  cbn [sy_launcher sy_init sy_command sy_container sy_pipe] in *.
  destruct (call_promises _ _ _ _ _ _ _ _ Ho Hm H2) as [Hi Hp].
  destruct (call_promises _ _ _ _ _ _ _ _ Ho Hm0 H2) as [_ Hp0].
  assert (Hlm : launcher_mapped l) by (eapply H9; [reflexivity|apply Hi]).
  constructor; cbn [sy_launcher sy_init sy_command sy_container sy_pipe];
    eauto using call_born, holds_running; try done.
  intros s1 st [= <-]. destruct Hm as [_ ->]. cbn [track]. by rewrite (proj2 (Z.ltb_lt _ _)).
Qed.

Lemma sinv_command_call args A t s (e : sysE A) k a s' l i c p :
  observe t = VisF e k -> mstep A e s a s' -> spawns (Ev e a) = false ->
  sinv args (System l i (Running t s) c p) -> sinv args (System l i (Running (k a) s') c p).
Proof.
  intros Ho Hm Hsp [H1 H2 H3 H4 H5 H6 H7 H8 H9 H10 H11 H12].
  cbn [sy_launcher sy_init sy_command sy_container sy_pipe] in *.
  destruct (call_promises _ _ _ _ _ _ _ _ Ho Hm H3) as [Hi Hp].
  constructor; cbn [sy_launcher sy_init sy_command sy_container sy_pipe];
    eauto using call_born, holds_running; try done.
  intros H. by apply H11 in H.
Qed.

Lemma sinv_step args y y' : sinv args y -> sstep y y' -> sinv args y'.
Proof.
  intros Hi Hs. destruct Hs;
    eauto using sinv_launcher_call, sinv_clone, sinv_init_call, sinv_fork, sinv_command_call.
  - eapply sinv_local; [done..|]. by left.
  - eapply sinv_local; [done..|]. by right; left.
  - eapply sinv_local; [done..|]. by right; right.
Qed.

Lemma sinv_start argv0 args : sinv args (system_init argv0 args).
Proof.
  constructor; cbn [system_init sy_launcher sy_init sy_command sy_container sy_pipe]; try done.
  - apply wp_main.
  - intros s st [= <-]. done.
  - intros s argv [= <-]. cbn [facts launcher_start]. intros H%list_elem_of_singleton. congruence.
Qed.

Lemma reachable_sinv argv0 args y : reachable argv0 args y -> sinv args y.
Proof.
  intros H. assert (Hi : sinv args (system_init argv0 args)) by apply sinv_start.
  revert Hi. induction H; eauto using sinv_step.
Qed.
