(* ===== verification/RuntimeSystemDrive.v ===== *)
(** * Running the three processes

    A scheduler for the system of [RuntimeSystem]: each process in turn runs until
    it waits for another, with a kernel that grants what it asks for.  What it
    computes is reachable ([schedule_reachable]). *)

From S2P Require Import Prelude CLib Effects Runtime RuntimeMonitor RuntimeSafety RuntimeLauncher RuntimeExec.
From S2P Require Import RuntimeDrive RuntimeSystem.
Local Open Scope Z_scope.

(** The answers that depend on another process: its status, and the pipe; the
    others are those of [grant]. *)
Definition grant_with (child : proc) (pipe : list byte) A (e : sysE A) (s : monitor) : option A :=
  match e in sysE A return option A with
  | Waitpid _ _ =>
      Some (Ok (match child with Ended o _ => (su_child (sup s), status_of (ending_of o)) | _ => (0, 0) end))
  | Sigwaitinfo _ => match child with Ended _ _ => Some (Ok SIGCHLD) | _ => None end
  | Read _ _ => match pipe with [] => None | b :: _ => Some (Ok [b]) end
  | Fork => None
  | Clone _ _ => None
  | e' => grant 0 0 3 _ e' s
  end.

(** A step that needs no other process. *)
Definition step_alone (p : proc) : option proc :=
  match p with
  | Running t s =>
      match observe t with
      | RetF code => Some (Ended (Returned code) s)
      | TauF t' => Some (Running t' s)
      | VisF (Exit code) _ => Some (Ended (ExitedWith code) s)
      | VisF (Execv path argv) _ => Some (Executing path argv s)
      | VisF _ _ => None
      end
  | _ => None
  end.

(** A call that starts no process. *)
Definition step_call (child : proc) (pipe : list byte) (p : proc) : option (event sysE * proc) :=
  match p with
  | Running t s =>
      match observe t with
      | VisF e k =>
          match grant_with child pipe _ e s with
          | Some a => Some (Ev e a, Running (k a) (track _ e a s))
          | None => None
          end
      | _ => None
      end
  | _ => None
  end.

Definition clone_pid : Z := 77.
Definition fork_pid : Z := 55.

Definition step_launcher_fn (y : system) : option system :=
  let '(System l i m c p) := y in
  match step_alone l with
  | Some l' => Some (System l' i m c p)
  | None =>
      match l with
      | Running t s =>
          match observe t with
          | VisF e k =>
              (match e in sysE A return (A -> sysprog Z) -> option system with
               | Clone flags arg => fun k =>
                   match i with
                   | Unborn => Some (System (Running (k (Ok clone_pid)) (track _ (Clone flags arg) (Ok clone_pid) s))
                                       (Running (run_container arg) (container_start arg)) m (Some arg) [])
                   | _ => None
                   end
               | _ => fun _ =>
                   match step_call i [] l with
                   | Some (ev, l') => Some (System l' i m c (p ++ sent_to c s ev))
                   | None => None
                   end
               end) k
          | _ => None
          end
      | _ => None
      end
  end.

Definition step_init_fn (y : system) : option system :=
  let '(System l i m c p) := y in
  match step_alone i with
  | Some i' => Some (System l i' m c p)
  | None =>
      match i with
      | Running t s =>
          match observe t with
          | VisF e k =>
              (match e in sysE A return (A -> sysprog Z) -> option system with
               | Fork => fun k =>
                   match m with
                   | Unborn => Some (System l (Running (k (Ok fork_pid)) (track _ Fork (Ok fork_pid) s))
                                       (Running (k (Ok 0)) (track _ Fork (Ok 0) s)) c p)
                   | _ => None
                   end
               | _ => fun _ =>
                   match step_call m p i with
                   | Some (ev, i') =>
                       let t := taken_by c s ev in
                       if bool_decide (take (length t) p = t) then Some (System l i' m c (drop (length t) p)) else None
                   | None => None
                   end
               end) k
          | _ => None
          end
      | _ => None
      end
  end.

Definition step_command_fn (y : system) : option system :=
  let '(System l i m c p) := y in
  match step_alone m with
  | Some m' => Some (System l i m' c p)
  | None =>
      match step_call Unborn [] m with
      | Some (_, m') => Some (System l i m' c p)
      | None => None
      end
  end.

Inductive turn := GoLauncher | GoInit | GoCommand | CommandEnds (x : ending).

Definition ending_okb (x : ending) : bool :=
  match x with
  | Exited code => (0 <=? code) && (code <? 256)
  | Signaled sig _ => (1 <=? sig) && (sig <=? 64)
  end.

Definition step_turn (w : turn) (y : system) : option system :=
  match w with
  | GoLauncher => step_launcher_fn y
  | GoInit => step_init_fn y
  | GoCommand => step_command_fn y
  | CommandEnds x =>
      match y with
      | System l i (Executing _ _ s) c p => if ending_okb x then Some (System l i (Ended (Ran x) s) c p) else None
      | _ => None
      end
  end.

(** A process runs as far as it can. *)
Fixpoint take_turn (fuel : nat) (w : turn) (y : system) : system :=
  match fuel with
  | O => y
  | S fuel' => match step_turn w y with Some y' => take_turn fuel' w y' | None => y end
  end.

Definition schedule (fuel : nat) (ws : list turn) (y : system) : system :=
  fold_left (fun y w => take_turn fuel w y) ws y.

(** ** It follows the steps of the system *)

Lemma grant_with_ok child pipe A (e : sysE A) s a :
  grant_with child pipe A e s = Some a ->
  answer_ok A e a s /\ spawns (Ev e a) = false /\ waits_for child s (Ev e a).
Proof.
  destruct e; cbn [grant_with]; intros H; try done;
    try (split; [by eapply grant_ok|done]).
  simplify_eq. split; [done|]. split; [done|]. cbn [waits_for]. destruct nohang; [|done].
  destruct child as [| | |o sc]; try (intros Hp; lia). intros _ _. by exists o, sc.
Qed.

Lemma step_alone_local p p' : step_alone p = Some p' -> local p p'.
Proof.
  destruct p as [|t s| |]; try done. cbn [step_alone].
  destruct (observe t) as [code|t'|A e k] eqn:Ho; intros H.
  - simplify_eq. by constructor.
  - simplify_eq. by constructor.
  - destruct e; simplify_eq; by econstructor.
Qed.

Lemma step_call_spec child pipe p ev p' :
  step_call child pipe p = Some (ev, p') ->
  exists A t s (e : sysE A) k a, p = Running t s /\ observe t = VisF e k /\ ev = Ev e a /\
    p' = Running (k a) (track A e a s) /\ mstep A e s a (track A e a s) /\
    spawns ev = false /\ waits_for child s ev.
Proof.
  destruct p as [|t s| |]; try done. cbn [step_call].
  destruct (observe t) as [code|t'|A e k] eqn:Ho; try done.
  destruct (grant_with child pipe A e s) as [a|] eqn:Hg; [|done]. intros [= <- <-].
  destruct (grant_with_ok _ _ _ _ _ _ Hg) as (Ha & Hs & Hw). by exists A, t, s, e, k, a.
Qed.

Lemma step_launcher_ok y y' : step_launcher_fn y = Some y' -> sstep y y'.
Proof.
  destruct y as [l i m c p]. cbn [step_launcher_fn].
  destruct (step_alone l) as [l'|] eqn:Hl.
  { intros [= <-]. by apply step_launcher_local, step_alone_local. }
  destruct l as [|t s| |]; try done. destruct (observe t) as [|t'|A e k] eqn:Ho; try done.
  assert (Hcall : match step_call i [] (Running t s) with
      | Some (ev, l') => Some (System l' i m c (p ++ sent_to c s ev))
      | None => None end = Some y' -> sstep (System (Running t s) i m c p) y').
  { destruct (step_call i [] (Running t s)) as [[ev l']|] eqn:E; [|done]. intros [= <-].
    apply step_call_spec in E as (A' & t1 & s1 & e1 & k1 & a & [= <- <-] & Ho1 & -> & -> & Hm & Hs & Hw).
    by eapply step_launcher. }
  destruct e; try exact Hcall. destruct i; try done. intros [= <-].
  eapply step_clone; [done|]. split; [|done]. cbn [answer_ok]. unfold clone_pid, INT_MAX. lia.
Qed.

Lemma step_init_ok y y' : step_init_fn y = Some y' -> sstep y y'.
Proof.
  destruct y as [l i m c p]. cbn [step_init_fn].
  destruct (step_alone i) as [i'|] eqn:Hl.
  { intros [= <-]. by apply step_init_local, step_alone_local. }
  destruct i as [|t s| |]; try done. destruct (observe t) as [|t'|A e k] eqn:Ho; try done.
  assert (Hcall : match step_call m p (Running t s) with
      | Some (ev, i') =>
          let b := taken_by c s ev in
          if bool_decide (take (length b) p = b) then Some (System l i' m c (drop (length b) p)) else None
      | None => None end = Some y' -> sstep (System l (Running t s) m c p) y').
  { destruct (step_call m p (Running t s)) as [[ev i']|] eqn:E; [|done]. cbv zeta.
    case_bool_decide as Hb; [|done]. intros [= <-].
    apply step_call_spec in E as (A' & t1 & s1 & e1 & k1 & a & [= <- <-] & Ho1 & -> & -> & Hm & Hs & Hw).
    eapply step_init; try done. rewrite <-Hb at 1. by rewrite take_drop. }
  destruct e; try exact Hcall. destruct m; try done. intros [= <-].
  eapply step_fork; [done|done| |]; by split.
Qed.

Lemma step_command_ok y y' : step_command_fn y = Some y' -> sstep y y'.
Proof.
  destruct y as [l i m c p]. cbn [step_command_fn].
  destruct (step_alone m) as [m'|] eqn:Hl.
  { intros [= <-]. by apply step_command_local, step_alone_local. }
  destruct (step_call Unborn [] m) as [[ev m']|] eqn:E; [|done]. intros [= <-].
  apply step_call_spec in E as (A' & t & s & e & k & a & -> & Ho & -> & -> & Hm & Hs & Hw).
  by eapply step_command.
Qed.

Lemma step_turn_ok w y y' : step_turn w y = Some y' -> sstep y y'.
Proof.
  destruct w as [| | |x]; [apply step_launcher_ok|apply step_init_ok|apply step_command_ok|].
  destruct y as [l i [|t s|path argv s|o s] c p]; try done. cbn [step_turn].
  destruct (ending_okb x) eqn:Hx; [|done]. intros [= <-]. apply step_command_local, local_ran.
  destruct x; cbn [ending_okb ending_ok] in *; lia.
Qed.

Lemma schedule_reachable fuel ws argv0 args y :
  reachable argv0 args y -> reachable argv0 args (schedule fuel ws y).
Proof.
  assert (Hturn : forall n w y, reachable argv0 args y -> reachable argv0 args (take_turn n w y)).
  { induction n as [|n IH]; intros w z Hz; cbn [take_turn]; [done|].
    destruct (step_turn w z) as [z'|] eqn:E; [|done]. apply IH. eapply rtc_r; [done|]. by eapply step_turn_ok. }
  revert y. induction ws as [|w ws IH]; intros y Hy; [done|]. by apply IH, Hturn.
Qed.
