(* ===== verification/RuntimeTheorems.v ===== *)
(** * What holds of the container runtime

    The properties of container-runtime/runtime.c, each with a run or an input
    where its hypotheses hold.  They are about every run: the kernel answers each
    call as it likes, except for what [answer_ok] states. *)

From S2P Require Import Prelude CLib Effects Runtime RuntimeMonitor RuntimeSafety RuntimeLauncher RuntimeExec RuntimeDrive.
From S2P Require Import RuntimeSystem RuntimeSystemDrive.
Local Open Scope Z_scope.
Local Open Scope prog_scope.

(** ** Runs to look at *)

Definition demo_container : container := Container 3 (lit "/srv/root") 4 5 6 [lit "/bin/sh"; lit "-c"; lit "true"].
Definition demo_args : list (list byte) := [lit "rootfs"; lit "/bin/true"].

Lemma demo_ok : container_ok demo_container.
Proof.
  split; [|split; [|done]]; unfold descriptors, demo_container; cbn [root_fd parent_fd ready_r ready_w].
  - by apply (bool_decide_eq_true_1 (NoDup [3; 4; 5; 6])).
  - by apply (bool_decide_eq_true_1 (Forall (fun fd => 3 <= fd) [3; 4; 5; 6])).
Qed.

Definition is_exec A (e : sysE A) : bool := match e with Execv _ _ => true | _ => false end.
Definition is_pivot A (e : sysE A) : bool := match e with PivotRoot _ _ => true | _ => false end.
Definition is_clone A (e : sysE A) : bool := match e with Clone _ _ => true | _ => false end.
Definition is_go_ahead A (e : sysE A) : bool :=
  match e with Write _ data => bool_decide (data = lit "1") | _ => false end.
Definition is_kill A (e : sysE A) : bool := match e with Kill _ _ => true | _ => false end.
Definition is_exit A (e : sysE A) : bool := match e with Exit _ => true | _ => false end.

Lemma drive_exec :
  exists tr u s A (e : sysE A) k, runs mstep (run_container demo_container) (container_start demo_container) tr u s /\
    observe u = VisF e k /\ is_exec A e = true.
Proof. apply (drives_call 0 0 3 is_exec 300). vm_compute. reflexivity. Qed.

Lemma drive_pivot :
  exists tr u s A (e : sysE A) k, runs mstep (run_container demo_container) (container_start demo_container) tr u s /\
    observe u = VisF e k /\ is_pivot A e = true.
Proof. apply (drives_call 0 0 3 is_pivot 300). vm_compute. reflexivity. Qed.

Lemma drive_container_exit :
  exists tr u s A (e : sysE A) k, runs mstep (run_container demo_container) (container_start demo_container) tr u s /\
    observe u = VisF e k /\ is_exit A e = true.
Proof. apply (drives_call 0 0 3 is_exit 300). vm_compute. reflexivity. Qed.

Lemma drive_clone :
  exists tr u s A (e : sysE A) k, runs mstep (main (lit "runtime" :: demo_args)) (launcher_start demo_args) tr u s /\
    observe u = VisF e k /\ is_clone A e = true.
Proof. apply (drives_call 0 0 3 is_clone 300). vm_compute. reflexivity. Qed.

Lemma drive_go_ahead :
  exists tr u s A (e : sysE A) k, runs mstep (main (lit "runtime" :: demo_args)) (launcher_start demo_args) tr u s /\
    observe u = VisF e k /\ is_go_ahead A e = true.
Proof. apply (drives_call 0 0 3 is_go_ahead 300). vm_compute. reflexivity. Qed.

(** The command exits with 7; its init, and then the launcher, return that. *)
Definition returns_7 (r : Z) (s : monitor) : bool :=
  (r =? 7) && bool_decide (su_status (sup s) = Some (status_of (Exited 7))).

Lemma drive_container_returns :
  exists tr u s r, runs mstep (run_container demo_container) (container_start demo_container) tr u s /\
    observe u = RetF r /\ returns_7 r s = true.
Proof. apply (finishes_runs 55 (256 * 7) 3 returns_7 300). vm_compute. reflexivity. Qed.

Lemma drive_main_returns :
  exists tr u s r, runs mstep (main (lit "runtime" :: demo_args)) (launcher_start demo_args) tr u s /\
    observe u = RetF r /\ returns_7 r s = true.
Proof. apply (finishes_runs 55 (256 * 7) 3 returns_7 300). vm_compute. reflexivity. Qed.

(** ** The container *)

(** The command is executed only in confinement.  Whatever the kernel answers,
    when the forked child of the container's init executes a program it is the
    command the launcher was given, with its arguments; the launcher gave its
    go-ahead; the root was pivoted into the very directory the launcher opened, with
    mounts private and the old root detached; only the standard descriptors are
    open; the bounding set and every capability set are empty and no privilege can
    be regained; it leads its own process group, and no signal of the supervisor is
    blocked or handled.  Each of these facts was given to the init or is recorded by
    a successful call of this very run. *)
Theorem command_confined c tr u s path argv k :
  container_ok c -> runs mstep (run_container c) (container_start c) tr u s ->
  observe u = VisF (Execv path argv) k ->
  argv = command c /\ head argv = Some path /\ released s /\ confined s /\ OwnGroup ∈ facts s /\
  Unblocked wait_signals ∈ facts s /\
  (forall sig, sig ∈ SIGPIPE :: forwarded_signals -> Disposition sig SIG_DFL ∈ facts s) /\
  (forall f, f ∈ facts s -> f ∈ facts (container_start c) \/ Exists (evidence f) tr).
Proof.
  intros Hok Hr Ho.
  pose proof (wp_allowed _ _ _ _ _ _ _ _ _ _ _ (wp_run_container c Hok) Hr Ho) as (Hc & H1 & H2 & H3 & H4 & H5 & H6).
  split; [by eapply container_command|]. split_and!; try done. intros f Hf. exact (runs_evidence _ _ _ _ _ _ Hr Hf).
Qed.

Lemma command_confined_witness :
  exists tr u s path argv k,
    runs mstep (run_container demo_container) (container_start demo_container) tr u s /\
    observe u = VisF (Execv path argv) k /\ argv = [lit "/bin/sh"; lit "-c"; lit "true"] /\ confined s.
Proof.
  destruct drive_exec as (tr & u & s & A & e & k & Hr & Ho & He). destruct e; try discriminate He.
  destruct (command_confined demo_container tr u s path argv k demo_ok Hr Ho) as (H1 & _ & _ & H2 & _).
  exists tr, u, s, path, argv, k. split; [exact Hr|]. split; [exact Ho|]. split; [exact H1|exact H2].
Defined.

(** The calls of the init that change what it, or others, see. *)
Definition changes_view A (e : sysE A) : bool :=
  match e with
  | Setsid | Mount _ _ _ _ | Fchdir _ | Chdir _ | PivotRoot _ _ | Umount2 _ _ | Fork | Execv _ _ => true
  | _ => false
  end.

(** C15: nothing happens before the launcher's go-ahead.  The init starts a session,
    mounts, moves, pivots, forks or executes only after it arranged to die with the
    launcher, saw it alive after that, and read the byte 1 from the startup pipe;
    and it mounts only when mounts no longer propagate to the host, or to make them
    so. *)
Theorem nothing_before_release c tr u s A (e : sysE A) k :
  container_ok c -> runs mstep (run_container c) (container_start c) tr u s ->
  observe u = VisF e k -> changes_view A e = true ->
  released s /\ Exists (evidence Released) tr /\
  match e with
  | Mount _ _ _ flags => PrivateMounts ∈ facts s \/ flags = [MS_REC; MS_PRIVATE]
  | _ => True
  end.
Proof.
  intros Hok Hr Ho He. pose proof (wp_allowed _ _ _ _ _ _ _ _ _ _ _ (wp_run_container c Hok) Hr Ho) as Ha.
  assert (Hrel : released s) by (destruct e; try discriminate He; cbn [in_order] in Ha; tauto).
  split; [done|]. split.
  - destruct (runs_evidence _ _ _ _ _ Released Hr) as [H|H]; [apply Hrel| |done].
    apply container_start_facts in H. by destruct H as [?|[?|[?|[?|?]]]].
  - destruct e; try done. by destruct Ha as [_ Ha].
Qed.

Lemma nothing_before_release_witness :
  exists tr u s A (e : sysE A) k,
    runs mstep (run_container demo_container) (container_start demo_container) tr u s /\
    observe u = VisF e k /\ changes_view A e = true /\ Exists (evidence Released) tr.
Proof.
  destruct drive_pivot as (tr & u & s & A & e & k & Hr & Ho & He).
  assert (Hc : changes_view A e = true) by (destruct e; first [discriminate He|reflexivity]).
  destruct (nothing_before_release demo_container tr u s A e k demo_ok Hr Ho Hc) as (_ & H & _).
  exists tr, u, s, A, e, k. split; [exact Hr|]. split; [exact Ho|]. split; [exact Hc|exact H].
Defined.

(** C16: the root is pivoted only into the directory that the launcher opened: the
    working directory is that inode, bound over itself, found by the path a second
    time after it was opened, and mounts are private. *)
Theorem pivot_verified c tr u s a b k :
  container_ok c -> runs mstep (run_container c) (container_start c) tr u s ->
  observe u = VisF (PivotRoot a b) k ->
  a = DOT /\ b = DOT /\ PrivateMounts ∈ facts s /\
  exists i, cwd s = Some i /\ Bound i ∈ facts s /\ Ev (Fstat (root_fd c)) (Ok i) ∈ tr.
Proof.
  intros Hok Hr Ho. pose proof (wp_allowed _ _ _ _ _ _ _ _ _ _ _ (wp_run_container c Hok) Hr Ho)
    as (_ & (fd & i & Hfd & Hi & Hcwd) & Hp & -> & -> & j & Hj & Hcwd').
  split; [done|]. split; [done|]. split; [done|]. exists i. split; [done|].
  split; [congruence|].
  apply (container_root _ _ _ _ _ Hr) in Hfd as ->.
  destruct (runs_evidence _ _ _ _ _ _ Hr Hi) as [H|H].
  - apply container_start_facts in H. by destruct H as [?|[?|[?|[?|?]]]].
  - apply Exists_exists in H as (ev & Hin & ->). done.
Qed.

Lemma pivot_verified_witness :
  exists tr u s a b k,
    runs mstep (run_container demo_container) (container_start demo_container) tr u s /\
    observe u = VisF (PivotRoot a b) k /\
    exists i, cwd s = Some i /\ Bound i ∈ facts s /\ Ev (Fstat 3) (Ok i) ∈ tr.
Proof.
  destruct drive_pivot as (tr & u & s & A & e & k & Hr & Ho & He). destruct e; try discriminate He.
  destruct (pivot_verified demo_container tr u s new_root put_old k demo_ok Hr Ho) as (_ & _ & _ & H).
  exists tr, u, s, new_root, put_old, k. split; [exact Hr|]. split; [exact Ho|exact H].
Defined.

(** ** The launcher *)

(** C17: what the launcher writes, and when.  It writes "deny" to the setgroups file
    of its child, then the maps of its own user and group, whole and only after
    setgroups is denied; and it sends the go-ahead, the byte 1 on the startup pipe,
    only after all three were written. *)
Theorem go_ahead_after_maps argv0 args tr u s fd data k :
  runs mstep (main (argv0 :: args)) (launcher_start args) tr u s ->
  observe u = VisF (Write fd data) k ->
  match path_of (facts s) fd with
  | Some path => map_write path data s
  | None => mapped s /\ ReadyWrite fd ∈ facts s /\ data = lit "1"
  end.
Proof. intros Hr Ho. exact (wp_allowed _ _ _ _ _ _ _ _ _ _ _ (wp_main argv0 args) Hr Ho). Qed.

Lemma go_ahead_after_maps_witness :
  exists tr u s fd data k,
    runs mstep (main (lit "runtime" :: demo_args)) (launcher_start demo_args) tr u s /\
    observe u = VisF (Write fd data) k /\ data = lit "1" /\
    match path_of (facts s) fd with
    | Some path => map_write path data s
    | None => mapped s /\ ReadyWrite fd ∈ facts s /\ data = lit "1"
    end.
Proof.
  destruct drive_go_ahead as (tr & u & s & A & e & k & Hr & Ho & He). destruct e; try discriminate He.
  pose proof (go_ahead_after_maps (lit "runtime") demo_args tr u s fd data k Hr Ho) as H.
  exists tr, u, s, fd, data, k. split; [exact Hr|]. split; [exact Ho|].
  split; [exact (bool_decide_eq_true_1 _ He)|exact H].
Defined.

(** C18: the launcher clones its child only as an ordinary user without setuid or
    setgid, with the supervisor's signals blocked and handled, into new user, mount
    and PID namespaces; what it hands over is what the init relies on: the
    directory it opened, which is not its own root, its pidfd and the pipe, four
    different descriptors above the standard ones, and the command of its own command
    line. *)
Theorem clone_ordinary_user argv0 args tr u s flags c k :
  runs mstep (main (argv0 :: args)) (launcher_start args) tr u s ->
  observe u = VisF (Clone flags c) k ->
  container_ok c /\ handed_over c s /\ ordinary_user s /\ signals_blocked s /\
  flags = [CLONE_NEWUSER; CLONE_NEWNS; CLONE_NEWPID] /\ command c = tail args.
Proof.
  intros Hr Ho.
  destruct (wp_allowed _ _ _ _ _ _ _ _ _ _ _ (wp_main argv0 args) Hr Ho) as (_ & H1 & H2 & H3 & H4 & H5 & a & Ha & H6).
  split_and!; try done. rewrite H6. f_equal.
  destruct (runs_evidence _ _ _ _ _ _ Hr Ha) as [H|H].
  - cbn [facts launcher_start] in H. apply list_elem_of_singleton in H. congruence.
  - apply Exists_exists in H as (ev & _ & []).
Qed.

Lemma clone_ordinary_user_witness :
  exists tr u s flags c k,
    runs mstep (main (lit "runtime" :: demo_args)) (launcher_start demo_args) tr u s /\
    observe u = VisF (Clone flags c) k /\ container_ok c /\ handed_over c s.
Proof.
  destruct drive_clone as (tr & u & s & A & e & k & Hr & Ho & He). destruct e; try discriminate He.
  destruct (clone_ordinary_user (lit "runtime") demo_args tr u s flags arg k Hr Ho) as (H1 & H2 & _).
  exists tr, u, s, flags, arg, k. split; [exact Hr|]. split; [exact Ho|]. split; [exact H1|exact H2].
Defined.

(** ** Exit statuses *)

(** When the container's init returns, the command was reaped, and what it
    returns is the exit status of the status [waitpid] reported for it. *)
Theorem container_status c tr u s code :
  container_ok c -> runs mstep (run_container c) (container_start c) tr u s -> observe u = RetF code ->
  exists pid st p, su_status (sup s) = Some st /\ code = exit_status st /\
    Ev (Waitpid p true) (Ok (pid, st)) ∈ tr.
Proof.
  intros Hok Hr Ho.
  destruct (wp_returned _ _ _ _ _ _ _ _ _ (wp_run_container c Hok) Hr Ho) as (pid & st & Hpid & Hst & ->).
  destruct (runs_reaped _ _ _ _ _ st Hr Hst) as [[H _]|[p H]]; [done|].
  exists pid, st, p. split; [done|]. split; [done|]. by rewrite <-Hpid.
Qed.

Lemma container_status_witness :
  exists tr u s, runs mstep (run_container demo_container) (container_start demo_container) tr u s /\
    observe u = RetF 7 /\
    exists pid st p, su_status (sup s) = Some st /\ 7 = exit_status st /\ Ev (Waitpid p true) (Ok (pid, st)) ∈ tr.
Proof.
  destruct drive_container_returns as (tr & u & s & r & Hr & Ho & H).
  apply andb_prop in H as [H _]. apply Z.eqb_eq in H. subst r.
  pose proof (container_status demo_container tr u s 7 demo_ok Hr Ho) as H.
  exists tr, u, s. split; [exact Hr|]. split; [exact Ho|exact H].
Defined.

(** The launcher returns the exit status of the container's init, as [waitpid]
    reported it, or 125 when no container was run; 0 only otherwise for its
    help. *)
Theorem launcher_status argv0 args tr u s code :
  runs mstep (main (argv0 :: args)) (launcher_start args) tr u s -> observe u = RetF code ->
  match su_status (sup s) with
  | Some st => code = exit_status st /\ exists p, Ev (Waitpid p true) (Ok (su_child (sup s), st)) ∈ tr
  | None => code = RUNTIME_ERROR \/ (code = 0 /\ args = [lit "--help"])
  end.
Proof.
  intros Hr Ho.
  destruct (wp_returned _ _ _ _ _ _ _ _ _ (wp_main argv0 args) Hr Ho)
    as [[[-> ->]|(child & st & Hc & Hst & ->)]|(-> & Ha & ->)].
  - by left.
  - rewrite Hst. split; [done|].
    by destruct (runs_reaped _ _ _ _ _ st Hr Hst) as [[H _]|H].
  - by right.
Qed.

Lemma launcher_status_witness :
  exists tr u s, runs mstep (main (lit "runtime" :: demo_args)) (launcher_start demo_args) tr u s /\ observe u = RetF 7 /\
    match su_status (sup s) with
    | Some st => 7 = exit_status st /\ exists p, Ev (Waitpid p true) (Ok (su_child (sup s), st)) ∈ tr
    | None => 7 = RUNTIME_ERROR \/ (7 = 0 /\ demo_args = [lit "--help"])
    end.
Proof.
  destruct drive_main_returns as (tr & u & s & r & Hr & Ho & H).
  apply andb_prop in H as [H _]. apply Z.eqb_eq in H. subst r.
  pose proof (launcher_status (lit "runtime") demo_args tr u s 7 Hr Ho) as H.
  exists tr, u, s. split; [exact Hr|]. split; [exact Ho|exact H].
Defined.

(** ** Supervision *)

(** What a supervisor starts from: a child that was told to go on. *)
Definition supervisor_start (child : Z) (process_group : bool) : monitor :=
  Monitor [ToldReady] None (Supervision child (if process_group then - child else child) None None false).

Lemma drive_kill :
  exists tr u s A (e : sysE A) k, runs mstep (supervise 55 true) (supervisor_start 55 true) tr u s /\
    observe u = VisF e k /\ is_kill A e = true.
Proof. apply (drives_call 0 0 3 is_kill 300). vm_compute. reflexivity. Qed.

(** [supervise] waits for a signal only when [waitpid] left nothing to reap
    since the last signal, so no ended child is missed; the one thing it sends is
    the signal it just received, to the child or its group, and never SIGCHLD; and
    it does neither once the child is reaped, so no reused pid is signalled. *)
Theorem supervise_watches child pg tr u s A (e : sysE A) k :
  runs mstep (supervise child pg) (supervisor_start child pg) tr u s -> observe u = VisF e k ->
  match e with
  | Sigwaitinfo set => set = wait_signals /\ su_drained (sup s) = true /\
      su_signal (sup s) = None /\ su_status (sup s) = None
  | Kill pid sig => su_signal (sup s) = Some sig /\ pid = su_target (sup s) /\ su_status (sup s) = None
  | Waitpid _ true => su_signal (sup s) = None /\ su_status (sup s) = None
  | _ => True
  end.
Proof.
  intros Hr Ho.
  assert (Hw : wp (supervise child pg) (supervised child) (supervisor_start child pg)).
  { by apply (wp_supervise child pg (if pg then - child else child)). }
  pose proof (wp_allowed _ _ _ _ _ _ _ _ _ _ _ Hw Hr Ho) as Ha.
  assert (Ht : ToldReady ∈ facts s) by (eapply runs_keep; [..|exact Hr]; [done|left]).
  destruct e; try done; cbn [in_order] in Ha.
  - by destruct nohang.
  - by destruct Ha as (-> & [] & ?).
  - by destruct Ha as (? & [[]|(_ & _ & ?)]).
Qed.

Lemma supervise_watches_witness :
  exists tr u s pid sig k,
    runs mstep (supervise 55 true) (supervisor_start 55 true) tr u s /\ observe u = VisF (Kill pid sig) k /\
    su_signal (sup s) = Some sig /\ pid = su_target (sup s) /\ su_status (sup s) = None.
Proof.
  destruct drive_kill as (tr & u & s & A & e & k & Hr & Ho & He). destruct e; try discriminate He.
  pose proof (supervise_watches 55 true tr u s _ (Kill pid sig) k Hr Ho) as H.
  exists tr, u, s, pid, sig, k. split; [exact Hr|]. split; [exact Ho|exact H].
Defined.

(** C19: [supervise] terminates when its child ends: for every sequence of children
    that end and signals that arrive, it returns the exit status of its child,
    whatever else is reaped before, having forwarded exactly the signals other than
    SIGCHLD that arrived until then, in their order. *)
Theorem supervise_returns child pg w code kills :
  pids_ok (w_zombies w) -> Forall (fun x => pids_ok (snd x)) (w_signals w) ->
  supervision_of child (if pg : bool then - child else child) (w_zombies w) (w_signals w) = Some (code, kills) ->
  exists zs sigs, evals proc_env (supervise child pg) w code (set_wait zs sigs (w_kills w ++ kills) w).
Proof. intros. by eapply supervise_evals. Qed.

(** An orphan ends, a signal arrives, then the child ends with an orphan behind. *)
Definition demo_proc : world :=
  World [(60, 0)] [(SIGCHLD, [(61, 0)]); (SIGTERM, []); (SIGCHLD, [(62, 9); (55, 256 * 3); (63, 0)])] [] 40 [] false false.

Lemma supervise_returns_witness :
  exists zs sigs, evals proc_env (supervise 55 true) demo_proc 3 (set_wait zs sigs [(-55, SIGTERM)] demo_proc).
Proof.
  apply (supervise_returns 55 true demo_proc 3 [(-55, SIGTERM)]).
  - by repeat constructor.
  - by repeat constructor.
  - vm_compute. reflexivity.
Defined.

(** ** Privileges *)

(** [drop_capabilities] terminates with every capability the kernel knows
    dropped from the bounding set, once each and in order, and then the capability
    sets emptied and new privileges refused; the counter does not overflow. *)
Theorem capabilities_dropped w :
  -1 <= w_last_cap w < INT_MAX ->
  evals proc_env drop_capabilities w tt
    (set_caps (w_dropped w ++ capabilities_of (w_last_cap w)) true true w).
Proof. apply drop_capabilities_evals. Qed.

Lemma capabilities_dropped_witness :
  evals proc_env drop_capabilities demo_proc tt (set_caps ([] ++ capabilities_of 40) true true demo_proc).
Proof. apply (capabilities_dropped demo_proc). unfold INT_MAX. simpl. lia. Defined.

(** ** Codes *)

(** [exit_status] shows a wait status as a shell does: the exit code of a
    process that exited, and 128 plus the signal of one that was killed, with or
    without a core file. *)
Theorem exit_status_shell x : ending_ok x -> exit_status (status_of x) = shell_code x.
Proof. apply exit_status_of. Qed.

Lemma exit_status_shell_witness : exit_status (status_of (Signaled SIGTERM true)) = 143.
Proof. apply (exit_status_shell (Signaled SIGTERM true)). unfold SIGTERM. simpl. lia. Defined.

(** ** The three processes together *)

Definition demo_system : system := system_init (lit "runtime") demo_args.

Definition demo_executing : system := schedule 300 [GoLauncher; GoInit; GoCommand] demo_system.
Definition demo_ended : system :=
  schedule 300 [GoLauncher; GoInit; GoCommand; CommandEnds (Exited 7); GoInit; GoLauncher] demo_system.

Lemma demo_reachable ws : reachable (lit "runtime") demo_args (schedule 300 ws demo_system).
Proof. apply schedule_reachable, rtc_refl. Qed.

Lemma demo_executes : exists path argv s, sy_command demo_executing = Executing path argv s.
Proof.
  assert (H : match sy_command demo_executing with Executing _ _ _ => true | _ => false end = true)
    by (vm_compute; reflexivity).
  destruct (sy_command demo_executing) as [| |path argv s|]; try discriminate. by exists path, argv, s.
Qed.

Lemma demo_returns : exists s, sy_launcher demo_ended = Ended (Returned 7) s.
Proof.
  assert (H : match sy_launcher demo_ended with Ended (Returned code) _ => code =? 7 | _ => false end = true)
    by (vm_compute; reflexivity).
  destruct (sy_launcher demo_ended) as [| | |[code| | |] s]; try discriminate.
  apply Z.eqb_eq in H as ->. by exists s.
Qed.

(** C12: end to end, the command runs only in isolation.  However the launcher, the
    init and the command are interleaved, killed and answered by the kernel, when a
    program is being executed in the container it is the one of the launcher's
    command line, with its arguments; its process is confined, as in the rules of the
    monitor; and the launcher has denied setgroups and written the user and group
    maps of the container. *)
Theorem command_isolated argv0 args y path argv s :
  reachable argv0 args y -> sy_command y = Executing path argv s ->
  argv = tail args /\ head argv = Some path /\ confined s /\ NoNewPrivileges ∈ facts s /\
  exists sl, knows (sy_launcher y) = Some sl /\ mapped sl.
Proof.
  intros Hr Hy. destruct (reachable_sinv _ _ _ Hr) as [_ _ Hc _ Hb _ _ _ _ Hm _ _]. rewrite Hy in *.
  destruct Hc as (Hcom & Hhead & _ & Hconf & _). destruct Hb as (arg & _ & _ & Hargs & Hk).
  destruct (Hk s eq_refl) as (_ & _ & Hall). rewrite <-Hargs.
  split; [by apply Hall|]. split; [done|]. split; [done|]. split; [apply Hconf|]. by apply Hm.
Qed.

Lemma command_isolated_witness :
  exists path argv s, sy_command demo_executing = Executing path argv s /\ argv = [lit "/bin/true"] /\ confined s.
Proof.
  destruct demo_executes as (path & argv & s & H).
  destruct (command_isolated (lit "runtime") demo_args demo_executing path argv s (demo_reachable _) H)
    as (H1 & _ & H2 & _).
  exists path, argv, s. split; [exact H|]. split; [exact H1|exact H2].
Defined.

(** C13: end to end, the launcher returns the status of the command.  When the
    launcher returns, either it printed its help, or the result is 125, or the init
    has ended and the result is what a shell shows for it; and if the init returned,
    the command has ended and the result is what a shell shows for the command, so
    the exit code or the signal survives the two 8-bit statuses in between. *)
Theorem command_status_returned argv0 args y code s :
  reachable argv0 args y -> sy_launcher y = Ended (Returned code) s ->
  code = RUNTIME_ERROR \/ (code = 0 /\ args = [lit "--help"]) \/
  exists oi si, sy_init y = Ended oi si /\ code = shell_code (ending_of oi) /\
    (forall c, oi = Returned c ->
       exists om sm, sy_command y = Ended om sm /\ code = shell_code (ending_of om)).
Proof.
  intros Hr Hy. destruct (reachable_sinv _ _ _ Hr) as [Hl Hi Hm _ _ Hls His _ _ _ _ _]. rewrite Hy in *.
  destruct Hl as [_ [[[-> _]|(child & st & _ & Hst & ->)]|(-> & Ha & _)]]; [by left| |by right; left].
  right; right. destruct (Hls s st eq_refl Hst) as (oi & si & E & ->). rewrite E in *. exists oi, si.
  destruct Hi as [Hok Hres]. rewrite (exit_status_of _ Hok). split; [done|]. split; [done|].
  intros c ->. destruct Hres as (pid & st & _ & Hst2 & ->).
  destruct (His si st eq_refl Hst2) as (om & sm & Em & ->). exists om, sm. split; [done|].
  rewrite Em in Hm. destruct Hm as [Hmok _]. cbn [ending_of shell_code].
  rewrite (exit_status_of _ Hmok). apply Z.mod_small. unfold outcome_ok in Hmok.
  destruct (ending_of om); simpl in *; lia.
Qed.

Lemma command_status_returned_witness :
  7 = RUNTIME_ERROR \/ (7 = 0 /\ demo_args = [lit "--help"]) \/
  exists oi si, sy_init demo_ended = Ended oi si /\ 7 = shell_code (ending_of oi) /\
    (forall c, oi = Returned c ->
       exists om sm, sy_command demo_ended = Ended om sm /\ 7 = shell_code (ending_of om)).
Proof.
  destruct demo_returns as [s H].
  exact (command_status_returned (lit "runtime") demo_args demo_ended 7 s (demo_reachable _) H).
Defined.

(** ** Errors *)

(** The two programs of the runtime, and what they know when they start. *)
Inductive process :=
| Launcher (argv0 : list byte) (args : list (list byte))
| Init (c : container).

Definition program (p : process) : sysprog Z :=
  match p with Launcher argv0 args => main (argv0 :: args) | Init c => run_container c end.
Definition process_start (p : process) : monitor :=
  match p with Launcher _ args => launcher_start args | Init c => container_start c end.
Definition process_ok (p : process) : Prop :=
  match p with Launcher _ _ => True | Init c => container_ok c end.

Lemma program_allowed p tr u s A (e : sysE A) k :
  process_ok p -> runs mstep (program p) (process_start p) tr u s -> observe u = VisF e k -> in_order A e s.
Proof.
  intros Hok Hr Ho. destruct p as [argv0 args|c].
  - exact (wp_allowed _ _ _ _ _ _ _ _ _ _ _ (wp_main argv0 args) Hr Ho).
  - exact (wp_allowed _ _ _ _ _ _ _ _ _ _ _ (wp_run_container c Hok) Hr Ho).
Qed.

(** The processes of the runtime exit early only with 125, or, when executing
    the command failed, with 127 when it was not found and 126 otherwise; and no
    statement of theirs is undefined: no string is read past its end, no buffer
    overflows and no counter wraps. *)
Theorem runtime_exits p tr u s A (e : sysE A) k :
  process_ok p -> runs mstep (program p) (process_start p) tr u s -> observe u = VisF e k ->
  match e with
  | Undefined => False
  | Exit code => code = RUNTIME_ERROR \/
      exists errno path argv, Ev (Execv path argv) errno ∈ tr /\ code = (if errno =? ENOENT then 127 else 126)
  | _ => True
  end.
Proof.
  intros Hok Hr Ho. pose proof (program_allowed p tr u s A e k Hok Hr Ho) as Ha. destruct e; try done.
  destruct Ha as [->|(errno & Hf & ->)]; [by left|]. right. exists errno.
  destruct (runs_evidence _ _ _ _ _ _ Hr Hf) as [H|H].
  - destruct p as [argv0 args|c]; cbn [process_start] in H; [cbn [facts launcher_start] in H; by apply list_elem_of_singleton in H|].
    apply container_start_facts in H. by destruct H as [?|[?|[?|[?|?]]]].
  - apply Exists_exists in H as (ev & Hin & path & argv & ->). by exists path, argv.
Qed.

Lemma runtime_exits_witness :
  exists tr u s code k, runs mstep (run_container demo_container) (container_start demo_container) tr u s /\
    observe u = VisF (Exit code) k /\
    (code = RUNTIME_ERROR \/
      exists errno path argv, Ev (Execv path argv) errno ∈ tr /\ code = (if errno =? ENOENT then 127 else 126)).
Proof.
  destruct drive_container_exit as (tr & u & s & A & e & k & Hr & Ho & He). destruct e; try discriminate He.
  pose proof (runtime_exits (Init demo_container) tr u s _ (Exit code) k demo_ok Hr Ho) as H.
  exists tr, u, s, code, k. split; [exact Hr|]. split; [exact Ho|exact H].
Defined.
