(* ===== verification/Proxy.v ===== *)
(** * The reverse proxy of reverse-proxy/server.go

    [handleConnection] and what it calls, as interaction trees: one event per call of
    a connection.  hasUnsupportedBody and the text of sendError are, word for word,
    those of the load balancer ([Balancer]). *)

From S2P Require Import Prelude CLib Effects GoLib BalancerPool.
From S2P Require Balancer.
Local Open Scope Z_scope.
Local Open Scope prog_scope.

(** ** Events *)

Variant conn := Client | Backend.

(** An error of the net package, which may be a timeout; a read may also end. *)
Definition net_error : Set := bool.
Variant read_error := EOF | Fails (e : net_error).

Variant proxyE : Type -> Type :=
| SetDeadline (c : conn) : proxyE unit
| SetWriteDeadline (c : conn) : proxyE unit
| ConnRead (c : conn) (len : Z) : proxyE (list byte * option read_error)
| ConnWrite (c : conn) (data : list byte) : proxyE (Z * option net_error)
| CloseWrite (c : conn) : proxyE unit
| CloseConn (c : conn) : proxyE unit
| Dial : proxyE (option net_error).

Abbreviation prog := (itree proxyE).

Definition bufferSize : Z := 4096.
Definition maxRequestSize : Z := 64 * 1024.
Definition header_end : list byte := lit "\r\n\r\n".

Definition contains (sep s : list byte) : bool := negb (bool_decide (cut sep s = None)).

(** ** Requests *)

(** The loop of [readRequest], on what was read; then its result, [None] for an
    error. *)
Definition read_step (request : list byte) : prog (list byte + option (list byte)) :=
  if contains header_end request then Ret (inr (Some request))
  else
    let* ' (chunk, err) := call (ConnRead Client bufferSize) in
    let request := request ++ chunk in
    if (0 <? zlen chunk) && (maxRequestSize <? zlen request) then Ret (inr None)
    else
      match err with
      | Some _ => Ret (inr None)
      | None => Ret (inl request)
      end.
Definition readRequest : prog (option (list byte)) := ITree.iter read_step [].

Definition sendError (status body : list byte) : prog unit :=
  call (ConnWrite Client (Balancer.error_response status body)) ;! Ret tt.

(** ** Responses *)

(** The loop of [relay]: [*responseStarted], which a write to the client sets when it
    succeeds, however many bytes a failed one wrote; at the end, the error, if any. *)
Definition relay_step (started : bool) : prog (bool + (option net_error * bool)) :=
  let* ' (data, err) := call (ConnRead Backend bufferSize) in
  let finish started :=
    match err with
    | None => Ret (inl started)
    | Some EOF => Ret (inr (None, started))
    | Some (Fails e) => Ret (inr (Some e, started))
    end in
  if 0 <? zlen data then
    let* ' (_, werr) := call (ConnWrite Client data) in
    match werr with
    | Some e => Ret (inr (Some e, started))
    | None => finish true
    end
  else finish started.

Definition relay (request : list byte) : prog (option net_error * bool) :=
  let* ' (_, werr) := call (ConnWrite Backend request) in
  match werr with
  | Some e => Ret (Some e, false)
  | None => call (CloseWrite Backend) ;! ITree.iter relay_step false
  end.

Definition bad_request : prog unit := sendError (lit "400 Bad Request") (lit "Bad Request\n").

(** The answer to an error of the backend. *)
Definition gateway_error (timeout : net_error) : prog unit :=
  let '(status, body) :=
    if timeout then (lit "504 Gateway Timeout", lit "Gateway Timeout\n") else (lit "502 Bad Gateway", lit "Bad Gateway\n") in
  call (SetWriteDeadline Client) ;!
  sendError status body.

(** The end of [handleConnection]. *)
Definition report (r : option net_error * bool) : prog unit :=
  match r with
  | (Some e, false) => gateway_error e
  | _ => Ret tt
  end.

Definition handleConnection : prog unit :=
  call (SetDeadline Client) ;!
  let* request := readRequest in
  match request with
  | None => bad_request
  | Some request =>
      if bool_decide (request = []) || negb (contains header_end request) then bad_request
      else if Balancer.hasUnsupportedBody request then bad_request
      else
        let* err := call Dial in
        match err with
        | Some e => report (Some e, false)
        | None =>
            call (SetDeadline Backend) ;!
            let* r := relay request in
            report r ;!
            call (CloseConn Backend)      (* deferred *)
        end
  end.

(** The goroutine of a client in [serve]. *)
Definition connection : prog unit := handleConnection ;! call (CloseConn Client).
