(* ===== verification/ProxyExec.v ===== *)
(** * Executions of the reverse proxy

    [connection] in an environment given by scripts: what the reads return, whether
    the writes succeed and how much of them arrives if not, whether the backend accepts a connection.  It terminates, and
    what it does is a function of the scripts ([taken], [relayed], [proxied]). *)

From S2P Require Import Prelude CLib Effects GoLib.
From S2P Require Balancer.
From S2P Require Import Proxy.
Local Open Scope Z_scope.
Local Open Scope prog_scope.

(** ** The environment *)

Variant stage := NotOpen | Open | Closed.

Record pworld := PWorld {
  p_rx : list (list byte * option read_error);         (** what reads from the client return; then EOF *)
  p_client : list (option (Z * net_error));            (** how writes to the client fail, after how many bytes; then they succeed *)
  p_dial : option net_error;                           (** what dialling the backend returns *)
  p_accept : option (Z * net_error);                   (** how the write to the backend fails *)
  p_response : list (list byte * option read_error);   (** what reads from the backend return; then EOF *)
  p_sent : list (list byte * bool);                    (** what of each write to the client arrived, and whether it succeeded *)
  p_forwarded : list (list byte);                      (** what of each write to the backend arrived *)
  p_backend : stage;
  p_closed : bool                                      (** whether the client is closed *)
}.

Definition next_read (s : list (list byte * option read_error)) : (list byte * option read_error) * list (list byte * option read_error) :=
  match s with [] => (([], Some EOF), []) | r :: s => (r, s) end.
Definition next_write (s : list (option (Z * net_error))) : option (Z * net_error) * list (option (Z * net_error)) :=
  match s with [] => (None, []) | r :: s => (r, s) end.

(** What of a write arrives, and what it returns. *)
Definition arrived (r : option (Z * net_error)) (data : list byte) : list byte :=
  match r with None => data | Some (n, _) => take (Z.to_nat n) data end.
Definition write_result (r : option (Z * net_error)) (data : list byte) : Z * option net_error :=
  (zlen (arrived r data), snd <$> r).
Definition succeeded (r : option (Z * net_error)) : bool := match r with None => true | Some _ => false end.

(** A connection is used only while it is open. *)
Definition proxy_env : environment proxyE pworld := fun A e w =>
  let '(PWorld rx cl d a resp sent fwd b closed) := w in
  let client_open (r : option (A * pworld)) := if closed then None else r in
  let backend_open (r : option (A * pworld)) := match b with Open => r | _ => None end in
  match e in proxyE A return (option (A * pworld) -> option (A * pworld)) -> (option (A * pworld) -> option (A * pworld)) -> option (A * pworld) with
  | SetDeadline Client | SetWriteDeadline Client | CloseWrite Client => fun client _ => client (Some (tt, w))
  | SetDeadline Backend | SetWriteDeadline Backend | CloseWrite Backend => fun _ backend => backend (Some (tt, w))
  | ConnRead Client _ => fun client _ =>
      client (let '(r, rx) := next_read rx in Some (r, PWorld rx cl d a resp sent fwd b closed))
  | ConnRead Backend _ => fun _ backend =>
      backend (let '(r, resp) := next_read resp in Some (r, PWorld rx cl d a resp sent fwd b closed))
  | ConnWrite Client data => fun client _ =>
      client (let '(r, cl) := next_write cl in
              Some (write_result r data, PWorld rx cl d a resp (sent ++ [(arrived r data, succeeded r)]) fwd b closed))
  | ConnWrite Backend data => fun _ backend =>
      backend (Some (write_result a data, PWorld rx cl d a resp sent (fwd ++ [arrived a data]) b closed))
  | CloseConn Client => fun client _ => client (Some (tt, PWorld rx cl d a resp sent fwd b true))
  | CloseConn Backend => fun _ backend => backend (Some (tt, PWorld rx cl d a resp sent fwd Closed closed))
  | Dial => fun _ _ =>
      match b with
      | NotOpen => Some (d, PWorld rx cl d a resp sent fwd (match d with None => Open | Some _ => NotOpen end) closed)
      | _ => None
      end
  end client_open backend_open.

(** ** What it does, as functions of the scripts *)

(** The request, [None] for an error, and what is left of the script. *)
Fixpoint taken (request : list byte) (rx : list (list byte * option read_error)) : option (list byte) * list (list byte * option read_error) :=
  if contains header_end request then (Some request, rx)
  else
    match rx with
    | [] => (None, [])
    | (chunk, err) :: rx =>
        if (0 <? zlen chunk) && (maxRequestSize <? zlen (request ++ chunk)) then (None, rx)
        else match err with Some _ => (None, rx) | None => taken (request ++ chunk) rx end
    end.

Definition request_in (rx : list (list byte * option read_error)) : option (list byte) :=
  match (taken [] rx).1 with
  | Some request => if Balancer.hasUnsupportedBody request then None else Some request
  | None => None
  end.

(** The writes of [relay] and how it ends, and what is left of the scripts. *)
Fixpoint relayed (started : bool) (resp : list (list byte * option read_error)) (cl : list (option (Z * net_error)))
  : list (list byte * bool) * (option net_error * bool) * (list (list byte * option read_error) * list (option (Z * net_error))) :=
  match resp with
  | [] => ([], (None, started), ([], cl))
  | (data, err) :: resp =>
      if 0 <? zlen data then
        let '(werr, cl) := next_write cl in
        match werr with
        | Some (n, e) => ([(take (Z.to_nat n) data, false)], (Some e, started), (resp, cl))
        | None =>
            match err with
            | Some EOF => ([(data, true)], (None, true), (resp, cl))
            | Some (Fails e) => ([(data, true)], (Some e, true), (resp, cl))
            | None => let '(ws, r, scripts) := relayed true resp cl in ((data, true) :: ws, r, scripts)
            end
        end
      else
        match err with
        | Some EOF => ([], (None, started), (resp, cl))
        | Some (Fails e) => ([], (Some e, started), (resp, cl))
        | None => relayed started resp cl
        end
  end.

Definition error_400 : list byte := Balancer.error_response (lit "400 Bad Request") (lit "Bad Request\n").
Definition error_gateway (timeout : net_error) : list byte :=
  if timeout then Balancer.error_response (lit "504 Gateway Timeout") (lit "Gateway Timeout\n")
  else Balancer.error_response (lit "502 Bad Gateway") (lit "Bad Gateway\n").

(** The error that is sent after [relay], if any. *)
Definition reported (r : option net_error * bool) : option (list byte) :=
  match r with (Some e, false) => Some (error_gateway e) | _ => None end.

Definition write_client (data : list byte) (w : pworld) : pworld :=
  let '(PWorld rx cl d a resp sent fwd b closed) := w in
  let '(r, cl) := next_write cl in
  PWorld rx cl d a resp (sent ++ [(arrived r data, succeeded r)]) fwd b closed.

Definition write_report (r : option net_error * bool) (w : pworld) : pworld :=
  match reported r with Some data => write_client data w | None => w end.

Definition close_client (w : pworld) : pworld :=
  PWorld (p_rx w) (p_client w) (p_dial w) (p_accept w) (p_response w) (p_sent w) (p_forwarded w) (p_backend w) true.
Definition set_backend (b : stage) (w : pworld) : pworld :=
  PWorld (p_rx w) (p_client w) (p_dial w) (p_accept w) (p_response w) (p_sent w) (p_forwarded w) b (p_closed w).
Definition set_input (rx : list (list byte * option read_error)) (w : pworld) : pworld :=
  PWorld rx (p_client w) (p_dial w) (p_accept w) (p_response w) (p_sent w) (p_forwarded w) (p_backend w) (p_closed w).
Definition forward (request : list byte) (w : pworld) : pworld :=
  PWorld (p_rx w) (p_client w) (p_dial w) (p_accept w) (p_response w) (p_sent w) (p_forwarded w ++ [request]) (p_backend w) (p_closed w).

(** The result of [relay] and the world after it. *)
Definition after_relay (request : list byte) (w : pworld) : (option net_error * bool) * pworld :=
  let w := forward (arrived (p_accept w) request) w in
  match p_accept w with
  | Some (_, e) => ((Some e, false), w)
  | None =>
      let '(ws, r, (resp, cl)) := relayed false (p_response w) (p_client w) in
      (r, PWorld (p_rx w) cl (p_dial w) (p_accept w) resp (p_sent w ++ ws) (p_forwarded w) (p_backend w) (p_closed w))
  end.

(** The world after [handleConnection], and after the goroutine. *)
Definition handled (w : pworld) : pworld :=
  let request := request_in (p_rx w) in
  let w := set_input (taken [] (p_rx w)).2 w in
  match request with
  | None => write_client error_400 w
  | Some request =>
      match p_dial w with
      | Some e => write_report (Some e, false) w
      | None =>
          let '(r, w) := after_relay request (set_backend Open w) in
          set_backend Closed (write_report r w)
      end
  end.
Definition proxied (w : pworld) : pworld := close_client (handled w).

(** ** It does *)

Lemma proxy_read_evals rx cl d a resp sent fwd b : forall request,
  evals proxy_env (ITree.iter read_step request) (PWorld rx cl d a resp sent fwd b false) (taken request rx).1
    (PWorld (taken request rx).2 cl d a resp sent fwd b false).
Proof.
  induction rx as [|[chunk err] rx IH]; intros request; cbn [taken]; destruct (contains header_end request) eqn:E.
  1,3: eapply evals_iter_stop; unfold read_step; rewrite E; apply evals_ret.
  - eapply evals_iter_stop. unfold read_step. rewrite E. eapply evals_call_bind; [reflexivity|].
    cbv beta iota zeta. cbn [length Z.of_nat Z.ltb Z.compare andb]. apply evals_ret.
  - assert (Hstep : evals proxy_env (read_step request) (PWorld ((chunk, err) :: rx) cl d a resp sent fwd b false)
      (if (0 <? zlen chunk) && (maxRequestSize <? zlen (request ++ chunk)) then inr None
       else match err with Some _ => inr None | None => inl (request ++ chunk) end)
      (PWorld rx cl d a resp sent fwd b false)).
    { unfold read_step. rewrite E. eapply evals_call_bind; [reflexivity|]. cbv beta iota zeta.
      destruct (_ && _); [apply evals_ret|]. destruct err; apply evals_ret. }
    destruct (_ && _); [by eapply evals_iter_stop|]. destruct err; [by eapply evals_iter_stop|].
    eapply evals_iter_next; [exact Hstep|]. apply IH.
Qed.

Lemma relay_step_evals rx d a sent fwd : forall resp started cl,
  let '(ws, r, (resp', cl')) := relayed started resp cl in
  evals proxy_env (ITree.iter relay_step started) (PWorld rx cl d a resp sent fwd Open false) r
    (PWorld rx cl' d a resp' (sent ++ ws) fwd Open false).
Proof.
  intros resp. revert sent. induction resp as [|[data err] resp IH]; intros sent started cl; cbn [relayed].
  - rewrite app_nil_r. eapply evals_iter_stop. unfold relay_step. eapply evals_call_bind; [reflexivity|].
    cbv beta iota zeta. cbn [length Z.of_nat Z.ltb Z.compare]. apply evals_ret.
  - destruct (0 <? zlen data) eqn:Hd; [destruct (next_write cl) as [[[n e]|] cl'] eqn:Ew|].
    + eapply evals_iter_stop. unfold relay_step. eapply evals_call_bind; [reflexivity|]. cbv beta iota zeta. rewrite Hd.
      eapply evals_call_bind; [cbn; by rewrite Ew|]. apply evals_ret.
    + assert (Hstep : forall x, match err with
        | None => inl true | Some EOF => inr (None, true) | Some (Fails e) => inr (Some e, true) end = x ->
        evals proxy_env (relay_step started) (PWorld rx cl d a ((data, err) :: resp) sent fwd Open false) x
          (PWorld rx cl' d a resp (sent ++ [(data, true)]) fwd Open false)).
      { intros x <-. unfold relay_step. eapply evals_call_bind; [reflexivity|]. cbv beta iota zeta. rewrite Hd.
        eapply evals_call_bind; [cbn; by rewrite Ew|]. destruct err as [[|e]|]; apply evals_ret. }
      destruct err as [[|e]|]; [by eapply evals_iter_stop, Hstep..|].
      specialize (IH (sent ++ [(data, true)]) true cl'). destruct (relayed true resp cl') as [[ws r] [resp' cl'']].
      eapply evals_iter_next; [by apply Hstep|]. by rewrite <-app_assoc in IH.
    + assert (Hstep : forall x, match err with
        | None => inl started | Some EOF => inr (None, started) | Some (Fails e) => inr (Some e, started) end = x ->
        evals proxy_env (relay_step started) (PWorld rx cl d a ((data, err) :: resp) sent fwd Open false) x
          (PWorld rx cl d a resp sent fwd Open false)).
      { intros x <-. unfold relay_step. eapply evals_call_bind; [reflexivity|]. cbv beta iota zeta. rewrite Hd.
        destruct err as [[|e]|]; apply evals_ret. }
      destruct err as [[|e]|]; [rewrite app_nil_r; by eapply evals_iter_stop, Hstep..|].
      specialize (IH sent started cl). destruct (relayed started resp cl) as [[ws r] [resp' cl'']].
      eapply evals_iter_next; [by apply Hstep|]. exact IH.
Qed.

Lemma proxy_error_evals status body w :
  p_closed w = false ->
  evals proxy_env (sendError status body) w tt (write_client (Balancer.error_response status body) w).
Proof.
  intros Hw. unfold sendError. destruct w as [rx cl d a resp sent fwd b closed]. cbn in Hw. subst.
  unfold write_client. destruct (next_write cl) as [r cl'] eqn:E.
  eapply evals_call_bind; [cbn; by rewrite E|]. apply evals_ret.
Qed.

Lemma gateway_error_evals e w : p_closed w = false -> evals proxy_env (gateway_error e) w tt (write_client (error_gateway e) w).
Proof.
  intros Hw. unfold gateway_error, error_gateway.
  assert (Hd : forall status body, evals proxy_env (call (SetWriteDeadline Client) ;! sendError status body) w tt
    (write_client (Balancer.error_response status body) w)).
  { intros status body. eapply evals_call_bind; [|by apply proxy_error_evals]. destruct w. cbn in Hw. by subst. }
  destruct e; apply Hd.
Qed.

Lemma report_evals r w : p_closed w = false -> evals proxy_env (report r) w tt (write_report r w).
Proof.
  intros Hw. unfold report, write_report, reported. destruct r as [[e|] []]; try apply evals_ret. by apply gateway_error_evals.
Qed.

Lemma write_client_open data w : p_closed (write_client data w) = p_closed w /\ p_backend (write_client data w) = p_backend w.
Proof. destruct w as [rx cl d a resp sent fwd b closed]. cbn. by destruct (next_write cl). Qed.

(** A request that is taken has its end. *)
Lemma taken_contains rx : forall request q, (taken request rx).1 = Some q -> contains header_end q = true.
Proof.
  induction rx as [|[chunk err] rx IH]; intros request q; cbn [taken]; destruct (contains header_end request) eqn:E; cbn [fst];
    try (by intros [= <-]).
  destruct (_ && _); [done|]. destruct err; [done|]. apply IH.
Qed.

Lemma write_report_open r w : p_closed (write_report r w) = p_closed w /\ p_backend (write_report r w) = p_backend w.
Proof. unfold write_report. destruct (reported r); [apply write_client_open|done]. Qed.

Lemma proxy_relay_evals request w :
  p_closed w = false -> p_backend w = Open ->
  let '(r, w') := after_relay request w in
  evals proxy_env (relay request) w r w' /\ p_closed w' = false /\ p_backend w' = Open.
Proof.
  destruct w as [rx cl d a resp sent fwd b closed]. cbn [p_closed p_backend]. intros -> ->. unfold after_relay, forward.
  cbn [p_accept p_rx p_client p_dial p_response p_sent p_forwarded p_backend p_closed].
  destruct a as [[n e]|].
  - split; [|done]. unfold relay. eapply evals_call_bind; [reflexivity|]. apply evals_ret.
  - pose proof (relay_step_evals rx d None sent (fwd ++ [request]) resp false cl) as H.
    destruct (relayed false resp cl) as [[ws r] [resp' cl']]. split; [|done].
    unfold relay. eapply evals_call_bind; [reflexivity|]. eapply evals_call_bind; [reflexivity|]. exact H.
Qed.

Lemma dial_evals w : p_closed w = false -> p_backend w = NotOpen ->
  evals proxy_env (call Dial) w (p_dial w) (match p_dial w with None => set_backend Open w | Some _ => w end).
Proof. destruct w as [rx cl [e|] a resp sent fwd b closed]; cbn; intros -> ->; by apply evals_call. Qed.

(** What is done with a request. *)
Definition forwarding (request : list byte) : prog unit :=
  let* err := call Dial in
  match err with
  | Some e => report (Some e, false)
  | None =>
      call (SetDeadline Backend) ;!
      let* r := relay request in
      report r ;!
      call (CloseConn Backend)
  end.

Lemma forwarding_evals request w :
  p_closed w = false -> p_backend w = NotOpen ->
  exists w', evals proxy_env (forwarding request) w tt w' /\ p_closed w' = false /\
    w' = match p_dial w with
         | Some e => write_report (Some e, false) w
         | None => let '(r, w) := after_relay request (set_backend Open w) in set_backend Closed (write_report r w)
         end.
Proof.
  intros Hc Hb. pose proof (dial_evals w Hc Hb) as Hd. unfold forwarding. destruct (p_dial w) as [e|].
  - eexists. split; [eapply evals_bind; [exact Hd|]; by apply report_evals|]. split; [by destruct (write_report_open (Some e, false) w) as [-> _]|done].
  - pose proof (proxy_relay_evals request (set_backend Open w) Hc eq_refl) as Hr.
    destruct (after_relay request (set_backend Open w)) as [r w1]. destruct Hr as (Hr & Hc1 & Hb1).
    destruct (write_report_open r w1) as [Hc2 Hb2].
    exists (set_backend Closed (write_report r w1)). split; [|split; [by rewrite <-Hc1, <-Hc2|done]].
    eapply evals_bind; [exact Hd|]. cbv beta iota.
    eapply evals_call_bind. { destruct w. cbn in *. by subst. }
    eapply evals_bind; [exact Hr|]. eapply evals_bind; [by apply report_evals|].
    rewrite Hc1 in Hc2. rewrite Hb1 in Hb2. apply evals_call. destruct (write_report r w1). cbn in *. by subst.
Qed.

Lemma proxy_handle_evals w :
  p_closed w = false -> p_backend w = NotOpen ->
  evals proxy_env handleConnection w tt (handled w) /\ p_closed (handled w) = false.
Proof.
  intros Hc Hb. set (w1 := set_input (taken [] (p_rx w)).2 w).
  assert (Hd : proxy_env _ (SetDeadline Client) w = Some (tt, w)).
  { destruct w as [rx cl d a resp sent fwd b closed]. cbn in Hc. by subst. }
  assert (Hread : evals proxy_env readRequest w (taken [] (p_rx w)).1 w1).
  { destruct w as [rx cl d a resp sent fwd b closed]. cbn in Hc. subst. apply proxy_read_evals. }
  pose proof (taken_contains (p_rx w) []) as Htaken.
  assert (Hbad : evals proxy_env bad_request w1 tt (write_client error_400 w1)) by by apply proxy_error_evals.
  pose proof (write_client_open error_400 w1) as [Hopen _].
  unfold handled, request_in, handleConnection. fold w1.
  destruct (taken [] (p_rx w)).1 as [request|].
  2: { split; [|rewrite Hopen; exact Hc]. eapply evals_call_bind; [exact Hd|]. eapply evals_bind; [exact Hread|]. exact Hbad. }
  specialize (Htaken request eq_refl).
  assert (Hne : bool_decide (request = []) = false).
  { apply bool_decide_eq_false. intros ->. vm_compute in Htaken. discriminate. }
  destruct (Balancer.hasUnsupportedBody request) eqn:Hbody.
  { split; [|rewrite Hopen; exact Hc]. eapply evals_call_bind; [exact Hd|]. eapply evals_bind; [exact Hread|]. cbv beta iota.
    rewrite Hne, Htaken. cbn [orb negb]. rewrite Hbody. exact Hbad. }
  destruct (forwarding_evals request w1 Hc Hb) as (w2 & Hw2 & Hc2 & <-). split; [|exact Hc2].
  eapply evals_call_bind; [exact Hd|]. eapply evals_bind; [exact Hread|]. cbv beta iota.
  rewrite Hne, Htaken. cbn [orb negb]. rewrite Hbody. exact Hw2.
Qed.

Lemma proxy_connection_evals w :
  p_closed w = false -> p_backend w = NotOpen -> evals proxy_env connection w tt (proxied w).
Proof.
  intros Hc Hb. destruct (proxy_handle_evals w Hc Hb) as [He Hopen].
  unfold connection. eapply evals_bind; [exact He|]. apply evals_call. unfold proxied.
  destruct (handled w). cbn in Hopen. by subst.
Qed.

(** ** What the client is sent *)

Definition not_empty (data : list byte) : bool := negb (bool_decide (data = [])).

Lemma not_empty_length data : (0 <? zlen data) = not_empty data.
Proof. by destruct data. Qed.

(** The writes of [relay]: chunks of the response in their order, each in full, then,
    if a write failed, what of the next one arrived. *)
Definition relays (chunks : list (list byte)) (ws : list (list byte * bool)) (full : list (list byte)) (failed : bool) : Prop :=
  exists rest part,
    ws = ((fun c => (c, true)) <$> full) ++ part /\ List.filter not_empty chunks = full ++ rest /\
    (if failed then exists q c rest', part = [(q, false)] /\ rest = c :: rest' /\ q `prefix_of` c else part = []).

Lemma relays_more chunks ws full failed c :
  relays chunks ws full failed -> relays (c :: chunks) (if not_empty c then (c, true) :: ws else ws) (if not_empty c then c :: full else full) failed.
Proof.
  intros (rest & part & -> & Hr & Hp). exists rest, part. cbn [List.filter]. destruct (not_empty c); [|done].
  by rewrite Hr.
Qed.

Lemma relays_none chunks : relays chunks [] [] false.
Proof. by eexists _, []. Qed.

Lemma relays_last chunks c : not_empty c = true -> relays (c :: chunks) [(c, true)] [c] false.
Proof. intros Hc. eexists _, []. cbn [List.filter]. rewrite Hc. by split_and!. Qed.

Lemma take_prefix (n : nat) (c : list byte) : take n c `prefix_of` c.
Proof. exists (drop n c). by rewrite take_drop. Qed.

(** The response has started when one write succeeded; a write that fails is an error. *)
Lemma relayed_spec resp : forall started cl,
  let '(ws, (e, started'), _) := relayed started resp cl in
  exists full failed, relays resp.*1 ws full failed /\ started' = started || bool_decide (full <> []) /\
    (failed = true -> is_Some e).
Proof.
  induction resp as [|[data err] resp IH]; intros started cl; cbn [relayed fmap list_fmap fst].
  - exists [], false. split; [apply relays_none|]. by rewrite orb_false_r.
  - rewrite not_empty_length. destruct (not_empty data) eqn:Hd; [destruct (next_write cl) as [[[n e]|] cl']|].
    + exists [], true. split; [|by rewrite orb_false_r]. eexists _, _. split; [reflexivity|]. cbn [List.filter]. rewrite Hd.
      split; [reflexivity|]. eexists _, _, _. split; [reflexivity|]. split; [reflexivity|]. apply take_prefix.
    + assert (Hs : forall full, bool_decide (data :: full <> []) = true) by (intros full; by apply bool_decide_eq_true).
      destruct err as [[|e]|].
      1,2: exists [data], false; split; [by apply relays_last|]; by rewrite Hs, orb_true_r.
      specialize (IH true cl'). destruct (relayed true resp cl') as [[ws [e started']] scripts].
      destruct IH as (full & failed & Hr & -> & He). exists (data :: full), failed.
      pose proof (relays_more _ _ _ _ data Hr) as H. rewrite Hd in H. split; [exact H|]. by rewrite Hs, orb_true_r.
    + destruct err as [[|e]|].
      1,2: exists [], false; split; [apply relays_none|]; by rewrite orb_false_r.
      specialize (IH started cl). destruct (relayed started resp cl) as [[ws [e started']] scripts].
      destruct IH as (full & failed & Hr & -> & He). exists full, failed.
      pose proof (relays_more _ _ _ _ data Hr) as H. rewrite Hd in H. by split.
Qed.

(** Nothing fails: all of it. *)
Lemma relayed_all chunks : forall started,
  exists started',
    relayed started ((fun c => (c, None)) <$> chunks) [] =
    ((fun c => (c, true)) <$> List.filter not_empty chunks, (None, started'), ([], [])).
Proof.
  induction chunks as [|c chunks IH]; intros started; cbn [fmap list_fmap relayed List.filter].
  - by eexists.
  - rewrite not_empty_length. cbn [next_write]. destruct (not_empty c).
    + destruct (IH true) as [started' ->]. by eexists.
    + apply IH.
Qed.

Lemma mjoin_not_empty (chunks : list (list byte)) : mjoin (List.filter not_empty chunks) = mjoin chunks.
Proof. induction chunks as [|[|b c] chunks IH]; cbn; [done|exact IH|]. f_equal. f_equal. exact IH. Qed.

(** A message of the proxy: all of it arrives if the write succeeded. *)
Definition message (data : list byte) (x : list byte * bool) : Prop := x.1 `prefix_of` data /\ (x.2 = true -> x.1 = data).

Lemma write_client_sent data w :
  exists x, p_sent (write_client data w) = p_sent w ++ [x] /\ message data x /\
    p_forwarded (write_client data w) = p_forwarded w /\ p_backend (write_client data w) = p_backend w.
Proof.
  destruct w as [rx cl d a resp sent fwd b closed]. unfold write_client. destruct (next_write cl) as [r cl'].
  eexists. split; [reflexivity|]. split; [|done]. destruct r as [[n e]|]; [split; [apply take_prefix|done]|by split].
Qed.

Lemma write_report_sent r w :
  exists errors, p_sent (write_report r w) = p_sent w ++ errors /\
    p_forwarded (write_report r w) = p_forwarded w /\ p_backend (write_report r w) = p_backend w /\
    match r with
    | (Some e, false) => exists x, errors = [x] /\ message (error_gateway e) x
    | _ => errors = []
    end.
Proof.
  unfold write_report. destruct r as [[e|] []]; cbn [reported].
  2: { destruct (write_client_sent (error_gateway e) w) as (x & H1 & Hx & H2 & H3). eexists. split_and!; [exact H1|done|done|by exists x]. }
  all: exists []; by rewrite app_nil_r.
Qed.

(** The writes of the relay and what is reported after it. *)
Lemma after_relay_sent request w :
  let '((e, started), w') := after_relay request w in
  exists ws full failed,
    p_sent w' = p_sent w ++ ws /\ p_forwarded w' = p_forwarded w ++ [arrived (p_accept w) request] /\
    relays (p_response w).*1 ws full failed /\ started = bool_decide (full <> []) /\ (failed = true -> is_Some e).
Proof.
  unfold after_relay. destruct w as [rx cl d a resp sent fwd b closed]. cbn [forward p_accept p_response p_client p_sent p_forwarded].
  destruct a as [[n e]|].
  - exists [], [], false. rewrite app_nil_r. split_and!; [done|done|apply relays_none|done|done].
  - pose proof (relayed_spec resp false cl) as H. destruct (relayed false resp cl) as [[ws [e started]] [resp' cl']].
    destruct H as (full & failed & Hr & -> & He). by exists ws, full, failed.
Qed.

(** What is written to the backend. *)
Lemma handled_forwarded w request :
  request_in (p_rx w) = Some request ->
  p_forwarded (handled w) = p_forwarded w ++ match p_dial w with None => [arrived (p_accept w) request] | Some _ => [] end.
Proof.
  intros Hreq. unfold handled. cbv zeta. rewrite Hreq.
  change (p_dial (set_input (taken [] (p_rx w)).2 w)) with (p_dial w). destruct (p_dial w) as [e|].
  - destruct (write_report_sent (Some e, false) (set_input (taken [] (p_rx w)).2 w)) as (errors & _ & H & _).
    by rewrite H, app_nil_r.
  - set (w1 := set_backend Open (set_input (taken [] (p_rx w)).2 w)).
    pose proof (after_relay_sent request w1) as H. destruct (after_relay request w1) as [[e started] w2].
    destruct H as (ws & full & failed & _ & Hf & _). destruct (write_report_sent (e, started) w2) as (errors & _ & H & _).
    cbn [set_backend p_forwarded]. by rewrite H, Hf.
Qed.

(** What is written to the client: what the relay writes, and an error when it failed
    before a write of the response succeeded. *)
Lemma handled_sent w request :
  request_in (p_rx w) = Some request ->
  exists ws full failed errors,
    p_sent (handled w) = p_sent w ++ ws ++ errors /\ relays (p_response w).*1 ws full failed /\
    (errors = [] \/ full = [] /\ exists e x, errors = [x] /\ message (error_gateway e) x) /\
    (full = [] -> failed = true -> errors <> []).
Proof.
  intros Hreq. unfold handled. cbv zeta. rewrite Hreq.
  change (p_dial (set_input (taken [] (p_rx w)).2 w)) with (p_dial w). destruct (p_dial w) as [e|].
  - destruct (write_report_sent (Some e, false) (set_input (taken [] (p_rx w)).2 w)) as (errors & H1 & _ & _ & x & -> & Hx).
    exists [], [], false, [x]. split_and!; [exact H1|apply relays_none| |done]. right. split; [done|]. by exists e, x.
  - set (w1 := set_backend Open (set_input (taken [] (p_rx w)).2 w)).
    pose proof (after_relay_sent request w1) as H. destruct (after_relay request w1) as [[e started] w2].
    destruct H as (ws & full & failed & Hs & _ & Hr & Hst & He).
    destruct (write_report_sent (e, started) w2) as (errors & H1 & _ & _ & H3).
    exists ws, full, failed, errors. cbn [set_backend p_sent]. rewrite H1, Hs, <-app_assoc. split; [done|]. split; [exact Hr|].
    destruct (decide (full = [])) as [Hf|Hf].
    + rewrite bool_decide_false in Hst by (intros E; by apply E). subst started. destruct e as [e|].
      * destruct H3 as (x & -> & Hx). split; [|done]. right. split; [exact Hf|]. by exists e, x.
      * split; [by left|]. intros _ E. by destruct (He E).
    + rewrite bool_decide_true in Hst by exact Hf. subst started. split; [left; by destruct e|]. intros E. by destruct Hf.
Qed.

Lemma handled_all w request chunks :
  request_in (p_rx w) = Some request -> p_dial w = None -> p_accept w = None -> p_client w = [] ->
  p_response w = (fun c => (c, None)) <$> chunks ->
  p_sent (handled w) = p_sent w ++ ((fun c => (c, true)) <$> List.filter not_empty chunks).
Proof.
  intros Hreq Hd Ha Hc Hr. unfold handled. cbv zeta. rewrite Hreq.
  change (p_dial (set_input (taken [] (p_rx w)).2 w)) with (p_dial w). rewrite Hd. unfold after_relay.
  cbn [forward set_backend set_input p_accept p_response p_client p_sent]. rewrite Ha, Hc, Hr.
  destruct (relayed_all chunks false) as [started ->]. reflexivity.
Qed.

(** ** Requests that are not cut off *)

Lemma contains_cut s : contains header_end s = true <-> cut header_end s <> None.
Proof. unfold contains. by rewrite negb_true_iff, bool_decide_eq_false. Qed.

Lemma taken_joined chunks a : forall request,
  Forall (fun chunk => chunk <> []) chunks -> cut header_end (request ++ mjoin chunks) = Some (a, []) ->
  zlen (request ++ mjoin chunks) <= maxRequestSize ->
  (taken request ((fun c => (c, None)) <$> chunks)).1 = Some (request ++ mjoin chunks).
Proof.
  intros request Hc. revert request. induction Hc as [|chunk chunks Hne Hc IH]; intros request Hcut Hl.
  - rewrite app_nil_r in *. cbn [fmap list_fmap taken].
    rewrite (proj2 (contains_cut request)) by by rewrite Hcut. done.
  - change (mjoin (chunk :: chunks)) with (chunk ++ mjoin chunks) in *. cbn [fmap list_fmap taken].
    destruct (contains header_end request) eqn:E.
    + apply contains_cut in E. destruct (cut header_end request) as [[h r]|] eqn:Er; [|done].
      rewrite (cut_app _ _ _ _ _ Er) in Hcut. injection Hcut as _ Hnil. apply app_nil in Hnil as [_ Hnil].
      by apply app_nil in Hnil as [? _].
    + rewrite app_assoc in Hcut, Hl |- *.
      rewrite (proj2 (Z.ltb_ge maxRequestSize _)) by (rewrite length_app in Hl; lia). rewrite andb_false_r. by apply IH.
Qed.

Lemma handled_backend w : p_backend w = NotOpen -> p_backend (handled w) <> Open.
Proof.
  intros Hb. unfold handled. cbv zeta. destruct (request_in (p_rx w)) as [request|].
  2: { destruct (write_client_open error_400 (set_input (taken [] (p_rx w)).2 w)) as [_ ->]. cbn. by rewrite Hb. }
  change (p_dial (set_input (taken [] (p_rx w)).2 w)) with (p_dial w). destruct (p_dial w) as [e|].
  - destruct (write_report_open (Some e, false) (set_input (taken [] (p_rx w)).2 w)) as [_ ->]. cbn. by rewrite Hb.
  - by destruct (after_relay request _).
Qed.
