(* ===== verification/FrontEnd.v ===== *)
(** * The front ends before the HTTP server

    What the reverse proxy and the load balancer are for a client: each hands the
    request of client.py on as it is, and the response back as it is, so that a
    relation between the bytes sent and received on a connection to what is behind
    them is one on a connection to them. *)

From S2P Require Import Prelude CLib Effects GoLib PyLib.
From S2P Require Balancer BalancerPool BalancerSafety BalancerExec BalancerTheorems HttpServer.
From S2P Require Import HttpExec HttpRequest HttpClient HttpUrl HttpCache HttpEndToEnd Proxy ProxyExec.
Local Open Scope Z_scope.

(** ** The request of the client *)

Lemma header_end_eq : Proxy.header_end = HttpServer.HEADER_END.
Proof. vm_compute. reflexivity. Qed.
Lemma balancer_end_eq : Balancer.header_end = HttpServer.HEADER_END.
Proof. vm_compute. reflexivity. Qed.
Lemma crlf_eq : Balancer.CRLF = HttpServer.CRLF.
Proof. vm_compute. reflexivity. Qed.

(** The request of the client has no body. *)
Lemma host_key host : Balancer.header_key (map chr (text "Host" ++ 58 :: 32 :: host)) = lit "host".
Proof.
  unfold Balancer.header_key. assert (E : lit ":" = [chr 58]) by (vm_compute; reflexivity). rewrite E, map_app.
  assert (Hn : chr 58 ∉ map chr (text "Host")) by (apply (bool_decide_eq_true_1 (chr 58 ∉ map chr (text "Host"))); vm_compute; reflexivity).
  rewrite cut_skip by exact Hn. cbn [map].
  change (chr 58 :: chr 32 :: map chr host) with ([chr 58] ++ chr 32 :: map chr host). rewrite cut_here, app_nil_r.
  vm_compute. reflexivity.
Qed.

Section proxied_request.
Context (path host : pystr) (bytes : list byte).
Context (Hpath : path_ok path) (Hhost : clean host) (Hreq : client_request path host = Some bytes).

Lemma request_cut : exists head, cut HttpServer.HEADER_END bytes = Some (head, []) /\
  bytes_split HttpServer.CRLF head =
    [map chr (text "GET" ++ 32 :: path ++ 32 :: text "HTTP/1.0"); map chr (text "Host" ++ 58 :: 32 :: host)].
Proof using Hpath Hhost Hreq.
  rewrite (client_request_bytes path host Hpath Hhost) in Hreq. apply Some_inj in Hreq. rewrite <-Hreq.
  destruct (request_line_clean _ _ _ _ (get_line path Hpath)) as [Hl _].
  destruct (header_line_clean _ _ (host_header host Hhost)) as [Hh Hne].
  revert Hl Hh Hne. generalize (map chr (text "GET" ++ 32 :: path ++ 32 :: text "HTTP/1.0")) as line.
  generalize (map chr (text "Host" ++ 58 :: 32 :: host)) as hline. intros hline line Hl Hh Hne.
  exists (line ++ more_lines [hline]). split; [apply cut_header_end; by repeat constructor|].
  apply split_lines_cr. by repeat constructor.
Qed.

Lemma request_bodiless : Balancer.hasUnsupportedBody bytes = false.
Proof using Hpath Hhost Hreq.
  destruct request_cut as (head & Hcut & Hsplit). unfold Balancer.hasUnsupportedBody. rewrite balancer_end_eq, Hcut, crlf_eq.
  unfold bytes_split in Hsplit. rewrite Hsplit. cbn [tail existsb]. rewrite host_key. vm_compute. reflexivity.
Qed.

(** The load balancer takes it as it is, and so does the proxy, however it is cut. *)
Lemma request_balanced : zlen bytes <= HttpServer.MAX_REQUEST_SIZE -> BalancerExec.request_of bytes = Some bytes.
Proof using Hpath Hhost Hreq.
  intros Hl. destruct request_cut as (head & Hcut & _). unfold BalancerExec.request_of, BalancerExec.headers_of.
  rewrite balancer_end_eq, Hcut. pose proof (cut_Some _ _ _ _ Hcut) as Hb. rewrite app_nil_r in Hb.
  assert (E : zlen head + 4 = zlen bytes).
  { rewrite Hb, length_app. assert (H4 : length HttpServer.HEADER_END = 4%nat) by (vm_compute; reflexivity). lia. }
  rewrite E, (proj2 (Z.leb_le _ _)) by exact Hl. by rewrite <-Hb, request_bodiless.
Qed.

Lemma request_taken chunks :
  Forall (fun chunk => chunk <> []) chunks -> mjoin chunks = bytes -> zlen bytes <= HttpServer.MAX_REQUEST_SIZE ->
  request_in ((fun c => (c, None)) <$> chunks) = Some bytes.
Proof using Hpath Hhost Hreq.
  intros Hc Hj Hl. destruct request_cut as (head & Hcut & _). unfold request_in.
  rewrite (taken_joined chunks head []); rewrite ?app_nil_l, ?Hj, ?header_end_eq; try done.
  by rewrite request_bodiless.
Qed.
End proxied_request.

(** ** Through them *)

(** A server: what comes back on a connection over which some bytes were sent. *)
Abbreviation server := (list byte -> list byte -> Prop).

(** The proxy, which reaches its backend: the request and the response come in any
    chunks, and the backend is what [behind] says. *)
Definition proxied_by (behind : server) : server := fun bytes out =>
  exists chunks answers w',
    Forall (fun chunk => chunk <> []) chunks /\ mjoin chunks = bytes /\
    evals proxy_env connection
      (PWorld ((fun c => (c, None)) <$> chunks) [] None None ((fun c => (c, None)) <$> answers) [] [] NotOpen false) tt w' /\
    (forall request, p_forwarded w' = [request] -> behind request (mjoin answers)) /\
    out = mjoin (p_sent w').*1.

(** The load balancer, in any state of its pool and its turn, with any network in which
    one backend at least can be used and responds: the backends that respond are, for
    what they are delivered, what [behind] says. *)
Definition balanced_by (behind : server) : server := fun bytes out =>
  exists now net l (w w' : BalancerExec.world) delivered,
    BalancerPool.pool_rep (BalancerExec.w_pool w) l /\ BalancerExec.w_client w = [] /\
    Forall BalancerExec.chunk_ok (BalancerExec.w_rx w) /\ mjoin (BalancerExec.w_rx w) = bytes /\
    (forall a, BalancerExec.response_ok (net a)) /\ 0 <= BalancerExec.w_selection w < 2 ^ 63 - 1 /\
    (exists b chunks, b ∈ l.*2 /\ BalancerExec.answer_of now net b = Some chunks) /\
    evals (BalancerExec.lb_env now net) Balancer.handleConnection w tt w' /\
    BalancerExec.w_requests w' = BalancerExec.w_requests w ++ delivered /\
    (forall b chunks request, b ∈ l.*2 -> BalancerExec.answer_of now net b = Some chunks ->
       (BalancerPool.address b, request) ∈ delivered -> behind request (mjoin chunks)) /\
    BalancerExec.w_out w' = BalancerExec.w_out w ++ out.

Section through.
Context (path host : pystr) (bytes out : list byte) (behind : server).
Context (Hpath : path_ok path) (Hhost : clean host) (Hreq : client_request path host = Some bytes).
Context (Hl : zlen bytes <= HttpServer.MAX_REQUEST_SIZE).

Lemma proxied_same : proxied_by behind bytes out -> behind bytes out.
Proof using Hpath Hhost Hreq Hl.
  intros (chunks & answers & w' & Hc & Hj & He & Hb & ->).
  set (w := PWorld ((fun c => (c, None)) <$> chunks) [] None None ((fun c => (c, None)) <$> answers) [] [] NotOpen false) in He.
  pose proof (request_taken path host bytes Hpath Hhost Hreq chunks Hc Hj Hl) as Hin.
  change ((fun c => (c, None)) <$> chunks) with (p_rx w) in Hin.
  pose proof (handled_all w bytes answers Hin eq_refl eq_refl eq_refl eq_refl) as Hsent.
  pose proof (handled_forwarded w bytes Hin) as Hf. cbn [app p_sent p_forwarded p_dial p_accept arrived w] in Hsent, Hf.
  destruct (evals_det _ _ _ _ _ _ _ He (proxy_connection_evals w eq_refl eq_refl)) as [_ ->].
  change (p_sent (proxied w)) with (p_sent (handled w)). change (p_forwarded (proxied w)) with (p_forwarded (handled w)) in Hb.
  specialize (Hb bytes Hf). rewrite Hsent, <-list_fmap_compose.
  assert (E : mjoin ((fst ∘ (fun c => (c, true))) <$> List.filter not_empty answers) = mjoin answers).
  { rewrite <-(mjoin_not_empty answers). f_equal. apply list_fmap_id. }
  by rewrite E.
Qed.

Lemma balanced_same : balanced_by behind bytes out -> behind bytes out.
Proof using Hpath Hhost Hreq Hl.
  intros (now & net & l & w & w' & delivered & Hrep & Hcl & Hrx & Hj & Hnet & Hsel & (b0 & x0 & Hb0 & Ha0) & He & Hd & Hb & Hout).
  destruct (BalancerExec.handleConnection_evals now net l w Hrep Hcl Hrx Hnet Hsel) as [rx He'].
  destruct (evals_det _ _ _ _ _ _ _ He He') as [_ ->]. clear He He'. rewrite Hj in *.
  unfold BalancerExec.served in *. rewrite (request_balanced path host bytes Hpath Hhost Hreq Hl) in *. cbv zeta in *.
  set (order := BalancerSafety.rotation (BalancerPool.unexpired_in now l) (BalancerExec.w_selection (BalancerExec.set_rx rx w))) in *.
  assert (Hin : forall b, b ∈ order.*2 <-> b ∈ (BalancerPool.unexpired_in now l).*2).
  { intros b. unfold order. by rewrite BalancerExec.rotation_perm. }
  assert (H0 : b0 ∈ (BalancerPool.unexpired_in now l).*2).
  { apply list_elem_of_fmap in Hb0 as ([ptr b] & -> & Hx). apply list_elem_of_fmap. exists (ptr, b). split; [done|].
    unfold BalancerPool.unexpired_in. apply list_elem_of_filter. split; [by eapply BalancerExec.answer_unexpired|exact Hx]. }
  rewrite bool_decide_false in Hd, Hout by (intros E; rewrite E in H0; by apply elem_of_nil in H0).
  destruct (BalancerExec.after_tries_out now net bytes order
    (BalancerExec.claimed (BalancerExec.snapped now l (BalancerExec.set_rx rx w)))) as [H1 H2].
  destruct (BalancerExec.answers_head now net order.*2 b0 x0 (proj2 (Hin b0) H0) Ha0) as [chunks Hhead].
  rewrite Hhead in H1. rewrite H1 in Hout. rewrite H2 in Hd. apply app_inv_head in Hout, Hd. subst out.
  destruct (BalancerExec.contacted_answers now net order.*2 chunks Hhead) as (b & Hbo & Ha & Hc).
  apply (Hb b chunks bytes); [|exact Ha|].
  - apply Hin in Hbo. apply list_elem_of_fmap in Hbo as (x & -> & Hx). apply list_elem_of_fmap. exists x. split; [done|].
    by apply list_elem_of_filter in Hx as [_ Hx].
  - rewrite <-Hd. apply list_elem_of_fmap. by exists (BalancerPool.address b).
Qed.

(** Any number of them, in any order. *)
Inductive fronted : server -> Prop :=
| fronted_direct : fronted behind
| fronted_proxy front : fronted front -> fronted (proxied_by front)
| fronted_balancer front : fronted front -> fronted (balanced_by front).
End through.

Lemma fronted_same path host bytes out behind front :
  path_ok path -> clean host -> client_request path host = Some bytes -> zlen bytes <= HttpServer.MAX_REQUEST_SIZE ->
  fronted behind front -> front bytes out -> behind bytes out.
Proof.
  intros Hpath Hhost Hreq Hl Hf. induction Hf as [|front Hf IH|front Hf IH]; [done|..]; intros H; apply IH.
  - by eapply proxied_same.
  - by eapply balanced_same.
Qed.
