(* ===== verification/ProxyMain.v ===== *)
(** * The process of the reverse proxy

    main and serve of reverse-proxy/server.go, and a monitor of them.  The goroutines
    of the clients, each of which runs [Proxy.connection], share nothing. *)

From S2P Require Import Prelude CLib Effects GoLib GoProcess.
Local Open Scope Z_scope.
Local Open Scope prog_scope.

(** ** The program *)

Definition hostPort (host : list byte) (port : Z) : option (list byte) :=
  if (port <? 1) || (65535 <? port) then None else Some (join_host_port host (decimal port)).

(** It returns only with an error. *)
Definition serve (listenAddress backendAddress : list byte) : process unit :=
  let* listener := call (Listen listenAddress) in
  match listener with
  | None => Ret tt
  | Some listener => call PrintServing ;! accept_loop listener
  end.

(** With the values of the flags. *)
Definition main (listenHost : list byte) (listenPort : Z) (backendHost : list byte) (backendPort : Z) : process unit :=
  match hostPort listenHost listenPort with
  | None => fatal
  | Some listenAddress =>
      match hostPort backendHost backendPort with
      | None => fatal
      | Some backendAddress => serve listenAddress backendAddress ;! fatal
      end
  end.

(** ** The monitor *)

(** What it listens on, and a client that was accepted and has no goroutine yet. *)
Record proxy_state := ProxyState { listener : option Z; pending : option Z }.
Definition proxy_init : proxy_state := ProxyState None None.

Definition proxy_after A (e : processE A) : A -> proxy_state -> proxy_state :=
  match e in processE A return A -> proxy_state -> proxy_state with
  | Listen _ => fun l s => ProxyState l (pending s)
  | Accept _ => fun c s => ProxyState (listener s) c
  | GoConnection _ => fun _ s => ProxyState (listener s) None
  | _ => fun _ s => s
  end.
Definition proxy_step A (e : processE A) (s : proxy_state) (a : A) (s' : proxy_state) : Prop := s' = proxy_after A e a s.

Section monitor.
Context (listenHost : list byte) (listenPort backendPort : Z).

Definition proxy_allowed A (e : processE A) (s : proxy_state) : Prop :=
  match e with
  | Listen address =>
      listener s = None /\ 1 <= listenPort <= 65535 /\ 1 <= backendPort <= 65535 /\
      address = join_host_port listenHost (decimal listenPort)
  | PrintServing => is_Some (listener s)
  | Accept l => listener s = Some l /\ pending s = None
  | GoConnection c => pending s = Some c
  | Fatal => listener s = None
  | CloseListener _ | NewPool _ | GoRegistry _ => False
  end.
#[export] Instance proxy_rules : EventSpec processE proxy_state := machine_spec proxy_step proxy_allowed.

Lemma wp_proxy {A R} (e : processE A) (k : A -> process R) Φ s :
  proxy_allowed A e s -> (forall a, wp (k a) Φ (proxy_after A e a s)) -> wp (ITree.bind (call e) k) Φ s.
Proof. intros Ha Hk. apply wp_machine; [exact Ha|]. intros a s' ->. apply Hk. Qed.

Lemma proxy_fatal_wp {A} (Φ : A -> proxy_state -> Prop) s : listener s = None -> wp fatal Φ s.
Proof. intros H. unfold fatal. apply wp_proxy; [exact H|]. intros []. Qed.

Lemma proxy_loop_wp l (Φ : unit -> proxy_state -> Prop) s :
  listener s = Some l -> pending s = None -> wp (accept_loop l) Φ s.
Proof.
  intros Hl Hp. unfold accept_loop. apply (wp_iter (fun _ s => listener s = Some l /\ pending s = None)); [done|].
  clear s Hl Hp. intros [] s [Hl Hp]. unfold accept_turn. apply wp_proxy; [done|]. intros [c|]; [|by apply wp_ret].
  apply wp_proxy; [done|]. intros []. by apply wp_ret.
Qed.

Lemma hostPort_range host port address :
  hostPort host port = Some address -> 1 <= port <= 65535 /\ address = join_host_port host (decimal port).
Proof.
  unfold hostPort. destruct (Z.ltb_spec port 1), (Z.ltb_spec 65535 port); try done. intros [= <-]. by split.
Qed.

Lemma proxy_main_wp backendHost : wp (main listenHost listenPort backendHost backendPort) (fun _ _ => False) proxy_init.
Proof.
  unfold main. destruct (hostPort listenHost listenPort) as [la|] eqn:E1; [|by apply proxy_fatal_wp].
  destruct (hostPort backendHost backendPort) as [ba|] eqn:E2; [|by apply proxy_fatal_wp].
  destruct (hostPort_range _ _ _ E1) as [H1 ->]. destruct (hostPort_range _ _ _ E2) as [H2 _].
  apply wp_bind. unfold serve. apply wp_proxy; [done|]. intros [l|]; cbn [proxy_after].
  - apply wp_proxy; [by exists l|]. intros []. by apply (proxy_loop_wp l).
  - apply wp_ret. by apply proxy_fatal_wp.
Qed.
End monitor.
