(* ===== verification/ProxyTheorems.v ===== *)
(** * Theorems about the reverse proxy

    What [connection] does, whatever the client, the backend and the network do; that
    the HTTP client cannot tell the proxy from the HTTP server behind it; and what the
    process does around its connections. *)

From S2P Require Import Prelude CLib Effects GoLib PyLib.
From S2P Require Balancer HttpServer.
From S2P Require Import HttpExec HttpRequest HttpClient HttpUrl HttpCache HttpEndToEnd Proxy ProxyExec FrontEnd.
From S2P Require GoProcess ProxyMain.
Local Open Scope Z_scope.

(** C39: the proxy serves every connection to its end, whatever its reads and writes
    return and however much of a failed write arrives.  What is not a request without a
    body is answered 400 and reaches no backend.  A request is written once, as it was
    received, to a backend that can be dialled; the client is sent chunks of the
    response, in their order, and, where a write fails, a part of the next one and no
    more of the response; 502, or 504 after a timeout, comes only when no write of the
    response succeeded, and it does come when the first one failed, then behind the
    part that arrived.  If nothing fails, the client is sent the whole response.  Both
    connections are closed at the end, and not used after. *)
Theorem proxy_serves w :
  p_closed w = false -> p_backend w = NotOpen ->
  exists w',
    evals proxy_env connection w tt w' /\ p_closed w' = true /\ p_backend w' <> Open /\
    match request_in (p_rx w) with
    | None =>
        p_forwarded w' = p_forwarded w /\
        exists q ok, p_sent w' = p_sent w ++ [(q, ok)] /\ q `prefix_of` error_400 /\ (ok = true -> q = error_400)
    | Some request =>
        p_forwarded w' = p_forwarded w ++ match p_dial w with None => [arrived (p_accept w) request] | Some _ => [] end /\
        (exists full rest part errors,
          p_sent w' = p_sent w ++ (((fun c => (c, true)) <$> full) ++ part) ++ errors /\
          List.filter not_empty (p_response w).*1 = full ++ rest /\
          (part = [] \/ exists q c rest', part = [(q, false)] /\ rest = c :: rest' /\ q `prefix_of` c) /\
          (errors = [] \/ full = [] /\ exists e q ok,
             errors = [(q, ok)] /\ q `prefix_of` error_gateway e /\ (ok = true -> q = error_gateway e)) /\
          (full = [] -> part <> [] -> errors <> [])) /\
        (forall chunks, p_dial w = None -> p_accept w = None -> p_client w = [] ->
          p_response w = (fun c => (c, None)) <$> chunks ->
          p_sent w' = p_sent w ++ ((fun c => (c, true)) <$> List.filter not_empty chunks))
    end.
Proof.
  intros Hc Hb. exists (proxied w). split; [by apply proxy_connection_evals|]. split; [done|].
  split; [exact (handled_backend w Hb)|]. destruct (request_in (p_rx w)) as [request|] eqn:Hreq.
  - split; [exact (handled_forwarded w request Hreq)|]. split.
    + destruct (handled_sent w request Hreq) as (ws & full & failed & errors & H1 & (rest & part & -> & H2 & H3) & H4 & H5).
      exists full, rest, part, errors. split; [exact H1|]. split; [exact H2|]. split; [by destruct failed; [right|left]|]. split.
      * destruct H4 as [?|(Hf & e & [q ok] & He & Hq & Hok)]; [by left|]. right. split; [exact Hf|]. by exists e, q, ok.
      * intros Hf Hp. apply (H5 Hf). by destruct failed.
    + intros chunks Hd Ha Hcl Hr. exact (handled_all w request chunks Hreq Hd Ha Hcl Hr).
  - change (p_sent (proxied w)) with (p_sent (handled w)). change (p_forwarded (proxied w)) with (p_forwarded (handled w)).
    unfold handled. rewrite Hreq.
    destruct (write_client_sent error_400 (set_input (taken [] (p_rx w)).2 w)) as ([q ok] & H1 & [Hq Hok] & H2 & _).
    split; [by rewrite H2|]. exists q, ok. by rewrite H1.
Qed.

(** The backend fails after a timeout, before it has sent anything. *)
Definition slow_backend : pworld :=
  PWorld [(lit "GET / HT", None); (lit "TP/1.0\r\n\r\n", None)] [] None None [([], Some (Fails true))] [] [] NotOpen false.

Lemma proxy_serves_witness :
  exists w', evals proxy_env connection slow_backend tt w' /\
    p_forwarded w' = [lit "GET / HTTP/1.0\r\n\r\n"] /\ p_closed w' = true.
Proof.
  destruct (proxy_serves slow_backend eq_refl eq_refl) as (w' & He & Hc & _ & H). exists w'. split; [exact He|].
  assert (E : request_in (p_rx slow_backend) = Some (lit "GET / HTTP/1.0\r\n\r\n")) by (vm_compute; reflexivity).
  rewrite E in H. destruct H as [Hf _]. split; [rewrite Hf; vm_compute; reflexivity|exact Hc].
Defined.

(** ** The proxy before the HTTP server *)

(** C40: the proxy cannot be noticed.  A request of client.py, however it is cut, is
    forwarded by the proxy as it is; and when the HTTP server behind it answers that,
    and its answer comes in any chunks, then the client is sent the very bytes that
    the server has sent, and reads the application's response. *)
Theorem proxy_transparent {C} (c : cache_object C) honest `{!HonestCache c honest} path host bytes chunks answers cache s :
  path_ok path -> clean host -> client_request path host = Some bytes -> zlen bytes <= HttpServer.MAX_REQUEST_SIZE ->
  Forall (fun chunk => chunk <> []) chunks -> mjoin chunks = bytes ->
  honest s -> served c cache s bytes (mjoin answers) ->
  exists w',
    evals proxy_env connection
      (PWorld ((fun c => (c, None)) <$> chunks) [] None None ((fun c => (c, None)) <$> answers) [] [] NotOpen false) tt w' /\
    p_forwarded w' = [bytes] /\ Forall (fun x => x.2 = true) (p_sent w') /\
    mjoin (p_sent w').*1 = mjoin answers /\
    read_response (mjoin (p_sent w').*1) = Value (client_view (HttpServer.respond (HttpServer.Request (text "GET") path))).
Proof.
  intros Hpath Hhost Hreq Hl Hc Hj Hs Hserved.
  set (w := PWorld ((fun c => (c, None)) <$> chunks) [] None None ((fun c => (c, None)) <$> answers) [] [] NotOpen false).
  pose proof (request_taken path host bytes Hpath Hhost Hreq chunks Hc Hj Hl) as Hin.
  change ((fun c => (c, None)) <$> chunks) with (p_rx w) in Hin.
  pose proof (handled_all w bytes answers Hin eq_refl eq_refl eq_refl eq_refl) as Hsent.
  pose proof (handled_forwarded w bytes Hin) as Hf. cbn [app p_sent p_forwarded p_dial p_accept arrived w] in Hsent, Hf.
  assert (Hall : mjoin (p_sent (proxied w)).*1 = mjoin answers).
  { change (p_sent (proxied w)) with (p_sent (handled w)). rewrite Hsent, <-list_fmap_compose.
    rewrite <-(mjoin_not_empty answers). f_equal. apply list_fmap_id. }
  exists (proxied w). split; [by apply proxy_connection_evals|]. split; [exact Hf|]. split.
  { change (p_sent (proxied w)) with (p_sent (handled w)). rewrite Hsent. apply Forall_fmap, Forall_true. done. }
  split; [exact Hall|]. rewrite Hall. by eapply served_read.
Qed.

Lemma proxy_transparent_witness :
  exists w',
    evals proxy_env connection
      (PWorld [(lit "GET /heal", None); (lit "th HTTP/1.0\r\nHost: proxy\r\n\r\n", None)] [] None None
         [(lit "HTTP/1.1 200 OK\r\nContent-Length: 3\r\nConnection: close\r\n\r", None); (lit "\nOK\n", None)] [] [] NotOpen false) tt w' /\
    read_response (mjoin (p_sent w').*1) =
      Value (ClientResponse (text "HTTP/1.1") 200 (text "OK")
        [(text "content-length", text "3"); (text "connection", text "close")] (lit "OK\n")).
Proof.
  assert (Hc : client_request (text "/health") (text "proxy") = Some (lit "GET /health HTTP/1.0\r\nHost: proxy\r\n\r\n")) by (vm_compute; reflexivity).
  assert (Hp : path_ok (text "/health")).
  { split; [vm_compute; reflexivity|]. apply (bool_decide_eq_true_1 (Forall (fun c => 32 < c < 127) (text "/health"))).
    vm_compute. reflexivity. }
  assert (Hh : clean (text "proxy")) by (split; [by apply point_text|vm_compute; reflexivity]).
  set (chunks := [lit "GET /heal"; lit "th HTTP/1.0\r\nHost: proxy\r\n\r\n"]).
  set (answers := [lit "HTTP/1.1 200 OK\r\nContent-Length: 3\r\nConnection: close\r\n\r"; lit "\nOK\n"]).
  assert (Hserved : served shared_cache false (Shared ∅ []) (lit "GET /health HTTP/1.0\r\nHost: proxy\r\n\r\n") (mjoin answers)).
  { exists [lit "GET /health HTTP/1.0\r\nHost: proxy\r\n\r\n"]. eexists _, _. split; [cbn [mjoin list_join]; by rewrite app_nil_r|].
    split; [by repeat constructor|].
    assert (E : mjoin answers = response_bytes (answer shared_cache false
      (receive [] [Ok (lit "GET /health HTTP/1.0\r\nHost: proxy\r\n\r\n")]).1 (Shared ∅ [])).1) by (vm_compute; reflexivity).
    rewrite E. exact (handle_connection_evals shared_cache shared_cache_ok false
      (HWorld [Ok (lit "GET /health HTTP/1.0\r\nHost: proxy\r\n\r\n")] true [] false (Shared ∅ [])) eq_refl). }
  destruct (proxy_transparent shared_cache honest_shared (text "/health") (text "proxy") _ chunks answers false (Shared ∅ [])
    Hp Hh Hc) as (w' & He & _ & _ & _ & Hr).
  - apply Z.leb_le. vm_compute. reflexivity.
  - apply (bool_decide_eq_true_1 (Forall (fun chunk : list byte => chunk <> []) chunks)). vm_compute. reflexivity.
  - vm_compute. reflexivity.
  - by split; [|constructor].
  - exact Hserved.
  - exists w'. split; [exact He|]. rewrite Hr. vm_compute. reflexivity.
Defined.

(** ** The process *)

(** The process of the proxy, for all flags and whatever the network does.  It
    listens once, on an address whose port, as that of the backend, is in range; every
    client that it accepts gets one goroutine before the next is accepted; it exits
    only when it does not listen, and never returns. *)
Theorem proxy_process listenHost listenPort backendHost backendPort tr u s :
  runs ProxyMain.proxy_step (ProxyMain.main listenHost listenPort backendHost backendPort) ProxyMain.proxy_init tr u s ->
  (forall A (e : GoProcess.processE A) k, observe u = VisF e k -> ProxyMain.proxy_allowed listenHost listenPort backendPort A e s) /\
  (forall r, observe u <> RetF r).
Proof.
  intros Hr. pose proof (ProxyMain.proxy_main_wp listenHost listenPort backendPort backendHost) as Hw. split.
  - intros A e k Ho. exact (wp_allowed ProxyMain.proxy_step (ProxyMain.proxy_allowed listenHost listenPort backendPort) _ _ _ _ _ _ _ e k Hw Hr Ho).
  - intros r Ho. exact (wp_returned ProxyMain.proxy_step (ProxyMain.proxy_allowed listenHost listenPort backendPort) _ _ _ _ _ _ r Hw Hr Ho).
Qed.

(** Listening and accepting succeed. *)
Definition all_accepted A (e : GoProcess.processE A) (s : ProxyMain.proxy_state) : option (A * ProxyMain.proxy_state) :=
  match e in GoProcess.processE A return (A -> ProxyMain.proxy_state -> ProxyMain.proxy_state) -> option (A * ProxyMain.proxy_state) with
  | GoProcess.Listen _ => fun after => Some (Some 3, after (Some 3) s)
  | GoProcess.Accept _ => fun after => Some (Some 5, after (Some 5) s)
  | GoProcess.PrintServing => fun after => Some (tt, after tt s)
  | _ => fun _ => None
  end (ProxyMain.proxy_after A e).

Lemma all_accepted_ok A (e : GoProcess.processE A) s a s' : all_accepted A e s = Some (a, s') -> ProxyMain.proxy_step A e s a s'.
Proof. destruct e; cbn; try done; by intros [= <- <-]. Qed.

Definition proxy_run :=
  trace all_accepted 4 (ProxyMain.main (lit "127.0.0.1") 8080 (lit "127.0.0.1") 8088) ProxyMain.proxy_init.

Lemma proxy_process_witness :
  exists tr u s c k,
    runs ProxyMain.proxy_step (ProxyMain.main (lit "127.0.0.1") 8080 (lit "127.0.0.1") 8088) ProxyMain.proxy_init tr u s /\
    observe u = VisF (GoProcess.GoConnection c) k /\ ProxyMain.pending s = Some c.
Proof.
  assert (Hv : match observe proxy_run.1.2 with VisF (GoProcess.GoConnection _) _ => true | _ => false end = true) by (vm_compute; reflexivity).
  destruct proxy_run as [[tr u] s] eqn:Er. cbn [fst snd] in Hv.
  pose proof (trace_runs ProxyMain.proxy_step all_accepted all_accepted_ok _ _ _ _ _ _ Er) as Hr.
  destruct (proxy_process (lit "127.0.0.1") 8080 (lit "127.0.0.1") 8088 tr u s Hr) as [Hok _].
  clear Er. destruct (observe u) as [x|t|A e k] eqn:Ho; [discriminate Hv..|].
  destruct e as [| | | | | |c|]; try discriminate Hv.
  exists tr, u, s, c, k. split; [exact Hr|]. split; [exact Ho|]. exact (Hok _ _ k eq_refl).
Defined.
