(* ===== verification/StackTheorems.v ===== *)
(** * Theorems about the whole stack

    A URL fetched by client.py through the DNS server, any front ends, and HTTP
    servers that share a cache. *)

From S2P Require Import Prelude CLib Effects GoLib PyLib.
From S2P Require Balancer BalancerPool BalancerSafety BalancerExec BalancerTheorems HttpServer HttpTheorems.
From S2P Require Import DnsServer DnsClient HttpExec HttpRequest HttpClient HttpUrl HttpCache HttpEndToEnd Proxy ProxyExec FrontEnd.
Local Open Scope Z_scope.

(** An HTTP server, with or without the cache, in any state of it. *)
Definition http_server {C} (c : cache_object C) (honest : C -> Prop) : server := fun bytes out =>
  exists cache s, honest s /\ served c cache s bytes out.

(** C8: the front ends cannot be noticed.  The URL of a path at app.local is fetched
    through the DNS server, a connection to the address it gives, and any number of
    reverse proxies and load balancers one behind the other, in any order: whichever
    HTTP server answers, with any honest cache in any state, however all the streams
    are cut, and whatever other backends of the load balancers refuse, reset or are on
    their cooldown, the client reads the application's response to that path. *)
Theorem full_path_fetches {C} (c : cache_object C) honest `{!HonestCache c honest} front connect u bytes connection out :
  path_ok (u_path u) -> clean (u_host_header u) ->
  map lower_point (py_rstrip [DOT] (u_host u)) = text "app.local" ->
  client_request (u_path u) (u_host_header u) = Some bytes -> zlen bytes <= HttpServer.MAX_REQUEST_SIZE ->
  connect (text "127.0.0.1") (u_port u) = Some connection -> connection bytes = Some out ->
  fronted (http_server c honest) front -> front bytes out ->
  url_request (Some (resolve local_nameserver)) connect u =
    Value (client_view (HttpServer.respond (HttpServer.Request (text "GET") (u_path u)))).
Proof.
  intros Hpath Hhost Hname%resolve_known Hreq Hl Hconn Hout Hf Hfront.
  pose proof (fronted_same _ _ _ _ _ _ Hpath Hhost Hreq Hl Hf Hfront) as (cache & s & Hs & Hserved).
  by eapply request_served.
Qed.

(** ** A whole path *)

(** The request of [hello_url], and what the HTTP server sends back. *)
Definition hello_request : list byte := lit "GET /hello HTTP/1.0\r\nHost: App.Local.:8088\r\n\r\n".
Definition hello_out : list byte := HttpTheorems.demo_out hello_request.

(** Of two backends the first refuses, and the second is the HTTP server. *)
Definition stack_net (addr : list byte) : BalancerExec.behaviour :=
  if bool_decide (addr = lit "10.0.0.1:80") then BalancerExec.Refuses
  else BalancerExec.Responds [take 20 hello_out; drop 20 hello_out] true.
Definition stack_world : BalancerExec.world :=
  BalancerExec.World BalancerTheorems.demo_pool 4 [take 15 hello_request; drop 15 hello_request] [] [] [] BalancerExec.Refuses [].

Lemma stack_served : http_server shared_cache honest_shared hello_request hello_out.
Proof.
  exists true, HttpTheorems.demo_shared. split; [exact HttpTheorems.demo_honest|]. apply HttpTheorems.demo_served.
  apply (bool_decide_eq_true_1 (hello_request <> [])). vm_compute. reflexivity.
Qed.

Lemma stack_answer b chunks : BalancerExec.answer_of 10 stack_net b = Some chunks -> mjoin chunks = hello_out.
Proof.
  unfold BalancerExec.answer_of, stack_net. destruct (BalancerPool.usable 10 b); [|done].
  case_bool_decide; [done|]. cbn [orb]. intros E. apply Some_inj in E. rewrite <-E.
  cbn [mjoin list_join]. by rewrite app_nil_r, take_drop.
Qed.

Lemma stack_balanced : balanced_by (http_server shared_cache honest_shared) hello_request hello_out.
Proof.
  assert (Hrx : Forall BalancerExec.chunk_ok (BalancerExec.w_rx stack_world)).
  { repeat constructor; try (apply Z.leb_le; vm_compute; reflexivity); apply (bool_decide_eq_true_1 (_ <> [])); vm_compute; reflexivity. }
  assert (Hnet : forall a, BalancerExec.response_ok (stack_net a)).
  { intros a. unfold stack_net. case_bool_decide; [done|]. repeat constructor; try (apply Z.leb_le; vm_compute; reflexivity);
      apply (bool_decide_eq_true_1 (_ <> [])); vm_compute; reflexivity. }
  assert (Hsel : 0 <= BalancerExec.w_selection stack_world < 2 ^ 63 - 1) by (vm_compute; split; congruence).
  destruct (BalancerExec.handleConnection_evals 10 stack_net BalancerTheorems.demo_objects stack_world
    BalancerTheorems.demo_rep eq_refl Hrx Hnet Hsel) as [rx He].
  set (w' := BalancerExec.served _ _ _ _ _) in He.
  assert (Hw : BalancerExec.w_requests w' = [(lit "10.0.0.2:80", hello_request)] /\ BalancerExec.w_out w' = hello_out)
    by (split; vm_compute; reflexivity).
  destruct Hw as [Hreq Hout]. clearbody w'.
  exists 10, stack_net, BalancerTheorems.demo_objects, stack_world, w', [(lit "10.0.0.2:80", hello_request)].
  split; [exact BalancerTheorems.demo_rep|]. split; [reflexivity|]. split; [exact Hrx|].
  split; [cbn [mjoin list_join stack_world BalancerExec.w_rx]; by rewrite app_nil_r, take_drop|].
  split; [exact Hnet|]. split; [exact Hsel|]. split.
  { exists (BalancerPool.BackendState (lit "10.0.0.2:80") None None), [take 20 hello_out; drop 20 hello_out].
    split; [right; left|]. unfold BalancerExec.answer_of, stack_net. cbn [BalancerPool.address].
    rewrite bool_decide_false; [vm_compute; reflexivity|]. apply (bool_decide_eq_false_1 (_ = _)). vm_compute. reflexivity. }
  split; [exact He|]. split; [exact Hreq|]. split; [|by rewrite Hout].
  intros b chunks request Hb Ha Hd. apply list_elem_of_singleton in Hd. injection Hd as _ ->.
  rewrite (stack_answer b chunks Ha). exact stack_served.
Qed.

Lemma stack_proxied :
  proxied_by (balanced_by (http_server shared_cache honest_shared)) hello_request hello_out.
Proof.
  set (w := PWorld ((fun c => (c, None)) <$> [take 7 hello_request; drop 7 hello_request]) [] None None
    ((fun c => (c, None)) <$> [take 30 hello_out; []; drop 30 hello_out]) [] [] NotOpen false).
  assert (Hf : p_forwarded (proxied w) = [hello_request] /\ mjoin (p_sent (proxied w)).*1 = hello_out) by (vm_compute; by split).
  destruct Hf as [Hf Hs].
  exists [take 7 hello_request; drop 7 hello_request], [take 30 hello_out; []; drop 30 hello_out], (proxied w).
  split. { repeat constructor; apply (bool_decide_eq_true_1 (_ <> [])); vm_compute; reflexivity. }
  split; [cbn [mjoin list_join]; by rewrite app_nil_r, take_drop|].
  split; [by apply (proxy_connection_evals w)|]. split; [|done].
  intros request E. rewrite Hf in E. injection E as <-. cbn [mjoin list_join]. rewrite app_nil_l, app_nil_r, take_drop.
  exact stack_balanced.
Qed.

Lemma full_path_fetches_witness :
  url_request (Some (resolve local_nameserver)) (fun host port => Some (fun bytes => Some hello_out)) HttpTheorems.hello_url =
    Value (ClientResponse (text "HTTP/1.1") 200 (text "OK")
      [(text "content-length", text "13"); (text "connection", text "close")] (lit "HELLO WORLD!\n")).
Proof.
  assert (Hc : client_request (u_path HttpTheorems.hello_url) (u_host_header HttpTheorems.hello_url) = Some hello_request)
    by (vm_compute; reflexivity).
  assert (Hp : path_ok (u_path HttpTheorems.hello_url)).
  { split; [vm_compute; reflexivity|]. apply (bool_decide_eq_true_1 (Forall (fun c => 32 < c < 127) (text "/hello"))).
    vm_compute. reflexivity. }
  assert (Hh : clean (u_host_header HttpTheorems.hello_url)) by (split; [by apply point_text|vm_compute; reflexivity]).
  assert (Hn : map lower_point (py_rstrip [DOT] (u_host HttpTheorems.hello_url)) = text "app.local") by (vm_compute; reflexivity).
  assert (E : client_view (HttpServer.respond (HttpServer.Request (text "GET") (u_path HttpTheorems.hello_url))) =
    ClientResponse (text "HTTP/1.1") 200 (text "OK")
        [(text "content-length", text "13"); (text "connection", text "close")] (lit "HELLO WORLD!\n")) by (vm_compute; reflexivity).
  rewrite <-E. eapply (full_path_fetches shared_cache honest_shared _ _ _ _ _ hello_out Hp Hh Hn Hc).
  - apply Z.leb_le. vm_compute. reflexivity.
  - reflexivity.
  - reflexivity.
  - apply fronted_proxy, fronted_balancer, fronted_direct.
  - exact stack_proxied.
Defined.
